(** * static-frame: the [Bus] lazy frame container and its SQLite store

    A shallow embedding of [static_frame/core/bus.py] and
    [static_frame/core/store_sqlite.py].

    Python objects that the code mutates in place (the [_loaded] boolean
    ndarray, the [_last_accessed] dict and the [Bus] instances themselves,
    whose attributes are re-bound) live in an explicit heap and are reached
    through references, so that aliasing between a [Bus] and the [Bus]
    objects sliced from it is a property to be proved and not an artefact
    of the model.  Exceptions leave the heap as mutated so far. *)

From Stdlib Require Import ZArith Lia Ascii String.
From stdpp Require Import base option strings numbers pretty list.

Local Open Scope string_scope.
Local Open Scope list_scope.

(** ** Exceptions and the state-and-exception monad *)

(** A series label.  [Bus.__init__] accepts strings only, but the series it
    is handed may carry any hashable; integers stand for the non-strings. *)
Inductive Label :=
  | LStr (s : string)
  | LInt (n : Z).

#[global] Instance Label_eq_dec : EqDecision Label.
Proof. solve_decision. Defined.

Definition is_str (l : Label) : bool :=
  match l with LStr _ => true | LInt _ => false end.

(** What an [ErrorInitBus] message reports. *)
Inductive InitError :=
  | NotObjectDtype                 (* 'Series passed to initializer must have dtype object' *)
  | LabelNotString (l : Label)     (* 'supplied label {label} is not a string.' *)
  | ValueNotFrame                  (* 'supplied {value.__class__} is not a Frame or FrameDeferred.' *)
  | MaxPersistTooSmall.            (* 'max_persis cannot be less than the number of already loaded Frames' *)

Inductive Exn :=
  | ErrorInitBus (why : InitError)
  | RuntimeError                   (* 'no store defined' *)
  | StoreReadError (l : Label)     (* raised by [Store.read] *)
  | IndexError                     (* position out of bounds *)
  | KeyError (l : Label)           (* label not in the index *)
  | ErrorInitIndex                 (* an index with repeated labels *)
  | ErrorInitFrame                 (* a frame that cannot be built *)
  | StopIteration                  (* [next] on an exhausted iterator *)
  | AssertionError
  | AttributeError                 (* [FrameDeferred] has no such attribute *)
  | OperationalError               (* raised by [sqlite3]: no such table, table exists *)
  | IntegrityError                 (* raised by [sqlite3]: a constraint does not hold *)
  | ProgrammingError               (* raised by [sqlite3]: wrong number of bindings *)
  | OverflowError                  (* an integer beyond the 64 bits of SQLite *)
  | NotModelled                    (* the model has no answer: see the SQLite store *)
  | TypeError.                     (* a reference to an object of the wrong class *)

Inductive res (A : Type) :=
  | Ok (a : A)
  | Raise (e : Exn).
Arguments Ok {A} a.
Arguments Raise {A} e.

(** A computation over a mutable state [S]: the state survives a raise. *)
Definition M (S A : Type) : Type := S -> S * res A.

Definition ret {S A} (a : A) : M S A := fun s => (s, Ok a).
Definition raise {S A} (e : Exn) : M S A := fun s => (s, Raise e).
Definition bind {S A B} (m : M S A) (k : A -> M S B) : M S B :=
  fun s => match m s with
           | (s', Ok a) => k a s'
           | (s', Raise e) => (s', Raise e)
           end.
Definition lift {S A} (r : res A) : M S A := fun s => (s, r).
Definition get {S} : M S S := fun s => (s, Ok s).
Definition modify {S} (f : S -> S) : M S unit := fun s => (f s, Ok tt).

Notation "x <- m ;; k" := (bind m (fun x => k))
  (at level 100, m at next level, right associativity).
Notation "m ;;; k" := (bind m (fun _ => k))
  (at level 100, right associativity).

Definition is_ok {A} (r : res A) : bool :=
  match r with Ok _ => true | Raise _ => false end.

(** ** Frames

    Modelled from the spec: [Frame] (static_frame/core/frame.py) is an
    immutable named table with a shape, a byte size, a dtype per column and
    structural equality.  Only those observations are used by [Bus]. *)

Record DType := { kind : ascii; itemsize : nat }.

Inductive Cell :=
  | CBool (b : bool)
  | CInt (n : Z)
  | CStr (s : string)
  | CBytes (s : string)
  | CNone.

Record Column := { c_name : string; c_dtype : DType; c_values : list Cell }.

Record Frame := {
  f_name : option string;
  f_index_name : option string;
  f_index_dtype : DType;
  f_index : list Cell;
  f_columns : list Column }.

#[global] Instance DType_eq_dec : EqDecision DType.
Proof. solve_decision. Defined.
#[global] Instance Cell_eq_dec : EqDecision Cell.
Proof. solve_decision. Defined.
#[global] Instance Column_eq_dec : EqDecision Column.
Proof. solve_decision. Defined.
#[global] Instance Frame_eq_dec : EqDecision Frame.
Proof. solve_decision. Defined.

Definition DTYPE_BOOL : DType := {| kind := "b"; itemsize := 1 |}.
Definition DTYPE_OBJECT : DType := {| kind := "O"; itemsize := 8 |}.
Definition DTYPE_INT_DEFAULT : DType := {| kind := "i"; itemsize := 8 |}.
Definition DTYPE_STR (chars : nat) : DType := {| kind := "U"; itemsize := 4 * chars |}.

Definition Frame_shape (f : Frame) : nat * nat :=
  (length (f_index f), length (f_columns f)).

Definition Frame_nbytes (f : Frame) : nat :=
  sum_list ((fun c => itemsize (c_dtype c) * length (c_values c)) <$> f_columns f).

Definition Frame_dtypes (f : Frame) : list (string * DType) :=
  (fun c => (c_name c, c_dtype c)) <$> f_columns f.

(** Modelled from the spec: [Frame.dtypes] is the series of the dtypes of
    the columns, named as the frame.  [Frame.from_concat] stacks such
    series as the rows of a frame, each row labelled by the name of its
    series (by the position 0 of an automatic index when it has none),
    and refuses labels that repeat.  [Frame.reindex] gives a row per label
    asked for: the row of that label where there is one, the fill value
    elsewhere.  A row stands here as the dtypes of the columns of the frame
    it comes from; under a column of the result that this frame does not
    have, its cell is the fill value. *)
Abbreviation DtypesRow := (list (string * DType)).

Definition Frame_dtypes_series (f : Frame) : Label * DtypesRow :=
  (match f_name f with Some name => LStr name | None => LInt 0 end, Frame_dtypes f).

Definition Frame_from_concat (rows : list (Label * DtypesRow))
  : res (list (Label * DtypesRow)) :=
  if bool_decide (NoDup rows.*1) then Ok rows else Raise ErrorInitFrame.

Definition Frame_reindex (rows : list (Label * DtypesRow)) (index : list Label)
  : list (Label * option DtypesRow) :=
  (fun l => (l, match list_find (fun row => row.1 = l) rows with
                | Some (_, (_, row)) => Some row
                | None => None
                end)) <$> index.

(** What a slot of the series holds: a [Frame], the [FrameDeferred] class
    object, or something else (which [Bus.__init__] refuses). *)
Inductive Value :=
  | VFrame (f : Frame)
  | FrameDeferred
  | VOther.

#[global] Instance Value_eq_dec : EqDecision Value.
Proof. solve_decision. Defined.

Definition is_Frame (v : Value) : bool :=
  match v with VFrame _ => true | _ => false end.

(** Modelled from the spec: [Frame.equals] is structural equality, and no
    frame equals a value that is not a frame.  The name takes part in the
    comparison when [compare_name] is set. *)
Definition Frame_equals (f g : Frame) (compare_name : bool) : bool :=
  bool_decide (f_index f = f_index g /\ f_columns f = f_columns g)
  && (negb compare_name || bool_decide (f_name f = f_name g)).

(** [frame_self.equals(frame_other, ...)] as called by [Bus.equals] on two
    slots: the [FrameDeferred] class has no [equals] attribute. *)
Definition Value_equals (v other : Value) (compare_name : bool) : res bool :=
  match v with
  | VFrame f =>
      match other with
      | VFrame g => Ok (Frame_equals f g compare_name)
      | _ => Ok false
      end
  | _ => Raise AttributeError
  end.

(** ** Stores and their configuration

    Modelled from the spec: the [Store] contract (static_frame/core/store.py).
    [read] fails with a lookup error for a label the backing resource does
    not hold; the resource is not written to by a [Bus], so a read is a
    function of the label and its configuration. *)

Record StoreConfig := { index_depth : nat; columns_depth : nat }.

Record StoreConfigMap := {
  cfg_default : StoreConfig;
  cfg_map : list (Label * StoreConfig) }.

Inductive StoreConfigMapInitializer :=
  | InitNone
  | InitConfig (c : StoreConfig)
  | InitMap (m : StoreConfigMap).

Definition STORE_CONFIG_DEFAULT : StoreConfig :=
  {| index_depth := 1; columns_depth := 1 |}.

Definition StoreConfigMap_from_initializer (i : StoreConfigMapInitializer)
  : StoreConfigMap :=
  match i with
  | InitNone => {| cfg_default := STORE_CONFIG_DEFAULT; cfg_map := [] |}
  | InitConfig c => {| cfg_default := c; cfg_map := [] |}
  | InitMap m => m
  end.

Definition StoreConfigMap_getitem (m : StoreConfigMap) (l : Label) : StoreConfig :=
  match list_find (fun p => p.1 = l) (cfg_map m) with
  | Some (_, (_, c)) => c
  | None => cfg_default m
  end.

Record Store := {
  store_read : Label -> StoreConfig -> option Frame;
  store_labels : list Label }.

Definition Store_read (st : Store) (l : Label) (c : StoreConfig) : res Frame :=
  match store_read st l c with
  | Some f => Ok f
  | None => Raise (StoreReadError l)
  end.

(** ** Series, positions and selections

    [Series] and [Index] (static_frame/core/series.py, index.py) are
    immutable; an [Index] refuses repeated labels at construction. *)

Record Series := {
  s_dtype : DType;
  s_index : list Label;
  s_values : list Value;
  s_name : option string }.

(** An iloc key: an integer (negative counts from the end), a slice with
    unit step and non-negative bounds, or a list of integers. *)
Inductive Key :=
  | KInt (i : Z)
  | KSlice (start stop : option nat)
  | KList (l : list Z).

Definition NULL_SLICE : Key := KSlice None None.

(** A key resolved against an array of a given length. *)
Inductive Sel :=
  | SElem (i : nat)
  | SMany (ps : list nat).

Definition norm_index (n : nat) (i : Z) : res nat :=
  if bool_decide (0 <= i < Z.of_nat n)%Z then Ok (Z.to_nat i)
  else if bool_decide (- Z.of_nat n <= i < 0)%Z then Ok (Z.to_nat (Z.of_nat n + i))
  else Raise IndexError.

Fixpoint norm_indices (n : nat) (l : list Z) : res (list nat) :=
  match l with
  | [] => Ok []
  | i :: l' =>
      match norm_index n i with
      | Raise e => Raise e
      | Ok p =>
          match norm_indices n l' with
          | Raise e => Raise e
          | Ok ps => Ok (p :: ps)
          end
      end
  end.

Definition slice_positions (n : nat) (start stop : option nat) : list nat :=
  let a := default 0 start in
  let b := (default n stop) `min` n in
  seq a (b - a).

Definition resolve (n : nat) (k : Key) : res Sel :=
  match k with
  | KInt i => match norm_index n i with Ok p => Ok (SElem p) | Raise e => Raise e end
  | KSlice start stop => Ok (SMany (slice_positions n start stop))
  | KList l => match norm_indices n l with Ok ps => Ok (SMany ps) | Raise e => Raise e end
  end.

Definition sel_positions (s : Sel) : list nat :=
  match s with SElem i => [i] | SMany ps => ps end.

(** [array[positions]] for positions already known to be in range. *)
Definition take_at {A} (a : list A) (ps : list nat) : list A :=
  omap (fun p => a !! p) ps.

(** [index.iloc[key]] on several positions builds a new [Index], which
    raises on repeated labels. *)
Definition Index_iloc_many (index : list Label) (ps : list nat) : res (list Label) :=
  let labels := take_at index ps in
  if bool_decide (NoDup labels) then Ok labels else Raise ErrorInitIndex.

(** [index.loc_to_iloc(label)] for one label. *)
Fixpoint position_of (index : list Label) (l : Label) : option nat :=
  match index with
  | [] => None
  | x :: index' => if decide (x = l) then Some 0 else S <$> position_of index' l
  end.

Definition loc_to_iloc (index : list Label) (l : Label) : res nat :=
  match position_of index l with
  | Some i => Ok i
  | None => Raise (KeyError l)
  end.

(** A loc key: one label or a list of labels. *)
Inductive LocKey :=
  | LocLabel (l : Label)
  | LocList (ls : list Label).

Fixpoint locs_to_ilocs (index : list Label) (ls : list Label) : res (list Z) :=
  match ls with
  | [] => Ok []
  | l :: ls' =>
      match loc_to_iloc index l with
      | Raise e => Raise e
      | Ok i =>
          match locs_to_ilocs index ls' with
          | Raise e => Raise e
          | Ok zs => Ok (Z.of_nat i :: zs)
          end
      end
  end.

Definition loc_key_to_iloc (index : list Label) (k : LocKey) : res Key :=
  match k with
  | LocLabel l =>
      match loc_to_iloc index l with Ok i => Ok (KInt (Z.of_nat i)) | Raise e => Raise e end
  | LocList ls =>
      match locs_to_ilocs index ls with Ok zs => Ok (KList zs) | Raise e => Raise e end
  end.

(** [series.iloc[key]] presented as items: the one element, or the items
    of the sub-series (whose index is built by [Index_iloc_many]). *)
Definition Series_iloc_items (s : Series) (sel : Sel) : res (list (Label * Value)) :=
  match sel with
  | SElem i =>
      match s_index s !! i, s_values s !! i with
      | Some l, Some v => Ok [(l, v)]
      | _, _ => Raise IndexError
      end
  | SMany ps =>
      match Index_iloc_many (s_index s) ps with
      | Raise e => Raise e
      | Ok labels => Ok (zip labels (take_at (s_values s) ps))
      end
  end.

Definition Series_iloc (s : Series) (key : Key) : res (list (Label * Value)) :=
  match resolve (length (s_values s)) key with
  | Raise e => Raise e
  | Ok sel => Series_iloc_items s sel
  end.

(** ** The insertion-ordered dict behind [_last_accessed]

    All values are [None]; only the order of the keys matters. *)

Abbreviation PyDict := (list Label).

(** [d.pop(label, None)] *)
Definition dict_pop (d : PyDict) (l : Label) : PyDict :=
  filter (fun x => x <> l) d.

(** [d[label] = None]: a new key goes last, an old key keeps its place. *)
Definition dict_setitem (d : PyDict) (l : Label) : PyDict :=
  if bool_decide (l ∈ d) then d else d ++ [l].

(** [d[label] = d.pop(label, None)] *)
Definition dict_touch (d : PyDict) (l : Label) : PyDict :=
  dict_setitem (dict_pop d l) l.

(** [next(iter(d))] *)
Definition dict_first (d : PyDict) : res Label :=
  match d with
  | [] => Raise StopIteration
  | l :: _ => Ok l
  end.

(** [del d[label]] *)
Definition dict_del (d : PyDict) (l : Label) : res PyDict :=
  if bool_decide (l ∈ d) then Ok (dict_pop d l) else Raise (KeyError l).

Definition count_true (a : list bool) : Z :=
  Z.of_nat (length (filter (fun b => b = true) a)).

Definition all_true (a : list bool) : bool := forallb id a.
Definition any_true (a : list bool) : bool := existsb id a.

(** ** The heap *)

Abbreviation ref := nat.

Record BusObj := {
  _loaded : ref;                   (* np.ndarray of bool, written in place *)
  _loaded_all : bool;
  _series : Series;
  _store : option Store;
  _config : StoreConfigMap;
  _last_accessed : option ref;     (* the attribute exists iff max_persist is not None *)
  _max_persist : option Z }.

Inductive Obj :=
  | OBus (b : BusObj)
  | ONdarray (a : list bool)
  | ODict (d : PyDict).

Abbreviation Heap := (list Obj).

Definition alloc (o : Obj) : M Heap ref :=
  fun h => (h ++ [o], Ok (length h)).

Definition get_bus (r : ref) : M Heap BusObj :=
  fun h => match h !! r with
           | Some (OBus b) => (h, Ok b)
           | _ => (h, Raise TypeError)
           end.

Definition get_ndarray (r : ref) : M Heap (list bool) :=
  fun h => match h !! r with
           | Some (ONdarray a) => (h, Ok a)
           | _ => (h, Raise TypeError)
           end.

Definition get_dict (r : ref) : M Heap PyDict :=
  fun h => match h !! r with
           | Some (ODict d) => (h, Ok d)
           | _ => (h, Raise TypeError)
           end.

Definition put (r : ref) (o : Obj) : M Heap unit :=
  fun h => (<[r := o]> h, Ok tt).

(** [a[i] = v] on an ndarray: out of range raises. *)
Definition setitem {A} (a : list A) (i : nat) (v : A) : res (list A) :=
  if bool_decide (i < length a) then Ok (<[i := v]> a) else Raise IndexError.

Definition getitem {A} (a : list A) (i : nat) : res A :=
  match a !! i with
  | Some v => Ok v
  | None => Raise IndexError
  end.

(** ** The cache-update loop

    The objects the loop of [_update_series_cache_iloc] writes to: the
    [_loaded] ndarray and the [_last_accessed] dict (both in place), the
    local copy [array] of the series values and the local [loaded_count].
    The loop runs on their contents; the caller stores the first two back
    under their references whether the loop returned or raised. *)

Record Locals := {
  l_loaded : list bool;
  l_last : PyDict;
  l_array : list Value;
  l_count : Z }.

Definition set_loaded (a : list bool) (s : Locals) : Locals :=
  {| l_loaded := a; l_last := l_last s; l_array := l_array s; l_count := l_count s |}.
Definition set_last (d : PyDict) (s : Locals) : Locals :=
  {| l_loaded := l_loaded s; l_last := d; l_array := l_array s; l_count := l_count s |}.
Definition set_array (a : list Value) (s : Locals) : Locals :=
  {| l_loaded := l_loaded s; l_last := l_last s; l_array := a; l_count := l_count s |}.
Definition set_count (c : Z) (s : Locals) : Locals :=
  {| l_loaded := l_loaded s; l_last := l_last s; l_array := l_array s; l_count := c |}.

Definition is_active (max_persist : option Z) : bool :=
  match max_persist with Some _ => true | None => false end.

Section CacheLoop.
Variable index : list Label.
Variable store : Store.
Variable config : StoreConfigMap.
Variable max_persist : option Z.

(** Lines 222-226: write a frame into a slot not yet loaded. *)
Definition load_slot (idx : nat) (frame : Value) : M Locals unit :=
  s <- get ;;
  b <- lift (getitem (l_loaded s) idx) ;;
  if negb b then
    array <- lift (setitem (l_array s) idx frame) ;;
    loaded <- lift (setitem (l_loaded s) idx true) ;;
    modify (fun s =>
      set_count (if is_active max_persist then l_count s + 1 else l_count s)%Z
        (set_loaded loaded (set_array array s)))
  else ret tt.

(** Lines 228-237: evict the first key of [_last_accessed]. *)
Definition evict_oldest (k : Z) : M Locals unit :=
  s <- get ;;
  if bool_decide (k < l_count s)%Z then
    (if bool_decide (l_count s = k + 1)%Z then ret tt else raise AssertionError) ;;;
    label_remove <- lift (dict_first (l_last s)) ;;
    d <- lift (dict_del (l_last s) label_remove) ;;
    modify (set_last d) ;;;
    idx_remove <- lift (loc_to_iloc index label_remove) ;;
    loaded <- lift (setitem (l_loaded s) idx_remove false) ;;
    modify (set_loaded loaded) ;;;
    array <- lift (setitem (l_array s) idx_remove FrameDeferred) ;;
    modify (set_array array) ;;;
    modify (set_count (l_count s - 1)%Z) ;;;
    if bool_decide (0 <= l_count s - 1)%Z then ret tt else raise AssertionError
  else ret tt.

(** Lines 213-237: the body of [for label, frame in targets.items()]. *)
Definition loop_body (item : Label * Value) : M Locals unit :=
  let '(label, frame) := item in
  idx <- lift (loc_to_iloc index label) ;;
  (if is_active max_persist
   then modify (fun s => set_last (dict_touch (l_last s) label) s)
   else ret tt) ;;;
  frame <- (match frame with
            | FrameDeferred =>
                f <- lift (Store_read store label (StoreConfigMap_getitem config label)) ;;
                ret (VFrame f)
            | _ => ret frame
            end) ;;
  load_slot idx frame ;;;
  match max_persist with
  | Some k => evict_oldest k
  | None => ret tt
  end.

Fixpoint cache_loop (targets : list (Label * Value)) : M Locals unit :=
  match targets with
  | [] => ret tt
  | item :: rest => loop_body item ;;; cache_loop rest
  end.
End CacheLoop.

(** ** The [Bus] class *)

(** What an extraction hands back: an element of the series or a new [Bus]. *)
Inductive Extracted :=
  | Element (v : Value)
  | NewBus (b : ref).

(** Modelled from the spec: [Frame.size], the number of cells of a frame. *)
Definition Frame_size (f : Frame) : nat :=
  (Frame_shape f).1 * (Frame_shape f).2.

(** The frame [Bus.status] returns, column by column. *)
Record Status := {
  status_loaded : list (Label * bool);
  status_size : list (Label * option nat);
  status_nbytes : list (Label * option nat);
  status_shape : list (Label * option (nat * nat)) }.

Module Bus.

(** The generator [gen()] of [__init__], run to exhaustion by
    [np.fromiter]: the loaded flags in series order, and the labels of
    the frames entered in [_last_accessed] on the way. *)
Fixpoint gen (max_persist : option Z) (items : list (Label * Value)) (d : PyDict)
  : res (list bool * PyDict) :=
  match items with
  | [] => Ok ([], d)
  | (label, value) :: rest =>
      match label with
      | LInt _ => Raise (ErrorInitBus (LabelNotString label))
      | LStr _ =>
          match value with
          | VFrame _ =>
              match gen max_persist rest
                      (if is_active max_persist then dict_setitem d label else d) with
              | Ok (bs, d') => Ok (true :: bs, d')
              | Raise e => Raise e
              end
          | FrameDeferred =>
              match gen max_persist rest d with
              | Ok (bs, d') => Ok (false :: bs, d')
              | Raise e => Raise e
              end
          | VOther => Raise (ErrorInitBus ValueNotFrame)
          end
      end
  end.

Definition Series_items (s : Series) : list (Label * Value) :=
  zip (s_index s) (s_values s).

(** [Bus(series, store=, config=, max_persist=)].  A constructor that
    raises hands no object to its caller, so nothing is allocated then. *)
Definition __init__ (series : Series) (store : option Store)
    (config : StoreConfigMapInitializer) (max_persist : option Z) : M Heap ref :=
  if bool_decide (s_dtype series <> DTYPE_OBJECT) then
    raise (ErrorInitBus NotObjectDtype)
  else
    r <- lift (gen max_persist (Series_items series) []) ;;
    let '(loaded, d) := r in
    if match max_persist with
       | Some k => bool_decide (k < count_true loaded)%Z
       | None => false
       end
    then raise (ErrorInitBus MaxPersistTooSmall)
    else
      last <- (match max_persist with
               | Some _ => a <- alloc (ODict d) ;; ret (Some a)
               | None => ret None
               end) ;;
      arr <- alloc (ONdarray loaded) ;;
      alloc (OBus {| _loaded := arr;
                     _loaded_all := all_true loaded;
                     _series := series;
                     _store := store;
                     _config := StoreConfigMap_from_initializer config;
                     _last_accessed := last;
                     _max_persist := max_persist |}).

(** [Series.from_element(FrameDeferred, index=labels, dtype=object)];
    the index it builds refuses repeated labels. *)
Definition _deferred_series (labels : list Label) : res Series :=
  if bool_decide (NoDup labels) then
    Ok {| s_dtype := DTYPE_OBJECT;
          s_index := labels;
          s_values := (fun _ => FrameDeferred) <$> labels;
          s_name := None |}
  else Raise ErrorInitIndex.

Definition _from_store (store : Store) (config : StoreConfigMapInitializer)
    (max_persist : option Z) : M Heap ref :=
  series <- lift (_deferred_series (store_labels store)) ;;
  __init__ series (Some store) config max_persist.

(** *** Cache management *)

Definition load_needed (bus : BusObj) (loaded : list bool) (key : Key) : res bool :=
  if _loaded_all bus then Ok false
  else
    match resolve (length loaded) key with
    | Raise e => Raise e
    | Ok sel =>
        Ok (negb (all_true (take_at loaded (sel_positions sel))))
    end.

(** Lines 189-196: every requested slot is loaded; move the requested
    labels to the recent end of [_last_accessed]. *)
Definition requested_labels (index : list Label) (key : Key) : res (list Label) :=
  match resolve (length index) key with
  | Raise e => Raise e
  | Ok (SElem i) =>
      match getitem index i with
      | Ok l => Ok [l]
      | Raise e => Raise e
      end
  | Ok (SMany ps) => Index_iloc_many index ps
  end.

Definition touch_labels (bus : BusObj) (last : ref) (key : Key) : M Heap unit :=
  labels <- lift (requested_labels (s_index (_series bus)) key) ;;
  d <- get_dict last ;;
  put last (ODict (foldl dict_touch d labels)).

Definition _update_series_cache_iloc (self : ref) (key : Key) : M Heap unit :=
  bus <- get_bus self ;;
  loaded <- get_ndarray (_loaded bus) ;;
  load <- lift (load_needed bus loaded key) ;;
  match load, _max_persist bus, _last_accessed bus with
  | false, None, _ => ret tt
  | false, Some _, Some last => touch_labels bus last key
  | false, Some _, None => raise AttributeError
  | true, _, _ =>
      match _store bus with
      | None => raise RuntimeError
      | Some store =>
          let series := _series bus in
          targets <- lift (Series_iloc series key) ;;
          d <- (match _max_persist bus, _last_accessed bus with
                | Some _, Some last => get_dict last
                | Some _, None => raise AttributeError
                | None, _ => ret []
                end) ;;
          let '(locals, outcome) :=
            cache_loop (s_index series) store (_config bus) (_max_persist bus) targets
              {| l_loaded := loaded;
                 l_last := d;
                 l_array := s_values series;
                 l_count := count_true loaded |} in
          put (_loaded bus) (ONdarray (l_loaded locals)) ;;;
          (match _max_persist bus, _last_accessed bus with
           | Some _, Some last => put last (ODict (l_last locals))
           | _, _ => ret tt
           end) ;;;
          lift outcome ;;;
          put self (OBus {| _loaded := _loaded bus;
                            _loaded_all := all_true (l_loaded locals);
                            _series := {| s_dtype := DTYPE_OBJECT;
                                          s_index := s_index series;
                                          s_values := l_array locals;
                                          s_name := None |};
                            _store := _store bus;
                            _config := _config bus;
                            _last_accessed := _last_accessed bus;
                            _max_persist := _max_persist bus |})
      end
  end.

(** Load all tables contained in this [Bus]. *)
Definition _update_series_cache_all (self : ref) : M Heap unit :=
  bus <- get_bus self ;;
  if negb (_loaded_all bus) then _update_series_cache_iloc self NULL_SLICE
  else ret tt.

(** *** Extraction *)

(** The common tail of [_extract_iloc] and [_extract_loc]: read the
    values under the key from the updated series, and wrap several of
    them into a new [Bus]. *)
Definition extract_values (self : ref) (key : Key) : M Heap Extracted :=
  bus <- get_bus self ;;
  let series := _series bus in
  sel <- lift (resolve (length (s_values series)) key) ;;
  match sel with
  | SElem i =>
      v <- lift (getitem (s_values series) i) ;;
      ret (Element v)
  | SMany ps =>
      index <- lift (Index_iloc_many (s_index series) ps) ;;
      b <- __init__ {| s_dtype := DTYPE_OBJECT;
                       s_index := index;
                       s_values := take_at (s_values series) ps;
                       s_name := s_name series |}
             (_store bus) (InitMap (_config bus)) (_max_persist bus) ;;
      ret (NewBus b)
  end.

Definition _extract_iloc (self : ref) (key : Key) : M Heap Extracted :=
  _update_series_cache_iloc self key ;;;
  extract_values self key.

Definition _extract_loc (self : ref) (key : LocKey) : M Heap Extracted :=
  bus <- get_bus self ;;
  iloc_key <- lift (loc_key_to_iloc (s_index (_series bus)) key) ;;
  _update_series_cache_iloc self iloc_key ;;;
  extract_values self iloc_key.

Definition __getitem__ (self : ref) (key : LocKey) : M Heap Extracted :=
  _extract_loc self key.

(** *** Dictionary-like interface *)

Definition items (self : ref) : M Heap (list (Label * Value)) :=
  _update_series_cache_all self ;;;
  bus <- get_bus self ;;
  ret (Series_items (_series bus)).

Definition values (self : ref) : M Heap (list Value) :=
  _update_series_cache_all self ;;;
  bus <- get_bus self ;;
  ret (s_values (_series bus)).

(** *** Extended descriptors *)

(** [(f.dtypes for f in self._series.values if f is not FrameDeferred)] *)
Fixpoint loaded_dtypes (values : list Value) : res (list (Label * DtypesRow)) :=
  match values with
  | [] => Ok []
  | FrameDeferred :: rest => loaded_dtypes rest
  | VFrame f :: rest =>
      match loaded_dtypes rest with
      | Ok rows => Ok (Frame_dtypes_series f :: rows)
      | Raise e => Raise e
      end
  | VOther :: _ => Raise AttributeError
  end.

(** A row per label of the bus: the dtypes of the loaded frame that is
    named as the label, or [None] where the reindex fills in. *)
Definition dtypes (self : ref) : M Heap (list (Label * option DtypesRow)) :=
  bus <- get_bus self ;;
  loaded <- get_ndarray (_loaded bus) ;;
  if negb (any_true loaded) then
    ret ((fun l => (l, None)) <$> s_index (_series bus))
  else
    rows <- lift (loaded_dtypes (s_values (_series bus))) ;;
    f <- lift (Frame_from_concat rows) ;;
    ret (Frame_reindex f (s_index (_series bus))).

Definition shapes (self : ref) : M Heap (list (Label * option (nat * nat))) :=
  bus <- get_bus self ;;
  ret (zip (s_index (_series bus))
         ((fun v => match v with
                    | VFrame f => Some (Frame_shape f)
                    | _ => None
                    end) <$> s_values (_series bus))).

Definition nbytes (self : ref) : M Heap nat :=
  bus <- get_bus self ;;
  ret (sum_list ((fun v => match v with
                           | VFrame f => Frame_nbytes f
                           | _ => 0
                           end) <$> s_values (_series bus))).

(** *** Equality

    [compare_dtype], [compare_class] and [skipna] only reach the index
    and frame comparisons, which stand here as structural equality; a
    reference to anything but a [Bus] compares unequal under either
    setting of [compare_class]. *)

(** The loop over [zip(self._series.values, other._series.values)]. *)
Fixpoint frames_equal (pairs : list (Value * Value)) (compare_name : bool)
  : res bool :=
  match pairs with
  | [] => Ok true
  | (frame_self, frame_other) :: rest =>
      match Value_equals frame_self frame_other compare_name with
      | Raise e => Raise e
      | Ok false => Ok false
      | Ok true => frames_equal rest compare_name
      end
  end.

Definition equals (self : ref) (other : ref) (compare_name : bool) : M Heap bool :=
  if bool_decide (other = self) then ret true
  else
    h <- get ;;
    match h !! other with
    | Some (OBus _) =>
        _update_series_cache_all self ;;;
        bus <- get_bus self ;;
        obus <- get_bus other ;;
        if bool_decide (length (s_values (_series bus))
                        <> length (s_values (_series obus))) then ret false
        else if compare_name
                && bool_decide (s_name (_series bus) <> s_name (_series obus))
        then ret false
        else if bool_decide (s_index (_series bus) <> s_index (_series obus))
        then ret false
        else lift (frames_equal (zip (s_values (_series bus))
                                     (s_values (_series obus)))
                     compare_name)
    | _ => ret false
    end.

(** *** Length, reverse iteration and status *)

(** [self._series.__len__()] *)
Definition __len__ (self : ref) : M Heap nat :=
  bus <- get_bus self ;;
  ret (length (s_values (_series bus))).

(** [reversed(self._series._index)] *)
Definition __reversed__ (self : ref) : M Heap (list Label) :=
  bus <- get_bus self ;;
  ret (reverse (s_index (_series bus))).

(** The four series [status] concatenates as the columns loaded, size,
    nbytes and shape, each over the index of the bus; [None] stands for
    the missing value of a deferred slot ([np.nan] in the two float
    columns). *)
Definition status (self : ref) : M Heap Status :=
  bus <- get_bus self ;;
  loaded <- get_ndarray (_loaded bus) ;;
  let index := s_index (_series bus) in
  let column {A} (attr : Frame -> A) : list (Label * option A) :=
    zip index ((fun v => match v with
                         | VFrame f => Some (attr f)
                         | _ => None
                         end) <$> s_values (_series bus)) in
  ret {| status_loaded := zip index loaded;
         status_size := column Frame_size;
         status_nbytes := column Frame_nbytes;
         status_shape := column Frame_shape |}.
End Bus.

(** ** The SQLite store

    [static_frame/core/store_sqlite.py].  The class keeps a file path; the
    database behind that path is the state the methods act on.

    Modelled from the spec, and marked so where they stand: the engine
    reached through the [sqlite3] module, and the parts of [Store] and
    [Frame] that [StoreSQLite] calls (static_frame/core/store.py, frame.py
    and util.py).  The model covers frames of Booleans, integers, strings
    and [None], and statements whose names are written bare; where numpy
    or the engine would leave that ground (a floating-point value, a name
    in quotes, a clause [StoreSQLite] never writes) the model raises
    [NotModelled] rather than guess. *)

(** *** Characters and names *)

Definition is_lower (c : ascii) : bool :=
  (97 <=? nat_of_ascii c)%nat && (nat_of_ascii c <=? 122)%nat.
Definition is_upper (c : ascii) : bool :=
  (65 <=? nat_of_ascii c)%nat && (nat_of_ascii c <=? 90)%nat.
Definition is_digit (c : ascii) : bool :=
  (48 <=? nat_of_ascii c)%nat && (nat_of_ascii c <=? 57)%nat.

Definition upper (c : ascii) : ascii :=
  if is_lower c then ascii_of_nat (nat_of_ascii c - 32) else c.

Fixpoint upper_string (s : string) : string :=
  match s with
  | EmptyString => EmptyString
  | String c s' => String (upper c) (upper_string s')
  end.

Fixpoint all_chars (p : ascii -> bool) (s : string) : bool :=
  match s with
  | EmptyString => true
  | String c s' => p c && all_chars p s'
  end.

(** The characters of a bare word, and the blanks between tokens. *)
Definition is_word_char (c : ascii) : bool :=
  is_lower c || is_upper c || is_digit c || bool_decide (c = "_"%char).

Definition is_space (c : ascii) : bool :=
  bool_decide (c ∈ [" "%char; "009"%char; "010"%char; "012"%char; "013"%char]).

(** Modelled from the spec: the keywords of SQLite.  The engine takes
    some of them for a name where no other reading is possible; the model
    takes none. *)
Definition SQL_KEYWORDS : list string :=
  ["ABORT"; "ACTION"; "ADD"; "AFTER"; "ALL"; "ALTER"; "ALWAYS"; "ANALYZE"; "AND";
   "AS"; "ASC"; "ATTACH"; "AUTOINCREMENT"; "BEFORE"; "BEGIN"; "BETWEEN"; "BY";
   "CASCADE"; "CASE"; "CAST"; "CHECK"; "COLLATE"; "COLUMN"; "COMMIT"; "CONFLICT";
   "CONSTRAINT"; "CREATE"; "CROSS"; "CURRENT"; "CURRENT_DATE"; "CURRENT_TIME";
   "CURRENT_TIMESTAMP"; "DATABASE"; "DEFAULT"; "DEFERRABLE"; "DEFERRED"; "DELETE";
   "DESC"; "DETACH"; "DISTINCT"; "DO"; "DROP"; "EACH"; "ELSE"; "END"; "ESCAPE";
   "EXCEPT"; "EXCLUDE"; "EXCLUSIVE"; "EXISTS"; "EXPLAIN"; "FAIL"; "FILTER"; "FIRST";
   "FOLLOWING"; "FOR"; "FOREIGN"; "FROM"; "FULL"; "GENERATED"; "GLOB"; "GROUP";
   "GROUPS"; "HAVING"; "IF"; "IGNORE"; "IMMEDIATE"; "IN"; "INDEX"; "INDEXED";
   "INITIALLY"; "INNER"; "INSERT"; "INSTEAD"; "INTERSECT"; "INTO"; "IS"; "ISNULL";
   "JOIN"; "KEY"; "LAST"; "LEFT"; "LIKE"; "LIMIT"; "MATCH"; "MATERIALIZED";
   "NATURAL"; "NO"; "NOT"; "NOTHING"; "NOTNULL"; "NULL"; "NULLS"; "OF"; "OFFSET";
   "ON"; "OR"; "ORDER"; "OTHERS"; "OUTER"; "OVER"; "PARTITION"; "PLAN"; "PRAGMA";
   "PRECEDING"; "PRIMARY"; "QUERY"; "RAISE"; "RANGE"; "RECURSIVE"; "REFERENCES";
   "REGEXP"; "REINDEX"; "RELEASE"; "RENAME"; "REPLACE"; "RESTRICT"; "RETURNING";
   "RIGHT"; "ROLLBACK"; "ROW"; "ROWS"; "SAVEPOINT"; "SELECT"; "SET"; "TABLE";
   "TEMP"; "TEMPORARY"; "THEN"; "TIES"; "TO"; "TRANSACTION"; "TRIGGER";
   "UNBOUNDED"; "UNION"; "UNIQUE"; "UPDATE"; "USING"; "VACUUM"; "VALUES"; "VIEW";
   "VIRTUAL"; "WHEN"; "WHERE"; "WINDOW"; "WITH"; "WITHOUT"].

(** A name the engine reads as one identifier where the f-strings of
    [_frame_to_table] and [read] put it bare into a statement: letters,
    digits and underscores, no digit first, no keyword. *)
Definition bare_identifier (s : string) : bool :=
  match s with
  | EmptyString => false
  | String c _ =>
      negb (is_digit c)
      && all_chars is_word_char s
      && negb (bool_decide (upper_string s ∈ SQL_KEYWORDS))
  end.

(** Names compare without regard to the case of ASCII letters. *)
Definition same_name (a b : string) : Prop := upper_string a = upper_string b.

#[global] Instance same_name_dec a b : Decision (same_name a b).
Proof. unfold same_name. apply _. Defined.

Fixpoint starts_with (p s : string) : bool :=
  match p, s with
  | EmptyString, _ => true
  | String a p', String b s' => bool_decide (a = b) && starts_with p' s'
  | String _ _, EmptyString => false
  end.

Fixpoint contains (needle hay : string) : bool :=
  starts_with needle hay
  || match hay with
     | EmptyString => false
     | String _ rest => contains needle rest
     end.

(** Names that begin with sqlite_ are kept for the engine. *)
Definition reserved_name (s : string) : bool := starts_with "SQLITE_" (upper_string s).

(** *** Statements

    The text of a statement is cut into tokens and read against the four
    shapes [StoreSQLite] writes. *)

Inductive Token :=
  | TWord (w : string)
  | TLParen
  | TRParen
  | TComma
  | TStar
  | TQuestion
  | TSemi
  | TEq
  | TString (s : string)
  | TOther (c : ascii).

(** Where the scan stands: between tokens, in a word, in a string
    literal, or just past a quote read inside a string literal. *)
Inductive Scan :=
  | ScanNone
  | ScanWord (w : string)
  | ScanString (s : string)
  | ScanQuote (s : string).

Definition snoc (s : string) (c : ascii) : string := s +:+ String c EmptyString.

Definition flush (m : Scan) : list Token :=
  match m with
  | ScanNone => []
  | ScanWord w => [TWord w]
  | ScanString _ => [TOther "'"%char]
  | ScanQuote s => [TString s]
  end.

Definition punctuation (c : ascii) : list Token :=
  if bool_decide (c = "("%char) then [TLParen]
  else if bool_decide (c = ")"%char) then [TRParen]
  else if bool_decide (c = ","%char) then [TComma]
  else if bool_decide (c = "*"%char) then [TStar]
  else if bool_decide (c = "?"%char) then [TQuestion]
  else if bool_decide (c = ";"%char) then [TSemi]
  else if bool_decide (c = "="%char) then [TEq]
  else if is_space c then []
  else [TOther c].

Fixpoint tokenize (m : Scan) (s : string) : list Token :=
  match s with
  | EmptyString => flush m
  | String c rest =>
      match m with
      | ScanString lit =>
          if bool_decide (c = "'"%char) then tokenize (ScanQuote lit) rest
          else tokenize (ScanString (snoc lit c)) rest
      | ScanQuote lit =>
          if bool_decide (c = "'"%char) then tokenize (ScanString (snoc lit c)) rest
          else if is_word_char c
               then TString lit :: tokenize (ScanWord (String c EmptyString)) rest
               else TString lit :: punctuation c ++ tokenize ScanNone rest
      | ScanWord w =>
          if is_word_char c then tokenize (ScanWord (snoc w c)) rest
          else if bool_decide (c = "'"%char) then TWord w :: tokenize (ScanString EmptyString) rest
          else TWord w :: punctuation c ++ tokenize ScanNone rest
      | ScanNone =>
          if is_word_char c then tokenize (ScanWord (String c EmptyString)) rest
          else if bool_decide (c = "'"%char) then tokenize (ScanString EmptyString) rest
          else punctuation c ++ tokenize ScanNone rest
      end
  end.

Inductive Statement :=
  | CreateTable (name : string) (fields : list (string * string))
      (primary_key : list string)
  | InsertInto (name : string) (fields : list string) (values : nat)
  | SelectAll (name : string)
  | SelectTableNames.

Definition is_keyword (k w : string) : bool := bool_decide (upper_string w = k).

(** Names between commas, up to the closing parenthesis. *)
Fixpoint parse_names (ts : list Token) : option (list string * list Token) :=
  match ts with
  | TWord w :: TRParen :: rest =>
      if bare_identifier w then Some ([w], rest) else None
  | TWord w :: TComma :: rest =>
      if bare_identifier w then
        match parse_names rest with
        | Some (ws, rest') => Some (w :: ws, rest')
        | None => None
        end
      else None
  | _ => None
  end.

(** Question marks between commas, up to the closing parenthesis. *)
Fixpoint parse_marks (ts : list Token) : option (nat * list Token) :=
  match ts with
  | TQuestion :: TRParen :: rest => Some (1, rest)
  | TQuestion :: TComma :: rest =>
      match parse_marks rest with
      | Some (n, rest') => Some (S n, rest')
      | None => None
      end
  | _ => None
  end.

(** [PRIMARY KEY (names)] and the parenthesis that closes the table. *)
Definition parse_primary_key (ts : list Token) : option (list string * list Token) :=
  match ts with
  | TWord p :: TWord k :: TLParen :: rest =>
      if is_keyword "PRIMARY" p && is_keyword "KEY" k then
        match parse_names rest with
        | Some (names, TRParen :: rest') => Some (names, rest')
        | _ => None
        end
      else None
  | _ => None
  end.

(** Fields, each a name and a type, then the primary key if there is
    one, up to the parenthesis that closes the table. *)
Fixpoint parse_columns (ts : list Token)
  : option (list (string * string) * list string * list Token) :=
  match ts with
  | TWord k :: TWord v :: TRParen :: rest =>
      if bare_identifier k && bare_identifier v then Some ([(k, v)], [], rest) else None
  | TWord k :: TWord v :: TComma :: rest =>
      if bare_identifier k && bare_identifier v then
        match parse_primary_key rest with
        | Some (names, rest') => Some ([(k, v)], names, rest')
        | None =>
            match parse_columns rest with
            | Some (fields, names, rest') => Some ((k, v) :: fields, names, rest')
            | None => None
            end
        end
      else None
  | _ => None
  end.

(** A statement ends with its last token, or with one semicolon. *)
Definition at_end (ts : list Token) : bool :=
  match ts with
  | [] | [TSemi] => true
  | _ => false
  end.

Definition parse_tokens (ts : list Token) : option Statement :=
  match ts with
  | TWord a :: TWord b :: TWord name :: TLParen :: rest =>
      if is_keyword "CREATE" a && is_keyword "TABLE" b && bare_identifier name then
        match parse_columns rest with
        | Some (fields, primary_key, rest') =>
            if at_end rest' then Some (CreateTable name fields primary_key) else None
        | None => None
        end
      else if is_keyword "INSERT" a && is_keyword "INTO" b && bare_identifier name then
        match parse_names rest with
        | Some (fields, TWord v :: TLParen :: rest') =>
            if is_keyword "VALUES" v then
              match parse_marks rest' with
              | Some (n, rest'') =>
                  if at_end rest'' then Some (InsertInto name fields n) else None
              | None => None
              end
            else None
        | _ => None
        end
      else None
  | TWord a :: TStar :: TWord b :: TWord name :: rest =>
      if is_keyword "SELECT" a && is_keyword "FROM" b && bare_identifier name
         && at_end rest
      then Some (SelectAll name) else None
  | TWord a :: TWord n :: TWord b :: TWord m :: TWord w :: TWord t :: TEq
      :: TString lit :: rest =>
      if is_keyword "SELECT" a && is_keyword "NAME" n && is_keyword "FROM" b
         && is_keyword "SQLITE_MASTER" m && is_keyword "WHERE" w
         && is_keyword "TYPE" t && bool_decide (lit = "table") && at_end rest
      then Some SelectTableNames else None
  | _ => None
  end.

Definition parse (sql : string) : option Statement :=
  parse_tokens (tokenize ScanNone sql).

(** *** Values

    What Python hands to a [?] and gets back from a row, and what the
    engine stores. *)

Inductive PyValue :=
  | PyNone
  | PyBool (b : bool)
  | PyInt (n : Z)
  | PyStr (s : string)
  | PyBytes (s : string)
  | NpScalar (dtype : DType) (c : Cell).   (* an element of an array of that dtype *)

Inductive SqlValue :=
  | SqlNull
  | SqlInteger (n : Z)
  | SqlText (s : string)
  | SqlBlob (s : string).

#[global] Instance SqlValue_eq_dec : EqDecision SqlValue.
Proof. solve_decision. Defined.

Definition int64 (n : Z) : bool := bool_decide (- 2 ^ 63 <= n < 2 ^ 63)%Z.

(** The bytes of an integer in an array of that item size, low byte
    first. *)
Fixpoint le_bytes (size : nat) (n : Z) : string :=
  match size with
  | 0 => EmptyString
  | S size' => String (ascii_of_nat (Z.to_nat (n mod 256))) (le_bytes size' (n / 256))
  end.

(** A value bound to a [?].  A type with a registered adapter is adapted
    first; [bool] is an [int] and [np.str_] a [str]; any other numpy
    scalar is taken through the buffer protocol, as the bytes it is made
    of. *)
Definition bind_parameter (adapters : list (DType * (Cell -> option PyValue)))
    (v : PyValue) : res SqlValue :=
  let adapted :=
    match v with
    | NpScalar dtype c =>
        match list_find (fun a => a.1 = dtype) adapters with
        | Some (_, (_, adapt)) => default v (adapt c)
        | None => v
        end
    | _ => v
    end in
  match adapted with
  | PyNone => Ok SqlNull
  | PyBool b => Ok (SqlInteger (if b then 1 else 0))
  | PyInt n => if int64 n then Ok (SqlInteger n) else Raise OverflowError
  | PyStr s => Ok (SqlText s)
  | PyBytes s => Ok (SqlBlob s)
  | NpScalar dtype c =>
      match c with
      | CStr s => if bool_decide (kind dtype = "U"%char) then Ok (SqlText s)
                  else Raise NotModelled
      | CBool b => if bool_decide (dtype = DTYPE_BOOL)
                   then Ok (SqlBlob (String (if b then "001" else "000")%char EmptyString))
                   else Raise NotModelled
      | CInt n => if bool_decide (kind dtype = "i"%char \/ kind dtype = "u"%char)
                  then Ok (SqlBlob (le_bytes (itemsize dtype) n))
                  else Raise NotModelled
      | _ => Raise NotModelled
      end
  end.

(** The column affinity of a declared type. *)
Inductive Affinity := AffText | AffNumeric | AffInteger | AffReal | AffBlob.

Definition affinity_of (decltype : string) : Affinity :=
  let t := upper_string decltype in
  if contains "INT" t then AffInteger
  else if contains "CHAR" t || contains "CLOB" t || contains "TEXT" t then AffText
  else if contains "BLOB" t || bool_decide (t = EmptyString) then AffBlob
  else if contains "REAL" t || contains "FLOA" t || contains "DOUB" t then AffReal
  else AffNumeric.

Definition digit_value (c : ascii) : Z := Z.of_nat (nat_of_ascii c - 48).

Fixpoint digits_value (acc : Z) (s : string) : Z :=
  match s with
  | EmptyString => acc
  | String c s' => digits_value (10 * acc + digit_value c) s'
  end.

(** An optional sign and one digit or more, and nothing else. *)
Definition integer_literal (s : string) : option Z :=
  let unsigned (d : string) :=
    match d with
    | EmptyString => None
    | _ => if all_chars is_digit d then Some (digits_value 0 d) else None
    end in
  match s with
  | String "-"%char d => Z.opp <$> unsigned d
  | String "+"%char d => unsigned d
  | _ => unsigned s
  end.

Definition has_digit (s : string) : bool := negb (all_chars (fun c => negb (is_digit c)) s).

(** What a column of that affinity keeps of a value.  An integer under
    text affinity is kept as its decimal text; a text that reads as a
    number is kept as that number under the numeric affinities, and the
    model follows only where the number is written as a plain integer. *)
Definition apply_affinity (a : Affinity) (v : SqlValue) : res SqlValue :=
  match a, v with
  | AffText, SqlInteger n => Ok (SqlText (pretty n))
  | (AffNumeric | AffInteger), SqlText s =>
      if negb (has_digit s) then Ok v
      else match integer_literal s with
           | Some n => if int64 n then Ok (SqlInteger n) else Raise NotModelled
           | None => Raise NotModelled
           end
  | AffReal, SqlInteger _ => Raise NotModelled
  | AffReal, SqlText s => if negb (has_digit s) then Ok v else Raise NotModelled
  | _, _ => Ok v
  end.

(** The bytes a converter is handed for a stored value. *)
Definition stored_bytes (v : SqlValue) : string :=
  match v with
  | SqlInteger n => pretty n
  | SqlText s => s
  | SqlBlob s => s
  | SqlNull => EmptyString
  end.

(** A value of a row as Python gets it.  With [PARSE_DECLTYPES] a value
    other than NULL in a column whose declared type has a converter
    registered under it, in upper case, goes through that converter. *)
Definition fetch_value (converters : list (string * (string -> PyValue)))
    (decltype : string) (v : SqlValue) : PyValue :=
  match v with
  | SqlNull => PyNone
  | _ =>
      match list_find (fun c => c.1 = upper_string decltype) converters with
      | Some (_, (_, convert)) => convert (stored_bytes v)
      | None =>
          match v with
          | SqlInteger n => PyInt n
          | SqlText s => PyStr s
          | SqlBlob s => PyBytes s
          | SqlNull => PyNone
          end
      end
  end.

(** *** Tables, and a connection to the database

    A table keeps its fields with their declared types, the fields of its
    primary key, and its rows under their rowids, lowest first, which is
    the order [SELECT *] returns them in.  The limits the engine puts on
    the length of a statement and of a value are not modelled. *)

Record Table := {
  t_name : string;
  t_fields : list (string * string);
  t_primary_key : list string;
  t_rows : list (Z * list SqlValue) }.

Abbreviation Database := (list Table).

(** A connection: the database as its statements have left it, and, while
    a transaction is open, the database as it was when that began. *)
Record Connection := {
  c_db : Database;
  c_begun : option Database }.

Definition connect (db : Database) : Connection := {| c_db := db; c_begun := None |}.

Definition commit_connection (c : Connection) : Connection :=
  {| c_db := c_db c; c_begun := None |}.

Definition rollback (c : Connection) : Connection :=
  {| c_db := default (c_db c) (c_begun c); c_begun := None |}.

(** [with sqlite3.connect(...) as conn: body]: the connection commits when
    the body returns and rolls back when it raises. *)
Definition with_connection {A} (body : M Connection A) : M Database A :=
  fun db =>
    match body (connect db) with
    | (c, Ok a) => (c_db (commit_connection c), Ok a)
    | (c, Raise e) => (c_db (rollback c), Raise e)
    end.

Definition find_table (db : Database) (name : string) : option Table :=
  match list_find (fun t => same_name (t_name t) name) db with
  | Some (_, t) => Some t
  | None => None
  end.

Definition field_position (fields : list string) (name : string) : option nat :=
  match list_find (fun f => same_name f name) fields with
  | Some (i, _) => Some i
  | None => None
  end.

Definition MAX_COLUMN : nat := 2000.

(** [CREATE TABLE]: refused for a name that is reserved or taken, for too
    many fields, for two fields of one name, and for a primary key on a
    field the table does not have. *)
Definition create_table (name : string) (fields : list (string * string))
    (primary_key : list string) : M Database unit :=
  fun db =>
    if reserved_name name
       || bool_decide (is_Some (find_table db name))
       || bool_decide (MAX_COLUMN < length fields)
       || negb (bool_decide (NoDup (upper_string <$> fields.*1)))
       || negb (forallb (fun k => bool_decide (is_Some (field_position fields.*1 k)))
                  primary_key)
    then (db, Raise OperationalError)
    else (db ++ [{| t_name := name; t_fields := fields;
                    t_primary_key := primary_key; t_rows := [] |}], Ok tt).

(** The position of the field that stands for the rowid: the one field
    of the primary key, when it is declared INTEGER. *)
Definition rowid_alias (t : Table) : option nat :=
  match t_primary_key t with
  | [k] =>
      match field_position (t_fields t).*1 k with
      | Some j =>
          match t_fields t !! j with
          | Some (_, decltype) =>
              if bool_decide (upper_string decltype = "INTEGER") then Some j else None
          | None => None
          end
      | None => None
      end
  | _ => None
  end.

(** The rowid a row is given when none is bound for it. *)
Definition next_rowid (rows : list (Z * list SqlValue)) : Z :=
  match last rows with
  | None => 1
  | Some r => r.1 + 1
  end.

Fixpoint insert_sorted (r : Z * list SqlValue) (rows : list (Z * list SqlValue))
  : list (Z * list SqlValue) :=
  match rows with
  | [] => [r]
  | r' :: rest => if bool_decide (r.1 < r'.1)%Z then r :: rows
                  else r' :: insert_sorted r rest
  end.

(** The key of a row under the primary key of its table. *)
Definition primary_key_of (t : Table) (values : list SqlValue) : list SqlValue :=
  omap (fun k => match field_position (t_fields t).*1 k with
                 | Some j => values !! j
                 | None => None
                 end) (t_primary_key t).

(** The values of a row, field by field of the table: the value bound
    under the name of the field, [NULL] when there is none, as the
    affinity of the field keeps it. *)
Fixpoint store_fields (table_fields : list (string * string)) (fields : list string)
    (bound : list SqlValue) : res (list SqlValue) :=
  match table_fields with
  | [] => Ok []
  | (name, decltype) :: rest =>
      let v := match field_position fields name with
               | Some p => default SqlNull (bound !! p)
               | None => SqlNull
               end in
      match apply_affinity (affinity_of decltype) v with
      | Raise e => Raise e
      | Ok v' =>
          match store_fields rest fields bound with
          | Raise e => Raise e
          | Ok vs => Ok (v' :: vs)
          end
      end
  end.

Definition with_rows (t : Table) (rows : list (Z * list SqlValue)) : Table :=
  {| t_name := t_name t; t_fields := t_fields t;
     t_primary_key := t_primary_key t; t_rows := rows |}.

Definition add_row (t : Table) (rowid : Z) (values : list SqlValue) : res Table :=
  if bool_decide (rowid ∈ (t_rows t).*1) then Raise IntegrityError
  else if negb (int64 rowid) then Raise NotModelled
  else Ok (with_rows t (insert_sorted (rowid, values) (t_rows t))).

(** One row into a table.  Its rowid is the value of the field that
    stands for the rowid, or the next one free; its primary key, where no
    part of it is [NULL], must be new. *)
Definition insert_row (t : Table) (fields : list string) (bound : list SqlValue)
  : res Table :=
  match store_fields (t_fields t) fields bound with
  | Raise e => Raise e
  | Ok values =>
      match rowid_alias t with
      | Some j =>
          match values !! j with
          | Some (SqlInteger n) => add_row t n values
          | Some SqlNull =>
              let n := next_rowid (t_rows t) in
              add_row t n (<[j := SqlInteger n]> values)
          | _ => Raise IntegrityError
          end
      | None =>
          let key := primary_key_of t values in
          if negb (bool_decide (t_primary_key t = []))
             && negb (bool_decide (SqlNull ∈ key))
             && bool_decide (key ∈ (fun r => primary_key_of t r.2) <$> t_rows t)
          then Raise IntegrityError
          else add_row t (next_rowid (t_rows t)) values
      end
  end.

Definition replace_table (t : Table) (db : Database) : Database :=
  (fun t' => if bool_decide (t_name t' = t_name t) then t else t') <$> db.

(** What a cursor holds after a statement: the names of the columns of
    its rows, and the rows. *)
Record Cursor := {
  description : list string;
  fetched : list (list PyValue) }.

Definition no_rows : Cursor := {| description := []; fetched := [] |}.

(** [execute(sql)], with no values to bind: a CREATE TABLE or a SELECT.
    [converters] are those in force on the connection: the registered
    ones when it was opened with [PARSE_DECLTYPES], none otherwise. *)
Definition execute (converters : list (string * (string -> PyValue))) (sql : string)
  : M Connection Cursor :=
  fun c =>
    match parse sql with
    | Some (CreateTable name fields primary_key) =>
        match create_table name fields primary_key (c_db c) with
        | (db, Ok _) => ({| c_db := db; c_begun := c_begun c |}, Ok no_rows)
        | (_, Raise e) => (c, Raise e)
        end
    | Some (InsertInto _ _ _) => (c, Raise NotModelled)
    | Some (SelectAll name) =>
        if reserved_name name then (c, Raise NotModelled)
        else
          match find_table (c_db c) name with
          | None => (c, Raise OperationalError)
          | Some t =>
              (c, Ok {| description := (t_fields t).*1;
                        fetched := (fun r => zip_with (fetch_value converters)
                                               (t_fields t).*2 r.2) <$> t_rows t |})
          end
    | Some SelectTableNames =>
        (c, Ok {| description := ["name"];
                  fetched := (fun t => [PyStr (t_name t)]) <$> c_db c |})
    | None => (c, Raise NotModelled)
    end.

Fixpoint bind_row (adapters : list (DType * (Cell -> option PyValue)))
    (row : list PyValue) : res (list SqlValue) :=
  match row with
  | [] => Ok []
  | v :: row' =>
      match bind_parameter adapters v with
      | Raise e => Raise e
      | Ok x =>
          match bind_row adapters row' with
          | Raise e => Raise e
          | Ok xs => Ok (x :: xs)
          end
      end
  end.

(** The rows of [executemany], one after the other into the table; the
    first that fails stops the run, the rows before it staying where they
    are. *)
Fixpoint insert_rows (adapters : list (DType * (Cell -> option PyValue)))
    (name : string) (fields : list string) (rows : list (list PyValue))
  : M Database unit :=
  match rows with
  | [] => ret tt
  | row :: rest =>
      fun db =>
        if negb (bool_decide (length row = length fields))
        then (db, Raise ProgrammingError)
        else
          match bind_row adapters row with
          | Raise e => (db, Raise e)
          | Ok bound =>
              match find_table db name with
              | None => (db, Raise OperationalError)
              | Some t =>
                  match insert_row t fields bound with
                  | Raise e => (db, Raise e)
                  | Ok t' => insert_rows adapters name fields rest (replace_table t' db)
                  end
              end
          end
  end.

(** The names the rowid goes by where no field has them. *)
Definition ROWID_NAMES : list string := ["ROWID"; "OID"; "_ROWID_"].

(** The number of [?] every build of the engine takes. *)
Definition MAX_VARIABLE_NUMBER : nat := 999.

(** [executemany(sql, rows)] for an INSERT.  The statement is checked
    against the table first; then a transaction is begun, unless one is
    open, and the rows go in.  Not modelled: a field named twice, the
    rowid named as a field, and more [?] than every build takes. *)
Definition executemany (adapters : list (DType * (Cell -> option PyValue)))
    (sql : string) (rows : list (list PyValue)) : M Connection unit :=
  fun c =>
    match parse sql with
    | Some (InsertInto name fields n) =>
        if reserved_name name then (c, Raise NotModelled)
        else
          match find_table (c_db c) name with
          | None => (c, Raise OperationalError)
          | Some t =>
              if existsb (fun f => bool_decide (upper_string f ∈ ROWID_NAMES)
                                   && negb (bool_decide
                                              (is_Some (field_position (t_fields t).*1 f))))
                   fields
                 || negb (bool_decide (NoDup (upper_string <$> fields)))
                 || bool_decide (MAX_VARIABLE_NUMBER < n)
              then (c, Raise NotModelled)
              else if negb (forallb (fun f => bool_decide
                                      (is_Some (field_position (t_fields t).*1 f))) fields)
                      || negb (bool_decide (length fields = n))
              then (c, Raise OperationalError)
              else
                let begun := match c_begun c with
                             | Some db => Some db
                             | None => Some (c_db c)
                             end in
                match insert_rows adapters name fields rows (c_db c) with
                | (db, r) => ({| c_db := db; c_begun := begun |}, r)
                end
          end
    | _ => (c, Raise NotModelled)
    end.

(** *** The parts of [Store] and [Frame] that [StoreSQLite] calls *)

(** Modelled from the spec: [Store.get_field_names_and_dtypes]
    (static_frame/core/store.py): the name of the index, if included,
    [__index0__] when it has none, then the names of the columns, or
    their positions when the columns are not included; and the dtypes in
    that order. *)
Definition get_field_names_and_dtypes (frame : Frame)
    (include_index include_columns : bool) : list string * list DType :=
  ((if include_index then [default "__index0__" (f_index_name frame)] else [])
     ++ (if include_columns then c_name <$> f_columns frame
         else imap (fun i _ => pretty i) (f_columns frame)),
   (if include_index then [f_index_dtype frame] else [])
     ++ (c_dtype <$> f_columns frame)).

Definition np_int (size : nat) (n : Z) : bool :=
  bool_decide (size ∈ [1; 2; 4; 8])
  && bool_decide (- 2 ^ (8 * Z.of_nat size - 1) <= n < 2 ^ (8 * Z.of_nat size - 1))%Z.

Definition np_uint (size : nat) (n : Z) : bool :=
  bool_decide (size ∈ [1; 2; 4; 8])
  && bool_decide (0 <= n < 2 ^ (8 * Z.of_nat size))%Z.

(** Modelled from the spec: a cell that an array of the dtype can hold.
    The dtypes of the model are the Boolean, the signed and unsigned
    integer, the string and the object dtypes. *)
Definition Cell_conforms (dtype : DType) (c : Cell) : bool :=
  match c with
  | CBool _ => bool_decide (dtype = DTYPE_BOOL) || bool_decide (dtype = DTYPE_OBJECT)
  | CInt n =>
      (bool_decide (kind dtype = "i"%char) && np_int (itemsize dtype) n)
      || (bool_decide (kind dtype = "u"%char) && np_uint (itemsize dtype) n)
      || bool_decide (dtype = DTYPE_OBJECT)
  | CStr _ => bool_decide (kind dtype = "U"%char) || bool_decide (dtype = DTYPE_OBJECT)
  | CBytes _ => bool_decide (dtype = DTYPE_OBJECT)
  | CNone => bool_decide (dtype = DTYPE_OBJECT)
  end.

(** An object that is no numpy scalar. *)
Definition native (c : Cell) : PyValue :=
  match c with
  | CBool b => PyBool b
  | CInt n => PyInt n
  | CStr s => PyStr s
  | CBytes s => PyBytes s
  | CNone => PyNone
  end.

(** Modelled from the spec: an element read from an array is a scalar of
    the dtype of the array, and the object it holds when that dtype is
    object. *)
Definition array_item (dtype : DType) (c : Cell) : PyValue :=
  if bool_decide (dtype = DTYPE_OBJECT) then native c else NpScalar dtype c.

(** Modelled from the spec: the dtype of the array [Frame.iter_array(1)]
    gives for a row ([resolve_dtype] of static_frame/core/util.py): the
    dtype of the columns when they share one; the widest of them when all
    are strings, or all signed integers, or all unsigned integers; object
    when a Boolean, a string or an object column is among others.  What
    numpy makes of signed and unsigned integers together is not
    modelled. *)
Definition widest (k : ascii) (dtypes : list DType) : DType :=
  {| kind := k; itemsize := max_list (itemsize <$> dtypes) |}.

Definition row_dtype (dtypes : list DType) : res DType :=
  match dtypes with
  | [] => Ok DTYPE_OBJECT
  | d :: rest =>
      if forallb (fun d' => bool_decide (d' = d)) rest then Ok d
      else if forallb (fun d' => bool_decide (kind d' = "U"%char)) dtypes
      then Ok (widest "U" dtypes)
      else if forallb (fun d' => bool_decide (kind d' = "i"%char)) dtypes
      then Ok (widest "i" dtypes)
      else if forallb (fun d' => bool_decide (kind d' = "u"%char)) dtypes
      then Ok (widest "u" dtypes)
      else if existsb (fun d' => bool_decide (kind d' ∈ ["b"; "U"; "O"]%char)) dtypes
      then Ok DTYPE_OBJECT
      else Raise NotModelled
  end.

(** Modelled from the spec: [Store._get_row_iterator]
    (static_frame/core/store.py): per row, the label of the index, if
    included, as the index array holds it, then the values of the row as
    [Frame.iter_array(1)] gives them. *)
Definition _get_row_iterator (frame : Frame) (include_index : bool)
  : res (list (list PyValue)) :=
  if negb (forallb (Cell_conforms (f_index_dtype frame)) (f_index frame)
           && forallb (fun c => bool_decide (length (c_values c) = length (f_index frame))
                                && forallb (Cell_conforms (c_dtype c)) (c_values c))
                (f_columns frame))
  then Raise NotModelled
  else
    match row_dtype (c_dtype <$> f_columns frame) with
    | Raise e => Raise e
    | Ok dtype =>
        Ok (imap (fun i label =>
                    (if include_index then [array_item (f_index_dtype frame) label]
                     else [])
                      ++ omap (fun c => array_item dtype <$> c_values c !! i)
                           (f_columns frame))
              (f_index frame))
    end.

Definition cell_of (v : PyValue) : Cell :=
  match v with
  | PyNone => CNone
  | PyBool b => CBool b
  | PyInt n => CInt n
  | PyStr s => CStr s
  | PyBytes s => CBytes s
  | NpScalar _ c => c
  end.

(** Modelled from the spec: the dtype numpy gives the values of a column
    that come as Python objects. *)
Definition infer_dtype (cells : list Cell) : DType :=
  match cells with
  | [] => DTYPE_OBJECT
  | _ =>
      if forallb (fun c => match c with CBool _ => true | _ => false end) cells
      then DTYPE_BOOL
      else if forallb (fun c => match c with CInt _ => true | _ => false end) cells
      then DTYPE_INT_DEFAULT
      else if forallb (fun c => match c with CStr _ => true | _ => false end) cells
      then DTYPE_STR (max_list ((fun c => match c with
                                          | CStr s => String.length s
                                          | _ => 0
                                          end) <$> cells) `max` 1)
      else DTYPE_OBJECT
  end.

(** Modelled from the spec: [Frame.from_sql] (static_frame/core/frame.py)
    for an index depth and a columns depth of one: the query is run on
    the connection, the first field of its rows becomes the index, which
    has no name of its own, the other fields the columns.  No frame is
    made of no rows, and none whose index labels repeat; what is made of
    rows of one field only is not modelled. *)
Definition Frame_from_sql (converters : list (string * (string -> PyValue)))
    (query : string) (name : string) : M Connection Frame :=
  cursor <- execute converters query ;;
  match description cursor with
  | [] | [_] => raise NotModelled
  | _ :: column_fields =>
      let rows := (fun row : list PyValue => cell_of <$> row) <$> fetched cursor in
      let index := omap (fun row => row !! 0) rows in
      if bool_decide (rows = []) then raise ErrorInitFrame
      else if negb (bool_decide (NoDup index)) then raise ErrorInitIndex
      else
        ret {| f_name := Some name;
               f_index_name := None;
               f_index_dtype := infer_dtype index;
               f_index := index;
               f_columns :=
                 imap (fun j field =>
                         let cells := omap (fun row => row !! S j) rows in
                         {| c_name := field;
                            c_dtype := infer_dtype cells;
                            c_values := cells |})
                      column_fields |}
  end.

Module StoreSQLite.

(** Modelled from the spec: the dtype kinds of static_frame/core/util.py
    (string kinds, integer kinds, floating or missing kinds). *)
Definition DTYPE_STR_KIND : list ascii := ["U"%char; "S"%char].
Definition DTYPE_INT_KIND : list ascii := ["i"%char; "u"%char].
Definition DTYPE_NAN_KIND : list ascii := ["f"%char; "c"%char].

Definition _BYTES_ONE : string := "1".

Definition _dtype_to_affinity_type (dtype : DType) : string :=
  if bool_decide (dtype = DTYPE_BOOL) then "BOOLEAN"
  else if bool_decide (kind dtype ∈ DTYPE_STR_KIND) then "TEXT"
  else if bool_decide (kind dtype ∈ DTYPE_INT_KIND) then "INTEGER"
  else if bool_decide (kind dtype ∈ DTYPE_NAN_KIND) then "REAL"
  else "NONE".

(** The adapters [write] registers: [np.int64] and [np.int32], each to
    [int]. *)
Definition to_int (c : Cell) : option PyValue :=
  match c with
  | CInt n => Some (PyInt n)
  | _ => None
  end.

Definition ADAPTERS : list (DType * (Cell -> option PyValue)) :=
  [({| kind := "i"; itemsize := 8 |}, to_int); ({| kind := "i"; itemsize := 4 |}, to_int)].

Definition _frame_to_table (frame : Frame) (label : option string)
    (include_columns include_index : bool) : M Connection unit :=
  let label := default "None" label in
  let '(field_names, dtypes) :=
    get_field_names_and_dtypes frame include_index include_columns in
  let create_primary_key :=
    if negb include_index then ""
    else
      let primary_fields := String.concat ", " (take 1 field_names) in
      ", PRIMARY KEY (" +:+ primary_fields +:+ ")" in
  let field_name_to_field_type := zip field_names (_dtype_to_affinity_type <$> dtypes) in
  let create_fields :=
    String.concat ", " ((fun kv : string * string => kv.1 +:+ " " +:+ kv.2)
                          <$> field_name_to_field_type) in
  let create :=
    "CREATE TABLE " +:+ label +:+ " (" +:+ create_fields +:+ create_primary_key +:+ ")" in
  execute [] create ;;;
  let insert_fields := String.concat ", " field_names in
  let insert_template := String.concat ", " ((fun _ => "?") <$> field_names) in
  let insert :=
    "INSERT INTO " +:+ label +:+ " (" +:+ insert_fields +:+ ") VALUES ("
      +:+ insert_template +:+ ")" in
  values <- lift (_get_row_iterator frame include_index) ;;
  executemany ADAPTERS insert values.

(** The loop of [write] over its items. *)
Fixpoint write_items (items : list (option string * Frame))
    (include_index include_columns : bool) : M Connection unit :=
  match items with
  | [] => ret tt
  | (label, frame) :: rest =>
      _frame_to_table frame label include_columns include_index ;;;
      write_items rest include_index include_columns
  end.

Definition write (items : list (option string * Frame))
    (include_index include_columns : bool) : M Database unit :=
  with_connection
    (write_items items include_index include_columns ;;;
     modify commit_connection).

(** The converter [read] registers: [lambda x: x == self._BYTES_ONE]. *)
Definition BOOLEAN_converter (x : string) : PyValue :=
  PyBool (bool_decide (x = _BYTES_ONE)).

Definition CONVERTERS : list (string * (string -> PyValue)) :=
  [("BOOLEAN", BOOLEAN_converter)].

(** [read(label)] with the default index depth and columns depth of one
    and no dtypes given, on a connection opened with
    [PARSE_DECLTYPES]. *)
Definition read (label : string) : M Database Frame :=
  with_connection
    (let query := "SELECT * from " +:+ label in
     Frame_from_sql CONVERTERS query label).

(** The names [labels] yields, the generator run to its end. *)
Definition labels : M Database (list string) :=
  with_connection
    (cursor <- execute [] "SELECT name FROM sqlite_master WHERE type='table';" ;;
     ret (omap (fun row => match row !! 0 with
                           | Some (PyStr s) => Some s
                           | _ => None
                           end) (fetched cursor))).

End StoreSQLite.

(** * Specifications

    The vocabulary of the properties: the view of a bus read off the
    heap, its invariant, ownership, and operations as steps. *)

(** ** The invariant of the cache-update loop *)

(** What holds of the loop's objects between two iterations: the flag of a
    slot says whether the slot holds a frame, and under a ceiling the keys
    of [_last_accessed] are the labels of the loaded slots, counted by
    [loaded_count], which the ceiling bounds. *)
Record locals_ok (index : list Label) (max_persist : option Z) (s : Locals) : Prop := {
  ok_flags : l_loaded s = is_Frame <$> l_array s;
  ok_length : length (l_array s) = length index;
  ok_values : VOther ∉ l_array s;
  ok_lru : forall k, max_persist = Some k ->
    NoDup (l_last s) /\
    (forall l, l ∈ l_last s <->
               exists i, index !! i = Some l /\ l_loaded s !! i = Some true) /\
    l_count s = count_true (l_loaded s) /\
    (l_count s <= k)%Z }.

(** The state the loop body is in once the label is touched. *)
Definition touched (mp : option Z) (label : Label) (s : Locals) : Locals :=
  if is_active mp then set_last (dict_touch (l_last s) label) s else s.

(** The store reads the label, under the configuration of the label. *)
Definition readable (store : Store) (config : StoreConfigMap) (label : Label)
  : Prop :=
  is_Some (store_read store label (StoreConfigMap_getitem config label)).

(** ** A bus and the objects it owns, read off the heap *)

Record View := {
  v_bus : BusObj;
  v_loaded : list bool;            (* the contents of the [_loaded] ndarray *)
  v_last : PyDict }.               (* the keys of [_last_accessed], if any *)

(** The attribute [_last_accessed] exists exactly when there is a ceiling. *)
Definition attrs_ok (bus : BusObj) : Prop :=
  match _max_persist bus, _last_accessed bus with
  | Some _, Some _ | None, None => True
  | _, _ => False
  end.

Definition view_of (h : Heap) (self : ref) : option View :=
  match h !! self with
  | Some (OBus bus) =>
      match h !! _loaded bus with
      | Some (ONdarray a) =>
          match _last_accessed bus with
          | Some last =>
              match h !! last with
              | Some (ODict d) => Some {| v_bus := bus; v_loaded := a; v_last := d |}
              | _ => None
              end
          | None => Some {| v_bus := bus; v_loaded := a; v_last := [] |}
          end
      | _ => None
      end
  | _ => None
  end.

(** Store a view back under the references of the bus. *)
Definition commit (self : ref) (v : View) (h : Heap) : Heap :=
  <[self := OBus (v_bus v)]>
    (match _last_accessed (v_bus v) with
     | Some last => <[last := ODict (v_last v)]>
     | None => fun h => h
     end (<[_loaded (v_bus v) := ONdarray (v_loaded v)]> h)).

(** The published series after a completed cache update. *)
Definition with_values (bus : BusObj) (loaded : list bool) (array : list Value) : BusObj :=
  {| _loaded := _loaded bus;
     _loaded_all := all_true loaded;
     _series := {| s_dtype := DTYPE_OBJECT;
                   s_index := s_index (_series bus);
                   s_values := array;
                   s_name := None |};
     _store := _store bus;
     _config := _config bus;
     _last_accessed := _last_accessed bus;
     _max_persist := _max_persist bus |}.

(** [_update_series_cache_iloc] as a function of the view of its bus. *)
Definition update_view (v : View) (key : Key) : View * res unit :=
  let bus := v_bus v in
  match Bus.load_needed bus (v_loaded v) key with
  | Raise e => (v, Raise e)
  | Ok false =>
      match _max_persist bus with
      | None => (v, Ok tt)
      | Some _ =>
          match Bus.requested_labels (s_index (_series bus)) key with
          | Raise e => (v, Raise e)
          | Ok labels =>
              ({| v_bus := bus; v_loaded := v_loaded v;
                  v_last := foldl dict_touch (v_last v) labels |}, Ok tt)
          end
      end
  | Ok true =>
      match _store bus with
      | None => (v, Raise RuntimeError)
      | Some store =>
          match Series_iloc (_series bus) key with
          | Raise e => (v, Raise e)
          | Ok targets =>
              let '(locals, outcome) :=
                cache_loop (s_index (_series bus)) store (_config bus)
                  (_max_persist bus) targets
                  {| l_loaded := v_loaded v;
                     l_last := v_last v;
                     l_array := s_values (_series bus);
                     l_count := count_true (v_loaded v) |} in
              ({| v_bus := match outcome with
                           | Ok _ => with_values bus (l_loaded locals) (l_array locals)
                           | Raise _ => bus
                           end;
                  v_loaded := l_loaded locals;
                  v_last := if is_active (_max_persist bus) then l_last locals
                            else v_last v |},
               outcome)
          end
      end
  end.

(** ** The invariant of a bus *)

Definition locals_of (v : View) : Locals :=
  {| l_loaded := v_loaded v;
     l_last := v_last v;
     l_array := s_values (_series (v_bus v));
     l_count := count_true (v_loaded v) |}.

(** The state of a bus between two operations that completed: flags,
    slots and recency agree, and the ceiling bounds the loaded slots. *)
Record view_ok (v : View) : Prop := {
  vo_attrs : attrs_ok (v_bus v);
  vo_index : NoDup (s_index (_series (v_bus v)));
  vo_strings : forall l, l ∈ s_index (_series (v_bus v)) -> is_str l = true;
  vo_all : _loaded_all (v_bus v) = all_true (v_loaded v);
  vo_locals : locals_ok (s_index (_series (v_bus v))) (_max_persist (v_bus v))
                (locals_of v) }.

(** What no cache update re-binds. *)
Definition same_static (b b' : BusObj) : Prop :=
  _loaded b' = _loaded b /\
  _last_accessed b' = _last_accessed b /\
  _max_persist b' = _max_persist b /\
  _store b' = _store b /\
  _config b' = _config b /\
  s_index (_series b') = s_index (_series b).

(** ** Ownership

    Every bus of the heap has its objects, and no two buses share one. *)

Record heap_ok (h : Heap) : Prop := {
  ho_views : forall b bus, h !! b = Some (OBus bus) ->
             attrs_ok bus /\ is_Some (view_of h b);
  ho_sep : forall b1 b2 bus1 bus2,
      b1 <> b2 ->
      h !! b1 = Some (OBus bus1) -> h !! b2 = Some (OBus bus2) ->
      _loaded bus1 <> _loaded bus2 /\
      (forall last, _last_accessed bus1 = Some last -> _last_accessed bus2 <> Some last) }.

(** ** Construction *)

(** The bus object [__init__] builds, its objects allocated from [base] on. *)
Definition new_bus (series : Series) (store : option Store)
    (config : StoreConfigMapInitializer) (mp : option Z) (loaded : list bool)
    (base : nat) : BusObj :=
  {| _loaded := if is_active mp then S base else base;
     _loaded_all := all_true loaded;
     _series := series;
     _store := store;
     _config := StoreConfigMap_from_initializer config;
     _last_accessed := if is_active mp then Some base else None;
     _max_persist := mp |}.

Definition new_cells (series : Series) (store : option Store)
    (config : StoreConfigMapInitializer) (mp : option Z) (loaded : list bool)
    (d : PyDict) (base : nat) : list Obj :=
  (if is_active mp then [ODict d] else [])
    ++ [ONdarray loaded; OBus (new_bus series store config mp loaded base)].

Definition over_ceiling (mp : option Z) (loaded : list bool) : bool :=
  match mp with
  | Some k => bool_decide (k < count_true loaded)%Z
  | None => false
  end.

(** What [Series] and [Index] guarantee of a series handed to [__init__]. *)
Definition Series_valid (s : Series) : Prop :=
  NoDup (s_index s) /\ length (s_index s) = length (s_values s).

Definition new_view (series : Series) (store : option Store)
    (config : StoreConfigMapInitializer) (mp : option Z) (loaded : list bool)
    (d : PyDict) (base : nat) : View :=
  {| v_bus := new_bus series store config mp loaded base;
     v_loaded := loaded;
     v_last := if is_active mp then d else [] |}.

(** ** Operations as steps on the heap *)

(** What an operation on [self] may do to the heap [h], ending in [h']:
    ownership is kept, objects are only added, and the view of any other
    bus of [h] is as before. *)
Record frame (self : ref) (h h' : Heap) : Prop := {
  fr_heap : heap_ok h';
  fr_length : length h <= length h';
  fr_others : forall b, b <> self -> b < length h -> view_of h' b = view_of h b;
  fr_self : forall v, view_of h self = Some v ->
            exists v', view_of h' self = Some v' /\ same_static (v_bus v) (v_bus v') }.

(** ... and when it completes, the invariant holds of [self] and of the
    buses it added. *)
Definition restores (self : ref) (h h' : Heap) : Prop :=
  forall b v, view_of h' b = Some v -> b = self \/ length h <= b -> view_ok v.

(** The invariant of every bus of the heap. *)
Definition world_ok (h : Heap) : Prop :=
  heap_ok h /\ forall b v, view_of h b = Some v -> view_ok v.

(** A step that only adds objects. *)
Record extends (h h' : Heap) : Prop := {
  ex_heap : heap_ok h';
  ex_length : length h <= length h';
  ex_views : forall b, b < length h -> view_of h' b = view_of h b }.

(** ** Public operations *)

Inductive Op :=
  | OpGetitem (key : LocKey)       (* bus[key], bus.loc[key] *)
  | OpIloc (key : Key)             (* bus.iloc[key] *)
  | OpItems                        (* bus.items() *)
  | OpValues                       (* bus.values *)
  | OpDtypes
  | OpShapes
  | OpNbytes
  | OpEquals (other : ref) (compare_name : bool).

Definition exec (self : ref) (op : Op) : M Heap unit :=
  match op with
  | OpGetitem key => Bus.__getitem__ self key ;;; ret tt
  | OpIloc key => Bus._extract_iloc self key ;;; ret tt
  | OpItems => Bus.items self ;;; ret tt
  | OpValues => Bus.values self ;;; ret tt
  | OpDtypes => Bus.dtypes self ;;; ret tt
  | OpShapes => Bus.shapes self ;;; ret tt
  | OpNbytes => Bus.nbytes self ;;; ret tt
  | OpEquals other compare_name => Bus.equals self other compare_name ;;; ret tt
  end.

(** A run of operations, each on the bus named with it, up to the first
    one that raises. *)
Fixpoint exec_all (ops : list (ref * Op)) : M Heap unit :=
  match ops with
  | [] => ret tt
  | (self, op) :: rest => exec self op ;;; exec_all rest
  end.

(** An action on [self] is a step: it frames the other buses and, when it
    completes from a heap where every invariant holds, restores that of
    [self] and of the buses it made. *)
Definition step_of {A} (self : ref) (m : M Heap A) : Prop :=
  forall h h' r, heap_ok h -> m h = (h', r) ->
    frame self h h' /\ (world_ok h -> is_ok r = true -> restores self h h').

(** ** Sample data *)

Definition column (name : string) (dtype : DType) (cells : list Cell) : Column :=
  {| c_name := name; c_dtype := dtype; c_values := cells |}.

(** A frame of shape (3, 2) with one Boolean column. *)
Definition frame_a : Frame :=
  {| f_name := Some "a";
     f_index_name := None;
     f_index_dtype := DTYPE_STR 1;
     f_index := [CStr "x"; CStr "y"; CStr "z"];
     f_columns := [column "p" DTYPE_INT_DEFAULT [CInt 1; CInt 2; CInt 3];
                   column "q" DTYPE_BOOL [CBool true; CBool false; CBool true]] |}.

(** A frame of shape (2, 2), all integers. *)
Definition frame_b : Frame :=
  {| f_name := Some "b";
     f_index_name := None;
     f_index_dtype := DTYPE_STR 1;
     f_index := [CStr "x"; CStr "y"];
     f_columns := [column "p" DTYPE_INT_DEFAULT [CInt 10; CInt 20];
                   column "q" DTYPE_INT_DEFAULT [CInt 50; CInt 60]] |}.

Definition frame_c : Frame :=
  {| f_name := Some "c";
     f_index_name := None;
     f_index_dtype := DTYPE_STR 1;
     f_index := [CStr "x"];
     f_columns := [column "p" DTYPE_INT_DEFAULT [CInt 7]] |}.

(** A store holding the given frames under the labels a, b and c. *)
Definition store_abc (fa fb fc : option Frame) : Store :=
  {| store_read := fun l _ =>
       match l with
       | LStr "a" => fa
       | LStr "b" => fb
       | LStr "c" => fc
       | _ => None
       end;
     store_labels := [LStr "a"; LStr "b"; LStr "c"] |}.

(** The flags and the slots of a bus. *)
Definition residency (h : Heap) (b : ref) : option (list bool * list Value) :=
  match view_of h b with
  | Some v => Some (v_loaded v, s_values (_series (v_bus v)))
  | None => None
  end.

Definition sample_ops : list (ref * Op) :=
  [(2, OpGetitem (LocLabel (LStr "a")));
   (2, OpGetitem (LocLabel (LStr "b")));
   (2, OpIloc (KList [0%Z; 2%Z]));
   (2, OpValues)].

Definition sample_store : Store :=
  store_abc (Some frame_a) (Some frame_b) (Some frame_c).

(** ** Vocabulary of the claims *)

(** The key of the cache update an operation starts with, if it starts
    with one. *)
Definition cache_key (h : Heap) (self : ref) (index : list Label) (op : Op)
  : option Key :=
  match op with
  | OpGetitem key =>
      match loc_key_to_iloc index key with
      | Ok k => Some k
      | Raise _ => None
      end
  | OpIloc key => Some key
  | OpItems | OpValues => Some NULL_SLICE
  | OpEquals other _ =>
      if bool_decide (other = self) then None
      else match h !! other with
           | Some (OBus _) => Some NULL_SLICE
           | _ => None
           end
  | OpDtypes | OpShapes | OpNbytes => None
  end.

Definition store_without_b : Store := store_abc (Some frame_a) None (Some frame_c).

Definition all_readable (v : View) : Prop :=
  forall p l, s_index (_series (v_bus v)) !! p = Some l ->
              s_values (_series (v_bus v)) !! p = Some FrameDeferred ->
              exists store, _store (v_bus v) = Some store /\
                            readable store (_config (v_bus v)) l.

(** The ceiling, if there is one, is no lower than the number of labels:
    the test of line 228 never finds the loaded count above it. *)
Definition roomy (v : View) : Prop :=
  match _max_persist (v_bus v) with
  | None => True
  | Some k => (Z.of_nat (length (s_index (_series (v_bus v)))) <= k)%Z
  end.

(** The label of the row [dtypes] gives a loaded frame. *)
Definition named_as (l : Label) (x : Value) : Prop :=
  match x with
  | VFrame f => (Frame_dtypes_series f).1 = l
  | _ => False
  end.

(** The rows [dtypes] stacks: one per loaded frame, in slot order. *)
Definition dtypes_rows (values : list Value) : list (Label * DtypesRow) :=
  omap (fun x => match x with
                 | VFrame f => Some (Frame_dtypes_series f)
                 | _ => None
                 end) values.

Definition shape_of (x : Value) : option (nat * nat) :=
  match x with VFrame f => Some (Frame_shape f) | _ => None end.

Definition nbytes_of (x : Value) : nat :=
  match x with VFrame f => Frame_nbytes f | _ => 0 end.

(** The series a slice wraps. *)
Definition slice_series (parent : Series) (ps : list nat) : Series :=
  {| s_dtype := DTYPE_OBJECT;
     s_index := take_at (s_index parent) ps;
     s_values := take_at (s_values parent) ps;
     s_name := s_name parent |}.

Definition parent_two : Heap :=
  (Bus._from_store sample_store InitNone (Some 2%Z) []).1.

Definition two_buses : Heap :=
  (Bus._from_store sample_store InitNone None
     (Bus._from_store sample_store InitNone None []).1).1.

(** ** Vocabulary of the further properties *)

Definition frame_behind (bus : BusObj) (label : Label) (x : Value) : option Frame :=
  match x with
  | VFrame f => Some f
  | FrameDeferred =>
      match _store bus with
      | Some store => store_read store label (StoreConfigMap_getitem (_config bus) label)
      | None => None
      end
  | VOther => None
  end.

Definition fresh_bus : Heap := (Bus._from_store sample_store InitNone None []).1.

Definition label_a : LocKey := LocLabel (LStr "a").
Definition label_b : LocKey := LocLabel (LStr "b").
Definition label_c : LocKey := LocLabel (LStr "c").

Definition fresh_read_a : Heap := (exec_all [(1, OpGetitem label_a)] fresh_bus).1.

Definition parent_two_read_ab : Heap :=
  (exec_all [(2, OpGetitem label_a); (2, OpGetitem label_b)] parent_two).1.

(** A bus of three deferred slots that was given no store. *)
Definition no_store_bus : Heap :=
  (Bus.__init__ {| s_dtype := DTYPE_OBJECT;
                   s_index := [LStr "a"; LStr "b"; LStr "c"];
                   s_values := [FrameDeferred; FrameDeferred; FrameDeferred];
                   s_name := None |} None InitNone None []).1.

(** Reads on a bus that holds the frame of a, running into the label b
    that [store_without_b] cannot read. *)
Definition ops_hitting_b : list (ref * Op) :=
  [(1, OpGetitem label_a); (1, OpShapes); (1, OpIloc (KInt 2)); (1, OpValues)].

Definition without_b_bus : Heap :=
  (Bus._from_store store_without_b InitNone None []).1.

Definition without_b_read_a : Heap :=
  (exec_all [(1, OpGetitem label_a)] without_b_bus).1.

(** A bus built around a named series of three deferred slots. *)
Definition named_bus : Heap :=
  (Bus.__init__ {| s_dtype := DTYPE_OBJECT;
                   s_index := [LStr "a"; LStr "b"; LStr "c"];
                   s_values := [FrameDeferred; FrameDeferred; FrameDeferred];
                   s_name := Some "prices" |} (Some sample_store) InitNone None []).1.

(** Two buses over the same store, the second one materialized. *)
Definition second_loaded : Heap := (exec_all [(3, OpValues)] two_buses).1.

(** The slots that hold a frame once the loop, under the ceiling [k], has
    walked the first [j] labels of a bus that had nothing loaded: the last
    [k] of them. *)
Definition resident (k : Z) (j p : nat) : bool :=
  bool_decide (j - Z.to_nat k <= p < j).

(** The objects of the loop at that point, [frames] being what the store
    reads under the labels of [index]. *)
Definition walked (k : Z) (index : list Label) (frames : list Frame) (j : nat) : Locals :=
  {| l_loaded := imap (fun p _ => resident k j p) frames;
     l_last := drop (j - Z.to_nat k) (take j index);
     l_array := imap (fun p f => if resident k j p then VFrame f else FrameDeferred) frames;
     l_count := Z.of_nat (j `min` Z.to_nat k) |}.

Definition parent_one : Heap :=
  (Bus._from_store sample_store InitNone (Some 1%Z) []).1.


(** *** The SQLite store *)

(** The name of the table a label is written to. *)
Definition table_name (label : option string) : string := default "None" label.

(** The fields of the table of a frame, index first, and the types they
    are declared with. *)
Definition field_names (f : Frame) : list string :=
  default "__index0__" (f_index_name f) :: (c_name <$> f_columns f).

Definition affinities (f : Frame) : list string :=
  StoreSQLite._dtype_to_affinity_type <$> (f_index_dtype f :: (c_dtype <$> f_columns f)).

Definition cells (f : Frame) : list Cell * list (list Cell) :=
  (f_index f, c_values <$> f_columns f).

(** What the engine stores of a cell. *)
Definition sql_of (c : Cell) : SqlValue :=
  match c with
  | CBool b => SqlInteger (if b then 1 else 0)
  | CInt n => SqlInteger n
  | CStr s => SqlText s
  | CBytes s => SqlBlob s
  | CNone => SqlNull
  end.

(** Rows under the rowids the engine gives them, one after the other
    from one. *)
Definition numbered (rows : list (list SqlValue)) : list (Z * list SqlValue) :=
  imap (fun i values => (Z.of_nat (S i), values)) rows.

(** The values of the rows of a frame, the label of the index first. *)
Definition row_values (f : Frame) : list (list SqlValue) :=
  imap (fun i label =>
          sql_of label :: omap (fun c => sql_of <$> c_values c !! i) (f_columns f))
       (f_index f).

(** The rows of a frame as its table holds them. *)
Definition table_rows (f : Frame) : list (Z * list SqlValue) :=
  numbered (row_values f).

(** The table of a frame, with the rows given. *)
Definition table_of (name : string) (f : Frame) (rows : list (Z * list SqlValue)) : Table :=
  {| t_name := name;
     t_fields := zip (field_names f) (affinities f);
     t_primary_key := take 1 (field_names f);
     t_rows := rows |}.

Definition np_int64 : DType := {| kind := "i"; itemsize := 8 |}.
Definition np_int32 : DType := {| kind := "i"; itemsize := 4 |}.

(** The dtypes whose cells come back from the database as they went in:
    Booleans, integers of 64 or 32 bits, strings. *)
Definition plain_dtype (d : DType) : Prop :=
  d = DTYPE_BOOL \/ d = np_int64 \/ d = np_int32 \/ kind d = "U"%char.

(** A frame that [write] stores and [read] gives back: fields named by
    identifiers that differ beyond the case of their letters, no more of
    them than the engine binds values for; a row at least, and fewer than
    there are rowids; an index of strings; columns of plain dtypes, as
    long as the index, holding what their dtypes announce, and not all
    of them Boolean. *)
Record sqlite_frame (f : Frame) : Prop := {
  sf_names : Forall (fun n => bare_identifier n = true) (field_names f);
  sf_distinct : NoDup (upper_string <$> field_names f);
  sf_width : length (field_names f) <= MAX_VARIABLE_NUMBER;
  sf_rows : f_index f <> [];
  sf_height : (Z.of_nat (length (f_index f)) < 2 ^ 63)%Z;
  sf_index_dtype : kind (f_index_dtype f) = "U"%char;
  sf_index : NoDup (f_index f);
  sf_index_cells : Forall (fun c => Cell_conforms (f_index_dtype f) c = true) (f_index f);
  sf_columns : Forall (fun c => plain_dtype (c_dtype c) /\
                                length (c_values c) = length (f_index f) /\
                                Forall (fun x => Cell_conforms (c_dtype c) x = true)
                                  (c_values c)) (f_columns f);
  sf_mixed : Exists (fun c => c_dtype c <> DTYPE_BOOL) (f_columns f) }.

(** What a text must begin with for the word before it to end. *)
Definition breaks (s : string) : Prop :=
  match s with
  | EmptyString => True
  | String c _ => is_word_char c = false /\ c <> "'"%char
  end.

(** The tokens of items written one after the other with a comma and a
    blank between them. *)
Fixpoint sep_tokens {A} (tokens : A -> list Token) (items : list A) : list Token :=
  match items with
  | [] => []
  | [x] => tokens x
  | x :: (_ :: _) as rest => tokens x ++ TComma :: sep_tokens tokens rest
  end.

(** The two statements of [_frame_to_table] for a frame written with its
    index and its columns. *)
Definition create_text (name : string) (fields : list (string * string))
    (primary_field : string) : string :=
  "CREATE TABLE " +:+ name +:+ " ("
    +:+ String.concat ", " ((fun kv : string * string => kv.1 +:+ " " +:+ kv.2) <$> fields)
    +:+ (", PRIMARY KEY (" +:+ primary_field +:+ ")") +:+ ")".

Definition insert_text (name : string) (fields : list string) : string :=
  "INSERT INTO " +:+ name +:+ " (" +:+ String.concat ", " fields +:+ ") VALUES ("
    +:+ String.concat ", " ((fun _ => "?") <$> fields) +:+ ")".

(** The tables [write] adds for its items, and what makes the items
    writable: names the statements can carry, and frames the tables can
    hold. *)
Definition tables_of (items : list (option string * Frame)) : list Table :=
  (fun item => table_of (table_name item.1) item.2 (table_rows item.2)) <$> items.

Definition sqlite_item (item : option string * Frame) : Prop :=
  bare_identifier (table_name item.1) = true /\
  reserved_name (table_name item.1) = false /\
  sqlite_frame item.2.

(** The frame [read] makes of the table of a frame: the label for its
    name, no name for its index, and the dtypes numpy gives the cells. *)
Definition read_back (name : string) (f : Frame) : Frame :=
  {| f_name := Some name;
     f_index_name := None;
     f_index_dtype := infer_dtype (f_index f);
     f_index := f_index f;
     f_columns := (fun c => {| c_name := c_name c;
                               c_dtype := infer_dtype (c_values c);
                               c_values := c_values c |}) <$> f_columns f |}.

(** The dtype of the rows of a frame whose columns are plain and not all
    Boolean: object, or a dtype of the kind of every column that has its
    adapter or is a string. *)
Definition row_ready (dtypes : list DType) (d : DType) : Prop :=
  d = DTYPE_OBJECT \/
  ((d = np_int64 \/ d = np_int32 \/ kind d = "U"%char) /\
   Forall (fun d' => kind d' = kind d) dtypes).

(** * Properties *)

(** ** The monad *)

Lemma bind_ok {S A B} (m : M S A) (k : A -> M S B) s s' a :
  m s = (s', Ok a) -> bind m k s = k a s'.
Proof. intros H. unfold bind. by rewrite H. Qed.

Lemma bind_raise {S A B} (m : M S A) (k : A -> M S B) s s' e :
  m s = (s', Raise e) -> bind m k s = (s', Raise e).
Proof. intros H. unfold bind. by rewrite H. Qed.

Lemma bind_inv_ok {S A B} (m : M S A) (k : A -> M S B) s s2 b :
  bind m k s = (s2, Ok b) ->
  exists s1 a, m s = (s1, Ok a) /\ k a s1 = (s2, Ok b).
Proof.
  unfold bind. destruct (m s) as [s1 [a|e]]; [eauto | discriminate].
Qed.

(** ** The ordered dict *)

Lemma elem_of_dict_pop (d : PyDict) l x : x ∈ dict_pop d l <-> x ∈ d /\ x <> l.
Proof. unfold dict_pop. rewrite list_elem_of_filter. tauto. Qed.

Lemma NoDup_dict_pop (d : PyDict) l : NoDup d -> NoDup (dict_pop d l).
Proof. intros Hd. unfold dict_pop. by apply list.NoDup_filter. Qed.

Lemma dict_pop_absent (d : PyDict) l : l ∉ d -> dict_pop d l = d.
Proof.
  intros Hl. unfold dict_pop. induction d as [|x d IH]; [done|].
  rewrite filter_cons. apply not_elem_of_cons in Hl as [Hne Hl].
  rewrite decide_True by congruence. by rewrite IH.
Qed.

Lemma dict_touch_eq (d : PyDict) l : dict_touch d l = dict_pop d l ++ [l].
Proof.
  unfold dict_touch, dict_setitem. rewrite bool_decide_eq_false_2; [done|].
  rewrite elem_of_dict_pop. tauto.
Qed.

Lemma elem_of_dict_touch (d : PyDict) l x : x ∈ dict_touch d l <-> x = l \/ x ∈ d.
Proof.
  rewrite dict_touch_eq, elem_of_app, elem_of_dict_pop, list_elem_of_singleton.
  destruct (decide (x = l)); tauto.
Qed.

Lemma NoDup_dict_touch (d : PyDict) l : NoDup d -> NoDup (dict_touch d l).
Proof.
  intros Hd. rewrite dict_touch_eq. apply NoDup_app. split_and!.
  - by apply NoDup_dict_pop.
  - intros x Hx Hx'. apply elem_of_dict_pop in Hx as [_ Hx].
    apply list_elem_of_singleton in Hx'. done.
  - apply NoDup_singleton.
Qed.

Lemma NoDup_dict_setitem (d : PyDict) l : NoDup d -> NoDup (dict_setitem d l).
Proof.
  intros Hd. unfold dict_setitem. case_bool_decide; [done|].
  apply NoDup_app. split_and!; [done | | apply NoDup_singleton].
  intros x Hx Hx'. apply list_elem_of_singleton in Hx'. by subst.
Qed.

Lemma elem_of_dict_setitem (d : PyDict) l x : x ∈ dict_setitem d l <-> x = l \/ x ∈ d.
Proof.
  unfold dict_setitem. case_bool_decide.
  - split; [tauto|]. intros [->|]; done.
  - rewrite elem_of_app, list_elem_of_singleton. tauto.
Qed.

(** ** Positions in an index *)

Lemma position_of_lookup index l i :
  position_of index l = Some i -> index !! i = Some l.
Proof.
  revert i. induction index as [|x index IH]; intros i; simpl; [done|].
  destruct (decide (x = l)) as [->|Hne].
  - by intros [= <-].
  - destruct (position_of index l) as [j|] eqn:Hj; simpl; [|done].
    intros [= <-]. simpl. by apply IH.
Qed.

Lemma position_of_NoDup index l i :
  NoDup index -> index !! i = Some l -> position_of index l = Some i.
Proof.
  intros Hnd. revert i. induction Hnd as [|x index Hx Hnd IH]; intros i; [done|].
  simpl. destruct i as [|i]; simpl.
  - intros [= ->]. by rewrite decide_True.
  - intros Hi. rewrite decide_False.
    + by rewrite (IH i Hi).
    + intros ->. apply Hx. by eapply list_elem_of_lookup_2.
Qed.

Lemma position_of_None index l : position_of index l = None <-> l ∉ index.
Proof.
  induction index as [|x index IH]; simpl.
  - split; [intros _; apply not_elem_of_nil | done].
  - rewrite not_elem_of_cons. destruct (decide (x = l)) as [->|Hne].
    + split; [done | tauto].
    + destruct (position_of index l); simpl.
      * split; [done|]. intros [_ H]. by apply IH in H.
      * split; [|done]. intros _. split; [congruence | by apply IH].
Qed.

(** ** Counting the loaded flags *)

Lemma count_true_nonneg a : (0 <= count_true a)%Z.
Proof. unfold count_true. lia. Qed.

Lemma count_true_cons b a :
  count_true (b :: a) = ((if b then 1 else 0) + count_true a)%Z.
Proof.
  unfold count_true. rewrite filter_cons. destruct b.
  - rewrite decide_True by done. simpl. lia.
  - rewrite decide_False by done. lia.
Qed.

Lemma count_true_set (a : list bool) (i : nat) (b : bool) :
  a !! i = Some b ->
  forall b' : bool, count_true (<[i := b']> a)
    = (count_true a - (if b then 1 else 0) + (if b' then 1 else 0))%Z.
Proof.
  revert i. induction a as [|x a IH]; intros i Hi b'; [done|].
  destruct i as [|i]; simpl in *.
  - injection Hi as ->. rewrite !count_true_cons. lia.
  - rewrite !count_true_cons, (IH i Hi). lia.
Qed.

Lemma count_true_le_length a : (count_true a <= Z.of_nat (length a))%Z.
Proof.
  induction a as [|b a IH]; [done|].
  rewrite count_true_cons. simpl length. destruct b; lia.
Qed.

Lemma count_true_zero (a : list bool) :
  count_true a = 0%Z -> forall i, a !! i <> Some true.
Proof.
  induction a as [|b a IH]; intros H i; [done|].
  rewrite count_true_cons in H. pose proof (count_true_nonneg a).
  destruct b; [lia|]. destruct i as [|i]; simpl; [done|]. apply IH. lia.
Qed.

Lemma count_true_pos (a : list bool) :
  (0 < count_true a)%Z -> exists i, a !! i = Some true.
Proof.
  induction a as [|b a IH]; [done|].
  rewrite count_true_cons. destruct b.
  - intros _. by exists 0.
  - intros H. destruct IH as [i Hi]; [lia|]. by exists (S i).
Qed.

Lemma all_true_lookup (a : list bool) :
  all_true a = true <-> forall i b, a !! i = Some b -> b = true.
Proof.
  unfold all_true. rewrite forallb_forall. split.
  - intros H i b Hi. apply (H b). apply list_elem_of_In. by eapply list_elem_of_lookup_2.
  - intros H b Hb. apply list_elem_of_In, list_elem_of_lookup in Hb as [i Hi]. eauto.
Qed.

(** ** The cache-update loop keeps flags, slots and recency together *)

Lemma locals_ok_loaded_length index mp s :
  locals_ok index mp s -> length (l_loaded s) = length index.
Proof. intros [Hf Hl _ _]. by rewrite Hf, length_fmap. Qed.

Lemma elem_of_insert_inv {A} (l : list A) (i : nat) (v x : A) :
  x ∈ <[i := v]> l -> x = v \/ x ∈ l.
Proof.
  revert i. induction l as [|y l IH]; intros i; simpl; [by right|].
  destruct i as [|i]; simpl; rewrite !elem_of_cons.
  - tauto.
  - intros [->|H]; [tauto|]. apply IH in H. tauto.
Qed.

Section LoopFacts.
Variable index : list Label.
Variable store : Store.
Variable config : StoreConfigMap.
Hypothesis index_NoDup : NoDup index.

Lemma load_slot_loaded mp idx frame s :
  l_loaded s !! idx = Some true ->
  load_slot mp idx frame s = (s, Ok tt).
Proof.
  intros H. unfold load_slot, bind, get, lift, getitem. by rewrite H.
Qed.

Lemma load_slot_fresh mp idx frame s :
  l_loaded s !! idx = Some false ->
  idx < length (l_array s) ->
  load_slot mp idx frame s =
    ({| l_loaded := <[idx := true]> (l_loaded s);
        l_last := l_last s;
        l_array := <[idx := frame]> (l_array s);
        l_count := if is_active mp then (l_count s + 1)%Z else l_count s |},
     Ok tt).
Proof.
  intros H Hlen. unfold load_slot, bind, get, lift, getitem, setitem, modify.
  rewrite H. simpl. rewrite bool_decide_eq_true_2 by done.
  rewrite bool_decide_eq_true_2 by (by eapply lookup_lt_Some).
  done.
Qed.

Lemma evict_oldest_idle k s :
  (l_count s <= k)%Z -> evict_oldest index k s = (s, Ok tt).
Proof.
  intros H. unfold evict_oldest, bind, get.
  by rewrite bool_decide_eq_false_2 by lia.
Qed.

Lemma evict_oldest_run k s label_remove rest idx_remove :
  l_count s = (k + 1)%Z -> (0 <= k)%Z ->
  l_last s = label_remove :: rest ->
  position_of index label_remove = Some idx_remove ->
  idx_remove < length (l_loaded s) ->
  idx_remove < length (l_array s) ->
  evict_oldest index k s =
    ({| l_loaded := <[idx_remove := false]> (l_loaded s);
        l_last := dict_pop (l_last s) label_remove;
        l_array := <[idx_remove := FrameDeferred]> (l_array s);
        l_count := k |},
     Ok tt).
Proof.
  intros Hc Hk Hd Hp Hl1 Hl2.
  unfold evict_oldest, bind, get, lift, modify, dict_first, dict_del,
    loc_to_iloc, setitem, ret.
  rewrite bool_decide_eq_true_2 by lia.
  rewrite bool_decide_eq_true_2 by lia.
  rewrite Hd, bool_decide_eq_true_2 by apply list_elem_of_here.
  simpl. rewrite Hp. simpl.
  rewrite bool_decide_eq_true_2 by done.
  rewrite bool_decide_eq_true_2 by done.
  rewrite bool_decide_eq_true_2 by lia.
  unfold set_count, set_array, set_loaded, set_last. simpl.
  rewrite Hc. do 3 f_equal. lia.
Qed.

(** Eviction brings an overshoot of one back under the ceiling. *)
Lemma evict_oldest_ok k s :
  (0 <= k)%Z ->
  locals_ok index (Some (k + 1)%Z) s ->
  exists s', evict_oldest index k s = (s', Ok tt) /\
             locals_ok index (Some k) s' /\
             ((l_count s <= k)%Z -> s' = s) /\
             (forall j, l_loaded s !! j = Some false -> l_loaded s' !! j = Some false).
Proof.
  intros Hk Hok.
  destruct (decide (l_count s <= k)%Z) as [Hle|Hgt].
  { exists s. split; [by apply evict_oldest_idle|]. split; [|done].
    destruct Hok as [Hf Hl Hv Hlru]. split; try done.
    intros k' [= <-]. destruct (Hlru _ eq_refl) as (? & ? & ? & ?). done. }
  pose proof Hok as [Hf Hl Hv Hlru].
  pose proof (locals_ok_loaded_length _ _ _ Hok) as Hll.
  destruct (Hlru _ eq_refl) as (Hnd & Hmem & Hcnt & Hbound).
  assert (Hc : l_count s = (k + 1)%Z) by lia.
  destruct (l_last s) as [|label_remove rest] eqn:Hd.
  { exfalso. destruct (count_true_pos (l_loaded s)) as [j Hj]; [lia|].
    destruct (lookup_lt_is_Some_2 index j) as [l Hl'].
    { rewrite <- Hll. by eapply lookup_lt_Some. }
    assert (l ∈ @nil Label) as H%elem_of_nil by (apply Hmem; eauto). done. }
  destruct (proj1 (Hmem label_remove)) as (ir & Hir & Hlr);
    [apply list_elem_of_here|].
  assert (Hp : position_of index label_remove = Some ir)
    by by apply position_of_NoDup.
  assert (Hlt : ir < length (l_loaded s)) by by eapply lookup_lt_Some.
  eexists. split.
  { eapply evict_oldest_run; eauto. rewrite Hl, <- Hll. done. }
  split; [|split; [lia|]].
  2:{ simpl. intros j Hj. destruct (decide (ir = j)) as [<-|Hne].
      - by rewrite list_lookup_insert_eq.
      - by rewrite list_lookup_insert_ne. }
  split; simpl.
  - rewrite Hf, list_fmap_insert. done.
  - by rewrite length_insert.
  - intros [H|H]%elem_of_insert_inv; done.
  - intros k' [= <-]. split_and!.
    + rewrite Hd. by apply NoDup_dict_pop.
    + intros l. rewrite Hd, elem_of_dict_pop, Hmem. split.
      * intros ((j & Hj & Hjl) & Hne). exists j. split; [done|].
        rewrite list_lookup_insert_ne; [done|]. intros <-. congruence.
      * intros (j & Hj & Hjl).
        destruct (decide (ir = j)) as [<-|Hne].
        { rewrite list_lookup_insert_eq in Hjl by done. done. }
        rewrite list_lookup_insert_ne in Hjl by done.
        split; [eauto|]. intros ->. apply Hne.
        by eapply (NoDup_lookup index ir j).
    + rewrite (count_true_set _ _ _ Hlr). lia.
    + lia.
Qed.

Lemma touch_load_ok mp s i label f :
  locals_ok index mp s ->
  index !! i = Some label ->
  exists s1,
    load_slot mp i (VFrame f) (touched mp label s) = (s1, Ok tt) /\
    locals_ok index ((fun k => k + 1)%Z <$> mp) s1 /\
    l_loaded s1 = <[i := true]> (l_loaded s) /\
    l_array s1 = (if l_loaded s !! i is Some true then l_array s
                  else <[i := VFrame f]> (l_array s)).
Proof.
  intros Hok Hi.
  pose proof (locals_ok_loaded_length _ _ _ Hok) as Hll.
  pose proof Hok as [Hf Hl Hv Hlru].
  assert (Hlt : i < length index) by by eapply lookup_lt_Some.
  destruct (lookup_lt_is_Some_2 (l_loaded s) i) as [b Hb]; [lia|].
  assert (Hsame : l_loaded (touched mp label s) = l_loaded s
                  /\ l_array (touched mp label s) = l_array s
                  /\ l_count (touched mp label s) = l_count s)
    by (unfold touched; destruct (is_active mp); done).
  destruct Hsame as (Hs1 & Hs2 & Hs3).
  destruct b.
  - (* the slot is loaded already: only the recency moves *)
    exists (touched mp label s). split_and!.
    + apply load_slot_loaded. by rewrite Hs1.
    + split; rewrite ?Hs1, ?Hs2, ?Hs3; try done.
      intros k' Hk'. destruct mp as [k|]; [|done]. injection Hk' as <-.
      destruct (Hlru _ eq_refl) as (Hnd & Hmem & Hcnt & Hbound).
      unfold touched. simpl. split_and!; [by apply NoDup_dict_touch | | done | lia].
      intros l. rewrite elem_of_dict_touch, Hmem. split; [|tauto].
      intros [->|H]; eauto.
    + rewrite Hs1. symmetry. by apply list_insert_id.
    + by rewrite Hs2, Hb.
  - (* a slot to fill *)
    eexists. split_and!.
    + apply load_slot_fresh; rewrite ?Hs1, ?Hs2; [done|lia].
    + split; simpl; rewrite ?Hs1, ?Hs2, ?Hs3.
      * by rewrite Hf, list_fmap_insert.
      * by rewrite length_insert.
      * intros [H|H]%elem_of_insert_inv; done.
      * intros k' Hk'. destruct mp as [k|]; [|done]. injection Hk' as <-.
        destruct (Hlru _ eq_refl) as (Hnd & Hmem & Hcnt & Hbound).
        unfold touched. simpl. split_and!.
        -- by apply NoDup_dict_touch.
        -- intros l. rewrite elem_of_dict_touch, Hmem. split.
           ++ intros [->|(j & Hj & Hjl)].
              ** exists i. by rewrite list_lookup_insert_eq by lia.
              ** exists j. split; [done|].
                 rewrite list_lookup_insert_ne; [done|]. intros ->. congruence.
           ++ intros (j & Hj & Hjl). destruct (decide (i = j)) as [<-|Hne].
              ** left. congruence.
              ** right. rewrite list_lookup_insert_ne in Hjl by done. eauto.
        -- rewrite (count_true_set _ _ _ Hb). lia.
        -- lia.
    + simpl. by rewrite Hs1.
    + simpl. by rewrite Hs2, Hb.
Qed.

(** One iteration on a label of the index whose frame is at hand or can
    be read: it returns, and the loop's objects stay together. *)
Lemma loop_body_ok mp s i label frame f :
  locals_ok index mp s ->
  index !! i = Some label ->
  frame = VFrame f \/
    (frame = FrameDeferred /\
     store_read store label (StoreConfigMap_getitem config label) = Some f) ->
  exists s',
    loop_body index store config mp (label, frame) s = (s', Ok tt) /\
    locals_ok index mp s' /\
    (mp = None ->
     l_loaded s' = <[i := true]> (l_loaded s) /\
     l_array s' = (if l_loaded s !! i is Some true then l_array s
                   else <[i := VFrame f]> (l_array s))) /\
    (forall j, j <> i -> l_loaded s !! j = Some false ->
               l_loaded s' !! j = Some false).
Proof.
  intros Hok Hi Hframe.
  destruct (touch_load_ok mp s i label f Hok Hi) as (s1 & Hload & Hok1 & Hl1 & Ha1).
  assert (Hstart : loop_body index store config mp (label, frame) s =
                   match mp with
                   | Some k => evict_oldest index k s1
                   | None => (s1, Ok tt)
                   end).
  { unfold loop_body, loc_to_iloc. rewrite (position_of_NoDup _ _ _ index_NoDup Hi).
    unfold touched in Hload.
    destruct Hframe as [->|[-> Hread]].
    - unfold bind, lift, modify, ret. destruct mp as [k|]; simpl in *;
        rewrite Hload; done.
    - unfold Store_read. rewrite Hread.
      unfold bind, lift, modify, ret. destruct mp as [k|]; simpl in *;
        rewrite Hload; done. }
  rewrite Hstart. destruct mp as [k|]; simpl in *.
  - assert (0 <= k)%Z.
    { destruct Hok as [_ _ _ Hlru]. destruct (Hlru _ eq_refl) as (_ & _ & Hc & Hb).
      pose proof (count_true_nonneg (l_loaded s)). lia. }
    destruct (evict_oldest_ok k s1) as (s' & He & Hok' & _ & Hkeep); [done..|].
    exists s'. split_and!; [done..|].
    intros j Hne Hj. apply Hkeep. rewrite Hl1. by rewrite list_lookup_insert_ne.
  - exists s1. split_and!; [done..|].
    intros j Hne Hj. rewrite Hl1. by rewrite list_lookup_insert_ne.
Qed.

(** One iteration on a deferred label that the store cannot read: the
    read error escapes, after the label was entered in the dict. *)
Lemma loop_body_raise mp s i label :
  index !! i = Some label ->
  store_read store label (StoreConfigMap_getitem config label) = None ->
  loop_body index store config mp (label, FrameDeferred) s
  = (touched mp label s, Raise (StoreReadError label)).
Proof.
  intros Hi Hread.
  unfold loop_body, loc_to_iloc. rewrite (position_of_NoDup _ _ _ index_NoDup Hi).
  unfold Store_read. rewrite Hread.
  unfold bind, lift, modify, ret, touched. destruct mp; done.
Qed.

Lemma cache_loop_cons mp item rest s :
  cache_loop index store config mp (item :: rest) s
  = bind (loop_body index store config mp item)
      (fun _ => cache_loop index store config mp rest) s.
Proof. done. Qed.

(** The whole loop, from objects that are together: it either returns
    with them together again, every deferred target having been read, or
    it raises the read error of a deferred target. *)
Lemma cache_loop_spec mp targets s :
  locals_ok index mp s ->
  Forall (fun item : Label * Value => item.1 ∈ index /\ item.2 <> VOther) targets ->
  exists s' r,
    cache_loop index store config mp targets s = (s', r) /\
    match r with
    | Ok _ =>
        locals_ok index mp s' /\
        (forall l, (l, FrameDeferred) ∈ targets -> readable store config l)
    | Raise e =>
        exists l, e = StoreReadError l /\ (l, FrameDeferred) ∈ targets /\
                  ~ readable store config l
    end.
Proof.
  intros Hok Ht. revert s Hok.
  induction Ht as [|[label frame] targets [Hin Hv] Ht IH]; intros s Hok.
  { exists s, (Ok tt). split; [done|]. split; [done|].
    intros l H. by apply elem_of_nil in H. }
  simpl in Hin, Hv.
  apply list_elem_of_lookup in Hin as [i Hi].
  assert (Hcases : (exists f, frame = VFrame f \/ (frame = FrameDeferred /\
            store_read store label (StoreConfigMap_getitem config label) = Some f))
          \/ (frame = FrameDeferred /\
              store_read store label (StoreConfigMap_getitem config label) = None)).
  { destruct frame as [f| |]; [left; eauto| |done].
    destruct (store_read store label (StoreConfigMap_getitem config label)) as [f|] eqn:E;
      [left|right]; eauto. }
  destruct Hcases as [[f Hf]|[-> Hnone]].
  - destruct (loop_body_ok mp s i label frame f Hok Hi Hf) as (s1 & Hb & Hok1 & _ & _).
    destruct (IH s1 Hok1) as (s' & r & Hloop & Hr).
    exists s', r. split.
    { rewrite cache_loop_cons. unfold bind. by rewrite Hb. }
    destruct r as [[]|e].
    + destruct Hr as [Hok' Hread]. split; [done|].
      intros l [[= -> <-]|H]%elem_of_cons; [|by apply Hread].
      destruct Hf as [?|[_ Hf]]; [done|]. unfold readable. by rewrite Hf.
    + destruct Hr as (l & -> & Hl & Hnr). exists l. split_and!; [done| |done].
      by apply list_elem_of_further.
  - eexists _, _. split.
    { rewrite cache_loop_cons. unfold bind.
      by rewrite (loop_body_raise mp s i label Hi Hnone). }
    exists label. split_and!; [done|apply list_elem_of_here|].
    unfold readable. rewrite Hnone. by intros [? ?].
Qed.

(** Without a ceiling no flag is ever cleared, and the flags set are
    those of the targets. *)
Lemma cache_loop_unbounded targets s s' :
  locals_ok index None s ->
  Forall (fun item : Label * Value => item.1 ∈ index /\ item.2 <> VOther) targets ->
  cache_loop index store config None targets s = (s', Ok tt) ->
  forall j, l_loaded s' !! j = Some true <->
            l_loaded s !! j = Some true \/
            exists l v, (l, v) ∈ targets /\ index !! j = Some l.
Proof.
  intros Hok Ht. revert s Hok.
  induction Ht as [|[label frame] targets [Hin Hv] Ht IH]; intros s Hok.
  { intros [= <-] j. split; [tauto|]. intros [H|(l & v & H & _)]; [done|].
    by apply elem_of_nil in H. }
  simpl in Hin, Hv.
  intros Hrun j. rewrite cache_loop_cons in Hrun.
  apply bind_inv_ok in Hrun as (s1 & [] & Hb & Hrest).
  apply list_elem_of_lookup in Hin as [i Hi].
  assert (exists f, frame = VFrame f \/ (frame = FrameDeferred /\
            store_read store label (StoreConfigMap_getitem config label) = Some f))
    as [f Hf].
  { destruct frame as [f| |]; [eauto| |done].
    destruct (store_read store label (StoreConfigMap_getitem config label)) as [f|] eqn:E;
      [eauto|].
    rewrite (loop_body_raise None s i label Hi E) in Hb. done. }
  destruct (loop_body_ok None s i label frame f Hok Hi Hf)
    as (s1' & Hb' & Hok1 & Hch & _).
  rewrite Hb in Hb'. injection Hb' as <-.
  destruct (Hch eq_refl) as [Hl1 _].
  rewrite (IH s1 Hok1 Hrest j), Hl1.
  pose proof (locals_ok_loaded_length _ _ _ Hok) as Hll.
  assert (i < length (l_loaded s)) by (rewrite Hll; by eapply lookup_lt_Some).
  split.
  - intros [H1|(l & v & Hlv & Hj)].
    + destruct (decide (i = j)) as [<-|Hne].
      * right. exists label, frame. split; [apply list_elem_of_here|done].
      * left. by rewrite list_lookup_insert_ne in H1.
    + right. exists l, v. split; [by apply list_elem_of_further|done].
  - intros [H1|(l & v & Hlv & Hj)].
    + left. destruct (decide (i = j)) as [<-|Hne].
      * by rewrite list_lookup_insert_eq.
      * by rewrite list_lookup_insert_ne.
    + apply elem_of_cons in Hlv as [[= -> ->]|Hlv].
      * left. assert (i = j) as <- by by eapply (NoDup_lookup index i j).
        by rewrite list_lookup_insert_eq.
      * right. eauto.
Qed.

(** Under a ceiling that is no lower than the number of labels, an
    iteration evicts nothing: the loaded count cannot pass the ceiling. *)
Lemma loop_body_roomy k s i label frame f :
  locals_ok index (Some k) s ->
  (Z.of_nat (length index) <= k)%Z ->
  index !! i = Some label ->
  frame = VFrame f \/
    (frame = FrameDeferred /\
     store_read store label (StoreConfigMap_getitem config label) = Some f) ->
  exists s',
    loop_body index store config (Some k) (label, frame) s = (s', Ok tt) /\
    locals_ok index (Some k) s' /\
    l_loaded s' = <[i := true]> (l_loaded s) /\
    l_array s' = (if l_loaded s !! i is Some true then l_array s
                  else <[i := VFrame f]> (l_array s)).
Proof.
  intros Hok Hroom Hi Hframe.
  destruct (touch_load_ok (Some k) s i label f Hok Hi) as (s1 & Hload & Hok1 & Hl1 & Ha1).
  simpl in Hok1.
  assert (Hcnt : (l_count s1 <= k)%Z).
  { pose proof (locals_ok_loaded_length _ _ _ Hok1) as Hll.
    destruct Hok1 as [_ _ _ Hlru]. destruct (Hlru _ eq_refl) as (_ & _ & Hc & _).
    pose proof (count_true_le_length (l_loaded s1)). lia. }
  exists s1. split_and!; [| |done..].
  - unfold loop_body, loc_to_iloc. rewrite (position_of_NoDup _ _ _ index_NoDup Hi).
    unfold touched in Hload. simpl in Hload.
    destruct Hframe as [->|[-> Hread]].
    + unfold bind, lift, modify, ret. simpl. rewrite Hload.
      by apply evict_oldest_idle.
    + unfold Store_read. rewrite Hread. unfold bind, lift, modify, ret. simpl.
      rewrite Hload. by apply evict_oldest_idle.
  - destruct Hok1 as [Hf Hl Hv Hlru]. split; try done.
    intros k' [= <-]. by destruct (Hlru _ eq_refl) as (? & ? & ? & ?).
Qed.

(** Under such a ceiling, as without one, no flag is ever cleared, and
    the flags set are those of the targets. *)
Lemma cache_loop_roomy mp targets s s' :
  locals_ok index mp s ->
  (forall k, mp = Some k -> (Z.of_nat (length index) <= k)%Z) ->
  Forall (fun item : Label * Value => item.1 ∈ index /\ item.2 <> VOther) targets ->
  cache_loop index store config mp targets s = (s', Ok tt) ->
  forall j, l_loaded s' !! j = Some true <->
            l_loaded s !! j = Some true \/
            exists l v, (l, v) ∈ targets /\ index !! j = Some l.
Proof.
  intros Hok Hroom Ht. revert s Hok.
  induction Ht as [|[label frame] targets [Hin Hv] Ht IH]; intros s Hok.
  { intros [= <-] j. split; [tauto|]. intros [H|(l & v & H & _)]; [done|].
    by apply elem_of_nil in H. }
  simpl in Hin, Hv.
  intros Hrun j. rewrite cache_loop_cons in Hrun.
  apply bind_inv_ok in Hrun as (s1 & [] & Hb & Hrest).
  apply list_elem_of_lookup in Hin as [i Hi].
  assert (exists f, frame = VFrame f \/ (frame = FrameDeferred /\
            store_read store label (StoreConfigMap_getitem config label) = Some f))
    as [f Hf].
  { destruct frame as [f| |]; [eauto| |done].
    destruct (store_read store label (StoreConfigMap_getitem config label)) as [f|] eqn:E;
      [eauto|].
    rewrite (loop_body_raise mp s i label Hi E) in Hb. done. }
  assert (locals_ok index mp s1 /\ l_loaded s1 = <[i := true]> (l_loaded s))
    as [Hok1 Hl1].
  { destruct mp as [k|].
    - destruct (loop_body_roomy k s i label frame f Hok (Hroom k eq_refl) Hi Hf)
        as (s1' & Hb' & Hok1 & Hl1 & _).
      rewrite Hb in Hb'. by injection Hb' as <-.
    - destruct (loop_body_ok None s i label frame f Hok Hi Hf)
        as (s1' & Hb' & Hok1 & Hch & _).
      rewrite Hb in Hb'. injection Hb' as <-.
      by destruct (Hch eq_refl) as [Hl1 _]. }
  rewrite (IH s1 Hok1 Hrest j), Hl1.
  pose proof (locals_ok_loaded_length _ _ _ Hok) as Hll.
  assert (i < length (l_loaded s)) by (rewrite Hll; by eapply lookup_lt_Some).
  split.
  - intros [H1|(l & v & Hlv & Hj)].
    + destruct (decide (i = j)) as [<-|Hne].
      * right. exists label, frame. split; [apply list_elem_of_here|done].
      * left. by rewrite list_lookup_insert_ne in H1.
    + right. exists l, v. split; [by apply list_elem_of_further|done].
  - intros [H1|(l & v & Hlv & Hj)].
    + left. destruct (decide (i = j)) as [<-|Hne].
      * by rewrite list_lookup_insert_eq.
      * by rewrite list_lookup_insert_ne.
    + apply elem_of_cons in Hlv as [[= -> ->]|Hlv].
      * left. assert (i = j) as <- by by eapply (NoDup_lookup index i j).
        by rewrite list_lookup_insert_eq.
      * right. eauto.
Qed.

(** A deferred target that cannot be read is still flagged unloaded when
    the loop ends, however it ends. *)
Lemma cache_loop_unreadable mp targets s idx label s' r :
  locals_ok index mp s ->
  Forall (fun item : Label * Value => item.1 ∈ index /\ item.2 <> VOther) targets ->
  index !! idx = Some label ->
  ~ readable store config label ->
  (forall v, (label, v) ∈ targets -> v = FrameDeferred) ->
  l_loaded s !! idx = Some false ->
  cache_loop index store config mp targets s = (s', r) ->
  l_loaded s' !! idx = Some false.
Proof.
  intros Hok Ht Hidx Hnr. revert s Hok.
  induction Ht as [|[l x] targets [Hin Hv] Ht IH]; intros s Hok Hdef Hflag.
  { by intros [= <- _]. }
  simpl in Hin, Hv. rewrite cache_loop_cons.
  apply list_elem_of_lookup in Hin as [i Hi].
  assert (Hread : forall lbl, store_read store lbl (StoreConfigMap_getitem config lbl) = None
                  \/ readable store config lbl).
  { intros lbl. unfold readable.
    destruct (store_read store lbl _); [right; eauto | by left]. }
  assert (Htouched : forall lbl, l_loaded (touched mp lbl s) = l_loaded s).
  { intros lbl. unfold touched. by destruct (is_active mp). }
  destruct (decide (l = label)) as [->|Hne].
  - rewrite (Hdef x) by apply list_elem_of_here.
    destruct (Hread label) as [Hnone|?]; [|done].
    unfold bind. rewrite (loop_body_raise mp s i label Hi Hnone).
    intros [= <- _]. by rewrite Htouched.
  - assert (i <> idx) by (intros ->; congruence).
    assert (Hdef' : forall v, (label, v) ∈ targets -> v = FrameDeferred)
      by (intros v Hv'; apply Hdef; by apply list_elem_of_further).
    destruct x as [f| |]; [| |done].
    + destruct (loop_body_ok mp s i l (VFrame f) f Hok Hi) as (s1 & Hb & Hok1 & _ & Hkeep);
        [by left|].
      unfold bind. rewrite Hb. apply IH; [done..|]. by apply Hkeep.
    + destruct (store_read store l (StoreConfigMap_getitem config l)) as [f|] eqn:Hf.
      * destruct (loop_body_ok mp s i l FrameDeferred f Hok Hi)
          as (s1 & Hb & Hok1 & _ & Hkeep); [by right|].
        unfold bind. rewrite Hb. apply IH; [done..|]. by apply Hkeep.
      * unfold bind. rewrite (loop_body_raise mp s i l Hi Hf).
        intros [= <- _]. by rewrite Htouched.
Qed.
End LoopFacts.

(** ** A bus and the objects it owns, read off the heap *)

Lemma view_of_inv h self v :
  view_of h self = Some v ->
  h !! self = Some (OBus (v_bus v)) /\
  h !! _loaded (v_bus v) = Some (ONdarray (v_loaded v)) /\
  match _last_accessed (v_bus v) with
  | Some last => h !! last = Some (ODict (v_last v))
  | None => v_last v = []
  end.
Proof.
  unfold view_of. destruct (h !! self) as [[bus| |]|] eqn:Hs; try done.
  destruct (h !! _loaded bus) as [[|a|]|] eqn:Ha; try done.
  destruct (_last_accessed bus) as [last|] eqn:Hl.
  - destruct (h !! last) as [[| |d]|] eqn:Hd; try done.
    intros [= <-]. simpl. rewrite Hl. done.
  - intros [= <-]. simpl. rewrite Hl. done.
Qed.

Lemma view_of_intro h self bus a d :
  h !! self = Some (OBus bus) ->
  h !! _loaded bus = Some (ONdarray a) ->
  match _last_accessed bus with
  | Some last => h !! last = Some (ODict d)
  | None => d = []
  end ->
  view_of h self = Some {| v_bus := bus; v_loaded := a; v_last := d |}.
Proof.
  intros Hs Ha Hd. unfold view_of. rewrite Hs, Ha.
  destruct (_last_accessed bus); [by rewrite Hd | by subst].
Qed.

Lemma commit_id h self v : view_of h self = Some v -> commit self v h = h.
Proof.
  intros (Hs & Ha & Hd)%view_of_inv. unfold commit.
  rewrite (list_insert_id _ _ _ Ha).
  destruct (_last_accessed (v_bus v)); [rewrite (list_insert_id _ _ _ Hd)|];
    by rewrite (list_insert_id _ _ _ Hs).
Qed.

Lemma update_iloc_run h self v key :
  view_of h self = Some v ->
  attrs_ok (v_bus v) ->
  Bus._update_series_cache_iloc self key h
  = (commit self (update_view v key).1 h, (update_view v key).2).
Proof.
  intros Hv Hattrs. pose proof (commit_id _ _ _ Hv) as Hid.
  destruct (view_of_inv _ _ _ Hv) as (Hs & Ha & Hd).
  destruct v as [bus a d]. cbn [v_bus v_loaded v_last] in *.
  unfold Bus._update_series_cache_iloc, update_view, attrs_ok in *.
  cbn [v_bus v_loaded v_last].
  unfold bind at 1. unfold get_bus. rewrite Hs.
  unfold bind at 1. unfold get_ndarray. rewrite Ha.
  unfold bind at 1. unfold lift at 1.
  destruct (Bus.load_needed bus a key) as [[|]|e]; cbn [fst snd];
    [| |by rewrite Hid].
  - (* frames to load *)
    destruct (_store bus) as [store|] eqn:Hst;
      [|unfold raise; cbn [fst snd]; by rewrite Hid].
    unfold bind at 1. unfold lift at 1.
    destruct (Series_iloc (_series bus) key) as [targets|e]; cbn [fst snd];
      [|by rewrite Hid].
    destruct (_max_persist bus) as [k|] eqn:Hk, (_last_accessed bus) as [last|] eqn:Hl;
      try done.
    + unfold bind at 1. unfold get_dict. rewrite Hd.
      destruct (cache_loop _ _ _ _ _ _) as [locals outcome].
      unfold commit, bind, put, lift. cbn [fst snd v_bus v_loaded v_last is_active].
      destruct outcome as [[]|e]; unfold with_values; cbn [_last_accessed _loaded];
        rewrite ?Hl, ?Hst, ?Hk; [done|].
      f_equal. symmetry. apply list_insert_id.
      rewrite list_lookup_insert_ne by congruence.
      rewrite list_lookup_insert_ne by congruence. done.
    + subst d. unfold bind at 1. unfold ret at 1.
      destruct (cache_loop _ _ _ _ _ _) as [locals outcome].
      unfold commit, bind, put, lift, ret. cbn [fst snd v_bus v_loaded v_last is_active].
      destruct outcome as [[]|e]; unfold with_values; cbn [_last_accessed _loaded];
        rewrite ?Hl, ?Hst, ?Hk; [done|].
      f_equal. symmetry. apply list_insert_id.
      rewrite list_lookup_insert_ne by congruence. done.
  - (* every requested slot is loaded *)
    destruct (_max_persist bus) as [k|] eqn:Hk, (_last_accessed bus) as [last|] eqn:Hl;
      try done.
    + unfold Bus.touch_labels, bind, lift.
      destruct (Bus.requested_labels _ _) as [labels|e]; cbn [fst snd];
        [|by rewrite Hid].
      unfold get_dict, put. rewrite Hd. unfold commit.
      cbn [fst snd v_bus v_loaded v_last]. rewrite Hl.
      f_equal. rewrite (list_insert_id _ _ _ Ha).
      symmetry. apply list_insert_id.
      rewrite list_lookup_insert_ne by congruence. done.
    + unfold ret. cbn [fst snd]. by rewrite Hid.
Qed.

(** ** Keys, selections and targets *)

Lemma norm_index_lt n i p : norm_index n i = Ok p -> p < n.
Proof.
  unfold norm_index. repeat case_bool_decide; intros [= <-]; lia.
Qed.

Lemma norm_indices_lt n l ps : norm_indices n l = Ok ps -> Forall (fun p => p < n) ps.
Proof.
  revert ps. induction l as [|i l IH]; intros ps; simpl.
  { intros [= <-]. constructor. }
  destruct (norm_index n i) as [p|] eqn:Hp; [|done].
  destruct (norm_indices n l) as [ps'|]; [|done].
  intros [= <-]. constructor; [by eapply norm_index_lt | by apply IH].
Qed.

Lemma slice_positions_lt n start stop : Forall (fun p => p < n) (slice_positions n start stop).
Proof.
  unfold slice_positions. apply Forall_forall. intros p Hp%elem_of_seq. lia.
Qed.

Lemma resolve_lt n key sel :
  resolve n key = Ok sel -> Forall (fun p => p < n) (sel_positions sel).
Proof.
  destruct key as [i|start stop|l]; simpl.
  - destruct (norm_index n i) as [p|] eqn:Hp; [|done]. intros [= <-]. simpl.
    constructor; [by eapply norm_index_lt | constructor].
  - intros [= <-]. apply slice_positions_lt.
  - destruct (norm_indices n l) as [ps|] eqn:Hp; [|done]. intros [= <-]. simpl.
    by eapply norm_indices_lt.
Qed.

Lemma resolve_null_slice n : resolve n NULL_SLICE = Ok (SMany (seq 0 n)).
Proof.
  unfold resolve, NULL_SLICE, slice_positions. simpl.
  by rewrite Nat.min_id, Nat.sub_0_r.
Qed.

Lemma take_at_cons {A} (a : list A) p ps x :
  a !! p = Some x -> take_at a (p :: ps) = x :: take_at a ps.
Proof. intros H. unfold take_at. simpl. by rewrite H. Qed.

Lemma elem_of_take_at {A} (a : list A) ps x :
  x ∈ take_at a ps <-> exists p, p ∈ ps /\ a !! p = Some x.
Proof. unfold take_at. apply list_elem_of_omap. Qed.

(** Items of in-range positions pair each label with its value. *)
Lemma elem_of_take_at_zip {A B} (a : list A) (b : list B) ps x y :
  length a = length b ->
  Forall (fun p => p < length a) ps ->
  (x, y) ∈ zip (take_at a ps) (take_at b ps) ->
  exists p, p ∈ ps /\ a !! p = Some x /\ b !! p = Some y.
Proof.
  intros Hlen Hps. induction Hps as [|p ps Hp Hps IH].
  { intros H. by apply elem_of_nil in H. }
  destruct (lookup_lt_is_Some_2 a p Hp) as [x' Hx].
  destruct (lookup_lt_is_Some_2 b p) as [y' Hy]; [lia|].
  rewrite (take_at_cons a p ps x' Hx), (take_at_cons b p ps y' Hy). simpl.
  intros [[= -> ->]|H]%elem_of_cons.
  - exists p. split; [apply list_elem_of_here|done].
  - destruct (IH H) as (q & Hq & ?). exists q. split; [by apply list_elem_of_further|done].
Qed.

Lemma take_at_zip_elem_of {A B} (a : list A) (b : list B) ps p x y :
  Forall (fun p => p < length a) ps ->
  length a = length b ->
  p ∈ ps -> a !! p = Some x -> b !! p = Some y ->
  (x, y) ∈ zip (take_at a ps) (take_at b ps).
Proof.
  intros Hps Hlen Hp Hx Hy. induction Hps as [|q ps Hq Hps IH].
  { by apply elem_of_nil in Hp. }
  destruct (lookup_lt_is_Some_2 a q Hq) as [x' Hx'].
  destruct (lookup_lt_is_Some_2 b q) as [y' Hy']; [lia|].
  rewrite (take_at_cons a q ps x' Hx'), (take_at_cons b q ps y' Hy'). simpl.
  apply elem_of_cons in Hp as [->|Hp].
  - assert (x' = x) as -> by congruence. assert (y' = y) as -> by congruence.
    apply list_elem_of_here.
  - apply list_elem_of_further. by apply IH.
Qed.

(** The targets of a key: the items at the resolved positions, with
    labels that do not repeat. *)
Lemma Series_iloc_inv s key targets :
  length (s_index s) = length (s_values s) ->
  Series_iloc s key = Ok targets ->
  exists sel,
    resolve (length (s_values s)) key = Ok sel /\
    targets = zip (take_at (s_index s) (sel_positions sel))
                  (take_at (s_values s) (sel_positions sel)) /\
    NoDup (take_at (s_index s) (sel_positions sel)).
Proof.
  intros Hlen. unfold Series_iloc.
  destruct (resolve (length (s_values s)) key) as [sel|] eqn:Hsel; [|done].
  pose proof (resolve_lt _ _ _ Hsel) as Hlt.
  intros Hitems. exists sel. split; [done|].
  destruct sel as [i|ps]; unfold Series_iloc_items in Hitems; cbn [sel_positions] in *.
  - destruct (s_index s !! i) as [l|] eqn:Hl; [|done].
    destruct (s_values s !! i) as [v|] eqn:Hv; [|done].
    injection Hitems as <-.
    rewrite (take_at_cons _ _ _ _ Hl), (take_at_cons _ _ _ _ Hv).
    split; [done|]. apply NoDup_singleton.
  - unfold Index_iloc_many in Hitems. case_bool_decide; [|done].
    injection Hitems as <-. done.
Qed.

(** ** The invariant of a bus *)

Lemma same_static_refl b : same_static b b.
Proof. by repeat split. Qed.

Lemma update_view_static v key : same_static (v_bus v) (v_bus (update_view v key).1).
Proof.
  unfold update_view.
  destruct (Bus.load_needed _ _ _) as [[|]|]; try apply same_static_refl.
  - destruct (_store (v_bus v)); [|apply same_static_refl].
    destruct (Series_iloc _ _); [|apply same_static_refl].
    destruct (cache_loop _ _ _ _ _ _) as [locals [[]|e]]; simpl;
      [by repeat split | apply same_static_refl].
  - destruct (_max_persist (v_bus v)); [|apply same_static_refl].
    destruct (Bus.requested_labels _ _); apply same_static_refl.
Qed.

Lemma elem_of_foldl_touch labels (d : PyDict) l :
  l ∈ foldl dict_touch d labels <-> l ∈ d \/ l ∈ labels.
Proof.
  revert d. induction labels as [|x labels IH]; intros d; simpl.
  - rewrite elem_of_nil. tauto.
  - rewrite IH, elem_of_dict_touch, elem_of_cons. tauto.
Qed.

Lemma NoDup_foldl_touch labels (d : PyDict) :
  NoDup d -> NoDup (foldl dict_touch d labels).
Proof.
  revert d. induction labels as [|x labels IH]; intros d Hd; simpl; [done|].
  by apply IH, NoDup_dict_touch.
Qed.

Lemma requested_labels_inv index key labels l :
  Bus.requested_labels index key = Ok labels ->
  l ∈ labels ->
  exists sel p, resolve (length index) key = Ok sel /\
                p ∈ sel_positions sel /\ index !! p = Some l.
Proof.
  unfold Bus.requested_labels.
  destruct (resolve (length index) key) as [[i|ps]|] eqn:Hsel; [| |done].
  - unfold getitem. destruct (index !! i) as [l'|] eqn:Hi; [|done].
    intros [= <-] ->%list_elem_of_singleton. exists (SElem i), i.
    split_and!; [done|apply list_elem_of_here|done].
  - unfold Index_iloc_many. case_bool_decide; [|done].
    intros [= <-] (p & Hp & Hl)%elem_of_take_at. by exists (SMany ps), p.
Qed.

Lemma load_needed_false bus (a : list bool) key sel p :
  _loaded_all bus = all_true a ->
  Bus.load_needed bus a key = Ok false ->
  resolve (length a) key = Ok sel ->
  p ∈ sel_positions sel ->
  a !! p = Some true.
Proof.
  intros Hall Hload Hsel Hp. unfold Bus.load_needed in Hload.
  pose proof (resolve_lt _ _ _ Hsel) as Hlt.
  rewrite Forall_forall in Hlt. specialize (Hlt p Hp).
  destruct (lookup_lt_is_Some_2 a p Hlt) as [b Hb].
  destruct (_loaded_all bus) eqn:E.
  - symmetry in Hall. rewrite all_true_lookup in Hall. by rewrite Hb, (Hall p b Hb).
  - rewrite Hsel in Hload. injection Hload as Hload.
    apply negb_false_iff in Hload. rewrite all_true_lookup in Hload.
    assert (b ∈ take_at a (sel_positions sel)) as (j & Hj)%list_elem_of_lookup
      by (apply elem_of_take_at; eauto).
    by rewrite Hb, (Hload j b Hj).
Qed.

(** A change of [loaded_count] alone, or of the dict without a ceiling,
    does not disturb the loop invariant. *)
Lemma locals_ok_view index mp s (d : PyDict) :
  locals_ok index mp s ->
  locals_ok index mp
    {| l_loaded := l_loaded s;
       l_last := if is_active mp then l_last s else d;
       l_array := l_array s;
       l_count := count_true (l_loaded s) |}.
Proof.
  intros [Hf Hl Hv Hlru]. split; simpl; try done.
  intros k ->. simpl. destruct (Hlru k eq_refl) as (? & ? & ? & ?).
  split_and!; try done. lia.
Qed.

Lemma targets_in_index v key targets :
  view_ok v ->
  Series_iloc (_series (v_bus v)) key = Ok targets ->
  Forall (fun item : Label * Value =>
            item.1 ∈ s_index (_series (v_bus v)) /\ item.2 <> VOther) targets.
Proof.
  intros [_ _ _ _ [Hf Hlen Hv _]] Ht. simpl in *.
  destruct (Series_iloc_inv _ _ _ (eq_sym Hlen) Ht) as (sel & Hsel & -> & _).
  apply Forall_forall. intros [l x] Hin.
  apply elem_of_take_at_zip in Hin as (p & _ & Hl & Hx); [|done|].
  - split; simpl; [by eapply list_elem_of_lookup_2|].
    intros ->. apply Hv. by eapply list_elem_of_lookup_2.
  - rewrite <- Hlen. by eapply resolve_lt.
Qed.

Lemma update_view_loop v key store targets :
  Bus.load_needed (v_bus v) (v_loaded v) key = Ok true ->
  _store (v_bus v) = Some store ->
  Series_iloc (_series (v_bus v)) key = Ok targets ->
  update_view v key =
    let '(locals, outcome) :=
      cache_loop (s_index (_series (v_bus v))) store (_config (v_bus v))
        (_max_persist (v_bus v)) targets (locals_of v) in
    ({| v_bus := match outcome with
                 | Ok _ => with_values (v_bus v) (l_loaded locals) (l_array locals)
                 | Raise _ => v_bus v
                 end;
        v_loaded := l_loaded locals;
        v_last := if is_active (_max_persist (v_bus v)) then l_last locals
                  else v_last v |},
     outcome).
Proof. intros Hload Hst Ht. unfold update_view. by rewrite Hload, Hst, Ht. Qed.

(** A cache update that completes re-establishes the invariant. *)
Lemma update_view_ok v key v' :
  view_ok v -> update_view v key = (v', Ok tt) -> view_ok v'.
Proof.
  intros Hok Hrun. pose proof Hok as [Hattrs Hnd Hstr Hall Hloc].
  destruct (Bus.load_needed (v_bus v) (v_loaded v) key) as [[|]|e] eqn:Hload.
  - (* frames to load *)
    destruct (_store (v_bus v)) as [store|] eqn:Hst;
      [|unfold update_view in Hrun; by rewrite Hload, Hst in Hrun].
    destruct (Series_iloc (_series (v_bus v)) key) as [targets|e] eqn:Ht;
      [|unfold update_view in Hrun; by rewrite Hload, Hst, Ht in Hrun].
    rewrite (update_view_loop v key store targets Hload Hst Ht) in Hrun.
    destruct (cache_loop_spec _ store (_config (v_bus v)) Hnd
                (_max_persist (v_bus v)) targets (locals_of v) Hloc
                (targets_in_index v key targets Hok Ht)) as (s' & r & Hloop & Hr).
    rewrite Hloop in Hrun. injection Hrun as <- ->.
    destruct Hr as [Hok' _]. split; simpl; try done.
    by apply locals_ok_view.
  - (* only the recency moves *)
    unfold update_view in Hrun. rewrite Hload in Hrun.
    destruct (_max_persist (v_bus v)) as [k|] eqn:Hk; [|by injection Hrun as <-].
    destruct (Bus.requested_labels _ _) as [labels|e] eqn:Hlabels; [|done].
    injection Hrun as <-. split; simpl; try done.
    destruct Hloc as [Hf Hlen Hv Hlru]. split; simpl in *; try done.
    intros k' Hk'. rewrite Hk in Hk'. injection Hk' as <-.
    destruct (Hlru k eq_refl) as (Hnd' & Hmem & Hc & Hb).
    split_and!; [by apply NoDup_foldl_touch | | done | done].
    intros l. rewrite elem_of_foldl_touch, Hmem. split; [|tauto].
    intros [H|H]; [done|].
    destruct (requested_labels_inv _ _ _ _ Hlabels H) as (sel & p & Hsel & Hp & Hl).
    exists p. split; [done|].
    eapply load_needed_false; eauto.
    rewrite Hf, length_fmap, Hlen. done.
  - unfold update_view in Hrun. by rewrite Hload in Hrun.
Qed.

(** ** Ownership is kept by a commit *)

Lemma length_commit self v h : length (commit self v h) = length h.
Proof.
  unfold commit. destruct (_last_accessed (v_bus v)); by rewrite !length_insert.
Qed.

Lemma commit_lookup_other self v h r :
  r <> self -> r <> _loaded (v_bus v) -> _last_accessed (v_bus v) <> Some r ->
  commit self v h !! r = h !! r.
Proof.
  intros H1 H2 H3. unfold commit.
  rewrite list_lookup_insert_ne by done.
  destruct (_last_accessed (v_bus v)) as [last|].
  - rewrite list_lookup_insert_ne by congruence. by rewrite list_lookup_insert_ne.
  - by rewrite list_lookup_insert_ne.
Qed.

(** The view of a bus after its own commit is the committed view. *)
Lemma view_of_commit_self h self v v' :
  view_of h self = Some v ->
  same_static (v_bus v) (v_bus v') ->
  (_last_accessed (v_bus v) = None -> v_last v' = []) ->
  view_of (commit self v' h) self = Some v'.
Proof.
  intros (Hs & Ha & Hd)%view_of_inv (E1 & E2 & _) Hnil.
  pose proof (lookup_lt_Some _ _ _ Hs). pose proof (lookup_lt_Some _ _ _ Ha).
  destruct v' as [bus' a' d']. simpl in *.
  apply view_of_intro.
  - unfold commit. simpl. rewrite list_lookup_insert_eq; [done|].
    destruct (_last_accessed bus'); by rewrite !length_insert.
  - unfold commit. simpl. rewrite E1.
    rewrite list_lookup_insert_ne by congruence.
    rewrite E2. destruct (_last_accessed (v_bus v)) as [last|].
    + rewrite list_lookup_insert_ne by congruence.
      by rewrite list_lookup_insert_eq.
    + by rewrite list_lookup_insert_eq.
  - unfold commit. simpl. rewrite E1, E2.
    destruct (_last_accessed (v_bus v)) as [last|]; [|by apply Hnil].
    pose proof (lookup_lt_Some _ _ _ Hd).
    rewrite list_lookup_insert_ne by congruence.
    rewrite list_lookup_insert_eq; [done|]. by rewrite length_insert.
Qed.

(** The view of any other bus is untouched by the commit. *)
Lemma view_of_commit_other h self v v' b :
  heap_ok h ->
  view_of h self = Some v ->
  same_static (v_bus v) (v_bus v') ->
  b <> self ->
  view_of (commit self v' h) b = view_of h b.
Proof.
  intros [Hviews Hsep] Hv (E1 & E2 & _) Hne.
  destruct (view_of_inv _ _ _ Hv) as (Hs & Ha & Hd).
  pose proof (lookup_lt_Some _ _ _ Hs) as Hs_lt.
  pose proof (lookup_lt_Some _ _ _ Ha) as Ha_lt.
  assert (Hlo : commit self v' h !! _loaded (v_bus v) = Some (ONdarray (v_loaded v'))).
  { unfold commit. rewrite E1, E2. rewrite list_lookup_insert_ne by congruence.
    destruct (_last_accessed (v_bus v)) as [last|].
    - rewrite list_lookup_insert_ne by congruence. by rewrite list_lookup_insert_eq.
    - by rewrite list_lookup_insert_eq. }
  assert (Hla : forall last, _last_accessed (v_bus v) = Some last ->
                commit self v' h !! last = Some (ODict (v_last v'))).
  { intros last Hl. unfold commit. rewrite E1, E2, Hl. rewrite Hl in Hd.
    pose proof (lookup_lt_Some _ _ _ Hd).
    rewrite list_lookup_insert_ne by congruence.
    rewrite list_lookup_insert_eq; [done|]. by rewrite length_insert. }
  assert (Hother : forall r, r <> self -> r <> _loaded (v_bus v) ->
                   _last_accessed (v_bus v) <> Some r ->
                   commit self v' h !! r = h !! r).
  { intros r ? ? ?. apply commit_lookup_other; [done| |]; by rewrite ?E1, ?E2. }
  unfold view_of at 1 2.
  destruct (decide (b = _loaded (v_bus v))) as [->|Hn1].
  { by rewrite Ha, Hlo. }
  destruct (decide (_last_accessed (v_bus v) = Some b)) as [Hl|Hn2].
  { rewrite (Hla b Hl). rewrite Hl in Hd. by rewrite Hd. }
  rewrite (Hother b) by done.
  destruct (h !! b) as [[busb| |]|] eqn:Hb; try done.
  destruct (Hviews b busb Hb) as [_ [vb Hvb]].
  destruct (view_of_inv _ _ _ Hvb) as (Hb' & Hab & Hdb).
  rewrite Hb in Hb'. injection Hb' as ->.
  destruct (Hsep b self _ _ Hne Hb Hs) as [S1 S2].
  rewrite (Hother (_loaded (v_bus vb))); [|congruence|done|].
  2:{ intros Hl. rewrite Hl in Hd. congruence. }
  rewrite Hab.
  destruct (_last_accessed (v_bus vb)) as [lb|] eqn:Hlb; [|done].
  rewrite (Hother lb); [done|congruence|congruence|].
  intros Hl. by apply (S2 lb).
Qed.

Lemma lookup_commit_bus h self v v' b bus :
  view_of h self = Some v ->
  same_static (v_bus v) (v_bus v') ->
  commit self v' h !! b = Some (OBus bus) ->
  (b = self /\ bus = v_bus v') \/ (b <> self /\ h !! b = Some (OBus bus)).
Proof.
  intros Hv (E1 & E2 & _) Hb.
  destruct (view_of_inv _ _ _ Hv) as (Hs & Ha & Hd).
  pose proof (lookup_lt_Some _ _ _ Hs) as Hs_lt.
  pose proof (lookup_lt_Some _ _ _ Ha) as Ha_lt.
  destruct (decide (b = self)) as [->|Hne].
  - left. split; [done|]. unfold commit in Hb.
    rewrite list_lookup_insert_eq in Hb; [congruence|].
    destruct (_last_accessed (v_bus v')); by rewrite !length_insert.
  - right. split; [done|]. unfold commit in Hb.
    rewrite list_lookup_insert_ne in Hb by done. rewrite E1, E2 in Hb.
    destruct (_last_accessed (v_bus v)) as [last|].
    + destruct (decide (last = b)) as [->|Hn].
      { pose proof (lookup_lt_Some _ _ _ Hd).
        rewrite list_lookup_insert_eq in Hb; [done|]. by rewrite length_insert. }
      rewrite list_lookup_insert_ne in Hb by done.
      destruct (decide (_loaded (v_bus v) = b)) as [<-|Hn'].
      { by rewrite list_lookup_insert_eq in Hb. }
      by rewrite list_lookup_insert_ne in Hb.
    + destruct (decide (_loaded (v_bus v) = b)) as [<-|Hn'].
      { by rewrite list_lookup_insert_eq in Hb. }
      by rewrite list_lookup_insert_ne in Hb.
Qed.

(** Committing a view with the same references keeps ownership intact. *)
Lemma heap_ok_commit h self v v' :
  heap_ok h ->
  view_of h self = Some v ->
  same_static (v_bus v) (v_bus v') ->
  (_last_accessed (v_bus v) = None -> v_last v' = []) ->
  heap_ok (commit self v' h).
Proof.
  intros Hok Hv Hstat Hnil. pose proof Hok as [Hviews Hsep].
  destruct (view_of_inv _ _ _ Hv) as (Hs & Ha & Hd).
  pose proof Hstat as (E1 & E2 & E3 & _).
  assert (Hattrs : attrs_ok (v_bus v')).
  { destruct (Hviews _ _ Hs) as [H _]. unfold attrs_ok in *. by rewrite E2, E3. }
  split.
  - intros b bus Hb.
    destruct (lookup_commit_bus _ _ _ _ _ _ Hv Hstat Hb) as [[-> ->]|[Hne Hb']].
    + split; [done|]. by rewrite (view_of_commit_self h self v v').
    + rewrite (view_of_commit_other h self v v' b) by done. by apply Hviews.
  - intros b1 b2 bus1 bus2 Hne Hb1 Hb2.
    destruct (lookup_commit_bus _ _ _ _ _ _ Hv Hstat Hb1) as [[-> ->]|[Hne1 Hb1']],
             (lookup_commit_bus _ _ _ _ _ _ Hv Hstat Hb2) as [[-> ->]|[Hne2 Hb2']];
      try done.
    + rewrite E1, E2. by apply (Hsep self b2).
    + rewrite E1, E2. by apply (Hsep b1 self).
    + by apply (Hsep b1 b2).
Qed.

Lemma update_view_last v key :
  attrs_ok (v_bus v) ->
  _last_accessed (v_bus v) = None ->
  v_last (update_view v key).1 = v_last v.
Proof.
  unfold attrs_ok. intros Hattrs Hl. unfold update_view.
  destruct (_max_persist (v_bus v)) eqn:Hk; rewrite Hl in Hattrs; [done|].
  destruct (Bus.load_needed _ _ _) as [[|]|]; try done.
  destruct (_store (v_bus v)); [|done].
  destruct (Series_iloc _ _); [|done].
  by destruct (cache_loop _ _ _ _ _ _) as [locals outcome].
Qed.

(** The cache update on the heap: the bus and its two objects change as
    [update_view] says, ownership is kept, and every other bus is as it
    was, whether the update returns or raises. *)
Lemma update_iloc_heap h self v key :
  heap_ok h ->
  view_of h self = Some v ->
  exists h',
    Bus._update_series_cache_iloc self key h = (h', (update_view v key).2) /\
    heap_ok h' /\
    length h' = length h /\
    view_of h' self = Some (update_view v key).1 /\
    (forall b, b <> self -> view_of h' b = view_of h b).
Proof.
  intros Hok Hv. destruct (view_of_inv _ _ _ Hv) as (Hs & _ & _).
  destruct (ho_views h Hok _ _ Hs) as [Hattrs _].
  pose proof (update_view_static v key) as Hstat.
  pose proof (update_view_last v key Hattrs) as Hlast.
  assert (Hnil : _last_accessed (v_bus v) = None -> v_last (update_view v key).1 = []).
  { intros Hl. rewrite (Hlast Hl). destruct (view_of_inv _ _ _ Hv) as (_ & _ & Hd).
    by rewrite Hl in Hd. }
  exists (commit self (update_view v key).1 h). split_and!.
  - by apply update_iloc_run.
  - by eapply heap_ok_commit.
  - apply length_commit.
  - by eapply view_of_commit_self.
  - intros b Hb. by eapply view_of_commit_other.
Qed.

(** ** Construction *)

Lemma gen_inv mp items (d0 : PyDict) loaded d :
  Bus.gen mp items d0 = Ok (loaded, d) ->
  loaded = (is_Frame <$> items.*2) /\
  (VOther ∉ items.*2) /\
  (forall l, l ∈ items.*1 -> exists s, l = LStr s) /\
  (NoDup d0 -> NoDup d) /\
  (if is_active mp
   then forall l, l ∈ d <-> l ∈ d0 \/ exists f, (l, VFrame f) ∈ items
   else d = d0).
Proof.
  revert d0 loaded d. induction items as [|[label value] items IH];
    intros d0 loaded d; simpl.
  { intros [= <- <-]. split_and!; try done.
    - apply not_elem_of_nil.
    - intros l H. by apply elem_of_nil in H.
    - destruct (is_active mp); [|done]. intros l. split; [tauto|].
      intros [H|[f H]]; [done|]. by apply elem_of_nil in H. }
  destruct label as [s|n]; [|done].
  destruct value as [f| |]; [| |done].
  - destruct (Bus.gen mp items _) as [[bs d']|] eqn:Hgen; [|done].
    intros [= <- <-].
    destruct (IH _ _ _ Hgen) as (-> & Hv & Hl & Hnd & Hd).
    split_and!; [done| | | |].
    + rewrite not_elem_of_cons. done.
    + intros l [->|H]%elem_of_cons; eauto.
    + intros H0. apply Hnd. destruct (is_active mp); [|done].
      by apply NoDup_dict_setitem.
    + destruct (is_active mp); [|done]. intros l. rewrite Hd, elem_of_dict_setitem.
      split.
      * intros [[->|H]|[g H]]; [right|by left|right].
        -- exists f. apply list_elem_of_here.
        -- exists g. by apply list_elem_of_further.
      * intros [H|[g [[= -> ->]|H]%elem_of_cons]]; [tauto|tauto|eauto].
  - destruct (Bus.gen mp items d0) as [[bs d']|] eqn:Hgen; [|done].
    intros [= <- <-].
    destruct (IH _ _ _ Hgen) as (-> & Hv & Hl & Hnd & Hd).
    split_and!; [done| | |done|].
    + rewrite not_elem_of_cons. done.
    + intros l [->|H]%elem_of_cons; eauto.
    + destruct (is_active mp); [|done]. intros l. rewrite Hd.
      split.
      * intros [H|[g H]]; [by left|right]. exists g. by apply list_elem_of_further.
      * intros [H|[g [[=]|H]%elem_of_cons]]; [tauto|eauto].
Qed.

Lemma init_run series store config mp h :
  Bus.__init__ series store config mp h =
  if bool_decide (s_dtype series <> DTYPE_OBJECT)
  then (h, Raise (ErrorInitBus NotObjectDtype))
  else match Bus.gen mp (Bus.Series_items series) [] with
       | Raise e => (h, Raise e)
       | Ok (loaded, d) =>
           if over_ceiling mp loaded
           then (h, Raise (ErrorInitBus MaxPersistTooSmall))
           else (h ++ new_cells series store config mp loaded d (length h),
                 Ok (length h + (if is_active mp then 2 else 1)))
       end.
Proof.
  unfold Bus.__init__. case_bool_decide; [done|].
  unfold bind at 1. unfold lift at 1.
  destruct (Bus.gen mp _ _) as [[loaded d]|e]; [|done].
  unfold over_ceiling, new_cells, new_bus.
  destruct mp as [k|]; simpl.
  - case_bool_decide; [done|].
    unfold bind, alloc, ret. simpl. rewrite !length_app. simpl.
    rewrite <- !app_assoc, ?Nat.add_1_r. simpl. do 2 f_equal. lia.
  - unfold bind, alloc, ret. simpl. rewrite !length_app. simpl.
    rewrite <- !app_assoc, ?Nat.add_1_r. simpl. do 2 f_equal.
Qed.

(** A constructor that raises leaves the heap as it found it. *)
Lemma init_raise series store config mp h h' e :
  Bus.__init__ series store config mp h = (h', Raise e) -> h' = h.
Proof.
  rewrite init_run. case_bool_decide; [by intros [= <-]|].
  destruct (Bus.gen mp _ _) as [[loaded d]|e']; [|by intros [= <-]].
  destruct (over_ceiling mp loaded); [by intros [= <-]|done].
Qed.

Lemma init_ok series store config mp h h' b :
  Bus.__init__ series store config mp h = (h', Ok b) ->
  exists loaded d,
    s_dtype series = DTYPE_OBJECT /\
    Bus.gen mp (Bus.Series_items series) [] = Ok (loaded, d) /\
    over_ceiling mp loaded = false /\
    h' = h ++ new_cells series store config mp loaded d (length h) /\
    b = length h + (if is_active mp then 2 else 1).
Proof.
  rewrite init_run. case_bool_decide as Hdt; [done|].
  destruct (Bus.gen mp _ _) as [[loaded d]|e']; [|done].
  destruct (over_ceiling mp loaded) eqn:Hc; [done|].
  intros [= <- <-]. exists loaded, d. split_and!; try done.
Qed.

Lemma view_of_new series store config mp loaded d (h : Heap) :
  view_of (h ++ new_cells series store config mp loaded d (length h))
    (length h + (if is_active mp then 2 else 1))
  = Some (new_view series store config mp loaded d (length h)).
Proof.
  unfold new_view, new_cells. destruct mp as [k|]; simpl.
  - apply view_of_intro; simpl.
    + rewrite lookup_app_r by lia. by replace (length h + 2 - length h) with 2 by lia.
    + rewrite lookup_app_r by lia. by replace (S (length h) - length h) with 1 by lia.
    + rewrite lookup_app_r by lia. by rewrite Nat.sub_diag.
  - apply view_of_intro; simpl; [|by rewrite lookup_app_r, Nat.sub_diag by lia|done].
    rewrite lookup_app_r by lia. by replace (length h + 1 - length h) with 1 by lia.
Qed.

Lemma view_of_app (h ext : Heap) b :
  heap_ok h -> b < length h -> view_of (h ++ ext) b = view_of h b.
Proof.
  intros [Hviews _] Hb. unfold view_of at 1 2.
  rewrite lookup_app_l by done.
  destruct (h !! b) as [[bus| |]|] eqn:Hbus; try done.
  destruct (Hviews b bus Hbus) as [_ [v Hv]].
  destruct (view_of_inv _ _ _ Hv) as (Hs & Ha & Hd).
  rewrite Hbus in Hs. injection Hs as ->.
  rewrite lookup_app_l by by eapply lookup_lt_Some.
  rewrite Ha. destruct (_last_accessed (v_bus v)) as [last|]; [|done].
  rewrite lookup_app_l by by eapply lookup_lt_Some. done.
Qed.

Lemma lookup_new_cells series store config mp loaded d (h : Heap) b bus :
  (h ++ new_cells series store config mp loaded d (length h)) !! b = Some (OBus bus) ->
  (b < length h /\ h !! b = Some (OBus bus)) \/
  (b = length h + (if is_active mp then 2 else 1) /\
   bus = new_bus series store config mp loaded (length h)).
Proof.
  destruct (decide (b < length h)) as [Hlt|Hge].
  { rewrite lookup_app_l by done. by left. }
  rewrite lookup_app_r by lia. intros Hb. right.
  unfold new_cells in Hb.
  destruct mp as [k|]; simpl in *.
  - destruct (b - length h) as [|[|[|n]]] eqn:E; simpl in Hb; try done.
    injection Hb as <-. split; [lia|done].
  - destruct (b - length h) as [|[|n]] eqn:E; simpl in Hb; try done.
    injection Hb as <-. split; [lia|done].
Qed.

(** Allocating a bus with its own objects keeps ownership intact. *)
Lemma heap_ok_new series store config mp loaded d (h : Heap) :
  heap_ok h ->
  heap_ok (h ++ new_cells series store config mp loaded d (length h)).
Proof.
  intros Hok. pose proof Hok as [Hviews Hsep].
  assert (Hold : forall b bus, h !! b = Some (OBus bus) ->
            _loaded bus < length h /\
            forall last, _last_accessed bus = Some last -> last < length h).
  { intros b bus Hb. destruct (Hviews b bus Hb) as [_ [v Hv]].
    destruct (view_of_inv _ _ _ Hv) as (Hs & Ha & Hd).
    rewrite Hb in Hs. injection Hs as ->.
    split; [by eapply lookup_lt_Some|]. intros last Hl. rewrite Hl in Hd.
    by eapply lookup_lt_Some. }
  split.
  - intros b bus Hb.
    destruct (lookup_new_cells _ _ _ _ _ _ _ _ _ Hb) as [[Hlt Hb']|[-> ->]].
    + rewrite view_of_app by done. by apply Hviews.
    + split; [unfold attrs_ok; by destruct mp|]. by rewrite view_of_new.
  - intros b1 b2 bus1 bus2 Hne Hb1 Hb2.
    destruct (lookup_new_cells _ _ _ _ _ _ _ _ _ Hb1) as [[Hlt1 Hb1']|[-> ->]],
             (lookup_new_cells _ _ _ _ _ _ _ _ _ Hb2) as [[Hlt2 Hb2']|[-> ->]].
    + by apply (Hsep b1 b2).
    + destruct (Hold _ _ Hb1') as [H1 H2]. split.
      * destruct mp; simpl; lia.
      * intros last Hl. specialize (H2 last Hl). destruct mp; simpl; [|done].
        intros [= ?]. lia.
    + destruct (Hold _ _ Hb2') as [H1 H2]. split.
      * destruct mp; simpl; lia.
      * intros last Hl Hl2. specialize (H2 last Hl2). destruct mp; simpl in *; [|done].
        injection Hl as <-. lia.
    + done.
Qed.

(** A freshly built bus satisfies the invariant. *)
Lemma view_ok_new series store config mp loaded d base :
  Series_valid series ->
  Bus.gen mp (Bus.Series_items series) [] = Ok (loaded, d) ->
  over_ceiling mp loaded = false ->
  view_ok (new_view series store config mp loaded d base).
Proof.
  intros [Hnd Hlen] Hgen Hc.
  destruct (gen_inv _ _ _ _ _ Hgen) as (Hl & Hv & Hstr & Hndd & Hd).
  unfold Bus.Series_items in *.
  rewrite snd_zip in Hl, Hv by lia. rewrite fst_zip in Hstr by lia.
  split; simpl.
  - unfold attrs_ok. by destruct mp.
  - done.
  - intros l Hin. by destruct (Hstr l Hin) as [s ->].
  - done.
  - split; simpl; [done|by rewrite Hlen|done|].
    intros k ->. simpl in *. split_and!.
    + apply Hndd. constructor.
    + intros l. rewrite Hd. split.
      * intros [H|[f H]]; [by apply elem_of_nil in H|].
        apply list_elem_of_lookup in H as [i Hi].
        apply lookup_zip_with_Some in Hi as (l' & x & [= <- <-] & Hi1 & Hi2).
        exists i. split; [done|]. by rewrite Hl, list_lookup_fmap, Hi2.
      * intros (i & Hi & Hli). right.
        rewrite Hl, list_lookup_fmap in Hli.
        destruct (s_values series !! i) as [[f| |]|] eqn:Hx; try done.
        exists f. apply list_elem_of_lookup. exists i.
        apply lookup_zip_with_Some. eauto.
    + done.
    + case_bool_decide; [done|lia].
Qed.

(** ** Operations as steps on the heap *)

Lemma bind_inv {S A B} (m : M S A) (k : A -> M S B) s s2 r :
  bind m k s = (s2, r) ->
  (exists e, m s = (s2, Raise e) /\ r = Raise e) \/
  (exists s1 a, m s = (s1, Ok a) /\ k a s1 = (s2, r)).
Proof.
  unfold bind. destruct (m s) as [s1 [a|e]].
  - right. eauto.
  - intros [= <- <-]. left. eauto.
Qed.

Lemma get_bus_inv self h h' r :
  get_bus self h = (h', r) ->
  h' = h /\ match r with
            | Ok bus => h !! self = Some (OBus bus)
            | Raise _ => True
            end.
Proof.
  unfold get_bus. destruct (h !! self) as [[bus| |]|]; intros [= <- <-]; done.
Qed.

Lemma same_static_trans b1 b2 b3 :
  same_static b1 b2 -> same_static b2 b3 -> same_static b1 b3.
Proof.
  intros (?&?&?&?&?&?) (?&?&?&?&?&?). repeat split; congruence.
Qed.

Lemma frame_refl self h : heap_ok h -> frame self h h.
Proof.
  split; try done. intros v Hv. exists v. split; [done|apply same_static_refl].
Qed.

Lemma frame_trans self h h1 h2 : frame self h h1 -> frame self h1 h2 -> frame self h h2.
Proof.
  intros [H1 L1 O1 S1] [H2 L2 O2 S2]. split; [done|lia| |].
  - intros b Hb Hlt. rewrite O2, O1; [done..|lia].
  - intros v Hv. destruct (S1 v Hv) as (v1 & Hv1 & E1).
    destruct (S2 v1 Hv1) as (v2 & Hv2 & E2). exists v2. split; [done|].
    by eapply same_static_trans.
Qed.

Lemma restores_trans self h h1 h2 :
  frame self h1 h2 -> restores self h h1 -> restores self h1 h2 -> restores self h h2.
Proof.
  intros [H2 L2 O2 _] R1 R2 b v Hv Hb.
  destruct (decide (b = self)) as [->|Hne]; [by eapply R2; eauto|].
  destruct Hb as [?|Hb]; [done|].
  destruct (decide (length h1 <= b)) as [Hge|Hlt]; [by eapply R2; eauto|].
  rewrite O2 in Hv by (done || lia). eapply R1; eauto.
Qed.

Lemma view_of_lt h b v : view_of h b = Some v -> b < length h.
Proof. intros (Hs & _)%view_of_inv. by eapply lookup_lt_Some. Qed.

Lemma world_ok_step self h h' :
  world_ok h -> frame self h h' -> restores self h h' -> world_ok h'.
Proof.
  intros [Hh Hall] [H' L O _] R. split; [done|].
  intros b v Hv. destruct (decide (b = self)) as [->|Hne]; [by eapply R; eauto|].
  destruct (decide (length h <= b)) as [Hge|Hlt]; [by eapply R; eauto|].
  rewrite O in Hv by (done || lia). by eapply Hall.
Qed.

(** *** The cache update as a step *)

Lemma update_iloc_frame self key h h' r :
  heap_ok h ->
  Bus._update_series_cache_iloc self key h = (h', r) ->
  frame self h h'.
Proof.
  intros Hok Hrun.
  destruct (view_of h self) as [v|] eqn:Hv.
  - destruct (update_iloc_heap h self v key Hok Hv)
      as (h1 & Hrun' & Hok1 & Hlen & Hself & Hoth).
    rewrite Hrun in Hrun'. injection Hrun' as <- _.
    split; [done|lia| |].
    + intros b Hb _. by apply Hoth.
    + intros v0 Hv0. rewrite Hv in Hv0. injection Hv0 as <-.
      eexists. split; [done|]. apply update_view_static.
  - assert (h' = h) as ->; [|by apply frame_refl].
    unfold Bus._update_series_cache_iloc in Hrun.
    apply bind_inv in Hrun as [(e & Hg & _)|(h1 & bus & Hg & Hrun)];
      [by apply get_bus_inv in Hg as [-> _]|].
    apply get_bus_inv in Hg as [-> Hs].
    apply bind_inv in Hrun as [(e & Hg & _)|(h1 & a & Hg & Hrun)].
    + unfold get_ndarray in Hg. by destruct (h !! _loaded bus) as [[| |]|]; injection Hg.
    + exfalso. destruct (ho_views h Hok _ _ Hs) as [_ [v Hv']]. congruence.
Qed.

Lemma update_iloc_restores self key h h' :
  world_ok h ->
  Bus._update_series_cache_iloc self key h = (h', Ok tt) ->
  restores self h h'.
Proof.
  intros [Hok Hall] Hrun b v' Hv' Hb.
  destruct (view_of h self) as [v|] eqn:Hv.
  - destruct (update_iloc_heap h self v key Hok Hv) as (h1 & Hrun' & Hok1 & Hlen & Hself & Hoth).
    rewrite Hrun in Hrun'. injection Hrun' as <- Hr.
    destruct Hb as [->|Hb].
    + rewrite Hself in Hv'. injection Hv' as <-.
      apply (update_view_ok v key); [by eapply Hall|].
      destruct (update_view v key) as [v1 r1]. simpl in *. by subst.
    + apply view_of_lt in Hv'. lia.
  - exfalso. unfold Bus._update_series_cache_iloc in Hrun.
    apply bind_inv_ok in Hrun as (h1 & bus & Hg & Hrun).
    apply get_bus_inv in Hg as [-> Hs].
    destruct (ho_views h Hok _ _ Hs) as [_ [v Hv'']]. congruence.
Qed.

(** *** Construction and extraction as steps *)

Lemma length_take_at {A} (a : list A) ps :
  Forall (fun p => p < length a) ps -> length (take_at a ps) = length ps.
Proof.
  induction 1 as [|p ps Hp Hps IH]; [done|].
  destruct (lookup_lt_is_Some_2 a p Hp) as [x Hx].
  rewrite (take_at_cons a p ps x Hx). simpl. by rewrite IH.
Qed.

Lemma extends_refl h : heap_ok h -> extends h h.
Proof. by split. Qed.

Lemma extends_frame self h h' : extends h h' -> frame self h h'.
Proof.
  intros [H L V]. split; [done..| |].
  - intros b _. apply V.
  - intros v Hv. exists v. split; [|apply same_static_refl].
    rewrite V; [done|]. by eapply view_of_lt.
Qed.

Lemma init_extends series store config mp h h' r :
  heap_ok h ->
  Bus.__init__ series store config mp h = (h', r) ->
  extends h h'.
Proof.
  intros Hok Hrun. destruct r as [b|e].
  - destruct (init_ok _ _ _ _ _ _ _ Hrun) as (loaded & d & _ & _ & _ & -> & ->).
    split.
    + by apply heap_ok_new.
    + rewrite length_app. lia.
    + intros b Hb. by apply view_of_app.
  - apply init_raise in Hrun as ->. by apply extends_refl.
Qed.

(** The bus a completed constructor hands back is new, satisfies the
    invariant, and carries what it was given. *)
Lemma init_new series store config mp h h' b :
  Series_valid series ->
  Bus.__init__ series store config mp h = (h', Ok b) ->
  length h <= b /\
  exists v, view_of h' b = Some v /\ view_ok v /\
            _series (v_bus v) = series /\
            _store (v_bus v) = store /\
            _config (v_bus v) = StoreConfigMap_from_initializer config /\
            _max_persist (v_bus v) = mp /\
            length h <= _loaded (v_bus v) /\
            (forall last, _last_accessed (v_bus v) = Some last -> length h <= last) /\
            (forall b', view_of h' b' <> None -> length h <= b' -> b' = b).
Proof.
  intros Hvalid Hrun.
  destruct (init_ok _ _ _ _ _ _ _ Hrun) as (loaded & d & _ & Hgen & Hc & -> & ->).
  split; [lia|]. eexists. split; [apply view_of_new|].
  split; [by apply view_ok_new|]. simpl. split_and!; try done.
  - destruct (is_active mp); lia.
  - intros last. destruct (is_active mp); [|done]. intros [= <-]. done.
  - intros b' Hb' Hge. unfold view_of in Hb'.
    destruct (_ !! b') as [[bus| |]|] eqn:Hs; try done.
    apply lookup_new_cells in Hs as [[? _]|[-> _]]; [lia|done].
Qed.

Lemma extract_values_extends self key h h' r :
  heap_ok h ->
  Bus.extract_values self key h = (h', r) ->
  extends h h'.
Proof.
  intros Hok Hrun. unfold Bus.extract_values in Hrun.
  apply bind_inv in Hrun as [(e & Hg & _)|(h1 & bus & Hg & Hrun)];
    [apply get_bus_inv in Hg as [-> _]; by apply extends_refl|].
  apply get_bus_inv in Hg as [-> Hs].
  unfold bind at 1, lift at 1 in Hrun.
  destruct (resolve _ key) as [[i|ps]|e].
  - unfold bind, lift, ret in Hrun.
    destruct (getitem _ i); injection Hrun as <- _; by apply extends_refl.
  - unfold bind at 1, lift at 1 in Hrun.
    destruct (Index_iloc_many _ ps) as [index|e];
      [|injection Hrun as <- _; by apply extends_refl].
    apply bind_inv in Hrun as [(e & Hi & _)|(h1 & b & Hi & Hrun)].
    + by eapply init_extends.
    + injection Hrun as <- _. by eapply init_extends.
  - injection Hrun as <- _. by apply extends_refl.
Qed.

Lemma Index_iloc_many_inv index ps labels :
  Index_iloc_many index ps = Ok labels ->
  labels = take_at index ps /\ NoDup labels.
Proof.
  unfold Index_iloc_many. case_bool_decide; [|done]. by intros [= <-].
Qed.

Lemma extract_values_restores self key h h' x :
  world_ok h ->
  Bus.extract_values self key h = (h', Ok x) ->
  restores self h h'.
Proof.
  intros [Hok Hall] Hrun.
  pose proof (extract_values_extends _ _ _ _ _ Hok Hrun) as [Hok' Hlen Hviews].
  intros b v Hv Hb.
  destruct (decide (b < length h)) as [Hlt|Hge].
  { rewrite Hviews in Hv by done. by eapply Hall. }
  unfold Bus.extract_values in Hrun.
  apply bind_inv_ok in Hrun as (h1 & bus & Hg & Hrun).
  apply get_bus_inv in Hg as [-> Hs].
  destruct (ho_views h Hok _ _ Hs) as [_ [vs Hvs]].
  pose proof (Hall _ _ Hvs) as [_ Hnd Hstr _ [_ Hlen' _ _]]. simpl in Hlen'.
  destruct (view_of_inv _ _ _ Hvs) as (Hs' & _).
  rewrite Hs in Hs'. injection Hs' as ->.
  unfold bind at 1, lift at 1 in Hrun.
  destruct (resolve _ key) as [[i|ps]|e] eqn:Hsel; [| |done].
  - unfold bind, lift, ret in Hrun.
    destruct (getitem _ i); [|done]. injection Hrun as <- _.
    apply view_of_lt in Hv. lia.
  - unfold bind at 1, lift at 1 in Hrun.
    destruct (Index_iloc_many _ ps) as [index|e] eqn:Hidx; [|done].
    apply Index_iloc_many_inv in Hidx as [-> Hnd'].
    apply bind_inv_ok in Hrun as (h1 & b' & Hi & Hrun).
    injection Hrun as <- _.
    apply init_new in Hi as (_ & v' & Hv' & Hok'' & _ & _ & _ & _ & _ & _ & Hnew).
    + assert (b = b') as -> by (apply Hnew; [congruence|lia]).
      congruence.
    + split; simpl; [done|].
      pose proof (resolve_lt _ _ _ Hsel) as Hlt. simpl in Hlt.
      rewrite !length_take_at; [done|done|]. by rewrite <- Hlen'.
Qed.

Lemma restores_refl self h : world_ok h -> restores self h h.
Proof. intros [_ Hall] b v Hv _. by eapply Hall. Qed.

Lemma step_of_reads {A} self (m : M Heap A) :
  (forall h h' r, m h = (h', r) -> h' = h) -> step_of self m.
Proof.
  intros Hm h h' r Hok Hrun. apply Hm in Hrun as ->.
  split; [by apply frame_refl|]. intros. by apply restores_refl.
Qed.

Lemma step_of_ret {A} self (a : A) : step_of self (ret a).
Proof. apply step_of_reads. by intros h h' r [= <- _]. Qed.

Lemma step_of_raise {A} self e : step_of self (@raise Heap A e).
Proof. apply step_of_reads. by intros h h' r [= <- _]. Qed.

Lemma step_of_lift {A} self (x : res A) : step_of self (lift x).
Proof. apply step_of_reads. by intros h h' r [= <- _]. Qed.

Lemma step_of_get self : step_of self (@get Heap).
Proof. apply step_of_reads. by intros h h' r [= <- _]. Qed.

Lemma step_of_get_bus self b : step_of self (get_bus b).
Proof. apply step_of_reads. intros h h' r H. by apply get_bus_inv in H as [-> _]. Qed.

Lemma step_of_get_ndarray self b : step_of self (get_ndarray b).
Proof.
  apply step_of_reads. intros h h' r. unfold get_ndarray.
  by destruct (h !! b) as [[| |]|]; intros [= <- _].
Qed.

Lemma step_of_bind {A B} self (m : M Heap A) (k : A -> M Heap B) :
  step_of self m -> (forall a, step_of self (k a)) -> step_of self (bind m k).
Proof.
  intros Hm Hk h h' r Hok Hrun.
  apply bind_inv in Hrun as [(e & Hrun & ->)|(h1 & a & Hrun & Hrun')].
  - destruct (Hm _ _ _ Hok Hrun) as [Hf _]. split; [done|]. by intros _ [=].
  - destruct (Hm _ _ _ Hok Hrun) as [Hf Hr].
    destruct (Hk a _ _ _ (fr_heap _ _ _ Hf) Hrun') as [Hf' Hr'].
    split; [by eapply frame_trans|].
    intros Hw Hr''. specialize (Hr Hw eq_refl).
    eapply restores_trans; [done..|]. apply Hr'; [|done].
    by eapply world_ok_step.
Qed.

Lemma step_of_update_iloc self key : step_of self (Bus._update_series_cache_iloc self key).
Proof.
  intros h h' r Hok Hrun. split; [by eapply update_iloc_frame|].
  intros Hw Hr. destruct r as [[]|]; [|done]. by eapply update_iloc_restores.
Qed.

Lemma step_of_extract_values self key : step_of self (Bus.extract_values self key).
Proof.
  intros h h' r Hok Hrun. split.
  - eapply extends_frame. by eapply extract_values_extends.
  - intros Hw Hr. destruct r as [x|]; [|done]. by eapply extract_values_restores.
Qed.

Lemma step_of_update_all self : step_of self (Bus._update_series_cache_all self).
Proof.
  unfold Bus._update_series_cache_all. apply step_of_bind; [apply step_of_get_bus|].
  intros bus. destruct (negb _); [apply step_of_update_iloc | apply step_of_ret].
Qed.

Lemma step_of_extract_iloc self key : step_of self (Bus._extract_iloc self key).
Proof.
  apply step_of_bind; [apply step_of_update_iloc|]. intros _. apply step_of_extract_values.
Qed.

Lemma step_of_extract_loc self key : step_of self (Bus._extract_loc self key).
Proof.
  apply step_of_bind; [apply step_of_get_bus|]. intros bus.
  apply step_of_bind; [apply step_of_lift|]. intros iloc_key.
  apply step_of_bind; [apply step_of_update_iloc|]. intros _.
  apply step_of_extract_values.
Qed.

Lemma step_of_equals self other compare_name :
  step_of self (Bus.equals self other compare_name).
Proof.
  unfold Bus.equals. case_bool_decide; [apply step_of_ret|].
  apply step_of_bind; [apply step_of_get|]. intros h.
  destruct (h !! other) as [[bus| |]|]; try apply step_of_ret.
  apply step_of_bind; [apply step_of_update_all|]. intros _.
  apply step_of_bind; [apply step_of_get_bus|]. intros b1.
  apply step_of_bind; [apply step_of_get_bus|]. intros b2.
  repeat (case_match; try apply step_of_ret). apply step_of_lift.
Qed.

Lemma dtypes_reads self h h' r :
  Bus.dtypes self h = (h', r) -> h' = h.
Proof.
  unfold Bus.dtypes. intros Hrun.
  apply bind_inv in Hrun as [(e & Hg & _)|(h1 & bus & Hg & Hrun)];
    apply get_bus_inv in Hg as [-> _]; [done|].
  unfold bind at 1, get_ndarray in Hrun.
  destruct (h !! _loaded bus) as [[| |]|]; try by injection Hrun as <- _.
  destruct (negb _); [by injection Hrun as <- _|].
  unfold bind, lift, ret in Hrun.
  destruct (Bus.loaded_dtypes _); [|by injection Hrun as <- _].
  destruct (Frame_from_concat _); by injection Hrun as <- _.
Qed.

Lemma step_of_exec self op : step_of self (exec self op).
Proof.
  destruct op; simpl; (apply step_of_bind; [|intros; apply step_of_ret]).
  - apply step_of_extract_loc.
  - apply step_of_extract_iloc.
  - apply step_of_bind; [apply step_of_update_all|]. intros _.
    apply step_of_bind; [apply step_of_get_bus|]. intros; apply step_of_ret.
  - apply step_of_bind; [apply step_of_update_all|]. intros _.
    apply step_of_bind; [apply step_of_get_bus|]. intros; apply step_of_ret.
  - apply step_of_reads. apply dtypes_reads.
  - apply step_of_bind; [apply step_of_get_bus|]. intros; apply step_of_ret.
  - apply step_of_bind; [apply step_of_get_bus|]. intros; apply step_of_ret.
  - apply step_of_equals.
Qed.

(** Every operation that completes keeps the invariant of every bus. *)
Lemma exec_world_ok self op h h' :
  world_ok h -> exec self op h = (h', Ok tt) -> world_ok h'.
Proof.
  intros Hw Hrun. destruct (step_of_exec self op h h' _ (proj1 Hw) Hrun) as [Hf Hr].
  eapply world_ok_step; eauto.
Qed.

(** Every operation, completed or not, keeps ownership. *)
Lemma exec_heap_ok self op h h' r :
  heap_ok h -> exec self op h = (h', r) -> heap_ok h'.
Proof.
  intros Hok Hrun. by destruct (step_of_exec self op h h' r Hok Hrun) as [[] _].
Qed.

Lemma exec_all_world_ok ops h h' :
  world_ok h -> exec_all ops h = (h', Ok tt) -> world_ok h'.
Proof.
  revert h. induction ops as [|[self op] ops IH]; intros h Hw; simpl.
  - by intros [= <-].
  - intros Hrun. apply bind_inv_ok in Hrun as (h1 & [] & Hrun & Hrest).
    eapply IH; [|done]. by eapply exec_world_ok.
Qed.

Lemma exec_keeps_static b self op h h' r v :
  heap_ok h ->
  view_of h b = Some v ->
  exec self op h = (h', r) ->
  exists v', view_of h' b = Some v' /\ same_static (v_bus v) (v_bus v').
Proof.
  intros Hok Hv Hrun.
  destruct (step_of_exec self op h h' r Hok Hrun) as [[_ _ Hoth Hself] _].
  destruct (decide (b = self)) as [->|Hne]; [by apply Hself|].
  exists v. split; [|apply same_static_refl].
  rewrite Hoth; [done..|]. by eapply view_of_lt.
Qed.

Lemma exec_all_keeps_static b ops h h' r v :
  heap_ok h ->
  view_of h b = Some v ->
  exec_all ops h = (h', r) ->
  exists v', view_of h' b = Some v' /\ same_static (v_bus v) (v_bus v').
Proof.
  revert h v. induction ops as [|[self op] ops IH]; intros h v Hok Hv; simpl.
  - intros [= <- _]. exists v. split; [done|apply same_static_refl].
  - intros Hrun.
    apply bind_inv in Hrun as [(e & Hrun & ->)|(h1 & [] & Hrun & Hrest)].
    + by eapply exec_keeps_static.
    + destruct (exec_keeps_static _ _ _ _ _ _ _ Hok Hv Hrun) as (v1 & Hv1 & E1).
      destruct (IH h1 v1 (exec_heap_ok _ _ _ _ _ Hok Hrun) Hv1 Hrest) as (v2 & Hv2 & E2).
      exists v2. split; [done|]. by eapply same_static_trans.
Qed.

Lemma deferred_series_valid labels series :
  Bus._deferred_series labels = Ok series ->
  Series_valid series /\ s_index series = labels /\
  s_values series = ((fun _ => FrameDeferred) <$> labels).
Proof.
  unfold Bus._deferred_series. case_bool_decide; [|done]. intros [= <-].
  split; [|done]. split; simpl; [done|]. by rewrite length_fmap.
Qed.

(** A bus built from a store is new and satisfies the invariant, and the
    heap keeps every invariant it had. *)
Lemma from_store_world_ok store config mp h h' b :
  world_ok h ->
  Bus._from_store store config mp h = (h', Ok b) ->
  world_ok h' /\
  exists v, view_of h' b = Some v /\
            _max_persist (v_bus v) = mp /\
            _store (v_bus v) = Some store /\
            s_index (_series (v_bus v)) = store_labels store.
Proof.
  intros [Hok Hall] Hrun. unfold Bus._from_store in Hrun.
  apply bind_inv_ok in Hrun as (h1 & series & Hs & Hrun).
  unfold lift in Hs. injection Hs as <- Hs.
  apply deferred_series_valid in Hs as (Hvalid & Hidx & _).
  pose proof (init_extends _ _ _ _ _ _ _ Hok Hrun) as [Hok' Hlen Hviews].
  destruct (init_new _ _ _ _ _ _ _ Hvalid Hrun)
    as (Hge & v & Hv & Hvok & Es & Est & _ & Emp & _ & _ & Hnew).
  split.
  - split; [done|]. intros b' v' Hv'.
    destruct (decide (b' < length h)) as [Hlt|Hnlt].
    + rewrite Hviews in Hv' by done. by eapply Hall.
    + assert (b' = b) as -> by (apply Hnew; [congruence|lia]). congruence.
  - exists v. by rewrite Es.
Qed.

Lemma world_ok_nil : world_ok [].
Proof.
  split; [split|]; intros *; try done.
  all: by rewrite lookup_nil.
Qed.

(** * The claims *)

(** C1.  A bus built from a store with a ceiling [k] never has more than
    [k] flags set in [_loaded] after a run of public operations (label,
    positional and list selections, full materialization, descriptors and
    comparisons, on this bus or on any other bus of the heap) that
    completes without raising. *)
Theorem resident_count_within_ceiling store config (k : Z) h0 h1 b ops h2 :
  world_ok h0 ->
  Bus._from_store store config (Some k) h0 = (h1, Ok b) ->
  exec_all ops h1 = (h2, Ok tt) ->
  exists v, view_of h2 b = Some v /\
            _max_persist (v_bus v) = Some k /\
            (count_true (v_loaded v) <= k)%Z.
Proof.
  intros Hw0 Hnew Hrun.
  destruct (from_store_world_ok _ _ _ _ _ _ Hw0 Hnew) as (Hw1 & v1 & Hv1 & Hmp & _).
  pose proof (exec_all_world_ok _ _ _ Hw1 Hrun) as [Hok2 Hall2].
  destruct (exec_all_keeps_static b ops h1 h2 _ v1 (proj1 Hw1) Hv1 Hrun)
    as (v2 & Hv2 & (_ & _ & Emp & _)).
  exists v2. rewrite Emp, Hmp. split_and!; [done..|].
  destruct (Hall2 _ _ Hv2) as [_ _ _ _ [_ _ _ Hlru]].
  destruct (Hlru k) as (_ & _ & _ & Hle); [by rewrite Emp|]. done.
Qed.

Lemma resident_count_within_ceiling_witness :
  exists v,
    view_of (exec_all sample_ops
               (Bus._from_store sample_store InitNone (Some 1%Z) []).1).1 2 = Some v /\
    _max_persist (v_bus v) = Some 1%Z /\
    (count_true (v_loaded v) <= 1)%Z.
Proof.
  apply (resident_count_within_ceiling sample_store InitNone 1 []
           (Bus._from_store sample_store InitNone (Some 1%Z) []).1 2 sample_ops
           (exec_all sample_ops
              (Bus._from_store sample_store InitNone (Some 1%Z) []).1).1).
  - apply world_ok_nil.
  - reflexivity.
  - reflexivity.
Defined.

(** C2.  Labels a, b, c behind a ceiling of one: each access by label
    leaves exactly the label just read resident and puts the one read
    before back to [FrameDeferred]; a full materialization then walks
    a, b, c and ends with c alone resident. *)
Theorem lru_scenario_ceiling_one (fa fb fc : Frame) config :
  let store := store_abc (Some fa) (Some fb) (Some fc) in
  let built := Bus._from_store store config (Some 1%Z) [] in
  let b := 2 in
  let read_a := Bus.__getitem__ b (LocLabel (LStr "a")) built.1 in
  let read_b := Bus.__getitem__ b (LocLabel (LStr "b")) read_a.1 in
  let read_a' := Bus.__getitem__ b (LocLabel (LStr "a")) read_b.1 in
  let all := Bus._update_series_cache_all b read_a'.1 in
  built.2 = Ok b /\
  residency built.1 b
    = Some ([false; false; false], [FrameDeferred; FrameDeferred; FrameDeferred]) /\
  read_a.2 = Ok (Element (VFrame fa)) /\
  residency read_a.1 b
    = Some ([true; false; false], [VFrame fa; FrameDeferred; FrameDeferred]) /\
  read_b.2 = Ok (Element (VFrame fb)) /\
  residency read_b.1 b
    = Some ([false; true; false], [FrameDeferred; VFrame fb; FrameDeferred]) /\
  read_a'.2 = Ok (Element (VFrame fa)) /\
  residency read_a'.1 b
    = Some ([true; false; false], [VFrame fa; FrameDeferred; FrameDeferred]) /\
  all.2 = Ok tt /\
  residency all.1 b
    = Some ([false; false; true], [FrameDeferred; FrameDeferred; VFrame fc]).
Proof. repeat split; vm_compute; reflexivity. Qed.

(** C3 (the failing input).  Labels a, b, c with no ceiling, where the
    store cannot read b: a full materialization reads a, sets its flag in
    [_loaded] in place, and raises on b before the new series is bound.
    The flag of a is then set while its slot still holds [FrameDeferred],
    and a later [bus["a"]] hands [FrameDeferred] to the caller. *)
Theorem flags_ahead_of_slots_after_read_error (fa fc : Frame) config :
  let store := store_abc (Some fa) None (Some fc) in
  let built := Bus._from_store store config None [] in
  let b := 1 in
  let failed := Bus.values b built.1 in
  built.2 = Ok b /\
  failed.2 = Raise (StoreReadError (LStr "b")) /\
  residency failed.1 b
    = Some ([true; false; false], [FrameDeferred; FrameDeferred; FrameDeferred]) /\
  (Bus.__getitem__ b (LocLabel (LStr "a")) failed.1).2 = Ok (Element FrameDeferred).
Proof. repeat split; vm_compute; reflexivity. Qed.

(** After an operation that completes, the flag of every slot of every bus
    says whether the slot holds a frame. *)
Lemma flags_match_slots_when_completed self op h h' b v :
  world_ok h ->
  exec self op h = (h', Ok tt) ->
  view_of h' b = Some v ->
  v_loaded v = is_Frame <$> s_values (_series (v_bus v)).
Proof.
  intros Hw Hrun Hv. destruct (exec_world_ok _ _ _ _ Hw Hrun) as [_ Hall].
  by destruct (Hall _ _ Hv) as [_ _ _ _ [Hf _ _ _]].
Qed.

(** ** Read errors *)

Lemma load_needed_true bus (a : list bool) key sel p :
  _loaded_all bus = all_true a ->
  resolve (length a) key = Ok sel ->
  p ∈ sel_positions sel ->
  a !! p = Some false ->
  Bus.load_needed bus a key = Ok true.
Proof.
  intros Hall Hsel Hp Hflag. unfold Bus.load_needed.
  assert (Hnot : forall l : list bool, false ∈ l -> all_true l = false).
  { intros l (j & Hj)%list_elem_of_lookup. apply not_true_is_false.
    rewrite all_true_lookup. intros H. by specialize (H j false Hj). }
  rewrite Hall, (Hnot a) by by eapply list_elem_of_lookup_2.
  rewrite Hsel. rewrite (Hnot (take_at a _)); [done|].
  apply elem_of_take_at. eauto.
Qed.

Lemma update_view_unreadable v key sel idx label store :
  view_ok v ->
  _store (v_bus v) = Some store ->
  resolve (length (s_values (_series (v_bus v)))) key = Ok sel ->
  NoDup (take_at (s_index (_series (v_bus v))) (sel_positions sel)) ->
  idx ∈ sel_positions sel ->
  s_index (_series (v_bus v)) !! idx = Some label ->
  s_values (_series (v_bus v)) !! idx = Some FrameDeferred ->
  store_read store label (StoreConfigMap_getitem (_config (v_bus v)) label) = None ->
  exists v' l',
    update_view v key = (v', Raise (StoreReadError l')) /\
    (exists q, q ∈ sel_positions sel /\ s_index (_series (v_bus v)) !! q = Some l') /\
    store_read store l' (StoreConfigMap_getitem (_config (v_bus v)) l') = None /\
    v_bus v' = v_bus v /\
    v_loaded v' !! idx = Some false.
Proof.
  intros Hok Hst Hsel Hnd Hidx Hlabel Hslot Hnone.
  pose proof Hok as [Hattrs Hndi Hstr Hall [Hf Hlen Hv Hlru]]. simpl in *.
  assert (Hflag : v_loaded v !! idx = Some false)
    by by rewrite Hf, list_lookup_fmap, Hslot.
  assert (Hll : length (v_loaded v) = length (s_values (_series (v_bus v))))
    by by rewrite Hf, length_fmap.
  assert (Hload : Bus.load_needed (v_bus v) (v_loaded v) key = Ok true).
  { eapply load_needed_true; eauto. by rewrite Hll. }
  pose proof (resolve_lt _ _ _ Hsel) as Hlt.
  set (targets := zip (take_at (s_index (_series (v_bus v))) (sel_positions sel))
                      (take_at (s_values (_series (v_bus v))) (sel_positions sel))).
  assert (Ht : Series_iloc (_series (v_bus v)) key = Ok targets).
  { unfold Series_iloc. rewrite Hsel. unfold Series_iloc_items.
    destruct sel as [i|ps]; cbn [sel_positions] in *.
    - apply Forall_cons in Hlt as [Hlt _].
      destruct (lookup_lt_is_Some_2 (s_values (_series (v_bus v))) i Hlt) as [x Hx].
      destruct (lookup_lt_is_Some_2 (s_index (_series (v_bus v))) i) as [l Hl]; [lia|].
      rewrite Hl, Hx. unfold targets.
      by rewrite (take_at_cons _ _ _ _ Hl), (take_at_cons _ _ _ _ Hx).
    - unfold Index_iloc_many. by rewrite bool_decide_eq_true_2. }
  rewrite (update_view_loop v key store targets Hload Hst Ht).
  pose proof (targets_in_index v key targets Hok Ht) as Hforall.
  assert (Hin : (label, FrameDeferred) ∈ targets).
  { apply take_at_zip_elem_of with (p := idx); try done. by rewrite <- Hlen. }
  destruct (cache_loop_spec _ store (_config (v_bus v)) Hndi (_max_persist (v_bus v))
              targets (locals_of v) (vo_locals v Hok) Hforall) as (s' & r & Hloop & Hr).
  assert (Hkeep : l_loaded s' !! idx = Some false).
  { eapply (cache_loop_unreadable _ store (_config (v_bus v)) Hndi); eauto.
    - apply (vo_locals v Hok).
    - unfold readable. rewrite Hnone. by intros [? ?].
    - intros x Hx. apply elem_of_take_at_zip in Hx as (p & _ & Hp1 & Hp2);
        [|done|by rewrite <- Hlen].
      assert (p = idx) as -> by by eapply (NoDup_lookup _ p idx).
      congruence.
    - done. }
  rewrite Hloop. destruct r as [[]|e].
  - exfalso. destruct Hr as [_ Hread]. destruct (Hread label Hin) as [f Hf'].
    unfold readable in *. congruence.
  - destruct Hr as (l' & -> & Hl' & Hnr). eexists _, l'. split_and!; try done.
    + apply elem_of_take_at_zip in Hl' as (q & Hq & Hq1 & _);
        [eauto|done|by rewrite <- Hlen].
    + unfold readable in Hnr. destruct (store_read store l' _); [|done].
      exfalso. apply Hnr. eauto.
Qed.

Lemma get_bus_view h self v :
  view_of h self = Some v -> get_bus self h = (h, Ok (v_bus v)).
Proof. intros (Hs & _)%view_of_inv. unfold get_bus. by rewrite Hs. Qed.

Lemma update_iloc_raises h self v key sel idx label store :
  heap_ok h ->
  view_of h self = Some v ->
  view_ok v ->
  _store (v_bus v) = Some store ->
  resolve (length (s_values (_series (v_bus v)))) key = Ok sel ->
  NoDup (take_at (s_index (_series (v_bus v))) (sel_positions sel)) ->
  idx ∈ sel_positions sel ->
  s_index (_series (v_bus v)) !! idx = Some label ->
  s_values (_series (v_bus v)) !! idx = Some FrameDeferred ->
  store_read store label (StoreConfigMap_getitem (_config (v_bus v)) label) = None ->
  exists h' l' v',
    Bus._update_series_cache_iloc self key h = (h', Raise (StoreReadError l')) /\
    (exists q, q ∈ sel_positions sel /\ s_index (_series (v_bus v)) !! q = Some l') /\
    store_read store l' (StoreConfigMap_getitem (_config (v_bus v)) l') = None /\
    view_of h' self = Some v' /\
    v_bus v' = v_bus v /\
    v_loaded v' !! idx = Some false.
Proof.
  intros Hok Hv Hvok Hst Hsel Hnd Hidx Hlabel Hslot Hnone.
  destruct (update_view_unreadable v key sel idx label store)
    as (v' & l' & Hrun & Hq & Hl' & Hbus & Hflag); try done.
  destruct (update_iloc_heap h self v key Hok Hv) as (h' & Hrun' & _ & _ & Hself & _).
  rewrite Hrun in Hrun', Hself. simpl in *. by exists h', l', v'.
Qed.

(** C4.  An access that asks for a deferred label the store cannot read
    raises the store's read error, and the slot and the flag of that label
    are after the access what they were before it: [FrameDeferred], not
    loaded. *)
Theorem read_error_leaves_label_deferred h self v op key sel idx label store :
  heap_ok h ->
  view_of h self = Some v ->
  view_ok v ->
  cache_key h self (s_index (_series (v_bus v))) op = Some key ->
  _store (v_bus v) = Some store ->
  resolve (length (s_values (_series (v_bus v)))) key = Ok sel ->
  NoDup (take_at (s_index (_series (v_bus v))) (sel_positions sel)) ->
  idx ∈ sel_positions sel ->
  s_index (_series (v_bus v)) !! idx = Some label ->
  s_values (_series (v_bus v)) !! idx = Some FrameDeferred ->
  store_read store label (StoreConfigMap_getitem (_config (v_bus v)) label) = None ->
  v_loaded v !! idx = Some false /\
  exists h' l' v',
    exec self op h = (h', Raise (StoreReadError l')) /\
    (exists q, q ∈ sel_positions sel /\ s_index (_series (v_bus v)) !! q = Some l') /\
    store_read store l' (StoreConfigMap_getitem (_config (v_bus v)) l') = None /\
    view_of h' self = Some v' /\
    s_index (_series (v_bus v')) !! idx = Some label /\
    s_values (_series (v_bus v')) !! idx = Some FrameDeferred /\
    v_loaded v' !! idx = Some false.
Proof.
  intros Hok Hv Hvok Hkey Hst Hsel Hnd Hidx Hlabel Hslot Hnone.
  assert (Hflag : v_loaded v !! idx = Some false).
  { destruct Hvok as [_ _ _ _ [Hf _ _ _]]. simpl in Hf.
    by rewrite Hf, list_lookup_fmap, Hslot. }
  split; [done|].
  destruct (update_iloc_raises h self v key sel idx label store)
    as (h' & l' & v' & Hrun & Hq & Hl' & Hv' & Hbus & Hflag'); try done.
  assert (Hall : _loaded_all (v_bus v) = false).
  { destruct Hvok as [_ _ _ Hall _]. rewrite Hall. apply not_true_is_false.
    rewrite all_true_lookup. intros H. by specialize (H idx false Hflag). }
  assert (Hupd_all : key = NULL_SLICE ->
            Bus._update_series_cache_all self h = (h', Raise (StoreReadError l'))).
  { intros ->. unfold Bus._update_series_cache_all.
    rewrite (bind_ok _ _ _ _ _ (get_bus_view _ _ _ Hv)). by rewrite Hall. }
  exists h', l', v'. rewrite Hbus. split_and!; try done.
  destruct op as [lk|k| | | | | |other cn]; simpl in Hkey; try done; unfold exec.
  - apply bind_raise. unfold Bus.__getitem__, Bus._extract_loc.
    rewrite (bind_ok _ _ _ _ _ (get_bus_view _ _ _ Hv)).
    destruct (loc_key_to_iloc _ lk) as [k|] eqn:Hk; [|done]. injection Hkey as ->.
    unfold bind at 1, lift at 1. by apply bind_raise.
  - injection Hkey as ->. apply bind_raise. by apply bind_raise.
  - injection Hkey as <-. apply bind_raise, bind_raise. by apply Hupd_all.
  - injection Hkey as <-. apply bind_raise, bind_raise. by apply Hupd_all.
  - apply bind_raise. unfold Bus.equals.
    case_bool_decide; [done|].
    unfold bind at 1, get at 1.
    destruct (h !! other) as [[bus| |]|]; try done.
    injection Hkey as <-. apply bind_raise. by apply Hupd_all.
Qed.

Lemma read_error_leaves_label_deferred_witness :
  let h := (Bus._from_store store_without_b InitNone (Some 1%Z) []).1 in
  exists v,
    view_of h 2 = Some v /\
    v_loaded v !! 1 = Some false /\
    exists h' l' v',
      exec 2 OpValues h = (h', Raise (StoreReadError l')) /\
      (exists q, q ∈ sel_positions (SMany [0; 1; 2]) /\
                 s_index (_series (v_bus v)) !! q = Some l') /\
      store_read store_without_b l' (StoreConfigMap_getitem (_config (v_bus v)) l') = None /\
      view_of h' 2 = Some v' /\
      s_index (_series (v_bus v')) !! 1 = Some (LStr "b") /\
      s_values (_series (v_bus v')) !! 1 = Some FrameDeferred /\
      v_loaded v' !! 1 = Some false.
Proof.
  intros h.
  destruct (from_store_world_ok store_without_b InitNone (Some 1%Z) [] h 2
              world_ok_nil eq_refl) as [[Hok Hall] _].
  eexists. split; [reflexivity|].
  apply (read_error_leaves_label_deferred h 2 _ OpValues NULL_SLICE
           (SMany [0; 1; 2]) 1 (LStr "b") store_without_b).
  - exact Hok.
  - reflexivity.
  - apply (Hall 2). reflexivity.
  - reflexivity.
  - reflexivity.
  - reflexivity.
  - apply (bool_decide_unpack _). vm_compute. exact I.
  - apply (bool_decide_unpack _). vm_compute. exact I.
  - reflexivity.
  - reflexivity.
  - reflexivity.
Defined.

(** ** Updates that complete *)

(** A cache update returns when every deferred slot it is asked for can be
    read from a bound store (and the key is in range, without repeats). *)
Lemma update_view_total v key sel :
  view_ok v ->
  resolve (length (s_values (_series (v_bus v)))) key = Ok sel ->
  NoDup (take_at (s_index (_series (v_bus v))) (sel_positions sel)) ->
  (forall p l, p ∈ sel_positions sel ->
               s_index (_series (v_bus v)) !! p = Some l ->
               s_values (_series (v_bus v)) !! p = Some FrameDeferred ->
               exists store, _store (v_bus v) = Some store /\
                             readable store (_config (v_bus v)) l) ->
  exists v', update_view v key = (v', Ok tt).
Proof.
  intros Hok Hsel Hnd Hread.
  pose proof Hok as [Hattrs Hndi Hstr Hall [Hf Hlen Hv Hlru]]. simpl in *.
  assert (Hll : length (v_loaded v) = length (s_values (_series (v_bus v))))
    by by rewrite Hf, length_fmap.
  pose proof (resolve_lt _ _ _ Hsel) as Hlt.
  set (targets := zip (take_at (s_index (_series (v_bus v))) (sel_positions sel))
                      (take_at (s_values (_series (v_bus v))) (sel_positions sel))).
  assert (Ht : Series_iloc (_series (v_bus v)) key = Ok targets).
  { unfold Series_iloc. rewrite Hsel. unfold Series_iloc_items.
    destruct sel as [i|ps]; cbn [sel_positions] in *.
    - apply Forall_cons in Hlt as [Hlt _].
      destruct (lookup_lt_is_Some_2 (s_values (_series (v_bus v))) i Hlt) as [x Hx].
      destruct (lookup_lt_is_Some_2 (s_index (_series (v_bus v))) i) as [l Hl]; [lia|].
      rewrite Hl, Hx. unfold targets.
      by rewrite (take_at_cons _ _ _ _ Hl), (take_at_cons _ _ _ _ Hx).
    - unfold Index_iloc_many. by rewrite bool_decide_eq_true_2. }
  assert (Hlabels : exists labels,
            Bus.requested_labels (s_index (_series (v_bus v))) key = Ok labels).
  { unfold Bus.requested_labels. rewrite <- Hlen, Hsel.
    destruct sel as [i|ps]; cbn [sel_positions] in *.
    - apply Forall_cons in Hlt as [Hlt _]. unfold getitem.
      destruct (lookup_lt_is_Some_2 (s_index (_series (v_bus v))) i) as [l Hl]; [lia|].
      rewrite Hl. eauto.
    - unfold Index_iloc_many. rewrite bool_decide_eq_true_2 by done. eauto. }
  unfold update_view.
  destruct (Bus.load_needed (v_bus v) (v_loaded v) key) as [[|]|e] eqn:Hload.
  - (* some requested slot is deferred, so the store is bound *)
    assert (exists p, p ∈ sel_positions sel /\ v_loaded v !! p = Some false)
      as (p & Hp & Hflag).
    { unfold Bus.load_needed in Hload. destruct (_loaded_all (v_bus v)); [done|].
      rewrite Hll, Hsel in Hload. injection Hload as Hload.
      apply negb_true_iff in Hload.
      destruct (decide (false ∈ take_at (v_loaded v) (sel_positions sel))) as [Hin|Hnin].
      - apply elem_of_take_at in Hin as (p & ? & ?). eauto.
      - exfalso. apply not_true_iff_false in Hload. apply Hload.
        apply all_true_lookup. intros j [] Hj; [done|].
        exfalso. apply Hnin. by eapply list_elem_of_lookup_2. }
    rewrite Hf, list_lookup_fmap in Hflag.
    destruct (s_values (_series (v_bus v)) !! p) as [x|] eqn:Hx; [|done].
    assert (x = FrameDeferred) as ->.
    { destruct x; [done|done|]. exfalso. apply Hv. by eapply list_elem_of_lookup_2. }
    destruct (lookup_lt_is_Some_2 (s_index (_series (v_bus v))) p) as [l Hl].
    { rewrite <- Hlen. by eapply lookup_lt_Some. }
    destruct (Hread p l Hp Hl Hx) as (store & Hst & _).
    rewrite Hst, Ht.
    destruct (cache_loop_spec _ store (_config (v_bus v)) Hndi (_max_persist (v_bus v))
                targets (locals_of v) (vo_locals v Hok)
                (targets_in_index v key targets Hok Ht)) as (s' & r & Hloop & Hr).
    fold (locals_of v). rewrite Hloop. destruct r as [[]|e]; [eauto|].
    exfalso. destruct Hr as (l' & _ & Hin & Hnr).
    apply elem_of_take_at_zip in Hin as (q & Hq & Hq1 & Hq2); [|done|by rewrite <- Hlen].
    destruct (Hread q l' Hq Hq1 Hq2) as (store' & Hst' & Hr'). congruence.
  - destruct (_max_persist (v_bus v)); [|eauto].
    destruct Hlabels as [labels ->]. eauto.
  - exfalso. unfold Bus.load_needed in Hload.
    destruct (_loaded_all (v_bus v)); [done|]. by rewrite Hll, Hsel in Hload.
Qed.

(** ** A ceiling of zero *)

Lemma gen_all_deferred mp items (d : PyDict) :
  (forall l x, (l, x) ∈ items -> (exists s, l = LStr s) /\ x = FrameDeferred) ->
  Bus.gen mp items d = Ok ((fun _ => false) <$> items, d).
Proof.
  induction items as [|[l x] items IH]; intros H; [done|].
  destruct (H l x) as [[s ->] ->]; [apply list_elem_of_here|].
  simpl. rewrite IH; [done|]. intros l' x' Hin. apply H. by apply list_elem_of_further.
Qed.

Lemma count_true_all_false {A} (l : list A) : count_true ((fun _ => false) <$> l) = 0%Z.
Proof. induction l as [|x l IH]; [done|]. by rewrite fmap_cons, count_true_cons, IH. Qed.

Lemma norm_index_nat n i : i < n -> norm_index n (Z.of_nat i) = Ok i.
Proof.
  intros Hi. unfold norm_index. rewrite bool_decide_eq_true_2 by lia.
  by rewrite Nat2Z.id.
Qed.

(** The label access on the heap, in terms of the cache update. *)
Lemma getitem_label_run h self v label i h' r :
  view_of h self = Some v ->
  NoDup (s_index (_series (v_bus v))) ->
  s_index (_series (v_bus v)) !! i = Some label ->
  Bus._update_series_cache_iloc self (KInt (Z.of_nat i)) h = (h', r) ->
  Bus.__getitem__ self (LocLabel label) h
  = match r with
    | Ok _ => Bus.extract_values self (KInt (Z.of_nat i)) h'
    | Raise e => (h', Raise e)
    end.
Proof.
  intros Hv Hnd Hi Hrun. unfold Bus.__getitem__, Bus._extract_loc.
  rewrite (bind_ok _ _ _ _ _ (get_bus_view _ _ _ Hv)).
  unfold loc_key_to_iloc, loc_to_iloc. rewrite (position_of_NoDup _ _ _ Hnd Hi).
  unfold bind at 1, lift at 1. unfold bind. rewrite Hrun. by destruct r as [[]|].
Qed.

Lemma extract_element_run h self v i x :
  view_of h self = Some v ->
  s_values (_series (v_bus v)) !! i = Some x ->
  Bus.extract_values self (KInt (Z.of_nat i)) h = (h, Ok (Element x)).
Proof.
  intros Hv Hx. unfold Bus.extract_values.
  rewrite (bind_ok _ _ _ _ _ (get_bus_view _ _ _ Hv)).
  unfold resolve. rewrite norm_index_nat by by eapply lookup_lt_Some.
  unfold bind, lift, getitem, ret. by rewrite Hx.
Qed.

Lemma zero_ceiling_update v i label store :
  view_ok v ->
  _max_persist (v_bus v) = Some 0%Z ->
  _store (v_bus v) = Some store ->
  s_index (_series (v_bus v)) !! i = Some label ->
  readable store (_config (v_bus v)) label ->
  exists v', update_view v (KInt (Z.of_nat i)) = (v', Ok tt) /\
             view_ok v' /\
             Forall (fun x => x = FrameDeferred) (s_values (_series (v_bus v'))) /\
             length (s_values (_series (v_bus v'))) = length (s_index (_series (v_bus v))).
Proof.
  intros Hok Hmp Hst Hi Hread.
  pose proof Hok as [_ _ _ _ [_ Hlen _ _]]. simpl in Hlen.
  assert (Hlt : i < length (s_values (_series (v_bus v))))
    by (rewrite Hlen; by eapply lookup_lt_Some).
  destruct (update_view_total v (KInt (Z.of_nat i)) (SElem i)) as [v' Hrun]; try done.
  - unfold resolve. by rewrite norm_index_nat.
  - cbn [sel_positions]. rewrite (take_at_cons _ _ _ _ Hi). apply NoDup_singleton.
  - intros p l ->%list_elem_of_singleton Hl _. exists store. split; [done|]. congruence.
  - exists v'. split; [done|].
    pose proof (update_view_ok v _ v' Hok Hrun) as Hok'.
    pose proof (update_view_static v (KInt (Z.of_nat i))) as (_ & _ & Emp & _ & _ & Eidx).
    rewrite Hrun in Emp, Eidx. simpl in *.
    split; [done|]. destruct Hok' as [_ _ _ _ [Hf' Hlen' Hv' Hlru']]. simpl in *.
    split; [|by rewrite Hlen', Eidx].
    destruct (Hlru' 0%Z) as (_ & _ & _ & Hle); [by rewrite Emp|].
    pose proof (count_true_nonneg (v_loaded v')).
    apply Forall_forall. intros x (j & Hj)%list_elem_of_lookup.
    pose proof (count_true_zero (v_loaded v') ltac:(lia) j) as Hnot.
    rewrite Hf', list_lookup_fmap, Hj in Hnot.
    destruct x; [by exfalso; apply Hnot|done|].
    exfalso. apply Hv'. by eapply list_elem_of_lookup_2.
Qed.




(** ** Labels at construction *)

Lemma gen_non_string mp items (d : PyDict) l x :
  (l, x) ∈ items -> is_str l = false ->
  exists why, Bus.gen mp items d = Raise (ErrorInitBus why).
Proof.
  revert d. induction items as [|[l' x'] items IH]; intros d Hin Hl.
  { by apply elem_of_nil in Hin. }
  simpl. destruct l' as [s|n]; [|eauto].
  apply elem_of_cons in Hin as [[= -> ->]|Hin]; [done|].
  destruct x' as [f| |]; [| |eauto].
  - destruct (IH (if is_active mp then dict_setitem d (LStr s) else d) Hin Hl) as [why ->].
    eauto.
  - destruct (IH d Hin Hl) as [why ->]. eauto.
Qed.

(** The generator names the first label that is not a string, when the
    entries before it are in order. *)
Lemma gen_names_first mp before n x rest (d : PyDict) :
  Forall (fun item : Label * Value => is_str item.1 = true /\ item.2 <> VOther) before ->
  Bus.gen mp (before ++ (LInt n, x) :: rest) d
  = Raise (ErrorInitBus (LabelNotString (LInt n))).
Proof.
  intros H. revert d. induction H as [|[l' x'] before [Hl Hx] _ IH]; intros d; [done|].
  simpl in *. destruct l' as [s|]; [|done]. destruct x' as [f| |]; [| |done].
  - by rewrite IH.
  - by rewrite IH.
Qed.

(** C8, the counterexample.  The empty string is a string: a series whose
    only label is empty is accepted. *)
Lemma empty_label_accepted :
  (Bus.__init__ {| s_dtype := DTYPE_OBJECT;
                   s_index := [LStr ""];
                   s_values := [FrameDeferred];
                   s_name := None |} None InitNone None []).2 = Ok 1.
Proof. reflexivity. Qed.

(** C8, as amended.  If some label of the series is not a string,
    construction raises [ErrorInitBus] and allocates nothing; the error
    names the first such label when the series has dtype object and every
    entry before that label holds a string label and a frame or
    [FrameDeferred].  A construction that completes had strings for all its
    labels (the empty string included). *)
Theorem init_requires_string_labels series store config mp h :
  length (s_index series) = length (s_values series) ->
  ((exists l, l ∈ s_index series /\ is_str l = false) ->
   exists why, Bus.__init__ series store config mp h = (h, Raise (ErrorInitBus why))) /\
  (forall before n x rest,
     s_dtype series = DTYPE_OBJECT ->
     Bus.Series_items series = before ++ (LInt n, x) :: rest ->
     Forall (fun item : Label * Value => is_str item.1 = true /\ item.2 <> VOther) before ->
     Bus.__init__ series store config mp h
     = (h, Raise (ErrorInitBus (LabelNotString (LInt n))))) /\
  (forall h' b,
     Bus.__init__ series store config mp h = (h', Ok b) ->
     forall l, l ∈ s_index series -> is_str l = true).
Proof.
  intros Hlen. split_and!.
  - intros (l & Hl & Hstr). rewrite init_run. case_bool_decide; [eauto|].
    apply list_elem_of_lookup in Hl as [i Hi].
    destruct (lookup_lt_is_Some_2 (s_values series) i) as [x Hx].
    { rewrite <- Hlen. by eapply lookup_lt_Some. }
    assert (Hin : (l, x) ∈ Bus.Series_items series).
    { apply list_elem_of_lookup. exists i. apply lookup_zip_with_Some. eauto. }
    destruct (gen_non_string mp _ [] l x Hin Hstr) as [why ->]. eauto.
  - intros before n x rest Hdt Hitems Hbefore. rewrite init_run.
    rewrite bool_decide_eq_false_2 by by intros ?.
    by rewrite Hitems, gen_names_first.
  - intros h' b Hinit l Hl.
    destruct (init_ok _ _ _ _ _ _ _ Hinit) as (loaded & d & _ & Hgen & _).
    destruct (gen_inv _ _ _ _ _ Hgen) as (_ & _ & Hstr & _).
    unfold Bus.Series_items in Hstr. rewrite fst_zip in Hstr by lia.
    by destruct (Hstr l Hl) as [s ->].
Qed.

Lemma init_requires_string_labels_witness :
  let series := {| s_dtype := DTYPE_OBJECT;
                   s_index := [LStr "a"; LInt 42];
                   s_values := [FrameDeferred; FrameDeferred];
                   s_name := None |} in
  (exists why, Bus.__init__ series None InitNone None []
               = ([], Raise (ErrorInitBus why))) /\
  Bus.__init__ series None InitNone None []
  = ([], Raise (ErrorInitBus (LabelNotString (LInt 42)))).
Proof.
  intros series.
  destruct (init_requires_string_labels series None InitNone None [] eq_refl)
    as (Hany & Hfirst & _).
  split.
  - apply Hany. exists (LInt 42). split; [|reflexivity].
    apply list_elem_of_further, list_elem_of_here.
  - apply (Hfirst [(LStr "a", FrameDeferred)] 42%Z FrameDeferred []).
    + reflexivity.
    + reflexivity.
    + repeat constructor. simpl. discriminate.
Defined.

(** ** Full materialization *)

Lemma take_at_all {A} (a : list A) : take_at a (seq 0 (length a)) = a.
Proof.
  induction a as [|x a IH] using rev_ind; [done|].
  rewrite length_app. simpl. rewrite Nat.add_1_r, seq_S. simpl.
  unfold take_at in *. rewrite omap_app. simpl.
  rewrite lookup_app_r, Nat.sub_diag by lia. simpl. f_equal.
  rewrite <- IH at 2. apply list_omap_ext.
  apply Forall2_same_length_lookup_2; [done|].
  intros i p q Hp Hq. rewrite Hp in Hq. injection Hq as <-.
  apply lookup_seq in Hp as [-> Hlt]. simpl. by rewrite lookup_app_l.
Qed.

(** Without a ceiling, or under one that is no lower than the number of
    labels, a cache update over the whole range that can read what is
    deferred leaves every slot loaded. *)
Lemma update_view_all_loaded v :
  view_ok v ->
  roomy v ->
  (forall p l, s_index (_series (v_bus v)) !! p = Some l ->
               s_values (_series (v_bus v)) !! p = Some FrameDeferred ->
               exists store, _store (v_bus v) = Some store /\
                             readable store (_config (v_bus v)) l) ->
  exists v', update_view v NULL_SLICE = (v', Ok tt) /\
             view_ok v' /\
             s_index (_series (v_bus v')) = s_index (_series (v_bus v)) /\
             Forall (fun x => is_Frame x = true) (s_values (_series (v_bus v'))).
Proof.
  intros Hok Hmp Hread.
  pose proof Hok as [Hattrs Hndi Hstr Hall [Hf Hlen Hv Hlru]]. simpl in *.
  assert (Hll : length (v_loaded v) = length (s_values (_series (v_bus v))))
    by by rewrite Hf, length_fmap.
  pose proof (resolve_null_slice (length (s_values (_series (v_bus v))))) as Hsel.
  assert (Hall_idx : take_at (s_index (_series (v_bus v)))
                       (seq 0 (length (s_values (_series (v_bus v)))))
                     = s_index (_series (v_bus v)))
    by (rewrite Hlen; apply take_at_all).
  destruct (update_view_total v NULL_SLICE _ Hok Hsel) as [v' Hrun].
  { cbn [sel_positions]. by rewrite Hall_idx. }
  { intros p l _. apply Hread. }
  exists v'. split; [done|].
  pose proof (update_view_ok v _ v' Hok Hrun) as Hok'.
  pose proof (update_view_static v NULL_SLICE) as (_ & _ & _ & _ & _ & Eidx).
  rewrite Hrun in Eidx. simpl in Eidx. split_and!; [done..|].
  assert (Hflags : forall j b, v_loaded v' !! j = Some b -> b = true).
  { destruct (Bus.load_needed (v_bus v) (v_loaded v) NULL_SLICE) as [[|]|e] eqn:Hload.
    - unfold update_view in Hrun. rewrite Hload in Hrun.
      destruct (_store (v_bus v)) as [store|] eqn:Hst; [|done].
      destruct (Series_iloc (_series (v_bus v)) NULL_SLICE) as [targets|] eqn:Ht; [|done].
      fold (locals_of v) in Hrun.
      destruct (cache_loop _ _ _ _ _ _) as [s' r] eqn:Hloop.
      injection Hrun as <- ->. simpl. intros j b Hj.
      pose proof (cache_loop_roomy _ store (_config (v_bus v)) Hndi
                    (_max_persist (v_bus v)) targets (locals_of v) s') as Hchar.
      pose proof (vo_locals v Hok) as Hloc.
      pose proof (targets_in_index v NULL_SLICE targets Hok Ht) as Hforall.
      assert (Hroom : forall k, _max_persist (v_bus v) = Some k ->
                                (Z.of_nat (length (s_index (_series (v_bus v)))) <= k)%Z).
      { intros k Hk. unfold roomy in Hmp. by rewrite Hk in Hmp. }
      specialize (Hchar Hloc Hroom Hforall Hloop j).
      assert (Hj' : l_loaded s' !! j = Some true); [|congruence].
      apply Hchar. right.
      destruct (Series_iloc_inv _ _ _ (eq_sym Hlen) Ht) as (sel & Hsel' & -> & _).
      rewrite Hsel in Hsel'. injection Hsel' as <-. cbn [sel_positions].
      assert (Hjlt : j < length (s_index (_series (v_bus v)))).
      { apply lookup_lt_Some in Hj.
        destruct (cache_loop_spec _ store (_config (v_bus v)) Hndi
                    (_max_persist (v_bus v)) _ (locals_of v) Hloc Hforall)
          as (s'' & r'' & Hloop' & Hr'').
        rewrite Hloop in Hloop'. injection Hloop' as <- <-.
        destruct Hr'' as [Hok'' _].
        by rewrite <- (locals_ok_loaded_length _ _ _ Hok''). }
      destruct (lookup_lt_is_Some_2 _ _ Hjlt) as [l Hl].
      destruct (lookup_lt_is_Some_2 (s_values (_series (v_bus v))) j) as [x Hx]; [lia|].
      exists l, x. split; [|done].
      apply take_at_zip_elem_of with (p := j); try done.
      + rewrite <- Hlen. apply Forall_forall. intros q Hq%elem_of_seq. lia.
      + apply elem_of_seq. lia.
    - assert (Hflags : v_loaded v' = v_loaded v).
      { unfold update_view in Hrun. rewrite Hload in Hrun.
        destruct (_max_persist (v_bus v)); [|by injection Hrun as <-].
        destruct (Bus.requested_labels _ _); by injection Hrun as <-. }
      rewrite Hflags.
      intros j b Hj. pose proof (lookup_lt_Some _ _ _ Hj).
      assert (v_loaded v !! j = Some true); [|congruence].
      apply (load_needed_false (v_bus v) (v_loaded v) NULL_SLICE
               (SMany (seq 0 (length (v_loaded v))))); [done|done| |].
      + apply resolve_null_slice.
      + cbn [sel_positions]. apply elem_of_seq. lia.
    - unfold update_view in Hrun. by rewrite Hload in Hrun. }
  destruct Hok' as [_ _ _ _ [Hf' _ _ _]]. simpl in Hf'.
  apply Forall_forall. intros x (j & Hj)%list_elem_of_lookup.
  apply (Hflags j). by rewrite Hf', list_lookup_fmap, Hj.
Qed.

Lemma update_all_materializes h self v :
  heap_ok h ->
  view_of h self = Some v ->
  view_ok v ->
  roomy v ->
  all_readable v ->
  exists h' v',
    Bus._update_series_cache_all self h = (h', Ok tt) /\
    heap_ok h' /\
    view_of h' self = Some v' /\
    view_ok v' /\
    s_index (_series (v_bus v')) = s_index (_series (v_bus v)) /\
    Forall (fun x => is_Frame x = true) (s_values (_series (v_bus v'))) /\
    (forall b, b <> self -> view_of h' b = view_of h b).
Proof.
  intros Hok Hv Hvok Hmp Hread. unfold Bus._update_series_cache_all.
  rewrite (bind_ok _ _ _ _ _ (get_bus_view _ _ _ Hv)).
  destruct (_loaded_all (v_bus v)) eqn:Hall; simpl.
  - exists h, v. split_and!; try done.
    destruct Hvok as [_ _ _ Hall' [Hf _ _ _]]. simpl in Hf.
    rewrite Hall in Hall'. symmetry in Hall'. rewrite all_true_lookup in Hall'.
    apply Forall_forall. intros x (j & Hj)%list_elem_of_lookup.
    apply (Hall' j). by rewrite Hf, list_lookup_fmap, Hj.
  - destruct (update_view_all_loaded v Hvok Hmp Hread) as (v' & Hrun & Hvok' & Eidx & Hall').
    destruct (update_iloc_heap h self v NULL_SLICE Hok Hv)
      as (h' & Hupd & Hok' & _ & Hv' & Hoth).
    rewrite Hrun in Hupd, Hv'. simpl in *. by exists h', v'.
Qed.


Lemma count_true_frames (l : list Value) :
  Forall (fun x => is_Frame x = true) l ->
  count_true (is_Frame <$> l) = Z.of_nat (length l).
Proof.
  induction 1 as [|x l Hx _ IH]; [done|].
  rewrite fmap_cons, count_true_cons, Hx, IH. simpl length. lia.
Qed.

Lemma loaded_dtypes_run (values : list Value) :
  VOther ∉ values -> Bus.loaded_dtypes values = Ok (dtypes_rows values).
Proof.
  induction values as [|x values IH]; [done|].
  intros Hno. rewrite not_elem_of_cons in Hno. destruct Hno as [Hx Hno].
  destruct x as [f| |]; simpl; [by rewrite IH|by apply IH|done].
Qed.

Lemma elem_of_dtypes_rows (values : list Value) l row :
  (l, row) ∈ dtypes_rows values <->
  exists f, VFrame f ∈ values /\ Frame_dtypes_series f = (l, row).
Proof.
  unfold dtypes_rows. rewrite list_elem_of_omap. split.
  - intros (x & Hx & Hrow). destruct x as [f| |]; try done.
    injection Hrow as Hrow. exists f. split; [done|].
    unfold Frame_dtypes_series. by rewrite Hrow, H.
  - intros (f & Hf & Hrow). exists (VFrame f). by rewrite Hrow.
Qed.

Lemma list_find_key {A} (rows : list (Label * A)) l row :
  NoDup rows.*1 ->
  (l, row) ∈ rows ->
  exists i, list_find (fun r => r.1 = l) rows = Some (i, (l, row)).
Proof.
  induction rows as [|[l' row'] rows IH]; intros Hnd Hin; [by apply elem_of_nil in Hin|].
  rewrite fmap_cons in Hnd. apply NoDup_cons in Hnd as [Hnotin Hnd]. simpl in *.
  apply elem_of_cons in Hin as [[= -> ->]|Hin].
  - exists 0. by rewrite decide_True.
  - rewrite decide_False.
    + destruct (IH Hnd Hin) as [i ->]. by exists (S i).
    + intros ->. apply Hnotin. apply list_elem_of_fmap. by exists (l, row).
Qed.

Lemma list_find_no_key {A} (rows : list (Label * A)) l :
  (forall row, (l, row) ∉ rows) ->
  list_find (fun r => r.1 = l) rows = None.
Proof.
  intros Hno. apply list_find_None, Forall_forall. intros [l' row] Hin Heq.
  simpl in Heq. subst l'. by apply (Hno row).
Qed.

(** C5, the counterexample.  On a bus fresh from a store that holds three
    frames, the byte size is reported as 0 and every shape and every row
    of dtypes as [None]: the three descriptors read the slots as they are,
    all deferred, and load nothing.  Under a ceiling of one, [values]
    itself hands back the first two slots deferred: the loop evicts them
    as it goes.  And [dtypes] labels a row by the name of its frame: on a
    bus that holds the frame named b under the label a and nothing under
    the label b, the dtypes of that frame are reported in the row of b. *)
Lemma descriptors_do_not_load :
  let built := Bus._from_store sample_store InitNone None [] in
  let h := built.1 in
  let labels := [LStr "a"; LStr "b"; LStr "c"] in
  let bounded := Bus._from_store sample_store InitNone (Some 1%Z) [] in
  let crossed := Bus.__init__ {| s_dtype := DTYPE_OBJECT;
                                 s_index := [LStr "a"; LStr "b"];
                                 s_values := [VFrame frame_b; FrameDeferred];
                                 s_name := None |}
                   (Some sample_store) InitNone None [] in
  built.2 = Ok 1 /\
  Bus.nbytes 1 h = (h, Ok 0) /\
  Bus.shapes 1 h = (h, Ok ((fun l => (l, None)) <$> labels)) /\
  Bus.dtypes 1 h = (h, Ok ((fun l => (l, None)) <$> labels)) /\
  residency h 1
    = Some ([false; false; false], [FrameDeferred; FrameDeferred; FrameDeferred]) /\
  bounded.2 = Ok 2 /\
  (Bus.values 2 bounded.1).2 = Ok [FrameDeferred; FrameDeferred; VFrame frame_c] /\
  crossed.2 = Ok 1 /\
  Bus.dtypes 1 crossed.1
    = (crossed.1, Ok [(LStr "a", None); (LStr "b", Some (Frame_dtypes frame_b))]).
Proof. repeat split; vm_compute; reflexivity. Qed.

(** C5, as amended.  [values], [items] and [equals] run the cache update
    over the whole range first: on a bus that can read its deferred labels
    and has no ceiling, or one that is no lower than its number of labels,
    [values] and [items] return every slot loaded, and [equals] against
    another bus leaves the receiver in that same state; under a lower
    ceiling [values] never returns every slot loaded.  [nbytes], [shapes]
    and [dtypes] run no cache update: they leave the heap as it is;
    [nbytes] and [shapes] report 0 and [None] for a deferred slot, and
    [dtypes], which returns whenever the loaded frames differ in name,
    reports under a label the dtypes of the loaded frame of that name, and
    a row of [None] where there is none. *)
Theorem materialization_only_for_values_and_items h self v :
  heap_ok h ->
  view_of h self = Some v ->
  view_ok v ->
  let series := _series (v_bus v) in
  (roomy v -> all_readable v ->
   exists h' loaded,
     Bus.values self h = (h', Ok loaded) /\
     Bus.items self h = (h', Ok (zip (s_index series) loaded)) /\
     length loaded = length (s_index series) /\
     Forall (fun x => is_Frame x = true) loaded /\
     residency h' self = Some (is_Frame <$> loaded, loaded) /\
     (forall other vo compare_name,
        other <> self -> view_of h other = Some vo ->
        (Bus.equals self other compare_name h).1 = h')) /\
  (forall h' loaded,
     Bus.values self h = (h', Ok loaded) ->
     Forall (fun x => is_Frame x = true) loaded -> roomy v) /\
  Bus.nbytes self h = (h, Ok (sum_list (nbytes_of <$> s_values series))) /\
  Bus.shapes self h = (h, Ok (zip (s_index series) (shape_of <$> s_values series))) /\
  (Bus.dtypes self h).1 = h /\
  (NoDup (dtypes_rows (s_values series)).*1 -> is_ok (Bus.dtypes self h).2 = true) /\
  (forall rows i l,
     (Bus.dtypes self h).2 = Ok rows ->
     s_index series !! i = Some l ->
     (forall f, VFrame f ∈ s_values series -> named_as l (VFrame f) ->
                rows !! i = Some (l, Some (Frame_dtypes f))) /\
     ((forall x, x ∈ s_values series -> ~ named_as l x) ->
      rows !! i = Some (l, None))).
Proof.
  intros Hok Hv Hvok series. subst series.
  assert (Hdt : Bus.dtypes self h
                = (h, if negb (any_true (v_loaded v))
                      then Ok ((fun l => (l, None)) <$> s_index (_series (v_bus v)))
                      else match Frame_from_concat (dtypes_rows (s_values (_series (v_bus v)))) with
                           | Ok f => Ok (Frame_reindex f (s_index (_series (v_bus v))))
                           | Raise e => Raise e
                           end)).
  { unfold Bus.dtypes. rewrite (bind_ok _ _ _ _ _ (get_bus_view _ _ _ Hv)).
    destruct (view_of_inv _ _ _ Hv) as (_ & Ha & _).
    unfold bind at 1, get_ndarray. rewrite Ha.
    destruct (negb (any_true (v_loaded v))); [done|].
    rewrite loaded_dtypes_run by (destruct Hvok as [_ _ _ _ [_ _ Hno _]]; exact Hno).
    unfold bind, lift, ret. by destruct (Frame_from_concat _). }
  split_and!.
  - intros Hmp Hread.
    destruct (update_all_materializes h self v Hok Hv Hvok Hmp Hread)
      as (h' & v' & Hupd & Hok' & Hv' & Hvok' & Eidx & Hall & Hoth).
    exists h', (s_values (_series (v_bus v'))). split_and!; try done.
    + unfold Bus.values. rewrite (bind_ok _ _ _ _ _ Hupd).
      by rewrite (bind_ok _ _ _ _ _ (get_bus_view _ _ _ Hv')).
    + unfold Bus.items. rewrite (bind_ok _ _ _ _ _ Hupd).
      rewrite (bind_ok _ _ _ _ _ (get_bus_view _ _ _ Hv')).
      unfold Bus.Series_items. by rewrite Eidx.
    + destruct Hvok' as [_ _ _ _ [_ Hlen _ _]]. simpl in Hlen. by rewrite Hlen, Eidx.
    + unfold residency. rewrite Hv'.
      destruct Hvok' as [_ _ _ _ [Hf _ _ _]]. simpl in Hf. by rewrite Hf.
    + intros other vo compare_name Hne Hvo.
      assert (Hvo' : view_of h' other = Some vo) by by rewrite Hoth.
      unfold Bus.equals. rewrite bool_decide_eq_false_2 by done.
      unfold bind at 1, get at 1.
      destruct (view_of_inv _ _ _ Hvo) as (Hs & _). rewrite Hs.
      rewrite (bind_ok _ _ _ _ _ Hupd).
      rewrite (bind_ok _ _ _ _ _ (get_bus_view _ _ _ Hv')).
      rewrite (bind_ok _ _ _ _ _ (get_bus_view _ _ _ Hvo')).
      case_bool_decide; [done|].
      destruct (compare_name && _); [done|].
      by case_bool_decide.
  - intros h' loaded Hrun Hall. unfold roomy.
    destruct (_max_persist (v_bus v)) as [k|] eqn:Hmp; [|done].
    unfold Bus.values in Hrun.
    apply bind_inv_ok in Hrun as (h1 & [] & Hupd & Hrun).
    assert (exists v', view_of h1 self = Some v' /\ view_ok v' /\
                       same_static (v_bus v) (v_bus v')) as (v' & Hv' & Hvok' & Hst).
    { unfold Bus._update_series_cache_all in Hupd.
      rewrite (bind_ok _ _ _ _ _ (get_bus_view _ _ _ Hv)) in Hupd.
      destruct (negb (_loaded_all (v_bus v))).
      - destruct (update_iloc_heap h self v NULL_SLICE Hok Hv)
          as (h2 & Hupd' & _ & _ & Hv' & _).
        rewrite Hupd in Hupd'. injection Hupd' as <- Hr.
        eexists. split_and!; [done| |apply update_view_static].
        apply (update_view_ok v NULL_SLICE); [done|].
        rewrite Hr. by destruct (update_view v NULL_SLICE).
      - injection Hupd as <-. exists v. split_and!; [done..|apply same_static_refl]. }
    rewrite (bind_ok _ _ _ _ _ (get_bus_view _ _ _ Hv')) in Hrun.
    injection Hrun as _ <-.
    destruct Hst as (_ & _ & Emp & _ & _ & Eidx).
    destruct Hvok' as [_ _ _ _ [Hf Hlen _ Hlru]]. simpl in *.
    destruct (Hlru k) as (_ & _ & _ & Hle); [by rewrite Emp|].
    rewrite Hf, (count_true_frames _ Hall), Hlen, Eidx in Hle. done.
  - unfold Bus.nbytes. by rewrite (bind_ok _ _ _ _ _ (get_bus_view _ _ _ Hv)).
  - unfold Bus.shapes. by rewrite (bind_ok _ _ _ _ _ (get_bus_view _ _ _ Hv)).
  - by rewrite Hdt.
  - intros Hnd. rewrite Hdt. simpl. destruct (negb _); [done|].
    unfold Frame_from_concat. by rewrite bool_decide_eq_true_2.
  - intros rows i l Hrows Hl. rewrite Hdt in Hrows. simpl in Hrows.
    destruct (negb (any_true (v_loaded v))) eqn:Hany.
    + injection Hrows as <-. rewrite list_lookup_fmap, Hl. simpl. split; [|done].
      intros f Hf _. exfalso.
      destruct Hvok as [_ _ _ _ [Hflags _ _ _]]. simpl in Hflags.
      apply negb_true_iff in Hany. unfold any_true in Hany.
      apply list_elem_of_lookup in Hf as [j Hj].
      assert (Hin : true ∈ v_loaded v).
      { rewrite Hflags. apply list_elem_of_lookup. exists j.
        by rewrite list_lookup_fmap, Hj. }
      assert (existsb id (v_loaded v) = true); [|congruence].
      apply existsb_exists. exists true. split; [|done].
      by apply list_elem_of_In.
    + unfold Frame_from_concat in Hrows. case_bool_decide as Hnd; [|done].
      injection Hrows as <-. unfold Frame_reindex.
      rewrite list_lookup_fmap, Hl. simpl. split.
      * intros f Hf Hname. simpl in Hname.
        destruct (list_find_key (dtypes_rows (s_values (_series (v_bus v)))) l
                    (Frame_dtypes f) Hnd) as [j ->]; [|done].
        apply elem_of_dtypes_rows. exists f. split; [done|].
        unfold Frame_dtypes_series in *. simpl in *. by rewrite Hname.
      * intros Hnone. rewrite list_find_no_key; [done|].
        intros row (f & Hf & Hrow)%elem_of_dtypes_rows.
        apply (Hnone (VFrame f) Hf). unfold named_as. by rewrite Hrow.
Qed.

(** ** Slices *)

Lemma take_at_skip {A} (a : list A) p ps :
  a !! p = None -> take_at a (p :: ps) = take_at a ps.
Proof. intros H. unfold take_at. simpl. by rewrite H. Qed.

Lemma take_at_fmap {A B} (f : A -> B) (a : list A) ps :
  take_at (f <$> a) ps = f <$> take_at a ps.
Proof.
  induction ps as [|p ps IH]; [done|].
  destruct (a !! p) as [x|] eqn:E.
  - rewrite (take_at_cons (f <$> a) p ps (f x)) by by rewrite list_lookup_fmap, E.
    by rewrite (take_at_cons a p ps x E), fmap_cons, IH.
  - rewrite (take_at_skip (f <$> a)) by by rewrite list_lookup_fmap, E.
    by rewrite (take_at_skip a).
Qed.

Lemma take_at_insert_other {A} (a : list A) p x ps :
  p ∉ ps -> take_at (<[p := x]> a) ps = take_at a ps.
Proof.
  induction ps as [|q ps IH]; [done|].
  intros [Hne Hnin]%not_elem_of_cons.
  destruct (a !! q) as [y|] eqn:E.
  - rewrite (take_at_cons (<[p := x]> a) q ps y)
      by by rewrite list_lookup_insert_ne.
    by rewrite (take_at_cons a q ps y E), IH.
  - rewrite (take_at_skip (<[p := x]> a)) by by rewrite list_lookup_insert_ne.
    by rewrite (take_at_skip a), IH.
Qed.

Lemma NoDup_take_at_positions {A} (a : list A) ps :
  Forall (fun p => p < length a) ps -> NoDup (take_at a ps) -> NoDup ps.
Proof.
  induction 1 as [|p ps Hp Hps IH]; [constructor|].
  destruct (lookup_lt_is_Some_2 a p Hp) as [x Hx].
  rewrite (take_at_cons a p ps x Hx). intros [Hnin Hnd]%NoDup_cons.
  constructor; [|by apply IH].
  intros Hin. apply Hnin. apply elem_of_take_at. eauto.
Qed.

(** Distinct positions select no more set flags than there are. *)
Lemma count_true_take_at (a : list bool) ps :
  NoDup ps -> (count_true (take_at a ps) <= count_true a)%Z.
Proof.
  intros Hnd. revert a. induction Hnd as [|p ps Hp Hnd IH]; intros a.
  { apply count_true_nonneg. }
  destruct (a !! p) as [b|] eqn:Hb.
  - rewrite (take_at_cons a p ps b Hb), count_true_cons.
    rewrite <- (take_at_insert_other a p false ps Hp).
    specialize (IH (<[p := false]> a)).
    rewrite (count_true_set a p b Hb false) in IH. destruct b; lia.
  - rewrite take_at_skip by done. apply IH.
Qed.

Lemma gen_total mp items (d0 : PyDict) :
  Forall (fun item : Label * Value => is_str item.1 = true /\ item.2 <> VOther) items ->
  exists loaded d, Bus.gen mp items d0 = Ok (loaded, d).
Proof.
  intros H. revert d0. induction H as [|[l x] items [Hl Hx] _ IH]; intros d0.
  { simpl. eauto. }
  simpl in *. destruct l as [s|]; [|done]. destruct x as [f| |]; [| |done].
  - destruct (IH (if is_active mp then dict_setitem d0 (LStr s) else d0))
      as (loaded & d & ->). eauto.
  - destruct (IH d0) as (loaded & d & ->). eauto.
Qed.

(** Building the bus of a slice never fails on a well-formed parent: its
    labels are strings, its slots frames or deferred, and it holds no more
    frames than the parent, which the shared ceiling already bounds. *)
Lemma slice_init_total v ps h :
  view_ok v ->
  Forall (fun p => p < length (s_values (_series (v_bus v)))) ps ->
  NoDup (take_at (s_index (_series (v_bus v))) ps) ->
  Series_valid (slice_series (_series (v_bus v)) ps) /\
  exists h' c,
    Bus.__init__ (slice_series (_series (v_bus v)) ps) (_store (v_bus v))
      (InitMap (_config (v_bus v))) (_max_persist (v_bus v)) h = (h', Ok c).
Proof.
  intros Hok Hlt Hnd.
  pose proof Hok as [Hattrs Hndi Hstr Hall [Hf Hlen Hv Hlru]]. simpl in *.
  assert (Hlt' : Forall (fun p => p < length (s_index (_series (v_bus v)))) ps)
    by by rewrite <- Hlen.
  assert (Hvalid : Series_valid (slice_series (_series (v_bus v)) ps)).
  { split; simpl; [done|]. by rewrite !length_take_at. }
  split; [done|].
  rewrite init_run. cbn [s_dtype slice_series].
  rewrite bool_decide_eq_false_2 by by intros ?.
  destruct (gen_total (_max_persist (v_bus v))
              (Bus.Series_items (slice_series (_series (v_bus v)) ps)) [])
    as (loaded & d & Hgen).
  { apply Forall_forall. intros [l x] Hin. unfold Bus.Series_items in Hin. simpl in *.
    split.
    - apply Hstr. apply elem_of_zip_l in Hin.
      apply elem_of_take_at in Hin as (q & _ & Hq). by eapply list_elem_of_lookup_2.
    - intros ->. apply Hv. apply elem_of_zip_r in Hin.
      apply elem_of_take_at in Hin as (q & _ & Hq). by eapply list_elem_of_lookup_2. }
  rewrite Hgen.
  destruct (gen_inv _ _ _ _ _ Hgen) as (Hl & _).
  unfold Bus.Series_items in Hl. simpl in Hl.
  rewrite snd_zip in Hl by (rewrite !length_take_at; done || lia).
  assert (Hc : over_ceiling (_max_persist (v_bus v)) loaded = false).
  { unfold over_ceiling. destruct (_max_persist (v_bus v)) as [k|] eqn:Hk; [|done].
    apply bool_decide_eq_false_2.
    destruct (Hlru k eq_refl) as (_ & _ & _ & Hle).
    rewrite Hl, <- take_at_fmap, <- Hf.
    pose proof (count_true_take_at (v_loaded v) ps
                  (NoDup_take_at_positions _ _ Hlt' Hnd)). lia. }
  rewrite Hc. eauto.
Qed.

(** Operations on other receivers leave a bus as it is. *)
Lemma exec_all_frame_other p ops h h' r v :
  heap_ok h ->
  view_of h p = Some v ->
  (forall self op, (self, op) ∈ ops -> self <> p) ->
  exec_all ops h = (h', r) ->
  view_of h' p = Some v.
Proof.
  revert h. induction ops as [|[self op] ops IH]; intros h Hok Hv Hne; simpl.
  { by intros [= <- _]. }
  intros Hrun.
  assert (Hstep : forall h1 r1, exec self op h = (h1, r1) ->
                                heap_ok h1 /\ view_of h1 p = Some v).
  { intros h1 r1 Hex.
    destruct (step_of_exec self op h h1 r1 Hok Hex) as [[Hok1 _ Hoth _] _].
    split; [done|]. rewrite Hoth; [done| |by eapply view_of_lt].
    intros Heq. apply (Hne self op); [apply list_elem_of_here|done]. }
  apply bind_inv in Hrun as [(e & Hex & ->)|(h1 & [] & Hex & Hrest)].
  - by apply Hstep in Hex as [_ ?].
  - apply Hstep in Hex as [Hok1 Hv1]. apply (IH h1); try done.
    intros self' op' Hin. apply Hne with op'. by apply list_elem_of_further.
Qed.

(** C6.  A selection of several positions whose deferred labels can be
    read returns a bus that is a new object, with the store, the ceiling
    and the configuration of its parent, over the selected labels, and with
    a [_loaded] array and a [_last_accessed] dict of its own; whatever is
    then run on the child, or on any bus other than the parent, the parent
    keeps its series, its flags and its recency order. *)
Theorem slice_is_independent_of_parent h parent v key ps :
  world_ok h ->
  view_of h parent = Some v ->
  resolve (length (s_values (_series (v_bus v)))) key = Ok (SMany ps) ->
  NoDup (take_at (s_index (_series (v_bus v))) ps) ->
  (forall p l, p ∈ ps ->
               s_index (_series (v_bus v)) !! p = Some l ->
               s_values (_series (v_bus v)) !! p = Some FrameDeferred ->
               exists store, _store (v_bus v) = Some store /\
                             readable store (_config (v_bus v)) l) ->
  exists h1 child vp vc,
    Bus._extract_iloc parent key h = (h1, Ok (NewBus child)) /\
    length h <= child /\
    view_of h1 parent = Some vp /\
    view_of h1 child = Some vc /\
    _store (v_bus vc) = _store (v_bus vp) /\
    _max_persist (v_bus vc) = _max_persist (v_bus vp) /\
    _config (v_bus vc) = _config (v_bus vp) /\
    s_index (_series (v_bus vc)) = take_at (s_index (_series (v_bus vp))) ps /\
    _loaded (v_bus vc) <> _loaded (v_bus vp) /\
    (forall last, _last_accessed (v_bus vc) = Some last ->
                  _last_accessed (v_bus vp) <> Some last) /\
    (forall ops h2 r,
       (forall self op, (self, op) ∈ ops -> self <> parent) ->
       exec_all ops h1 = (h2, r) ->
       view_of h2 parent = Some vp).
Proof.
  intros [Hok Hall] Hv Hsel Hnd Hread.
  pose proof (Hall _ _ Hv) as Hvok.
  pose proof Hvok as [_ _ _ _ [_ Hlen _ _]]. simpl in Hlen.
  (* the cache update of the parent completes *)
  destruct (update_view_total v key (SMany ps) Hvok Hsel Hnd Hread) as [v1 Hrun].
  destruct (update_iloc_heap h parent v key Hok Hv)
    as (h0 & Hupd & Hok0 & Hlen0 & Hv1 & _).
  rewrite Hrun in Hupd, Hv1. simpl in Hupd, Hv1.
  pose proof (update_view_ok v key v1 Hvok Hrun) as Hvok1.
  pose proof (update_view_static v key) as (_ & _ & _ & _ & _ & Eidx).
  rewrite Hrun in Eidx. simpl in Eidx.
  pose proof Hvok1 as [_ _ _ _ [_ Hlen1 _ _]]. simpl in Hlen1.
  assert (Hlt : Forall (fun p => p < length (s_values (_series (v_bus v1)))) ps).
  { rewrite Hlen1, Eidx, <- Hlen. apply (resolve_lt _ _ _ Hsel). }
  (* the bus of the slice is built *)
  destruct (slice_init_total v1 ps h0 Hvok1 Hlt) as [Hvalid (h1 & child & Hinit)].
  { by rewrite Eidx. }
  pose proof (init_extends _ _ _ _ _ _ _ Hok0 Hinit) as [Hok1 Hlen01 Hviews].
  destruct (init_new _ _ _ _ _ _ _ Hvalid Hinit)
    as (Hge & vc & Hvc & _ & Es & Est & Ecfg & Emp & Hlo & Hla & _).
  assert (Hvp : view_of h1 parent = Some v1).
  { rewrite Hviews; [done|]. by eapply view_of_lt. }
  exists h1, child, v1, vc. split_and!; try done.
  - unfold Bus._extract_iloc. rewrite (bind_ok _ _ _ _ _ Hupd).
    unfold Bus.extract_values.
    rewrite (bind_ok _ _ _ _ _ (get_bus_view _ _ _ Hv1)).
    rewrite Hlen1, Eidx, <- Hlen, Hsel.
    unfold bind at 1, lift at 1. unfold Index_iloc_many.
    rewrite bool_decide_eq_true_2 by done.
    unfold bind at 1, lift at 1. unfold slice_series in Hinit. rewrite Eidx in Hinit.
    unfold bind. by rewrite Hinit.
  - lia.
  - by rewrite Es.
  - destruct (view_of_inv _ _ _ Hv1) as (_ & Ha & _).
    apply lookup_lt_Some in Ha. lia.
  - intros last Hl Hl'. specialize (Hla last Hl).
    destruct (view_of_inv _ _ _ Hv1) as (_ & _ & Hd). rewrite Hl' in Hd.
    apply lookup_lt_Some in Hd. lia.
  - intros ops h2 r Hne Hex. by eapply exec_all_frame_other.
Qed.

Lemma slice_is_independent_of_parent_witness :
  exists h1 child vp vc,
    Bus._extract_iloc 2 (KSlice None (Some 2)) parent_two = (h1, Ok (NewBus child)) /\
    3 <= child /\
    view_of h1 2 = Some vp /\
    view_of h1 child = Some vc /\
    _store (v_bus vc) = _store (v_bus vp) /\
    _max_persist (v_bus vc) = _max_persist (v_bus vp) /\
    _config (v_bus vc) = _config (v_bus vp) /\
    s_index (_series (v_bus vc)) = take_at (s_index (_series (v_bus vp))) [0; 1] /\
    _loaded (v_bus vc) <> _loaded (v_bus vp) /\
    (forall last, _last_accessed (v_bus vc) = Some last ->
                  _last_accessed (v_bus vp) <> Some last) /\
    (forall ops h2 r,
       (forall self op, (self, op) ∈ ops -> self <> 2) ->
       exec_all ops h1 = (h2, r) ->
       view_of h2 2 = Some vp).
Proof.
  destruct (from_store_world_ok sample_store InitNone (Some 2%Z) [] parent_two 2
              world_ok_nil eq_refl) as [Hw _].
  eapply (slice_is_independent_of_parent parent_two 2 _ (KSlice None (Some 2)) [0; 1] Hw).
  - reflexivity.
  - reflexivity.
  - apply (bool_decide_unpack _). vm_compute. exact I.
  - intros p l Hp Hl _. exists sample_store. split; [reflexivity|].
    unfold readable.
    repeat (apply elem_of_cons in Hp as [->|Hp];
            [injection Hl as <-; simpl; eauto|]).
    by apply elem_of_nil in Hp.
Defined.

(** ** Equality of buses *)





Lemma two_buses_world_ok : world_ok two_buses.
Proof.
  destruct (from_store_world_ok sample_store InitNone None []
              (Bus._from_store sample_store InitNone None []).1 1
              world_ok_nil eq_refl) as [Hw1 _].
  by destruct (from_store_world_ok sample_store InitNone None _ two_buses 3
                 Hw1 eq_refl) as [Hw2 _].
Qed.

Lemma sample_all_readable v :
  view_of two_buses 1 = Some v -> all_readable v.
Proof.
  intros [= <-]. intros p l Hl _. exists sample_store. split; [reflexivity|].
  unfold readable. simpl in *.
  destruct p as [|[|[|p]]]; simpl in Hl; try done; injection Hl as <-; simpl; eauto.
Qed.


Lemma materialization_only_for_values_and_items_witness :
  (exists h' loaded,
     Bus.values 1 two_buses = (h', Ok loaded) /\
     Forall (fun x => is_Frame x = true) loaded) /\
  Bus.nbytes 1 two_buses = (two_buses, Ok 0).
Proof.
  destruct two_buses_world_ok as [Hok Hall].
  destruct (materialization_only_for_values_and_items two_buses 1 _ Hok eq_refl
              (Hall 1 _ eq_refl)) as (Hvalues & _ & Hnbytes & _).
  split; [|exact Hnbytes].
  destruct Hvalues as (h' & loaded & Hv & _ & _ & Hall' & _);
    [exact I | by apply sample_all_readable |].
  by exists h', loaded.
Defined.

(** ** The SQLite round trip *)

(** C7.  The frames a, of shape (3, 2) with a Boolean column holding true,
    false, true, and b, of shape (2, 2) and all integers, written to an
    empty database and read back: each comes back as it was, so with its
    shape, with dtypes of the same declared types, and with its cells.
    The Booleans are stored as 1, 0, 1 in a field declared BOOLEAN, and
    decoded by comparing the bytes of each with [_BYTES_ONE]. *)
Theorem sqlite_round_trip_a_b :
  let written := StoreSQLite.write [(Some "a", frame_a); (Some "b", frame_b)] true true [] in
  let db := written.1 in
  written.2 = Ok tt /\
  StoreSQLite.labels db = (db, Ok ["a"; "b"]) /\
  (t_fields <$> db)
    = [[("__index0__", "TEXT"); ("p", "INTEGER"); ("q", "BOOLEAN")];
       [("__index0__", "TEXT"); ("p", "INTEGER"); ("q", "INTEGER")]] /\
  (t_rows <$> db)
    = [[(1, [SqlText "x"; SqlInteger 1; SqlInteger 1]);
        (2, [SqlText "y"; SqlInteger 2; SqlInteger 0]);
        (3, [SqlText "z"; SqlInteger 3; SqlInteger 1])];
       [(1, [SqlText "x"; SqlInteger 10; SqlInteger 50]);
        (2, [SqlText "y"; SqlInteger 20; SqlInteger 60])]]%Z /\
  (exists fa, StoreSQLite.read "a" db = (db, Ok fa) /\
              fa = frame_a /\
              Frame_shape fa = (3, 2) /\ Frame_shape frame_a = (3, 2) /\
              affinities fa = affinities frame_a /\
              cells fa = cells frame_a /\
              c_values <$> f_columns fa !! 1
                = Some [CBool true; CBool false; CBool true]) /\
  (exists fb, StoreSQLite.read "b" db = (db, Ok fb) /\
              fb = frame_b /\
              Frame_shape fb = (2, 2) /\ Frame_shape frame_b = (2, 2) /\
              affinities fb = affinities frame_b /\
              cells fb = cells frame_b) /\
  StoreSQLite.BOOLEAN_converter (stored_bytes (SqlInteger 1)) = PyBool true /\
  StoreSQLite.BOOLEAN_converter (stored_bytes (SqlInteger 0)) = PyBool false /\
  (forall n,
     StoreSQLite._dtype_to_affinity_type DTYPE_BOOL = "BOOLEAN" /\
     StoreSQLite._dtype_to_affinity_type (DTYPE_STR n) = "TEXT" /\
     StoreSQLite._dtype_to_affinity_type {| kind := "S"; itemsize := n |} = "TEXT" /\
     StoreSQLite._dtype_to_affinity_type {| kind := "i"; itemsize := n |} = "INTEGER" /\
     StoreSQLite._dtype_to_affinity_type {| kind := "u"; itemsize := n |} = "INTEGER" /\
     StoreSQLite._dtype_to_affinity_type {| kind := "f"; itemsize := n |} = "REAL" /\
     StoreSQLite._dtype_to_affinity_type {| kind := "c"; itemsize := n |} = "REAL" /\
     StoreSQLite._dtype_to_affinity_type {| kind := "M"; itemsize := n |} = "NONE" /\
     StoreSQLite._dtype_to_affinity_type DTYPE_OBJECT = "NONE").
Proof.
  split_and!; [by vm_compute..| | |by vm_compute|by vm_compute|by repeat split].
  - eexists. split; [vm_compute; reflexivity|]. repeat split.
  - eexists. split; [vm_compute; reflexivity|]. repeat split.
Qed.

(** * Further properties

    What the code shows beyond the claims: single accesses, accesses that
    raise, what loading keeps, construction, slices, and the SQLite round
    trip in general. *)

(** ** Access to one label *)

Lemma load_needed_hit bus (a : list bool) i :
  a !! i = Some true ->
  Bus.load_needed bus a (KInt (Z.of_nat i)) = Ok false.
Proof.
  intros Hi. unfold Bus.load_needed. destruct (_loaded_all bus); [done|].
  unfold resolve. rewrite norm_index_nat by by eapply lookup_lt_Some.
  cbn [sel_positions]. by rewrite (take_at_cons _ _ _ _ Hi).
Qed.

Lemma requested_labels_element index i label :
  index !! i = Some label ->
  Bus.requested_labels index (KInt (Z.of_nat i)) = Ok [label].
Proof.
  intros Hi. unfold Bus.requested_labels, resolve.
  rewrite norm_index_nat by by eapply lookup_lt_Some.
  unfold getitem. by rewrite Hi.
Qed.

(** The cache update for one position whose slot is loaded: nothing is
    read and nothing is written but the recency order. *)
Lemma update_view_hit v i label :
  s_index (_series (v_bus v)) !! i = Some label ->
  v_loaded v !! i = Some true ->
  update_view v (KInt (Z.of_nat i))
  = (match _max_persist (v_bus v) with
     | None => v
     | Some _ => {| v_bus := v_bus v; v_loaded := v_loaded v;
                    v_last := dict_touch (v_last v) label |}
     end, Ok tt).
Proof.
  intros Hi Hflag. unfold update_view.
  rewrite (load_needed_hit _ _ _ Hflag).
  destruct (_max_persist (v_bus v)); [|done].
  by rewrite (requested_labels_element _ _ _ Hi).
Qed.

Lemma Series_iloc_element s i label x :
  s_index s !! i = Some label ->
  s_values s !! i = Some x ->
  Series_iloc s (KInt (Z.of_nat i)) = Ok [(label, x)].
Proof.
  intros Hl Hx. unfold Series_iloc, resolve.
  rewrite norm_index_nat by by eapply lookup_lt_Some.
  unfold Series_iloc_items. by rewrite Hl, Hx.
Qed.

Lemma load_needed_miss bus (a : list bool) i :
  _loaded_all bus = all_true a ->
  a !! i = Some false ->
  Bus.load_needed bus a (KInt (Z.of_nat i)) = Ok true.
Proof.
  intros Hall Hi. apply (load_needed_true bus a _ (SElem i) i); try done.
  - unfold resolve. by rewrite norm_index_nat by by eapply lookup_lt_Some.
  - apply list_elem_of_here.
Qed.

(** One iteration of the loop on a deferred slot the store can read. *)
Lemma loop_body_miss index store config mp s i label f :
  NoDup index ->
  index !! i = Some label ->
  l_loaded s !! i = Some false ->
  i < length (l_array s) ->
  store_read store label (StoreConfigMap_getitem config label) = Some f ->
  loop_body index store config mp (label, FrameDeferred) s
  = let s1 := {| l_loaded := <[i := true]> (l_loaded s);
                 l_last := if is_active mp then dict_touch (l_last s) label
                           else l_last s;
                 l_array := <[i := VFrame f]> (l_array s);
                 l_count := if is_active mp then (l_count s + 1)%Z else l_count s |} in
    match mp with
    | Some k => evict_oldest index k s1
    | None => (s1, Ok tt)
    end.
Proof.
  intros Hnd Hi Hflag Hlt Hread.
  unfold loop_body, loc_to_iloc. rewrite (position_of_NoDup _ _ _ Hnd Hi).
  unfold Store_read. rewrite Hread.
  destruct mp as [k|]; cbn [is_active].
  - unfold bind at 1, lift at 1. unfold bind at 1, modify at 1.
    unfold bind at 1. unfold bind at 1, lift at 1, ret at 1.
    unfold bind at 1.
    rewrite load_slot_fresh by done. done.
  - unfold bind at 1, lift at 1. unfold bind at 1, ret at 1.
    unfold bind at 1. unfold bind at 1, lift at 1, ret at 1.
    unfold bind at 1.
    rewrite load_slot_fresh by done. done.
Qed.

Lemma cache_loop_single index store config mp item s :
  cache_loop index store config mp [item] s = loop_body index store config mp item s.
Proof.
  rewrite cache_loop_cons. unfold bind.
  by destruct (loop_body _ _ _ _ _ _) as [s' [[]|e]].
Qed.

Lemma view_ok_flag v i x :
  view_ok v ->
  s_values (_series (v_bus v)) !! i = Some x ->
  v_loaded v !! i = Some (is_Frame x).
Proof.
  intros [_ _ _ _ [Hf _ _ _]] Hx. simpl in Hf. by rewrite Hf, list_lookup_fmap, Hx.
Qed.

Lemma view_ok_not_recent v i label k :
  view_ok v ->
  _max_persist (v_bus v) = Some k ->
  s_index (_series (v_bus v)) !! i = Some label ->
  v_loaded v !! i = Some false ->
  label ∉ v_last v.
Proof.
  intros [_ Hnd _ _ [_ _ _ Hlru]] Hk Hi Hflag Hin. simpl in *.
  destruct (Hlru k Hk) as (_ & Hmem & _).
  apply Hmem in Hin as (j & Hj & Hjl).
  assert (j = i) as -> by by eapply (NoDup_lookup _ j i).
  congruence.
Qed.

(** The cache update for one deferred position, with room under the
    ceiling or no ceiling at all: the frame read is written to the slot,
    its flag is set and its label becomes the most recent. *)
Lemma update_view_miss_room v i label store f :
  view_ok v ->
  s_index (_series (v_bus v)) !! i = Some label ->
  s_values (_series (v_bus v)) !! i = Some FrameDeferred ->
  _store (v_bus v) = Some store ->
  store_read store label (StoreConfigMap_getitem (_config (v_bus v)) label) = Some f ->
  (forall k, _max_persist (v_bus v) = Some k -> (count_true (v_loaded v) < k)%Z) ->
  update_view v (KInt (Z.of_nat i))
  = ({| v_bus := with_values (v_bus v) (<[i := true]> (v_loaded v))
                   (<[i := VFrame f]> (s_values (_series (v_bus v))));
        v_loaded := <[i := true]> (v_loaded v);
        v_last := if is_active (_max_persist (v_bus v)) then v_last v ++ [label]
                  else v_last v |}, Ok tt).
Proof.
  intros Hok Hi Hx Hst Hread Hroom.
  pose proof (view_ok_flag v i _ Hok Hx) as Hflag. simpl in Hflag.
  pose proof Hok as [_ Hnd _ Hall _].
  rewrite (update_view_loop v _ store [(label, FrameDeferred)]);
    [|by apply load_needed_miss|done|by apply Series_iloc_element].
  rewrite cache_loop_single.
  rewrite (loop_body_miss _ _ _ _ _ i label f); try done;
    [|by eapply lookup_lt_Some].
  cbn zeta. destruct (_max_persist (v_bus v)) as [k|] eqn:Hk; cbn [is_active].
  - rewrite evict_oldest_idle by (cbn [l_count locals_of]; specialize (Hroom k eq_refl); lia).
    cbn [l_loaded l_array l_last locals_of].
    rewrite dict_touch_eq, dict_pop_absent; [done|].
    by eapply view_ok_not_recent.
  - done.
Qed.

(** ... and at the ceiling: the oldest label of the recency order is
    evicted to make room. *)
Lemma update_view_miss_full v i label store f k oldest rest j :
  view_ok v ->
  s_index (_series (v_bus v)) !! i = Some label ->
  s_values (_series (v_bus v)) !! i = Some FrameDeferred ->
  _store (v_bus v) = Some store ->
  store_read store label (StoreConfigMap_getitem (_config (v_bus v)) label) = Some f ->
  _max_persist (v_bus v) = Some k ->
  count_true (v_loaded v) = k ->
  v_last v = oldest :: rest ->
  s_index (_series (v_bus v)) !! j = Some oldest ->
  update_view v (KInt (Z.of_nat i))
  = ({| v_bus := with_values (v_bus v)
                   (<[j := false]> (<[i := true]> (v_loaded v)))
                   (<[j := FrameDeferred]>
                      (<[i := VFrame f]> (s_values (_series (v_bus v)))));
        v_loaded := <[j := false]> (<[i := true]> (v_loaded v));
        v_last := rest ++ [label] |}, Ok tt).
Proof.
  intros Hok Hi Hx Hst Hread Hk Hcount Hlast Hj.
  pose proof (view_ok_flag v i _ Hok Hx) as Hflag. simpl in Hflag.
  pose proof (view_ok_not_recent v i label k Hok Hk Hi Hflag) as Hnot.
  pose proof Hok as [_ Hnd _ Hall [Hf Hlen _ Hlru]]. simpl in Hf, Hlen, Hlru.
  destruct (Hlru k Hk) as (Hndl & _ & _ & _).
  assert (Hjlt : j < length (s_values (_series (v_bus v))))
    by (rewrite Hlen; by eapply lookup_lt_Some).
  rewrite (update_view_loop v _ store [(label, FrameDeferred)]);
    [|by apply load_needed_miss|done|by apply Series_iloc_element].
  rewrite cache_loop_single.
  rewrite (loop_body_miss _ _ _ _ _ i label f); try done;
    [|by eapply lookup_lt_Some].
  cbn zeta. rewrite Hk. cbn [is_active].
  pose proof (count_true_nonneg (v_loaded v)).
  rewrite Hlast in Hnot, Hndl. pose proof Hnot as Hnot'.
  apply not_elem_of_cons in Hnot as [Hne Hnot].
  apply NoDup_cons in Hndl as [Hold Hndr].
  rewrite (evict_oldest_run _ k _ oldest (rest ++ [label]) j).
  - cbn [l_loaded l_array l_last locals_of]. rewrite Hlast.
    rewrite dict_touch_eq, (dict_pop_absent (oldest :: rest) label) by exact Hnot'.
    f_equal. f_equal. change ((oldest :: rest) ++ [label]) with (oldest :: (rest ++ [label])).
    unfold dict_pop at 1. rewrite filter_cons_False by (intros ?; done).
    apply (dict_pop_absent (rest ++ [label]) oldest).
    rewrite elem_of_app, list_elem_of_singleton. intros [?|?]; done.
  - cbn [l_count locals_of]. lia.
  - lia.
  - cbn [l_last locals_of]. rewrite Hlast.
    by rewrite dict_touch_eq, (dict_pop_absent (oldest :: rest) label) by exact Hnot'.
  - by apply position_of_NoDup.
  - cbn [l_loaded locals_of]. rewrite length_insert, Hf, length_fmap. done.
  - cbn [l_array locals_of]. by rewrite length_insert.
Qed.


Lemma exec_all_sample_ok ops h :
  world_ok h -> (exec_all ops h).2 = Ok tt -> world_ok (exec_all ops h).1.
Proof.
  intros Hw Hr. destruct (exec_all ops h) as [h' r] eqn:Hrun. simpl in *. subst r.
  by eapply exec_all_world_ok.
Qed.

Lemma fresh_bus_world_ok : world_ok fresh_bus.
Proof.
  by destruct (from_store_world_ok sample_store InitNone None [] fresh_bus 1
                 world_ok_nil eq_refl) as [Hw _].
Qed.

Lemma parent_two_world_ok : world_ok parent_two.
Proof.
  by destruct (from_store_world_ok sample_store InitNone (Some 2%Z) [] parent_two 2
                 world_ok_nil eq_refl) as [Hw _].
Qed.

Lemma fresh_read_a_world_ok : world_ok fresh_read_a.
Proof. apply exec_all_sample_ok; [apply fresh_bus_world_ok|reflexivity]. Qed.

Lemma parent_two_read_ab_world_ok : world_ok parent_two_read_ab.
Proof. apply exec_all_sample_ok; [apply parent_two_world_ok|reflexivity]. Qed.

(** The label access on the heap, when the cache update of its position
    completes. *)
Lemma getitem_element h self v label i v' x :
  heap_ok h ->
  view_of h self = Some v ->
  NoDup (s_index (_series (v_bus v))) ->
  s_index (_series (v_bus v)) !! i = Some label ->
  update_view v (KInt (Z.of_nat i)) = (v', Ok tt) ->
  s_values (_series (v_bus v')) !! i = Some x ->
  exists h',
    Bus.__getitem__ self (LocLabel label) h = (h', Ok (Element x)) /\
    heap_ok h' /\
    view_of h' self = Some v' /\
    (forall b, b <> self -> view_of h' b = view_of h b).
Proof.
  intros Hok Hv Hnd Hi Hrun Hx.
  destruct (update_iloc_heap h self v (KInt (Z.of_nat i)) Hok Hv)
    as (h' & Hupd & Hok' & _ & Hv' & Hoth).
  rewrite Hrun in Hupd, Hv'. simpl in Hupd, Hv'.
  exists h'. split_and!; try done.
  rewrite (getitem_label_run h self v label i h' (Ok tt)); try done.
  by apply (extract_element_run h' self v').
Qed.

(** X1.  Without a ceiling, the access by label to a slot that holds a
    frame returns that frame and leaves the heap as it is: nothing is read,
    whether a store is bound or not. *)
Theorem loaded_label_served_from_cache h self v i label f :
  view_of h self = Some v ->
  view_ok v ->
  _max_persist (v_bus v) = None ->
  s_index (_series (v_bus v)) !! i = Some label ->
  s_values (_series (v_bus v)) !! i = Some (VFrame f) ->
  Bus.__getitem__ self (LocLabel label) h = (h, Ok (Element (VFrame f))).
Proof.
  intros Hv Hok Hmp Hi Hx.
  pose proof (view_ok_flag v i _ Hok Hx) as Hflag. simpl in Hflag.
  pose proof Hok as [Hattrs Hnd _ _ _].
  pose proof (update_iloc_run h self v (KInt (Z.of_nat i)) Hv Hattrs) as Hrun.
  rewrite (update_view_hit v i label Hi Hflag), Hmp in Hrun. simpl in Hrun.
  rewrite (commit_id _ _ _ Hv) in Hrun.
  rewrite (getitem_label_run h self v label i h (Ok tt)); try done.
  by apply (extract_element_run h self v).
Qed.

Lemma loaded_label_served_from_cache_witness :
  Bus.__getitem__ 1 (LocLabel (LStr "a")) fresh_read_a
  = (fresh_read_a, Ok (Element (VFrame frame_a))).
Proof.
  destruct fresh_read_a_world_ok as [_ Hall].
  eapply (loaded_label_served_from_cache fresh_read_a 1 _ 0).
  - reflexivity.
  - apply (Hall 1). reflexivity.
  - reflexivity.
  - reflexivity.
  - reflexivity.
Defined.

(** X2.  Under a ceiling, the access by label to a slot that holds a frame
    returns that frame and moves its label to the recent end of
    [_last_accessed]; the series, the flags and every other bus stay as
    they are. *)
Theorem loaded_label_becomes_most_recent h self v i label f k :
  heap_ok h ->
  view_of h self = Some v ->
  view_ok v ->
  _max_persist (v_bus v) = Some k ->
  s_index (_series (v_bus v)) !! i = Some label ->
  s_values (_series (v_bus v)) !! i = Some (VFrame f) ->
  exists h' v',
    Bus.__getitem__ self (LocLabel label) h = (h', Ok (Element (VFrame f))) /\
    view_of h' self = Some v' /\
    v_bus v' = v_bus v /\
    v_loaded v' = v_loaded v /\
    v_last v' = dict_pop (v_last v) label ++ [label] /\
    (forall b, b <> self -> view_of h' b = view_of h b).
Proof.
  intros Hh Hv Hok Hmp Hi Hx.
  pose proof (view_ok_flag v i _ Hok Hx) as Hflag. simpl in Hflag.
  pose proof Hok as [_ Hnd _ _ _].
  pose proof (update_view_hit v i label Hi Hflag) as Hrun. rewrite Hmp in Hrun.
  destruct (getitem_element h self v label i _ (VFrame f) Hh Hv Hnd Hi Hrun Hx)
    as (h' & Hget & _ & Hv' & Hoth).
  eexists h', _. split_and!; try done. simpl. apply dict_touch_eq.
Qed.

Lemma loaded_label_becomes_most_recent_witness :
  exists h' v',
    Bus.__getitem__ 2 (LocLabel (LStr "a")) parent_two_read_ab
      = (h', Ok (Element (VFrame frame_a))) /\
    view_of h' 2 = Some v' /\
    v_last v' = [LStr "b"; LStr "a"].
Proof.
  destruct parent_two_read_ab_world_ok as [Hh Hall].
  destruct (loaded_label_becomes_most_recent parent_two_read_ab 2 _ 0 (LStr "a")
              frame_a 2 Hh eq_refl (Hall 2 _ eq_refl) eq_refl eq_refl eq_refl)
    as (h' & v' & Hget & Hv' & _ & _ & Hlast & _).
  exists h', v'. split_and!; [exact Hget|exact Hv'|exact Hlast].
Defined.

(** X3.  The access by label to a deferred slot, with no ceiling or with
    room under it: the store is read under the label and its
    configuration, the frame read is returned and written to the slot, the
    flag of the slot is set, and under a ceiling the label is entered last
    in [_last_accessed].  Every other slot and flag stays as it is. *)
Theorem deferred_label_is_loaded h self v i label store f :
  heap_ok h ->
  view_of h self = Some v ->
  view_ok v ->
  s_index (_series (v_bus v)) !! i = Some label ->
  s_values (_series (v_bus v)) !! i = Some FrameDeferred ->
  _store (v_bus v) = Some store ->
  store_read store label (StoreConfigMap_getitem (_config (v_bus v)) label) = Some f ->
  (forall k, _max_persist (v_bus v) = Some k -> (count_true (v_loaded v) < k)%Z) ->
  exists h' v',
    Bus.__getitem__ self (LocLabel label) h = (h', Ok (Element (VFrame f))) /\
    view_of h' self = Some v' /\
    s_values (_series (v_bus v')) = <[i := VFrame f]> (s_values (_series (v_bus v))) /\
    v_loaded v' = <[i := true]> (v_loaded v) /\
    v_last v' = (if is_active (_max_persist (v_bus v)) then v_last v ++ [label]
                 else v_last v) /\
    (forall b, b <> self -> view_of h' b = view_of h b).
Proof.
  intros Hh Hv Hok Hi Hx Hst Hread Hroom.
  pose proof Hok as [_ Hnd _ _ _].
  pose proof (update_view_miss_room v i label store f Hok Hi Hx Hst Hread Hroom) as Hrun.
  destruct (getitem_element h self v label i _ (VFrame f) Hh Hv Hnd Hi Hrun)
    as (h' & Hget & _ & Hv' & Hoth).
  { simpl. apply list_lookup_insert_eq. by eapply lookup_lt_Some. }
  eexists h', _. split_and!; done.
Qed.

Lemma deferred_label_is_loaded_witness :
  exists h' v',
    Bus.__getitem__ 2 (LocLabel (LStr "b")) parent_two
      = (h', Ok (Element (VFrame frame_b))) /\
    view_of h' 2 = Some v' /\
    s_values (_series (v_bus v'))
      = [FrameDeferred; VFrame frame_b; FrameDeferred] /\
    v_loaded v' = [false; true; false] /\
    v_last v' = [LStr "b"].
Proof.
  destruct parent_two_world_ok as [Hh Hall].
  destruct (deferred_label_is_loaded parent_two 2 _ 1 (LStr "b") sample_store frame_b
              Hh eq_refl (Hall 2 _ eq_refl) eq_refl eq_refl eq_refl eq_refl)
    as (h' & v' & Hget & Hv' & Hvals & Hflags & Hlast & _).
  { intros k [= <-]. vm_compute. reflexivity. }
  exists h', v'. split_and!; [exact Hget|exact Hv'|exact Hvals|exact Hflags|exact Hlast].
Defined.

(** X4.  The access by label to a deferred slot of a bus that holds as
    many frames as its ceiling allows: the frame read is returned and
    written to the slot, and the first label of [_last_accessed], the one
    accessed longest ago, is evicted: its slot goes back to
    [FrameDeferred], its flag is cleared, and it leaves the recency order,
    which the new label joins at the end. *)
Theorem deferred_label_evicts_oldest h self v i label store f k oldest rest j :
  heap_ok h ->
  view_of h self = Some v ->
  view_ok v ->
  s_index (_series (v_bus v)) !! i = Some label ->
  s_values (_series (v_bus v)) !! i = Some FrameDeferred ->
  _store (v_bus v) = Some store ->
  store_read store label (StoreConfigMap_getitem (_config (v_bus v)) label) = Some f ->
  _max_persist (v_bus v) = Some k ->
  count_true (v_loaded v) = k ->
  v_last v = oldest :: rest ->
  s_index (_series (v_bus v)) !! j = Some oldest ->
  exists h' v',
    Bus.__getitem__ self (LocLabel label) h = (h', Ok (Element (VFrame f))) /\
    view_of h' self = Some v' /\
    s_values (_series (v_bus v'))
      = <[j := FrameDeferred]> (<[i := VFrame f]> (s_values (_series (v_bus v)))) /\
    v_loaded v' = <[j := false]> (<[i := true]> (v_loaded v)) /\
    v_last v' = rest ++ [label] /\
    count_true (v_loaded v') = k /\
    (forall b, b <> self -> view_of h' b = view_of h b).
Proof.
  intros Hh Hv Hok Hi Hx Hst Hread Hk Hcount Hlast Hj.
  pose proof Hok as [_ Hnd _ _ [_ Hlen _ _]]. simpl in Hlen.
  pose proof (update_view_miss_full v i label store f k oldest rest j
                Hok Hi Hx Hst Hread Hk Hcount Hlast Hj) as Hrun.
  pose proof (view_ok_flag v i _ Hok Hx) as Hflag. simpl in Hflag.
  pose proof (view_ok_not_recent v i label k Hok Hk Hi Hflag) as Hnot.
  assert (Hne : j <> i).
  { intros ->. apply Hnot. rewrite Hlast.
    assert (oldest = label) as -> by congruence. apply list_elem_of_here. }
  destruct (getitem_element h self v label i _ (VFrame f) Hh Hv Hnd Hi Hrun)
    as (h' & Hget & _ & Hv' & Hoth).
  { simpl. rewrite list_lookup_insert_ne by done.
    apply list_lookup_insert_eq. by eapply lookup_lt_Some. }
  eexists h', _. split_and!; try done. simpl.
  pose proof (update_view_ok v _ _ Hok Hrun) as [_ _ _ _ [_ _ _ Hlru']].
  simpl in Hlru'. destruct (Hlru' k Hk) as (_ & _ & _ & Hle).
  assert (Hjt : <[i := true]> (v_loaded v) !! j = Some true).
  { rewrite list_lookup_insert_ne by done.
    destruct Hok as [_ _ _ _ [_ _ _ Hlru]]. simpl in Hlru.
    destruct (Hlru k Hk) as (_ & Hmem & _).
    destruct (proj1 (Hmem oldest)) as (j' & Hj' & Hjl); [rewrite Hlast; apply list_elem_of_here|].
    assert (j' = j) as -> by by eapply (NoDup_lookup _ j' j). done. }
  rewrite (count_true_set _ _ _ Hjt).
  rewrite (count_true_set _ _ _ Hflag). lia.
Qed.

Lemma deferred_label_evicts_oldest_witness :
  exists h' v',
    Bus.__getitem__ 2 (LocLabel (LStr "c")) parent_two_read_ab
      = (h', Ok (Element (VFrame frame_c))) /\
    view_of h' 2 = Some v' /\
    s_values (_series (v_bus v'))
      = [FrameDeferred; VFrame frame_b; VFrame frame_c] /\
    v_loaded v' = [false; true; true] /\
    v_last v' = [LStr "b"; LStr "c"].
Proof.
  destruct parent_two_read_ab_world_ok as [Hh Hall].
  destruct (deferred_label_evicts_oldest parent_two_read_ab 2 _ 2 (LStr "c")
              sample_store frame_c 2 (LStr "a") [LStr "b"] 0
              Hh eq_refl (Hall 2 _ eq_refl) eq_refl eq_refl eq_refl eq_refl eq_refl
              eq_refl eq_refl eq_refl)
    as (h' & v' & Hget & Hv' & Hvals & Hflags & Hlast & _).
  exists h', v'. split_and!; [exact Hget|exact Hv'|exact Hvals|exact Hflags|exact Hlast].
Defined.

(** At the ceiling the recency order is not empty, and its first label
    names a slot of the bus. *)
Lemma view_ok_oldest v k :
  view_ok v ->
  _max_persist (v_bus v) = Some k ->
  (1 <= count_true (v_loaded v))%Z ->
  exists oldest rest j,
    v_last v = oldest :: rest /\ s_index (_series (v_bus v)) !! j = Some oldest.
Proof.
  intros [_ _ _ _ [Hf Hlen _ Hlru]] Hk Hc. simpl in *.
  destruct (Hlru k Hk) as (_ & Hmem & _).
  destruct (count_true_pos (v_loaded v)) as [j0 Hj0]; [lia|].
  destruct (lookup_lt_is_Some_2 (s_index (_series (v_bus v))) j0) as [l0 Hl0].
  { rewrite <- Hlen. apply lookup_lt_Some in Hj0. by rewrite Hf, length_fmap in Hj0. }
  assert (Hin : l0 ∈ v_last v) by (apply Hmem; eauto).
  destruct (v_last v) as [|oldest rest] eqn:Hlast; [by apply elem_of_nil in Hin|].
  destruct (proj1 (Hmem oldest)) as (j & Hj & _); [apply list_elem_of_here|].
  by exists oldest, rest, j.
Qed.

(** X5.  With no ceiling, or a ceiling of at least one, the access by
    label returns a frame, never [FrameDeferred]: the frame the slot
    holds, or else the frame the store reads under the label; and the
    slot holds that frame afterwards. *)
Theorem label_access_returns_frame h self v i label x f :
  heap_ok h ->
  view_of h self = Some v ->
  view_ok v ->
  s_index (_series (v_bus v)) !! i = Some label ->
  s_values (_series (v_bus v)) !! i = Some x ->
  frame_behind (v_bus v) label x = Some f ->
  (forall k, _max_persist (v_bus v) = Some k -> (1 <= k)%Z) ->
  exists h' v',
    Bus.__getitem__ self (LocLabel label) h = (h', Ok (Element (VFrame f))) /\
    view_of h' self = Some v' /\
    view_ok v' /\
    s_values (_series (v_bus v')) !! i = Some (VFrame f).
Proof.
  intros Hh Hv Hok Hi Hx Hf Hk.
  pose proof Hok as [_ Hnd _ _ [_ Hlen _ Hlru]]. simpl in Hlen, Hlru.
  assert (Hilt : i < length (s_values (_series (v_bus v)))) by by eapply lookup_lt_Some.
  assert (Hget : forall v', update_view v (KInt (Z.of_nat i)) = (v', Ok tt) ->
            s_values (_series (v_bus v')) !! i = Some (VFrame f) ->
            exists h' v',
              Bus.__getitem__ self (LocLabel label) h = (h', Ok (Element (VFrame f))) /\
              view_of h' self = Some v' /\ view_ok v' /\
              s_values (_series (v_bus v')) !! i = Some (VFrame f)).
  { intros v' Hrun Hx'.
    destruct (getitem_element h self v label i v' (VFrame f) Hh Hv Hnd Hi Hrun Hx')
      as (h' & Hg & _ & Hv' & _).
    exists h', v'. split_and!; try done. by eapply update_view_ok. }
  destruct x as [g| |]; simpl in Hf; [| |done].
  - (* the slot holds the frame *)
    injection Hf as ->.
    pose proof (view_ok_flag v i _ Hok Hx) as Hflag. simpl in Hflag.
    eapply Hget; [by apply update_view_hit|]. by destruct (_max_persist (v_bus v)).
  - (* the slot is deferred *)
    destruct (_store (v_bus v)) as [store|] eqn:Hst; [|done].
    pose proof (view_ok_flag v i _ Hok Hx) as Hflag. simpl in Hflag.
    destruct (_max_persist (v_bus v)) as [k|] eqn:Hmp.
    2:{ eapply Hget; [apply (update_view_miss_room v i label store f); try done;
                      by rewrite Hmp|].
        simpl. by apply list_lookup_insert_eq. }
    destruct (Hlru k eq_refl) as (_ & _ & _ & Hle). simpl in Hle.
    destruct (decide (count_true (v_loaded v) = k)) as [Hc|Hc].
    + specialize (Hk k eq_refl).
      destruct (view_ok_oldest v k Hok Hmp) as (oldest & rest & j & Hlast & Hj); [lia|].
      pose proof (view_ok_not_recent v i label k Hok Hmp Hi Hflag) as Hnot.
      assert (Hne : j <> i).
      { intros ->. apply Hnot. rewrite Hlast.
        assert (oldest = label) as -> by congruence. apply list_elem_of_here. }
      eapply Hget;
        [by apply (update_view_miss_full v i label store f k oldest rest j)|].
      simpl. rewrite list_lookup_insert_ne by done. by apply list_lookup_insert_eq.
    + eapply Hget; [apply (update_view_miss_room v i label store f); try done|].
      * rewrite Hmp. intros k' [= <-]. lia.
      * simpl. by apply list_lookup_insert_eq.
Qed.

Lemma label_access_returns_frame_witness :
  exists h' v',
    Bus.__getitem__ 2 (LocLabel (LStr "c")) parent_two_read_ab
      = (h', Ok (Element (VFrame frame_c))) /\
    view_of h' 2 = Some v' /\
    view_ok v' /\
    s_values (_series (v_bus v')) !! 2 = Some (VFrame frame_c).
Proof.
  destruct parent_two_read_ab_world_ok as [Hh Hall].
  apply (label_access_returns_frame parent_two_read_ab 2 _ 2 (LStr "c") FrameDeferred
           frame_c Hh eq_refl (Hall 2 _ eq_refl) eq_refl eq_refl eq_refl).
  intros k [= <-]. lia.
Defined.

(** X25.  The eviction is by recency of access, not of loading: on a bus
    at its ceiling whose two oldest labels are [a] then [b], an access to
    [a], which is loaded, followed by an access to a deferred label [c],
    evicts [b]; [a] stays loaded and the recency order ends in [a], [c]. *)
Theorem recent_access_protects_from_eviction
    h self v k a b rest ia ib ic c store fa fc :
  heap_ok h ->
  view_of h self = Some v ->
  view_ok v ->
  _max_persist (v_bus v) = Some k ->
  count_true (v_loaded v) = k ->
  v_last v = a :: b :: rest ->
  s_index (_series (v_bus v)) !! ia = Some a ->
  s_index (_series (v_bus v)) !! ib = Some b ->
  s_index (_series (v_bus v)) !! ic = Some c ->
  s_values (_series (v_bus v)) !! ia = Some (VFrame fa) ->
  s_values (_series (v_bus v)) !! ic = Some FrameDeferred ->
  _store (v_bus v) = Some store ->
  store_read store c (StoreConfigMap_getitem (_config (v_bus v)) c) = Some fc ->
  exists h1 h2 v2,
    Bus.__getitem__ self (LocLabel a) h = (h1, Ok (Element (VFrame fa))) /\
    Bus.__getitem__ self (LocLabel c) h1 = (h2, Ok (Element (VFrame fc))) /\
    view_of h2 self = Some v2 /\
    s_values (_series (v_bus v2)) !! ia = Some (VFrame fa) /\
    s_values (_series (v_bus v2)) !! ib = Some FrameDeferred /\
    s_values (_series (v_bus v2)) !! ic = Some (VFrame fc) /\
    v_last v2 = rest ++ [a; c].
Proof.
  intros Hh Hv Hok Hk Hcount Hlast Hia Hib Hic Hxa Hxc Hst Hread.
  pose proof Hok as [_ Hnd _ _ [_ Hlen _ Hlru]]. simpl in Hlen, Hlru.
  destruct (Hlru k Hk) as (Hndl & _ & _ & _). rewrite Hlast in Hndl.
  apply NoDup_cons in Hndl as [Ha Hndl].
  pose proof (view_ok_flag v ia _ Hok Hxa) as Hfa. simpl in Hfa.
  (* the access to a *)
  pose proof (update_view_hit v ia a Hia Hfa) as Hrun1. rewrite Hk in Hrun1.
  assert (Htouch : dict_touch (v_last v) a = b :: rest ++ [a]).
  { rewrite dict_touch_eq, Hlast. unfold dict_pop.
    rewrite filter_cons_False by (intros ?; done).
    fold (dict_pop (b :: rest) a). by rewrite dict_pop_absent. }
  rewrite Htouch in Hrun1.
  set (v1 := {| v_bus := v_bus v; v_loaded := v_loaded v;
                v_last := b :: rest ++ [a] |}) in *.
  pose proof (update_view_ok v _ v1 Hok Hrun1) as Hok1.
  destruct (getitem_element h self v a ia v1 (VFrame fa) Hh Hv Hnd Hia Hrun1 Hxa)
    as (h1 & Hget1 & Hh1 & Hv1 & _).
  (* the access to c *)
  pose proof (update_view_miss_full v1 ic c store fc k b (rest ++ [a]) ib
                Hok1 Hic Hxc Hst Hread Hk Hcount eq_refl Hib) as Hrun2.
  cbn [v1 v_bus v_loaded] in Hrun2.
  assert (Hibc : ib <> ic).
  { intros ->. assert (b = c) as -> by congruence.
    apply (view_ok_not_recent v1 ic c k Hok1 Hk Hic).
    - by apply (view_ok_flag v ic _ Hok Hxc).
    - simpl. apply list_elem_of_here. }
  assert (Hiab : ia <> ib).
  { intros ->. apply Ha. assert (a = b) as -> by congruence. apply list_elem_of_here. }
  assert (Hiac : ia <> ic) by (intros ->; congruence).
  assert (Hlt : forall i x, s_values (_series (v_bus v)) !! i = Some x ->
                            i < length (s_values (_series (v_bus v))))
    by (intros; by eapply lookup_lt_Some).
  assert (Hiblt : ib < length (s_values (_series (v_bus v))))
    by (rewrite Hlen; by eapply lookup_lt_Some).
  destruct (getitem_element h1 self v1 c ic _ (VFrame fc) Hh1 Hv1 Hnd Hic Hrun2)
    as (h2 & Hget2 & _ & Hv2 & _).
  { simpl. rewrite list_lookup_insert_ne by done.
    apply list_lookup_insert_eq. by eapply Hlt. }
  eexists h1, h2, _. split_and!; [done..| | | |]; simpl.
  - by rewrite !list_lookup_insert_ne by done.
  - apply list_lookup_insert_eq. by rewrite length_insert.
  - rewrite list_lookup_insert_ne by done. apply list_lookup_insert_eq. by eapply Hlt.
  - by rewrite <- app_assoc.
Qed.

Lemma recent_access_protects_from_eviction_witness :
  exists h1 h2 v2,
    Bus.__getitem__ 2 (LocLabel (LStr "a")) parent_two_read_ab
      = (h1, Ok (Element (VFrame frame_a))) /\
    Bus.__getitem__ 2 (LocLabel (LStr "c")) h1 = (h2, Ok (Element (VFrame frame_c))) /\
    view_of h2 2 = Some v2 /\
    s_values (_series (v_bus v2)) !! 0 = Some (VFrame frame_a) /\
    s_values (_series (v_bus v2)) !! 1 = Some FrameDeferred /\
    s_values (_series (v_bus v2)) !! 2 = Some (VFrame frame_c) /\
    v_last v2 = [LStr "a"; LStr "c"].
Proof.
  destruct parent_two_read_ab_world_ok as [Hh Hall].
  apply (recent_access_protects_from_eviction parent_two_read_ab 2 _ 2
           (LStr "a") (LStr "b") [] 0 1 2 (LStr "c") sample_store frame_a frame_c
           Hh eq_refl (Hall 2 _ eq_refl)); reflexivity.
Defined.

(** ** Accesses that raise *)

Lemma update_iloc_unchanged h self v key r :
  view_of h self = Some v ->
  attrs_ok (v_bus v) ->
  update_view v key = (v, r) ->
  Bus._update_series_cache_iloc self key h = (h, r).
Proof.
  intros Hv Hattrs Hrun.
  rewrite (update_iloc_run h self v key Hv Hattrs), Hrun. simpl.
  by rewrite (commit_id _ _ _ Hv).
Qed.

Lemma update_view_no_store v key sel p :
  view_ok v ->
  _store (v_bus v) = None ->
  resolve (length (s_values (_series (v_bus v)))) key = Ok sel ->
  p ∈ sel_positions sel ->
  s_values (_series (v_bus v)) !! p = Some FrameDeferred ->
  update_view v key = (v, Raise RuntimeError).
Proof.
  intros Hok Hst Hsel Hp Hx.
  pose proof (view_ok_flag v p _ Hok Hx) as Hflag. simpl in Hflag.
  pose proof Hok as [_ _ _ Hall [Hf _ _ _]]. simpl in Hf.
  unfold update_view.
  rewrite (load_needed_true (v_bus v) (v_loaded v) key sel p); try done.
  - by rewrite Hst.
  - by rewrite Hf, length_fmap.
Qed.

(** X6.  A bus without a store cannot load: an access whose key selects a
    deferred slot raises [RuntimeError] and leaves the heap as it is, be it
    a selection by position, an access by label or a full
    materialization. *)
Theorem deferred_access_without_store_raises h self v key sel p label :
  view_of h self = Some v ->
  view_ok v ->
  _store (v_bus v) = None ->
  resolve (length (s_values (_series (v_bus v)))) key = Ok sel ->
  p ∈ sel_positions sel ->
  s_index (_series (v_bus v)) !! p = Some label ->
  s_values (_series (v_bus v)) !! p = Some FrameDeferred ->
  Bus._extract_iloc self key h = (h, Raise RuntimeError) /\
  Bus.__getitem__ self (LocLabel label) h = (h, Raise RuntimeError) /\
  Bus.values self h = (h, Raise RuntimeError) /\
  Bus.items self h = (h, Raise RuntimeError).
Proof.
  intros Hv Hok Hst Hsel Hp Hl Hx.
  pose proof Hok as [Hattrs Hnd _ Hall [Hf Hlen _ _]]. simpl in Hf, Hlen.
  pose proof (view_ok_flag v p _ Hok Hx) as Hflag. simpl in Hflag.
  assert (Hplt : p < length (s_values (_series (v_bus v)))) by by eapply lookup_lt_Some.
  assert (Hall' : Bus._update_series_cache_all self h = (h, Raise RuntimeError)).
  { unfold Bus._update_series_cache_all.
    rewrite (bind_ok _ _ _ _ _ (get_bus_view _ _ _ Hv)).
    assert (_loaded_all (v_bus v) = false) as ->.
    { rewrite Hall. apply not_true_is_false. rewrite all_true_lookup.
      intros H. by specialize (H p false Hflag). }
    simpl. apply (update_iloc_unchanged h self v); [done..|].
    apply (update_view_no_store v _ (SMany (seq 0 (length (s_values (_series (v_bus v)))))) p);
      try done.
    - apply resolve_null_slice.
    - simpl. apply elem_of_seq. lia. }
  split_and!.
  - unfold Bus._extract_iloc. apply bind_raise.
    apply (update_iloc_unchanged h self v); [done..|]. by eapply update_view_no_store.
  - rewrite (getitem_label_run h self v label p h (Raise RuntimeError)); try done.
    apply (update_iloc_unchanged h self v); [done..|].
    apply (update_view_no_store v _ (SElem p) p); try done.
    + unfold resolve. by rewrite norm_index_nat.
    + apply list_elem_of_here.
  - unfold Bus.values. by apply bind_raise.
  - unfold Bus.items. by apply bind_raise.
Qed.


Lemma init_sample_ok series store config mp h :
  world_ok h ->
  Series_valid series ->
  is_ok (Bus.__init__ series store config mp h).2 = true ->
  world_ok (Bus.__init__ series store config mp h).1.
Proof.
  intros [Hok Hall] Hvalid Hr.
  destruct (Bus.__init__ series store config mp h) as [h' [b|e]] eqn:Hrun; [|done].
  simpl. pose proof (init_extends _ _ _ _ _ _ _ Hok Hrun) as [Hok' Hlen Hviews].
  destruct (init_new _ _ _ _ _ _ _ Hvalid Hrun)
    as (Hge & v & Hv & Hvok & _ & _ & _ & _ & _ & _ & Hnew).
  split; [done|]. intros b' v' Hv'.
  destruct (decide (b' < length h)) as [Hlt|Hnlt].
  - rewrite Hviews in Hv' by done. by eapply Hall.
  - assert (b' = b) as -> by (apply Hnew; [congruence|lia]). congruence.
Qed.

Lemma Series_valid_dec series :
  bool_decide (NoDup (s_index series)
               /\ length (s_index series) = length (s_values series)) = true ->
  Series_valid series.
Proof. intros H. by apply bool_decide_eq_true_1 in H. Qed.

Lemma no_store_bus_world_ok : world_ok no_store_bus.
Proof.
  apply init_sample_ok; [apply world_ok_nil| |reflexivity].
  apply Series_valid_dec. vm_compute. reflexivity.
Qed.

Lemma deferred_access_without_store_raises_witness :
  Bus._extract_iloc 1 (KSlice (Some 1) None) no_store_bus
    = (no_store_bus, Raise RuntimeError) /\
  Bus.__getitem__ 1 (LocLabel (LStr "b")) no_store_bus
    = (no_store_bus, Raise RuntimeError) /\
  Bus.values 1 no_store_bus = (no_store_bus, Raise RuntimeError) /\
  Bus.items 1 no_store_bus = (no_store_bus, Raise RuntimeError).
Proof.
  destruct no_store_bus_world_ok as [_ Hall].
  apply (deferred_access_without_store_raises no_store_bus 1 _
           (KSlice (Some 1) None) (SMany [1; 2]) 1 (LStr "b")
           eq_refl (Hall 1 _ eq_refl) eq_refl eq_refl).
  - apply list_elem_of_here.
  - reflexivity.
  - reflexivity.
Defined.

Lemma locs_to_ilocs_missing index ls l :
  l ∈ ls -> l ∉ index ->
  exists l', l' ∈ ls /\ (l' ∉ index) /\ locs_to_ilocs index ls = Raise (KeyError l').
Proof.
  intros Hin Hnot. induction ls as [|x ls IH]; [by apply elem_of_nil in Hin|].
  simpl. unfold loc_to_iloc.
  destruct (position_of index x) as [i|] eqn:Hx.
  - apply elem_of_cons in Hin as [->|Hin].
    { apply position_of_None in Hnot. congruence. }
    destruct (IH Hin) as (l' & Hl' & Hn' & ->).
    exists l'. split_and!; [by apply list_elem_of_further|done|done].
  - exists x. split_and!; [apply list_elem_of_here|by apply position_of_None|done].
Qed.

(** X7.  A label that is not in the index: the access raises [KeyError]
    for that label before anything is looked at, and the heap stays as it
    is.  A list of labels with a missing one raises [KeyError] for a label
    of the list that is missing. *)
Theorem missing_label_raises_key_error h self v label ls :
  view_of h self = Some v ->
  label ∉ s_index (_series (v_bus v)) ->
  Bus.__getitem__ self (LocLabel label) h = (h, Raise (KeyError label)) /\
  (label ∈ ls ->
   exists l', l' ∈ ls /\ (l' ∉ s_index (_series (v_bus v))) /\
              Bus.__getitem__ self (LocList ls) h = (h, Raise (KeyError l'))).
Proof.
  intros Hv Hnot. split.
  - unfold Bus.__getitem__, Bus._extract_loc.
    rewrite (bind_ok _ _ _ _ _ (get_bus_view _ _ _ Hv)).
    unfold loc_key_to_iloc, loc_to_iloc.
    by rewrite (proj2 (position_of_None _ _) Hnot).
  - intros Hin.
    destruct (locs_to_ilocs_missing _ ls label Hin Hnot) as (l' & Hl' & Hn' & Hrun).
    exists l'. split_and!; [done..|].
    unfold Bus.__getitem__, Bus._extract_loc.
    rewrite (bind_ok _ _ _ _ _ (get_bus_view _ _ _ Hv)).
    unfold loc_key_to_iloc. by rewrite Hrun.
Qed.

Lemma missing_label_raises_key_error_witness :
  Bus.__getitem__ 1 (LocLabel (LStr "z")) fresh_bus
    = (fresh_bus, Raise (KeyError (LStr "z"))) /\
  exists l', l' ∈ [LStr "a"; LStr "z"] /\
             (l' ∉ [LStr "a"; LStr "b"; LStr "c"]) /\
             Bus.__getitem__ 1 (LocList [LStr "a"; LStr "z"]) fresh_bus
               = (fresh_bus, Raise (KeyError l')).
Proof.
  destruct (missing_label_raises_key_error fresh_bus 1 _ (LStr "z")
              [LStr "a"; LStr "z"] eq_refl) as [H1 H2].
  - apply (bool_decide_unpack _). vm_compute. exact I.
  - split; [exact H1|]. apply H2. apply list_elem_of_further, list_elem_of_here.
Defined.

Lemma norm_index_out n z :
  (z < - Z.of_nat n \/ Z.of_nat n <= z)%Z -> norm_index n z = Raise IndexError.
Proof.
  intros Hz. unfold norm_index.
  rewrite bool_decide_eq_false_2 by lia. by rewrite bool_decide_eq_false_2 by lia.
Qed.

Lemma norm_indices_out n zs z :
  z ∈ zs -> (z < - Z.of_nat n \/ Z.of_nat n <= z)%Z ->
  norm_indices n zs = Raise IndexError.
Proof.
  intros Hin Hz. induction zs as [|x zs IH]; [by apply elem_of_nil in Hin|].
  simpl. apply elem_of_cons in Hin as [->|Hin].
  - by rewrite norm_index_out.
  - unfold norm_index at 1. repeat case_bool_decide; try done; by rewrite IH.
Qed.

(** A key that cannot be resolved stops the access before the bus is
    written to. *)
Lemma extract_iloc_unresolved h self v key :
  view_of h self = Some v ->
  view_ok v ->
  resolve (length (s_values (_series (v_bus v)))) key = Raise IndexError ->
  Bus._extract_iloc self key h = (h, Raise IndexError).
Proof.
  intros Hv Hok Hsel.
  pose proof Hok as [Hattrs _ _ _ [Hf Hlen _ _]]. simpl in Hf, Hlen.
  assert (Hll : length (v_loaded v) = length (s_values (_series (v_bus v))))
    by by rewrite Hf, length_fmap.
  unfold Bus._extract_iloc.
  assert (Hcases : update_view v key = (v, Raise IndexError)
                   \/ update_view v key = (v, Ok tt)).
  { unfold update_view, Bus.load_needed. rewrite Hll, Hsel.
    destruct (_loaded_all (v_bus v)); [|by left].
    destruct (_max_persist (v_bus v)); [|by right].
    unfold Bus.requested_labels. rewrite <- Hlen, Hsel. by left. }
  destruct Hcases as [Hrun|Hrun].
  - apply bind_raise. by apply (update_iloc_unchanged h self v).
  - rewrite (bind_ok _ _ _ _ _ (update_iloc_unchanged h self v _ _ Hv Hattrs Hrun)).
    unfold Bus.extract_values.
    rewrite (bind_ok _ _ _ _ _ (get_bus_view _ _ _ Hv)).
    by rewrite Hsel.
Qed.

(** X8.  A position outside the bus, alone or in a list of positions:
    the selection raises [IndexError] and leaves the heap as it is. *)
Theorem position_out_of_range_raises h self v z zs :
  view_of h self = Some v ->
  view_ok v ->
  let n := Z.of_nat (length (s_index (_series (v_bus v)))) in
  (z < - n \/ n <= z)%Z ->
  Bus._extract_iloc self (KInt z) h = (h, Raise IndexError) /\
  (z ∈ zs -> Bus._extract_iloc self (KList zs) h = (h, Raise IndexError)).
Proof.
  intros Hv Hok n Hz. subst n.
  pose proof Hok as [_ _ _ _ [_ Hlen _ _]]. simpl in Hlen. rewrite <- Hlen in Hz.
  split.
  - apply (extract_iloc_unresolved h self v); [done..|].
    unfold resolve. by rewrite norm_index_out.
  - intros Hin. apply (extract_iloc_unresolved h self v); [done..|].
    unfold resolve. by rewrite (norm_indices_out _ _ z).
Qed.

Lemma position_out_of_range_raises_witness :
  Bus._extract_iloc 1 (KInt 3) fresh_bus = (fresh_bus, Raise IndexError) /\
  Bus._extract_iloc 1 (KList [0; 3]%Z) fresh_bus = (fresh_bus, Raise IndexError).
Proof.
  destruct fresh_bus_world_ok as [_ Hall].
  destruct (position_out_of_range_raises fresh_bus 1 _ 3 [0; 3]%Z eq_refl
              (Hall 1 _ eq_refl)) as [H1 H2].
  - simpl. lia.
  - split; [exact H1|]. apply H2. apply list_elem_of_further, list_elem_of_here.
Defined.

(** Keys that resolve to the same positions are the same key to the cache
    update and to the extraction. *)
Lemma update_view_same_sel v k1 k2 :
  length (v_loaded v) = length (s_values (_series (v_bus v))) ->
  length (s_index (_series (v_bus v))) = length (s_values (_series (v_bus v))) ->
  resolve (length (s_values (_series (v_bus v)))) k1
  = resolve (length (s_values (_series (v_bus v)))) k2 ->
  update_view v k1 = update_view v k2.
Proof.
  intros Hll Hlen Hsel.
  unfold update_view, Bus.load_needed, Bus.requested_labels, Series_iloc.
  by rewrite Hll, Hlen, Hsel.
Qed.

Lemma extract_values_same_sel h self v k1 k2 :
  view_of h self = Some v ->
  resolve (length (s_values (_series (v_bus v)))) k1
  = resolve (length (s_values (_series (v_bus v)))) k2 ->
  Bus.extract_values self k1 h = Bus.extract_values self k2 h.
Proof.
  intros Hv Hsel. unfold Bus.extract_values.
  rewrite !(bind_ok _ _ _ _ _ (get_bus_view _ _ _ Hv)). by rewrite Hsel.
Qed.

Lemma update_view_length v key :
  view_ok v ->
  length (s_values (_series (v_bus (update_view v key).1)))
  = length (s_values (_series (v_bus v))).
Proof.
  intros Hok. destruct (update_view v key) as [v' r] eqn:Hrun. simpl.
  destruct r as [[]|e].
  - pose proof (update_view_ok v key v' Hok Hrun) as [_ _ _ _ [_ Hlen' _ _]].
    destruct Hok as [_ _ _ _ [_ Hlen _ _]]. simpl in *.
    pose proof (update_view_static v key) as (_ & _ & _ & _ & _ & Eidx).
    rewrite Hrun in Eidx. simpl in Eidx. by rewrite Hlen', Eidx, Hlen.
  - unfold update_view in Hrun.
    destruct (Bus.load_needed _ _ _) as [[|]|]; try by injection Hrun as <-.
    + destruct (_store (v_bus v)); [|by injection Hrun as <-].
      destruct (Series_iloc _ _); [|by injection Hrun as <-].
      destruct (cache_loop _ _ _ _ _ _) as [locals [[]|e']]; [done|].
      by injection Hrun as <-.
    + destruct (_max_persist (v_bus v)); [|by injection Hrun as <-].
      destruct (Bus.requested_labels _ _); by injection Hrun as <-.
Qed.

(** X9.  A negative position counts from the end: on a bus of [n] slots
    the selection of position [z], for [-n <= z < 0], is the selection of
    position [n + z], in what it returns and in what it does to the
    heap. *)
Theorem negative_position_counts_from_end h self v z :
  heap_ok h ->
  view_of h self = Some v ->
  view_ok v ->
  let n := Z.of_nat (length (s_index (_series (v_bus v)))) in
  (- n <= z < 0)%Z ->
  Bus._extract_iloc self (KInt z) h = Bus._extract_iloc self (KInt (n + z)) h.
Proof.
  intros Hh Hv Hok n Hz. subst n.
  pose proof Hok as [_ _ _ _ [Hf Hlen _ _]]. simpl in Hf, Hlen.
  rewrite <- Hlen in *.
  set (m := length (s_values (_series (v_bus v)))) in *.
  assert (Hsel : forall m', m' = m ->
            resolve m' (KInt z) = resolve m' (KInt (Z.of_nat m + z))).
  { intros m' ->. unfold resolve, norm_index.
    rewrite (bool_decide_eq_false_2 (0 <= z < _)%Z) by lia.
    rewrite (bool_decide_eq_true_2 (- _ <= z < 0)%Z) by lia.
    by rewrite (bool_decide_eq_true_2 (0 <= Z.of_nat m + z < _)%Z) by lia. }
  assert (Hupd : update_view v (KInt z) = update_view v (KInt (Z.of_nat m + z))).
  { apply update_view_same_sel; [by rewrite Hf, length_fmap|done|by apply Hsel]. }
  unfold Bus._extract_iloc.
  destruct (update_iloc_heap h self v (KInt z) Hh Hv) as (h1 & Hrun1 & _ & _ & Hv1 & _).
  destruct (update_iloc_heap h self v (KInt (Z.of_nat m + z)) Hh Hv)
    as (h2 & Hrun2 & _ & _ & Hv2 & _).
  assert (h1 = h2) as <-.
  { pose proof Hok as [Hattrs _ _ _ _].
    rewrite (update_iloc_run h self v _ Hv Hattrs) in Hrun1.
    rewrite (update_iloc_run h self v _ Hv Hattrs) in Hrun2.
    rewrite <- Hupd in Hrun2. congruence. }
  rewrite <- Hupd in Hrun2.
  unfold bind. rewrite Hrun1, Hrun2.
  destruct (update_view v (KInt z)).2 as [[]|e]; [|done].
  apply (extract_values_same_sel h1 self _ _ _ Hv1).
  apply Hsel. apply update_view_length. done.
Qed.

Lemma negative_position_counts_from_end_witness :
  Bus._extract_iloc 1 (KInt (-1)) fresh_bus = Bus._extract_iloc 1 (KInt (3 + -1)) fresh_bus.
Proof.
  destruct fresh_bus_world_ok as [Hh Hall].
  apply (negative_position_counts_from_end fresh_bus 1 _ (-1) Hh eq_refl
           (Hall 1 _ eq_refl)).
  simpl. lia.
Defined.

(** ** Loading without a ceiling *)

(** Without a ceiling the loop never takes a frame out of a slot, and a
    frame it leaves in a slot was there before, or was read from the store
    under the label of the slot, or came with the targets. *)
Lemma cache_loop_unbounded_array index store config targets s s' :
  NoDup index ->
  locals_ok index None s ->
  Forall (fun item : Label * Value => item.1 ∈ index /\ item.2 <> VOther) targets ->
  cache_loop index store config None targets s = (s', Ok tt) ->
  (forall j f, l_array s !! j = Some (VFrame f) -> l_array s' !! j = Some (VFrame f)) /\
  (forall j f, l_array s' !! j = Some (VFrame f) ->
     l_array s !! j = Some (VFrame f) \/
     exists l, index !! j = Some l /\
       ((l, VFrame f) ∈ targets \/
        ((l, FrameDeferred) ∈ targets /\
         store_read store l (StoreConfigMap_getitem config l) = Some f))).
Proof.
  intros Hnd Hok Ht. revert s Hok.
  induction Ht as [|[label frame] targets [Hin Hv] Ht IH]; intros s Hok.
  { intros [= <-]. split; [done|]. intros j f H. by left. }
  simpl in Hin, Hv. rewrite cache_loop_cons. intros Hrun.
  apply bind_inv_ok in Hrun as (s1 & [] & Hb & Hrest).
  apply list_elem_of_lookup in Hin as [i Hi].
  assert (exists f, frame = VFrame f \/ (frame = FrameDeferred /\
            store_read store label (StoreConfigMap_getitem config label) = Some f))
    as [f0 Hf0].
  { destruct frame as [f| |]; [eauto| |done].
    destruct (store_read store label (StoreConfigMap_getitem config label)) as [f|] eqn:E;
      [eauto|].
    rewrite (loop_body_raise index store config Hnd None s i label Hi E) in Hb. done. }
  destruct (loop_body_ok index store config Hnd None s i label frame f0 Hok Hi Hf0)
    as (s1' & Hb' & Hok1 & Hch & _).
  rewrite Hb in Hb'. injection Hb' as <-.
  destruct (Hch eq_refl) as [_ Ha1].
  destruct (IH s1 Hok1 Hrest) as [Hkeep Hprov].
  pose proof Hok as [Hflags _ _ _].
  split.
  - intros j f Hj. apply Hkeep. rewrite Ha1.
    destruct (l_loaded s !! i) as [[|]|] eqn:Hli; try done.
    + destruct (decide (i = j)) as [<-|Hne]; [|by rewrite list_lookup_insert_ne].
      rewrite Hflags, list_lookup_fmap, Hj in Hli. done.
    + destruct (decide (i = j)) as [<-|Hne]; [|by rewrite list_lookup_insert_ne].
      rewrite Hflags, list_lookup_fmap, Hj in Hli. done.
  - intros j f Hj. destruct (Hprov j f Hj) as [Hj1|(l & Hl & Hcase)].
    + rewrite Ha1 in Hj1.
      assert (Hins : l_array s !! j = Some (VFrame f) \/
                     (i = j /\ f = f0 /\ l_loaded s !! i <> Some true)).
      { destruct (l_loaded s !! i) as [[|]|] eqn:Hli; [by left| |].
        - destruct (decide (i = j)) as [<-|Hne].
          + right. apply list_lookup_insert_Some in Hj1 as [(_ & [= ->] & _)|[? _]]; done.
          + left. by rewrite list_lookup_insert_ne in Hj1.
        - destruct (decide (i = j)) as [<-|Hne].
          + right. apply list_lookup_insert_Some in Hj1 as [(_ & [= ->] & _)|[? _]]; done.
          + left. by rewrite list_lookup_insert_ne in Hj1. }
      destruct Hins as [?|(<- & -> & _)]; [by left|].
      right. exists label. split; [done|].
      destruct Hf0 as [->|[-> Hread]].
      * left. apply list_elem_of_here.
      * right. split; [apply list_elem_of_here|done].
    + right. exists l. split; [done|].
      destruct Hcase as [H|[H Hr]]; [left|right; split; [|done]];
        by apply list_elem_of_further.
Qed.

(** The same of the cache update of a bus without a ceiling, however it
    ends. *)
Lemma update_view_unbounded v key :
  view_ok v ->
  _max_persist (v_bus v) = None ->
  let values := s_values (_series (v_bus v)) in
  let values' := s_values (_series (v_bus (update_view v key).1)) in
  (forall j f, values !! j = Some (VFrame f) -> values' !! j = Some (VFrame f)) /\
  (forall j f, values' !! j = Some (VFrame f) ->
     exists l x, s_index (_series (v_bus v)) !! j = Some l /\
                 values !! j = Some x /\
                 frame_behind (v_bus v) l x = Some f).
Proof.
  intros Hok Hmp values values'. subst values values'.
  pose proof Hok as [_ Hnd _ _ [Hf Hlen Hvo _]]. simpl in Hf, Hlen, Hvo.
  assert (Hsame : forall j f,
            s_values (_series (v_bus v)) !! j = Some (VFrame f) ->
            exists l x, s_index (_series (v_bus v)) !! j = Some l /\
                        s_values (_series (v_bus v)) !! j = Some x /\
                        frame_behind (v_bus v) l x = Some f).
  { intros j f Hj.
    destruct (lookup_lt_is_Some_2 (s_index (_series (v_bus v))) j) as [l Hl].
    { rewrite <- Hlen. by eapply lookup_lt_Some. }
    by exists l, (VFrame f). }
  unfold update_view.
  destruct (Bus.load_needed _ _ _) as [[|]|e] eqn:Hload; try done.
  2:{ by rewrite Hmp. }
  destruct (_store (v_bus v)) as [store|] eqn:Hst; [|done].
  destruct (Series_iloc _ _) as [targets|e] eqn:Ht; [|done].
  pose proof (targets_in_index v key targets Hok Ht) as Hforall.
  rewrite Hmp.
  destruct (cache_loop _ _ _ _ _ _) as [locals [[]|e]] eqn:Hloop; [|done].
  assert (Hlk : locals_ok (s_index (_series (v_bus v))) None (locals_of v)).
  { pose proof (vo_locals v Hok) as H. by rewrite Hmp in H. }
  destruct (cache_loop_unbounded_array _ store (_config (v_bus v)) targets
              (locals_of v) locals Hnd Hlk Hforall Hloop) as [Hkeep Hprov].
  simpl. split; [apply Hkeep|].
  intros j f Hj. destruct (Hprov j f Hj) as [Hj1|(l & Hl & Hcase)]; [by apply Hsame|].
  destruct (Series_iloc_inv _ _ _ (eq_sym Hlen) Ht) as (sel & Hsel & -> & _).
  pose proof (resolve_lt _ _ _ Hsel) as Hlt. rewrite Hlen in Hlt.
  assert (Hat : forall x, (l, x) ∈ zip (take_at (s_index (_series (v_bus v))) (sel_positions sel))
                                       (take_at (s_values (_series (v_bus v))) (sel_positions sel)) ->
                s_values (_series (v_bus v)) !! j = Some x).
  { intros x Hx. apply elem_of_take_at_zip in Hx as (p & _ & Hp1 & Hp2); [|done..].
    assert (p = j) as -> by by eapply (NoDup_lookup _ p j). done. }
  destruct Hcase as [H|[H Hread]].
  - apply Hsame. by apply Hat.
  - exists l, FrameDeferred. split_and!; [done|by apply Hat|]. simpl. by rewrite Hst.
Qed.

(** ** What an operation does to its own bus *)

Lemma extract_values_view self key h h' r b v :
  heap_ok h ->
  view_of h b = Some v ->
  Bus.extract_values self key h = (h', r) ->
  heap_ok h' /\ view_of h' b = Some v.
Proof.
  intros Hok Hv Hrun.
  destruct (extract_values_extends _ _ _ _ _ Hok Hrun) as [Hok' _ Hviews].
  split; [done|]. rewrite Hviews; [done|]. by eapply view_of_lt.
Qed.

Lemma update_iloc_view self key h h' r v :
  heap_ok h ->
  view_of h self = Some v ->
  Bus._update_series_cache_iloc self key h = (h', r) ->
  heap_ok h' /\ view_of h' self = Some (update_view v key).1 /\ r = (update_view v key).2.
Proof.
  intros Hok Hv Hrun.
  destruct (update_iloc_heap h self v key Hok Hv) as (h1 & Hrun' & Hok' & _ & Hv' & _).
  rewrite Hrun in Hrun'. by injection Hrun' as <- <-.
Qed.

Lemma update_all_view self h h' r v :
  heap_ok h ->
  view_of h self = Some v ->
  Bus._update_series_cache_all self h = (h', r) ->
  heap_ok h' /\
  ((h' = h /\ r = Ok tt /\ _loaded_all (v_bus v) = true) \/
   (_loaded_all (v_bus v) = false /\
    view_of h' self = Some (update_view v NULL_SLICE).1 /\
    r = (update_view v NULL_SLICE).2)).
Proof.
  intros Hok Hv. unfold Bus._update_series_cache_all.
  rewrite (bind_ok _ _ _ _ _ (get_bus_view _ _ _ Hv)).
  destruct (_loaded_all (v_bus v)); simpl.
  - intros [= <- <-]. split; [done|]. by left.
  - intros Hrun. destruct (update_iloc_view _ _ _ _ _ _ Hok Hv Hrun) as (? & ? & ?).
    split; [done|]. by right.
Qed.

(** The view of the receiver after an operation is its view before, or
    the view one cache update makes of it. *)
Lemma exec_self_view self op h h' r v :
  heap_ok h ->
  view_of h self = Some v ->
  exec self op h = (h', r) ->
  view_of h' self = Some v \/ exists key, view_of h' self = Some (update_view v key).1.
Proof.
  intros Hok Hv Hrun.
  assert (Hextract : forall key h0 r0,
            Bus._extract_iloc self key h = (h0, r0) ->
            exists key, view_of h0 self = Some (update_view v key).1).
  { intros key h0 r0 Hex. unfold Bus._extract_iloc in Hex.
    apply bind_inv in Hex as [(e & Hu & _)|(h1 & [] & Hu & Hex)].
    - destruct (update_iloc_view _ _ _ _ _ _ Hok Hv Hu) as (_ & ? & _). eauto.
    - destruct (update_iloc_view _ _ _ _ _ _ Hok Hv Hu) as (Hok1 & Hv1 & _).
      destruct (extract_values_view _ _ _ _ _ _ _ Hok1 Hv1 Hex) as [_ ?]. eauto. }
  assert (Hall : forall h0 r0,
            Bus._update_series_cache_all self h = (h0, r0) ->
            view_of h0 self = Some v \/
            exists key, view_of h0 self = Some (update_view v key).1).
  { intros h0 r0 Hu.
    destruct (update_all_view _ _ _ _ _ Hok Hv Hu) as (_ & [(-> & _)|(_ & ? & _)]);
      [by left|right; eauto]. }
  assert (Hreads : forall {A B} (m : M Heap A) (k : A -> M Heap B) h0 r0,
            (forall h1 r1, m h = (h1, r1) ->
               view_of h1 self = Some v \/
               exists key, view_of h1 self = Some (update_view v key).1) ->
            (forall a h1 h2 r2, k a h1 = (h2, r2) -> h2 = h1) ->
            bind m k h = (h0, r0) ->
            view_of h0 self = Some v \/
            exists key, view_of h0 self = Some (update_view v key).1).
  { intros A B m k h0 r0 Hm Hk Hb.
    apply bind_inv in Hb as [(e & Hu & _)|(h1 & a & Hu & Hb)]; [by eapply Hm|].
    apply Hk in Hb as ->. by eapply Hm. }
  assert (Hwrap : forall {A} (m : M Heap A),
            (m ;;; @ret Heap unit tt) h = (h', r) -> exists r1, m h = (h', r1)).
  { intros A m Hb. apply bind_inv in Hb as [(e & Hm & _)|(h1 & a & Hm & Hb)]; [eauto|].
    injection Hb as <- _. eauto. }
  assert (Hget : forall {B} (k : BusObj -> B) h1 h2 r2,
            (bus <- get_bus self ;; ret (k bus)) h1 = (h2, r2) -> h2 = h1).
  { intros B k h1 h2 r2 Hb.
    apply bind_inv in Hb as [(e' & Hg & _)|(h3 & bus & Hg & Hb)];
      apply get_bus_inv in Hg as [-> _]; [done|]. by injection Hb as <-. }
  destruct op as [lk|key| | | | | |other cn]; unfold exec in Hrun;
    apply Hwrap in Hrun as [r1 Hrun].
  - (* by label *)
    unfold Bus.__getitem__, Bus._extract_loc in Hrun.
    rewrite (bind_ok _ _ _ _ _ (get_bus_view _ _ _ Hv)) in Hrun.
    destruct (loc_key_to_iloc _ lk) as [key|e] eqn:Hk.
    + right. by eapply (Hextract key).
    + left. by injection Hrun as <- _.
  - right. by eapply Hextract.
  - unfold Bus.items in Hrun. eapply (Hreads _ _ _ _ _ _ Hall); [|done].
    intros a h1 h2 r2. apply (Hget _ (fun bus => Bus.Series_items (_series bus))).
  - unfold Bus.values in Hrun. eapply (Hreads _ _ _ _ _ _ Hall); [|done].
    intros a h1 h2 r2. apply (Hget _ (fun bus => s_values (_series bus))).
  - left. by apply dtypes_reads in Hrun as ->.
  - left. unfold Bus.shapes in Hrun.
    rewrite (bind_ok _ _ _ _ _ (get_bus_view _ _ _ Hv)) in Hrun.
    by injection Hrun as <- _.
  - left. unfold Bus.nbytes in Hrun.
    rewrite (bind_ok _ _ _ _ _ (get_bus_view _ _ _ Hv)) in Hrun.
    by injection Hrun as <- _.
  - unfold Bus.equals in Hrun. case_bool_decide; [left; by injection Hrun as <- _|].
    unfold bind at 1, get at 1 in Hrun.
    destruct (h !! other) as [[obus| |]|]; try (left; by injection Hrun as <- _).
    eapply (Hreads _ _ _ _ _ _ Hall); [|done].
    intros a h1 h2 r2 Hb.
    apply bind_inv in Hb as [(e' & Hg & _)|(h3 & bus & Hg & Hb)];
      apply get_bus_inv in Hg as [-> _]; [done|].
    apply bind_inv in Hb as [(e' & Hg & _)|(h4 & bus' & Hg & Hb)];
      apply get_bus_inv in Hg as [-> _]; [done|].
    repeat (case_match; try by injection Hb as <- _).
Qed.

Lemma exec_keeps_frame b self op h h1 r1 v i f :
  world_ok h ->
  view_of h b = Some v ->
  _max_persist (v_bus v) = None ->
  s_values (_series (v_bus v)) !! i = Some (VFrame f) ->
  exec self op h = (h1, r1) ->
  exists v1, view_of h1 b = Some v1 /\
             _max_persist (v_bus v1) = None /\
             s_values (_series (v_bus v1)) !! i = Some (VFrame f).
Proof.
  intros [Hok Hall] Hv Hmp Hx Hrun.
  destruct (decide (b = self)) as [->|Hne].
  - destruct (exec_self_view self op h h1 r1 v Hok Hv Hrun) as [Hv1|[key Hv1]].
    + by exists v.
    + eexists. split; [done|]. split.
      * pose proof (update_view_static v key) as (_ & _ & E & _). by rewrite E.
      * by apply (update_view_unbounded v key (Hall _ _ Hv) Hmp).
  - destruct (step_of_exec self op h h1 r1 Hok Hrun) as [[_ _ Hoth _] _].
    exists v. split; [|done]. rewrite Hoth; [done..|]. by eapply view_of_lt.
Qed.

(** X10.  Without a ceiling nothing is ever unloaded: a slot that holds a
    frame holds the same frame after any run of operations, on this bus or
    on others, whether the run completes or stops at an operation that
    raises. *)
Theorem frames_stay_loaded_without_ceiling b ops h h' r v i f :
  world_ok h ->
  view_of h b = Some v ->
  _max_persist (v_bus v) = None ->
  s_values (_series (v_bus v)) !! i = Some (VFrame f) ->
  exec_all ops h = (h', r) ->
  exists v', view_of h' b = Some v' /\
             s_values (_series (v_bus v')) !! i = Some (VFrame f).
Proof.
  revert h v. induction ops as [|[self op] ops IH]; intros h v Hw Hv Hmp Hx; simpl.
  { intros [= <- _]. by exists v. }
  intros Hrun.
  apply bind_inv in Hrun as [(e & Hrun & ->)|(h1 & [] & Hrun & Hrest)].
  - destruct (exec_keeps_frame b self op h h' _ v i f Hw Hv Hmp Hx Hrun)
      as (v1 & ? & _ & ?). by exists v1.
  - destruct (exec_keeps_frame b self op h h1 _ v i f Hw Hv Hmp Hx Hrun)
      as (v1 & Hv1 & Hmp1 & Hx1).
    apply (IH h1 v1); try done. by eapply exec_world_ok.
Qed.


Lemma without_b_bus_world_ok : world_ok without_b_bus.
Proof.
  by destruct (from_store_world_ok store_without_b InitNone None [] without_b_bus 1
                 world_ok_nil eq_refl) as [Hw _].
Qed.

Lemma without_b_read_a_world_ok : world_ok without_b_read_a.
Proof. apply exec_all_sample_ok; [apply without_b_bus_world_ok|reflexivity]. Qed.

Lemma frames_stay_loaded_without_ceiling_witness :
  (exec_all ops_hitting_b without_b_read_a).2 = Raise (StoreReadError (LStr "b")) /\
  exists v', view_of (exec_all ops_hitting_b without_b_read_a).1 1 = Some v' /\
             s_values (_series (v_bus v')) !! 0 = Some (VFrame frame_a).
Proof.
  split; [reflexivity|].
  apply (frames_stay_loaded_without_ceiling 1 ops_hitting_b without_b_read_a _
           (exec_all ops_hitting_b without_b_read_a).2 _ 0 frame_a
           without_b_read_a_world_ok eq_refl eq_refl eq_refl).
  by destruct (exec_all ops_hitting_b without_b_read_a).
Defined.

(** A full materialization without a ceiling leaves in each slot the
    frame behind it, and leaves every other bus alone. *)
Lemma update_all_frames_behind h self v :
  heap_ok h ->
  view_of h self = Some v ->
  view_ok v ->
  _max_persist (v_bus v) = None ->
  all_readable v ->
  exists h' v',
    Bus._update_series_cache_all self h = (h', Ok tt) /\
    view_of h' self = Some v' /\
    (forall b, b <> self -> view_of h' b = view_of h b) /\
    s_index (_series (v_bus v')) = s_index (_series (v_bus v)) /\
    length (s_values (_series (v_bus v'))) = length (s_index (_series (v_bus v))) /\
    forall i l x,
      s_index (_series (v_bus v)) !! i = Some l ->
      s_values (_series (v_bus v)) !! i = Some x ->
      exists f, frame_behind (v_bus v) l x = Some f /\
                s_values (_series (v_bus v')) !! i = Some (VFrame f).
Proof.
  intros Hh Hv Hok Hmp Hread.
  assert (Hroom : roomy v) by (unfold roomy; by rewrite Hmp).
  destruct (update_all_materializes h self v Hh Hv Hok Hroom Hread)
    as (h' & v' & Hupd & _ & Hv' & Hok' & Eidx & Hall & Hoth).
  pose proof Hok' as [_ _ _ _ [_ Hlen' _ _]]. simpl in Hlen'.
  exists h', v'. split_and!; try done.
  - by rewrite Hlen', Eidx.
  - intros i l x Hl Hx.
    destruct (update_all_view self h h' _ v Hh Hv Hupd)
      as (_ & [(-> & _ & _)|(_ & Hv'' & _)]).
    + (* every slot was loaded already *)
      rewrite Hv in Hv'. injection Hv' as <-.
      rewrite Forall_forall in Hall.
      destruct x as [f| |]; [by exists f| |];
        by specialize (Hall _ (list_elem_of_lookup_2 _ _ _ Hx)).
    + rewrite Hv' in Hv''. injection Hv'' as ->.
      destruct (update_view_unbounded v NULL_SLICE Hok Hmp) as [Hkeep Hprov].
      destruct (lookup_lt_is_Some_2
                  (s_values (_series (v_bus (update_view v NULL_SLICE).1))) i) as [y Hy].
      { rewrite Hlen', Eidx. by eapply lookup_lt_Some. }
      rewrite Forall_forall in Hall.
      pose proof (Hall _ (list_elem_of_lookup_2 _ _ _ Hy)) as Hfr.
      destruct y as [g| |]; try done.
      destruct (Hprov i g Hy) as (l' & x' & Hl' & Hx' & Hb).
      exists g. split; [congruence|done].
Qed.

(** X11.  A full materialization without a ceiling, on a bus whose
    deferred labels the store can read, returns in each slot the frame
    behind it: the frame the slot held, or the frame the store reads under
    the label of the slot and the configuration of that label. *)
Theorem values_are_the_frames_behind h self v :
  heap_ok h ->
  view_of h self = Some v ->
  view_ok v ->
  _max_persist (v_bus v) = None ->
  all_readable v ->
  exists h' loaded,
    Bus.values self h = (h', Ok loaded) /\
    length loaded = length (s_index (_series (v_bus v))) /\
    forall i l x,
      s_index (_series (v_bus v)) !! i = Some l ->
      s_values (_series (v_bus v)) !! i = Some x ->
      exists f, frame_behind (v_bus v) l x = Some f /\ loaded !! i = Some (VFrame f).
Proof.
  intros Hh Hv Hok Hmp Hread.
  destruct (update_all_frames_behind h self v Hh Hv Hok Hmp Hread)
    as (h' & v' & Hupd & Hv' & _ & _ & Hlen & Hslots).
  exists h', (s_values (_series (v_bus v'))). split_and!; try done.
  unfold Bus.values. rewrite (bind_ok _ _ _ _ _ Hupd).
  by rewrite (bind_ok _ _ _ _ _ (get_bus_view _ _ _ Hv')).
Qed.

Lemma values_are_the_frames_behind_witness :
  exists h' loaded,
    Bus.values 1 fresh_read_a = (h', Ok loaded) /\
    loaded !! 0 = Some (VFrame frame_a) /\
    loaded !! 1 = Some (VFrame frame_b).
Proof.
  destruct fresh_read_a_world_ok as [Hh Hall].
  destruct (values_are_the_frames_behind fresh_read_a 1 _ Hh eq_refl (Hall 1 _ eq_refl)
              eq_refl) as (h' & loaded & Hvalues & _ & Hslots).
  { intros p l Hl _. exists sample_store. split; [reflexivity|].
    unfold readable. simpl in *.
    destruct p as [|[|[|p]]]; simpl in Hl; try done; injection Hl as <-; simpl; eauto. }
  exists h', loaded. split; [exact Hvalues|]. split.
  - destruct (Hslots 0 (LStr "a") (VFrame frame_a) eq_refl eq_refl) as (f & [= <-] & H).
    exact H.
  - destruct (Hslots 1 (LStr "b") FrameDeferred eq_refl eq_refl) as (f & [= <-] & H).
    exact H.
Defined.

(** ** The name of the series *)

Lemma update_view_loads_name v key v' :
  Bus.load_needed (v_bus v) (v_loaded v) key = Ok true ->
  update_view v key = (v', Ok tt) ->
  s_name (_series (v_bus v')) = None.
Proof.
  intros Hload. unfold update_view. rewrite Hload.
  destruct (_store (v_bus v)); [|done].
  destruct (Series_iloc _ _); [|done].
  destruct (cache_loop _ _ _ _ _ _) as [locals [[]|e]]; [|done].
  by intros [= <-].
Qed.

(** X12.  A cache update that loads re-binds [_series] to a series built
    without a name: after a selection that had a deferred slot to load, the
    series of the bus has the name [None], whatever name the bus was built
    with, and so has the series of the bus the selection returns. *)
Theorem loading_drops_the_series_name h self v key sel p h' x :
  heap_ok h ->
  view_of h self = Some v ->
  view_ok v ->
  resolve (length (s_values (_series (v_bus v)))) key = Ok sel ->
  p ∈ sel_positions sel ->
  s_values (_series (v_bus v)) !! p = Some FrameDeferred ->
  Bus._extract_iloc self key h = (h', Ok x) ->
  exists v',
    view_of h' self = Some v' /\
    s_name (_series (v_bus v')) = None /\
    forall child, x = NewBus child ->
      exists vc, view_of h' child = Some vc /\ s_name (_series (v_bus vc)) = None.
Proof.
  intros Hh Hv Hok Hsel Hp Hx Hrun.
  pose proof (view_ok_flag v p _ Hok Hx) as Hflag. simpl in Hflag.
  pose proof Hok as [_ _ _ Hall [Hf Hlen _ _]]. simpl in Hf, Hlen.
  assert (Hload : Bus.load_needed (v_bus v) (v_loaded v) key = Ok true).
  { apply (load_needed_true _ _ _ sel p); try done. by rewrite Hf, length_fmap. }
  unfold Bus._extract_iloc in Hrun.
  apply bind_inv_ok in Hrun as (h1 & [] & Hupd & Hex).
  destruct (update_iloc_view _ _ _ _ _ _ Hh Hv Hupd) as (Hh1 & Hv1 & Hr).
  destruct (update_view v key) as [v1 r1] eqn:Hview. simpl in Hv1, Hr. subst r1.
  pose proof (update_view_loads_name v key v1 Hload Hview) as Hname.
  pose proof (update_view_ok v key v1 Hok Hview) as Hok1.
  destruct (extract_values_view _ _ _ _ _ _ _ Hh1 Hv1 Hex) as [Hh' Hv'].
  exists v1. split_and!; [done..|].
  intros child ->. unfold Bus.extract_values in Hex.
  rewrite (bind_ok _ _ _ _ _ (get_bus_view _ _ _ Hv1)) in Hex.
  unfold bind at 1, lift at 1 in Hex.
  pose proof (update_view_length v key Hok) as Hl1. rewrite Hview in Hl1. simpl in Hl1.
  pose proof (resolve_lt _ _ _ Hsel) as Hlt. rewrite <- Hl1 in Hlt.
  rewrite Hl1, Hsel in Hex.
  destruct sel as [i|ps].
  { unfold bind, lift, ret in Hex.
    by destruct (getitem (s_values (_series (v_bus v1))) i). }
  unfold bind at 1, lift at 1 in Hex.
  destruct (Index_iloc_many _ ps) as [index|e] eqn:Hidx; [|done].
  apply Index_iloc_many_inv in Hidx as [-> Hnd].
  apply bind_inv_ok in Hex as (h2 & b & Hinit & Hret). injection Hret as <- <-.
  pose proof Hok1 as [_ _ _ _ [_ Hlen1 _ _]]. simpl in Hlen1.
  apply init_new in Hinit as (_ & vc & Hvc & _ & Es & _).
  - exists vc. split; [done|]. by rewrite Es.
  - split; simpl; [done|]. simpl in Hlt.
    rewrite !length_take_at; [done|done|]. by rewrite <- Hlen1.
Qed.


Lemma named_bus_world_ok : world_ok named_bus.
Proof.
  apply init_sample_ok; [apply world_ok_nil| |reflexivity].
  apply Series_valid_dec. vm_compute. reflexivity.
Qed.

Lemma loading_drops_the_series_name_witness :
  (exists v, view_of named_bus 1 = Some v /\
             s_name (_series (v_bus v)) = Some "prices") /\
  exists v',
    view_of (Bus._extract_iloc 1 (KSlice None (Some 2)) named_bus).1 1 = Some v' /\
    s_name (_series (v_bus v')) = None /\
    forall child, NewBus 3 = NewBus child ->
      exists vc, view_of (Bus._extract_iloc 1 (KSlice None (Some 2)) named_bus).1 child
                 = Some vc /\
                 s_name (_series (v_bus vc)) = None.
Proof.
  split; [eexists; split; reflexivity|].
  destruct named_bus_world_ok as [Hh Hall].
  apply (loading_drops_the_series_name named_bus 1 _ (KSlice None (Some 2))
           (SMany [0; 1]) 0 _ (NewBus 3) Hh eq_refl (Hall 1 _ eq_refl) eq_refl).
  - apply list_elem_of_here.
  - reflexivity.
  - reflexivity.
Defined.

(** ** What stays fixed *)

(** X13.  No operation changes the labels of a bus, its store, its
    configuration or its ceiling: they are after any run of operations,
    completed or stopped by a raise, what they were before. *)
Theorem labels_and_settings_are_fixed b ops h h' r v :
  heap_ok h ->
  view_of h b = Some v ->
  exec_all ops h = (h', r) ->
  exists v', view_of h' b = Some v' /\
             s_index (_series (v_bus v')) = s_index (_series (v_bus v)) /\
             _store (v_bus v') = _store (v_bus v) /\
             _config (v_bus v') = _config (v_bus v) /\
             _max_persist (v_bus v') = _max_persist (v_bus v).
Proof.
  intros Hh Hv Hrun.
  destruct (exec_all_keeps_static b ops h h' r v Hh Hv Hrun)
    as (v' & Hv' & _ & _ & Emp & Est & Ecfg & Eidx).
  by exists v'.
Qed.

Lemma labels_and_settings_are_fixed_witness :
  exists v', view_of (exec_all sample_ops parent_two).1 2 = Some v' /\
             s_index (_series (v_bus v')) = [LStr "a"; LStr "b"; LStr "c"] /\
             _store (v_bus v') = Some sample_store /\
             _config (v_bus v') = StoreConfigMap_from_initializer InitNone /\
             _max_persist (v_bus v') = Some 2%Z.
Proof.
  destruct parent_two_world_ok as [Hh _].
  apply (labels_and_settings_are_fixed 2 sample_ops parent_two _
           (exec_all sample_ops parent_two).2 _ Hh eq_refl).
  by destruct (exec_all sample_ops parent_two).
Defined.

(** X14.  After a run of operations that completes, every bus of the heap
    is consistent: the flag of a slot says whether the slot holds a frame,
    [_loaded_all] says whether every flag is set, there are as many slots
    as labels, and under a ceiling the keys of [_last_accessed] are, without
    repeats, the labels of the slots that hold a frame. *)
Theorem completed_operations_keep_buses_consistent ops h h' b v :
  world_ok h ->
  exec_all ops h = (h', Ok tt) ->
  view_of h' b = Some v ->
  let series := _series (v_bus v) in
  v_loaded v = is_Frame <$> s_values series /\
  _loaded_all (v_bus v) = all_true (v_loaded v) /\
  length (s_values series) = length (s_index series) /\
  (forall k, _max_persist (v_bus v) = Some k ->
     NoDup (v_last v) /\
     forall l, l ∈ v_last v <->
               exists i f, s_index series !! i = Some l /\
                           s_values series !! i = Some (VFrame f)).
Proof.
  intros Hw Hrun Hv series. subst series.
  destruct (exec_all_world_ok _ _ _ Hw Hrun) as [_ Hall].
  destruct (Hall _ _ Hv) as [_ _ _ Hla [Hf Hlen _ Hlru]]. simpl in *.
  split_and!; try done.
  intros k Hk. destruct (Hlru k Hk) as (Hnd & Hmem & _). split; [done|].
  intros l. rewrite Hmem. split.
  - intros (i & Hi & Hb). rewrite Hf, list_lookup_fmap in Hb.
    destruct (s_values (_series (v_bus v)) !! i) as [[f| |]|] eqn:Hx; try done.
    by exists i, f.
  - intros (i & f & Hi & Hx). exists i. split; [done|].
    by rewrite Hf, list_lookup_fmap, Hx.
Qed.

Lemma completed_operations_keep_buses_consistent_witness :
  exists v,
    view_of (exec_all sample_ops parent_two).1 2 = Some v /\
    v_loaded v = is_Frame <$> s_values (_series (v_bus v)) /\
    _loaded_all (v_bus v) = all_true (v_loaded v) /\
    length (s_values (_series (v_bus v))) = length (s_index (_series (v_bus v))) /\
    (forall k, _max_persist (v_bus v) = Some k ->
       NoDup (v_last v) /\
       forall l, l ∈ v_last v <->
                 exists i f, s_index (_series (v_bus v)) !! i = Some l /\
                             s_values (_series (v_bus v)) !! i = Some (VFrame f)).
Proof.
  eexists. split; [vm_compute; reflexivity|].
  apply (completed_operations_keep_buses_consistent sample_ops parent_two
           (exec_all sample_ops parent_two).1 2 _ parent_two_world_ok).
  - reflexivity.
  - vm_compute. reflexivity.
Defined.

(** ** Construction *)

Lemma gen_ok_iff mp items (d0 : PyDict) :
  is_ok (Bus.gen mp items d0) = true <->
  Forall (fun item : Label * Value => is_str item.1 = true /\ item.2 <> VOther) items.
Proof.
  split.
  - destruct (Bus.gen mp items d0) as [[loaded d]|e] eqn:Hgen; [|done]. intros _.
    destruct (gen_inv _ _ _ _ _ Hgen) as (_ & Hv & Hl & _).
    apply Forall_forall. intros [l x] Hin. simpl. split.
    + destruct (Hl l) as [s ->]; [|done]. apply list_elem_of_fmap. by exists (l, x).
    + intros ->. apply Hv. apply list_elem_of_fmap. by exists (l, VOther).
  - intros H. by destruct (gen_total mp items d0 H) as (loaded & d & ->).
Qed.

(** X15.  Construction succeeds exactly when the series has dtype object,
    every label is a string, every value is a frame or [FrameDeferred], and
    the ceiling, if there is one, is not below the number of frames the
    series already holds; a negative ceiling is below it always.  A
    construction that raises leaves the heap as it is. *)
Theorem construction_succeeds_exactly_when series store config mp h :
  length (s_index series) = length (s_values series) ->
  (is_ok (Bus.__init__ series store config mp h).2 = true <->
     s_dtype series = DTYPE_OBJECT /\
     (forall l, l ∈ s_index series -> is_str l = true) /\
     (VOther ∉ s_values series) /\
     (forall k, mp = Some k ->
                (0 <= k)%Z /\ (count_true (is_Frame <$> s_values series) <= k)%Z)) /\
  (is_ok (Bus.__init__ series store config mp h).2 = false ->
   (Bus.__init__ series store config mp h).1 = h).
Proof.
  intros Hlen. split.
  2:{ destruct (Bus.__init__ series store config mp h) as [h' [b|e]] eqn:Hrun; [done|].
      intros _. by apply init_raise in Hrun. }
  rewrite init_run.
  assert (Hitems : Forall (fun item : Label * Value =>
                             is_str item.1 = true /\ item.2 <> VOther)
                     (Bus.Series_items series) <->
                   (forall l, l ∈ s_index series -> is_str l = true) /\
                   (VOther ∉ s_values series)).
  { unfold Bus.Series_items. rewrite Forall_forall. split.
    - intros H. split.
      + intros l (i & Hi)%list_elem_of_lookup.
        destruct (lookup_lt_is_Some_2 (s_values series) i) as [x Hx].
        { rewrite <- Hlen. by eapply lookup_lt_Some. }
        apply (H (l, x)). apply list_elem_of_lookup. exists i.
        apply lookup_zip_with_Some. eauto.
      + intros (i & Hi)%list_elem_of_lookup.
        destruct (lookup_lt_is_Some_2 (s_index series) i) as [l Hl].
        { rewrite Hlen. by eapply lookup_lt_Some. }
        apply (H (l, VOther)); [|done]. apply list_elem_of_lookup. exists i.
        apply lookup_zip_with_Some. eauto.
    - intros [Hl Hv] [l x] Hin. simpl. split.
      + apply Hl. by eapply elem_of_zip_l.
      + intros ->. apply Hv. by eapply elem_of_zip_r. }
  case_bool_decide as Hdt.
  { split; [done|]. by intros [? _]. }
  destruct (Bus.gen mp (Bus.Series_items series) []) as [[loaded d]|e] eqn:Hgen.
  - destruct (gen_inv _ _ _ _ _ Hgen) as (Hloaded & _).
    unfold Bus.Series_items in Hloaded. rewrite snd_zip in Hloaded by lia.
    assert (Hok : is_ok (Bus.gen mp (Bus.Series_items series) []) = true)
      by by rewrite Hgen.
    apply gen_ok_iff, Hitems in Hok as [Hl Hv].
    pose proof (count_true_nonneg loaded).
    unfold over_ceiling. destruct mp as [k|].
    + case_bool_decide as Hk; simpl.
      * split; [done|]. intros (_ & _ & _ & Hc).
        destruct (Hc k eq_refl) as [_ Hle]. rewrite <- Hloaded in Hle. lia.
      * split; [|done]. intros _. split_and!; try done.
        intros k' [= <-]. rewrite <- Hloaded. lia.
    + simpl. split; [|done]. intros _. split_and!; done.
  - simpl. split; [done|]. intros (_ & Hl & Hv & _).
    assert (Hok : is_ok (Bus.gen mp (Bus.Series_items series) []) = true)
      by (apply gen_ok_iff, Hitems; done).
    by rewrite Hgen in Hok.
Qed.

Lemma construction_succeeds_exactly_when_witness :
  let series := {| s_dtype := DTYPE_OBJECT;
                   s_index := [LStr "a"; LStr "b"];
                   s_values := [VFrame frame_a; FrameDeferred];
                   s_name := None |} in
  is_ok (Bus.__init__ series None InitNone (Some 1%Z) []).2 = true /\
  is_ok (Bus.__init__ series None InitNone (Some 0%Z) []).2 = false /\
  (Bus.__init__ series None InitNone (Some 0%Z) []).1 = [].
Proof.
  intros series.
  destruct (construction_succeeds_exactly_when series None InitNone (Some 1%Z) []
              eq_refl) as [H1 _].
  destruct (construction_succeeds_exactly_when series None InitNone (Some 0%Z) []
              eq_refl) as [_ H0].
  split; [|split; [reflexivity|by apply H0]].
  apply H1. split_and!.
  - reflexivity.
  - intros l Hl. repeat (apply elem_of_cons in Hl as [->|Hl]; [done|]).
    by apply elem_of_nil in Hl.
  - apply (bool_decide_unpack _). vm_compute. exact I.
  - intros k [= <-]. split; [lia|]. vm_compute. by intros [=].
Defined.

(** The labels [gen] enters in the dict are those of the frames, in the
    order of the series. *)
Lemma gen_dict_order mp items (d0 : PyDict) loaded d :
  NoDup items.*1 ->
  (forall l, l ∈ items.*1 -> l ∉ d0) ->
  Bus.gen mp items d0 = Ok (loaded, d) ->
  d = if is_active mp
      then d0 ++ (filter (fun item : Label * Value => is_Frame item.2 = true) items).*1
      else d0.
Proof.
  revert d0 loaded d. induction items as [|[l x] items IH]; intros d0 loaded d Hnd Hd0.
  { simpl. intros [= <- <-]. destruct (is_active mp); [by rewrite app_nil_r|done]. }
  simpl in Hnd. apply NoDup_cons in Hnd as [Hl Hnd].
  simpl. destruct l as [s|n]; [|done]. destruct x as [f| |]; [| |done].
  - destruct (Bus.gen mp items _) as [[bs d']|] eqn:Hgen; [|done].
    intros [= <- <-]. apply IH in Hgen; [|done|].
    + rewrite Hgen. destruct (is_active mp); [|done].
      rewrite filter_cons_True by done. simpl.
      unfold dict_setitem. rewrite bool_decide_eq_false_2.
      * by rewrite <- app_assoc.
      * apply Hd0. apply list_elem_of_here.
    + intros l' Hl'. destruct (is_active mp); [|by apply Hd0, list_elem_of_further].
      rewrite elem_of_dict_setitem. intros [->|H]; [done|].
      by apply (Hd0 l'); [apply list_elem_of_further|].
  - destruct (Bus.gen mp items d0) as [[bs d']|] eqn:Hgen; [|done].
    intros [= <- <-]. apply IH in Hgen; [|done|].
    + rewrite Hgen. destruct (is_active mp); [|done].
      by rewrite filter_cons_False by (simpl; done).
    + intros l' Hl'. by apply Hd0, list_elem_of_further.
Qed.

(** X16.  The bus a construction hands back is a new object that carries
    the series, the store and the ceiling it was given; its flags say
    which slots hold a frame, and under a ceiling its recency order
    starts as the labels of those slots in the order of the series, so
    that the first eviction takes the first loaded label of the series.
    The buses that were there stay as they were. *)
Theorem construction_initial_state series store config mp h h' b :
  heap_ok h ->
  Series_valid series ->
  Bus.__init__ series store config mp h = (h', Ok b) ->
  exists v,
    view_of h' b = Some v /\
    length h <= b /\
    _series (v_bus v) = series /\
    _store (v_bus v) = store /\
    _max_persist (v_bus v) = mp /\
    v_loaded v = is_Frame <$> s_values series /\
    v_last v = (if is_active mp
                then (filter (fun item : Label * Value => is_Frame item.2 = true)
                        (Bus.Series_items series)).*1
                else []) /\
    (forall b', b' < length h -> view_of h' b' = view_of h b').
Proof.
  intros Hh [Hnd Hlen] Hrun.
  destruct (init_extends _ _ _ _ _ _ _ Hh Hrun) as [_ _ Hviews].
  destruct (init_ok _ _ _ _ _ _ _ Hrun) as (loaded & d & _ & Hgen & _ & -> & ->).
  destruct (gen_inv _ _ _ _ _ Hgen) as (Hloaded & _).
  unfold Bus.Series_items in Hloaded. rewrite snd_zip in Hloaded by lia.
  pose proof (gen_dict_order mp (Bus.Series_items series) [] loaded d) as Hd.
  unfold Bus.Series_items in Hd at 1 2. rewrite fst_zip in Hd by lia.
  specialize (Hd Hnd (fun l _ => not_elem_of_nil l) Hgen).
  eexists. split; [apply view_of_new|]. simpl.
  split_and!; try done.
  - destruct (is_active mp); lia.
  - rewrite Hd. by destruct (is_active mp).
Qed.

Lemma construction_initial_state_witness :
  let series := {| s_dtype := DTYPE_OBJECT;
                   s_index := [LStr "a"; LStr "b"; LStr "c"];
                   s_values := [FrameDeferred; VFrame frame_b; VFrame frame_c];
                   s_name := None |} in
  exists v,
    view_of (Bus.__init__ series (Some sample_store) InitNone (Some 2%Z) fresh_bus).1 4
      = Some v /\
    v_loaded v = [false; true; true] /\
    v_last v = [LStr "b"; LStr "c"] /\
    view_of (Bus.__init__ series (Some sample_store) InitNone (Some 2%Z) fresh_bus).1 1
      = view_of fresh_bus 1.
Proof.
  intros series.
  destruct fresh_bus_world_ok as [Hh _].
  destruct (construction_initial_state series (Some sample_store) InitNone (Some 2%Z)
              fresh_bus
              (Bus.__init__ series (Some sample_store) InitNone (Some 2%Z) fresh_bus).1
              4 Hh) as (v & Hv & _ & _ & _ & _ & Hflags & Hlast & Hold).
  - apply Series_valid_dec. vm_compute. reflexivity.
  - reflexivity.
  - exists v. split_and!; [exact Hv|exact Hflags|exact Hlast|].
    apply Hold. vm_compute. lia.
Defined.

(** X17.  A bus built from a store reads nothing: for labels that are
    strings without repeats (and a ceiling that is not negative) it has
    the labels of the store, every slot deferred, no flag set and an empty
    recency order.  Labels that repeat make the index of the series fail,
    and the heap stays as it is. *)
Theorem from_store_starts_deferred store config mp h :
  (NoDup (store_labels store) ->
   (forall l, l ∈ store_labels store -> is_str l = true) ->
   (forall k, mp = Some k -> (0 <= k)%Z) ->
   exists h' b v,
     Bus._from_store store config mp h = (h', Ok b) /\
     view_of h' b = Some v /\
     _store (v_bus v) = Some store /\
     s_index (_series (v_bus v)) = store_labels store /\
     s_values (_series (v_bus v)) = ((fun _ => FrameDeferred) <$> store_labels store) /\
     v_loaded v = ((fun _ => false) <$> store_labels store) /\
     v_last v = []) /\
  (~ NoDup (store_labels store) ->
   Bus._from_store store config mp h = (h, Raise ErrorInitIndex)).
Proof.
  split.
  - intros Hnd Hstr Hk. unfold Bus._from_store, Bus._deferred_series.
    rewrite bool_decide_eq_true_2 by done.
    unfold bind at 1, lift at 1. rewrite init_run. cbn [s_dtype].
    rewrite bool_decide_eq_false_2 by by intros ?.
    rewrite gen_all_deferred.
    2:{ intros l x Hin. unfold Bus.Series_items in Hin. simpl in Hin. split.
        - apply elem_of_zip_l in Hin. specialize (Hstr l Hin). destruct l; [eauto|done].
        - apply elem_of_zip_r in Hin. by apply list_elem_of_fmap in Hin as (? & -> & _). }
    unfold over_ceiling. rewrite count_true_all_false.
    assert (match mp with Some k => bool_decide (k < 0)%Z | None => false end = false) as ->.
    { destruct mp as [k|]; [|done]. apply bool_decide_eq_false_2. specialize (Hk k eq_refl). lia. }
    eexists _, _, _. split; [done|]. split; [apply view_of_new|]. simpl.
    split_and!; try done.
    + unfold Bus.Series_items. simpl.
      apply list_eq. intros i. rewrite !list_lookup_fmap.
      destruct (zip _ _ !! i) as [[l x]|] eqn:Hz.
      * apply lookup_zip_with_Some in Hz as (l' & x' & _ & Hl & _). by rewrite Hl.
      * destruct (store_labels store !! i) as [l|] eqn:Hl; [|done].
        exfalso. apply lookup_zip_with_None in Hz as [?|Hz]; [congruence|].
        rewrite list_lookup_fmap, Hl in Hz. done.
    + by destruct (is_active mp).
  - intros Hnd. unfold Bus._from_store, Bus._deferred_series.
    by rewrite bool_decide_eq_false_2 by done.
Qed.

Lemma from_store_starts_deferred_witness :
  (exists h' b v,
     Bus._from_store sample_store InitNone (Some 0%Z) [] = (h', Ok b) /\
     view_of h' b = Some v /\
     _store (v_bus v) = Some sample_store /\
     s_index (_series (v_bus v)) = [LStr "a"; LStr "b"; LStr "c"] /\
     s_values (_series (v_bus v)) = [FrameDeferred; FrameDeferred; FrameDeferred] /\
     v_loaded v = [false; false; false] /\
     v_last v = []) /\
  Bus._from_store {| store_read := fun _ _ => None;
                     store_labels := [LStr "a"; LStr "a"] |} InitNone None []
    = ([], Raise ErrorInitIndex).
Proof.
  split.
  - apply (from_store_starts_deferred sample_store InitNone (Some 0%Z) []).
    + apply (bool_decide_unpack _). vm_compute. exact I.
    + intros l Hl. repeat (apply elem_of_cons in Hl as [->|Hl]; [done|]).
      by apply elem_of_nil in Hl.
    + intros k [= <-]. lia.
  - apply (from_store_starts_deferred _ InitNone None []).
    intros Hnd. simpl in Hnd. apply NoDup_cons in Hnd as [Hnot _].
    apply Hnot, list_elem_of_here.
Defined.

(** ** Slices without a ceiling *)

(** Without a ceiling every slot a completed cache update was asked for
    holds a frame afterwards. *)
Lemma update_view_selected_loaded v key sel v1 p :
  view_ok v ->
  _max_persist (v_bus v) = None ->
  resolve (length (s_values (_series (v_bus v)))) key = Ok sel ->
  update_view v key = (v1, Ok tt) ->
  p ∈ sel_positions sel ->
  exists f, s_values (_series (v_bus v1)) !! p = Some (VFrame f).
Proof.
  intros Hok Hmp Hsel Hrun Hp.
  pose proof (update_view_ok v key v1 Hok Hrun) as Hok1.
  pose proof Hok as [_ Hnd _ Hall [Hf Hlen Hvo _]]. simpl in Hf, Hlen, Hvo.
  assert (Hll : length (v_loaded v) = length (s_values (_series (v_bus v))))
    by by rewrite Hf, length_fmap.
  pose proof (resolve_lt _ _ _ Hsel) as Hlt.
  assert (Hplt : p < length (s_values (_series (v_bus v)))).
  { rewrite Forall_forall in Hlt. by apply Hlt. }
  assert (Hflag : v_loaded v1 !! p = Some true).
  { destruct (Bus.load_needed (v_bus v) (v_loaded v) key) as [[|]|e] eqn:Hload.
    - destruct (_store (v_bus v)) as [store|] eqn:Hst;
        [|unfold update_view in Hrun; by rewrite Hload, Hst in Hrun].
      destruct (Series_iloc (_series (v_bus v)) key) as [targets|e] eqn:Ht;
        [|unfold update_view in Hrun; by rewrite Hload, Hst, Ht in Hrun].
      rewrite (update_view_loop v key store targets Hload Hst Ht), Hmp in Hrun.
      destruct (cache_loop _ _ _ _ _ _) as [locals outcome] eqn:Hloop.
      injection Hrun as <- ->. simpl.
      assert (Hlk : locals_ok (s_index (_series (v_bus v))) None (locals_of v)).
      { pose proof (vo_locals v Hok) as H. by rewrite Hmp in H. }
      apply (cache_loop_unbounded _ store (_config (v_bus v)) Hnd targets
               (locals_of v) locals Hlk (targets_in_index v key targets Hok Ht) Hloop).
      right.
      destruct (Series_iloc_inv _ _ _ (eq_sym Hlen) Ht) as (sel' & Hsel' & -> & _).
      assert (sel' = sel) as -> by congruence.
      destruct (lookup_lt_is_Some_2 (s_index (_series (v_bus v))) p) as [l Hl]; [lia|].
      destruct (lookup_lt_is_Some_2 (s_values (_series (v_bus v))) p) as [x Hx]; [lia|].
      exists l, x. split; [|done].
      apply take_at_zip_elem_of with (p := p); try done. by rewrite <- Hlen.
    - unfold update_view in Hrun. rewrite Hload, Hmp in Hrun. injection Hrun as <-.
      eapply load_needed_false; eauto. by rewrite Hll.
    - unfold update_view in Hrun. by rewrite Hload in Hrun. }
  destruct Hok1 as [_ _ _ _ [Hf1 _ _ _]]. simpl in Hf1.
  rewrite Hf1, list_lookup_fmap in Hflag.
  destruct (s_values (_series (v_bus v1)) !! p) as [[f| |]|]; try done. eauto.
Qed.

(** X18.  Without a ceiling a slice is loaded when it is made: the
    selection of several positions reads every deferred frame it selects
    into the parent, and the bus it returns holds, slot for slot, the
    frames the parent then holds at the selected positions, every flag
    set. *)
Theorem slice_without_ceiling_is_loaded h parent v key ps :
  world_ok h ->
  view_of h parent = Some v ->
  _max_persist (v_bus v) = None ->
  resolve (length (s_values (_series (v_bus v)))) key = Ok (SMany ps) ->
  NoDup (take_at (s_index (_series (v_bus v))) ps) ->
  (forall p l, p ∈ ps ->
               s_index (_series (v_bus v)) !! p = Some l ->
               s_values (_series (v_bus v)) !! p = Some FrameDeferred ->
               exists store, _store (v_bus v) = Some store /\
                             readable store (_config (v_bus v)) l) ->
  exists h1 child vp vc,
    Bus._extract_iloc parent key h = (h1, Ok (NewBus child)) /\
    view_of h1 parent = Some vp /\
    view_of h1 child = Some vc /\
    s_values (_series (v_bus vc)) = take_at (s_values (_series (v_bus vp))) ps /\
    Forall (fun x => is_Frame x = true) (s_values (_series (v_bus vc))) /\
    length (s_values (_series (v_bus vc))) = length ps /\
    _loaded_all (v_bus vc) = true.
Proof.
  intros [Hok Hall] Hv Hmp Hsel Hnd Hread.
  pose proof (Hall _ _ Hv) as Hvok.
  pose proof Hvok as [_ _ _ _ [_ Hlen _ _]]. simpl in Hlen.
  destruct (update_view_total v key (SMany ps) Hvok Hsel Hnd Hread) as [v1 Hrun].
  destruct (update_iloc_heap h parent v key Hok Hv)
    as (h0 & Hupd & Hok0 & Hlen0 & Hv1 & _).
  rewrite Hrun in Hupd, Hv1. simpl in Hupd, Hv1.
  pose proof (update_view_ok v key v1 Hvok Hrun) as Hvok1.
  pose proof (update_view_static v key) as (_ & _ & _ & _ & _ & Eidx).
  rewrite Hrun in Eidx. simpl in Eidx.
  pose proof Hvok1 as [_ _ _ _ [_ Hlen1 _ _]]. simpl in Hlen1.
  assert (Hlt : Forall (fun p => p < length (s_values (_series (v_bus v1)))) ps).
  { rewrite Hlen1, Eidx, <- Hlen. apply (resolve_lt _ _ _ Hsel). }
  destruct (slice_init_total v1 ps h0 Hvok1 Hlt) as [Hvalid (h1 & child & Hinit)].
  { by rewrite Eidx. }
  pose proof (init_extends _ _ _ _ _ _ _ Hok0 Hinit) as [Hok1 Hlen01 Hviews].
  destruct (init_new _ _ _ _ _ _ _ Hvalid Hinit)
    as (Hge & vc & Hvc & Hvcok & Es & _).
  assert (Hvp : view_of h1 parent = Some v1).
  { rewrite Hviews; [done|]. by eapply view_of_lt. }
  assert (Hframes : Forall (fun x => is_Frame x = true)
                      (take_at (s_values (_series (v_bus v1))) ps)).
  { apply Forall_forall. intros x (p & Hp & Hx)%elem_of_take_at.
    destruct (update_view_selected_loaded v key (SMany ps) v1 p Hvok Hmp Hsel Hrun Hp)
      as [f Hf]. rewrite Hf in Hx. by injection Hx as <-. }
  exists h1, child, v1, vc. split_and!; try done.
  - unfold Bus._extract_iloc. rewrite (bind_ok _ _ _ _ _ Hupd).
    unfold Bus.extract_values.
    rewrite (bind_ok _ _ _ _ _ (get_bus_view _ _ _ Hv1)).
    rewrite Hlen1, Eidx, <- Hlen, Hsel.
    unfold bind at 1, lift at 1. unfold Index_iloc_many.
    rewrite bool_decide_eq_true_2 by done.
    unfold bind at 1, lift at 1. unfold slice_series in Hinit. rewrite Eidx in Hinit.
    unfold bind. by rewrite Hinit.
  - by rewrite Es.
  - by rewrite Es.
  - rewrite Es. simpl. by apply length_take_at.
  - destruct Hvcok as [_ _ _ Hla [Hf _ _ _]]. simpl in Hf.
    rewrite Hla, Hf, Es. simpl. apply all_true_lookup.
    intros j b Hj. rewrite list_lookup_fmap in Hj.
    destruct (take_at _ ps !! j) as [x|] eqn:Hx; [|done].
    injection Hj as <-. rewrite Forall_forall in Hframes.
    apply Hframes. by eapply list_elem_of_lookup_2.
Qed.

Lemma slice_without_ceiling_is_loaded_witness :
  exists h1 child vp vc,
    Bus._extract_iloc 1 (KList [2; 0]%Z) fresh_bus = (h1, Ok (NewBus child)) /\
    view_of h1 1 = Some vp /\
    view_of h1 child = Some vc /\
    s_values (_series (v_bus vc)) = take_at (s_values (_series (v_bus vp))) [2; 0] /\
    Forall (fun x => is_Frame x = true) (s_values (_series (v_bus vc))) /\
    length (s_values (_series (v_bus vc))) = 2 /\
    _loaded_all (v_bus vc) = true.
Proof.
  apply (slice_without_ceiling_is_loaded fresh_bus 1 _ (KList [2; 0]%Z) [2; 0]
           fresh_bus_world_ok eq_refl eq_refl eq_refl).
  - apply (bool_decide_unpack _). vm_compute. exact I.
  - intros p l Hp Hl _. exists sample_store. split; [reflexivity|].
    unfold readable.
    repeat (apply elem_of_cons in Hp as [->|Hp];
            [injection Hl as <-; simpl; eauto|]).
    by apply elem_of_nil in Hp.
Defined.

(** ** Equality, length and status *)

Lemma frames_equal_same xs :
  Forall (fun x => is_Frame x = true) xs ->
  Bus.frames_equal (zip xs xs) false = Ok true.
Proof.
  induction 1 as [|x xs Hx _ IH]; [done|].
  destruct x as [f| |]; try done. simpl.
  unfold Frame_equals. rewrite bool_decide_eq_true_2 by done. simpl. exact IH.
Qed.

(** X19.  A bus compares equal (names aside, as by default) to another
    bus with the same labels that holds, loaded, the frame behind each of
    its slots: the receiver is materialized, every pair of frames
    compares equal, and the other bus stays as it is. *)
Theorem equals_once_other_is_loaded h self other v vo :
  heap_ok h ->
  view_of h self = Some v ->
  view_ok v ->
  view_of h other = Some vo ->
  other <> self ->
  _max_persist (v_bus v) = None ->
  s_index (_series (v_bus vo)) = s_index (_series (v_bus v)) ->
  length (s_values (_series (v_bus vo))) = length (s_index (_series (v_bus vo))) ->
  (forall i l x,
     s_index (_series (v_bus v)) !! i = Some l ->
     s_values (_series (v_bus v)) !! i = Some x ->
     exists f, frame_behind (v_bus v) l x = Some f /\
               s_values (_series (v_bus vo)) !! i = Some (VFrame f)) ->
  exists h',
    Bus.equals self other false h = (h', Ok true) /\
    view_of h' other = Some vo.
Proof.
  intros Hh Hv Hok Hvo Hne Hmp Eidx Hleno Hsame.
  pose proof Hok as [_ _ _ _ [_ Hlen Hvals _]]. simpl in Hlen, Hvals.
  assert (Hread : all_readable v).
  { intros p l Hl Hx. destruct (Hsame p l _ Hl Hx) as (f & Hf & _). simpl in Hf.
    destruct (_store (v_bus v)) as [store|]; [|done].
    exists store. split; [done|]. unfold readable. by rewrite Hf. }
  destruct (update_all_frames_behind h self v Hh Hv Hok Hmp Hread)
    as (h' & v' & Hupd & Hv' & Hoth & Eidx' & Hlen' & Hslots).
  assert (Hvo' : view_of h' other = Some vo) by by rewrite Hoth.
  assert (Heq : s_values (_series (v_bus v')) = s_values (_series (v_bus vo))).
  { apply list_eq_same_length with (length (s_index (_series (v_bus v)))); try done.
    { by rewrite Hleno, Eidx. }
    intros i x y Hi Hx Hy.
    destruct (lookup_lt_is_Some_2 (s_index (_series (v_bus v))) i Hi) as [l Hl].
    destruct (lookup_lt_is_Some_2 (s_values (_series (v_bus v))) i) as [x0 Hx0]; [lia|].
    destruct (Hsame i l x0 Hl Hx0) as (f & Hf & Hyo).
    destruct (Hslots i l x0 Hl Hx0) as (f' & Hf' & Hxo).
    congruence. }
  exists h'. split; [|done].
  unfold Bus.equals. rewrite bool_decide_eq_false_2 by done.
  unfold bind at 1, get at 1.
  destruct (view_of_inv _ _ _ Hvo) as (Hs & _). rewrite Hs.
  rewrite (bind_ok _ _ _ _ _ Hupd).
  rewrite (bind_ok _ _ _ _ _ (get_bus_view _ _ _ Hv')).
  rewrite (bind_ok _ _ _ _ _ (get_bus_view _ _ _ Hvo')).
  rewrite bool_decide_eq_false_2 by (rewrite Heq; by intros ?).
  cbn [andb].
  rewrite bool_decide_eq_false_2 by (rewrite Eidx', Eidx; by intros ?).
  unfold lift. rewrite Heq. f_equal. apply frames_equal_same.
  apply Forall_forall. intros y (i & Hy)%list_elem_of_lookup.
  rewrite <- Heq in Hy.
  destruct (lookup_lt_is_Some_2 (s_index (_series (v_bus v))) i) as [l Hl].
  { rewrite <- Hlen'. by eapply lookup_lt_Some. }
  destruct (lookup_lt_is_Some_2 (s_values (_series (v_bus v))) i) as [x0 Hx0].
  { rewrite Hlen. by eapply lookup_lt_Some. }
  destruct (Hslots i l x0 Hl Hx0) as (f' & _ & Hxo). rewrite Hxo in Hy.
  by injection Hy as <-.
Qed.


Lemma second_loaded_world_ok : world_ok second_loaded.
Proof. apply exec_all_sample_ok; [apply two_buses_world_ok|reflexivity]. Qed.

Lemma equals_once_other_is_loaded_witness :
  exists h', Bus.equals 1 3 false second_loaded = (h', Ok true) /\
             view_of h' 3 = view_of second_loaded 3.
Proof.
  destruct second_loaded_world_ok as [Hh Hall].
  apply (equals_once_other_is_loaded second_loaded 1 3 _ _ Hh eq_refl
           (Hall 1 _ eq_refl) eq_refl).
  - discriminate.
  - reflexivity.
  - reflexivity.
  - reflexivity.
  - intros i l x Hl Hx. simpl in Hl, Hx.
    destruct i as [|[|[|i]]]; simpl in Hl, Hx; try done;
      injection Hl as <-; injection Hx as <-; eexists; split; reflexivity.
Defined.

(** X20.  The length of a bus is the number of its labels and its reverse
    iteration gives them last to first, without loading anything; both
    are after a run of operations that completes what they were before
    it. *)
Theorem length_and_label_order_are_fixed b ops h h' v :
  world_ok h ->
  view_of h b = Some v ->
  exec_all ops h = (h', Ok tt) ->
  let labels := s_index (_series (v_bus v)) in
  Bus.__len__ b h = (h, Ok (length labels)) /\
  Bus.__reversed__ b h = (h, Ok (reverse labels)) /\
  Bus.__len__ b h' = (h', Ok (length labels)) /\
  Bus.__reversed__ b h' = (h', Ok (reverse labels)).
Proof.
  intros Hw Hv Hrun labels. subst labels.
  destruct (exec_all_keeps_static b ops h h' _ v (proj1 Hw) Hv Hrun)
    as (v' & Hv' & _ & _ & _ & _ & _ & Eidx).
  destruct (exec_all_world_ok _ _ _ Hw Hrun) as [_ Hall'].
  destruct (Hall' _ _ Hv') as [_ _ _ _ [_ Hlen' _ _]].
  destruct Hw as [_ Hall]. destruct (Hall _ _ Hv) as [_ _ _ _ [_ Hlen _ _]].
  simpl in Hlen, Hlen'.
  unfold Bus.__len__, Bus.__reversed__.
  rewrite !(bind_ok _ _ _ _ _ (get_bus_view _ _ _ Hv)).
  rewrite !(bind_ok _ _ _ _ _ (get_bus_view _ _ _ Hv')).
  unfold ret. by rewrite Hlen, Hlen', Eidx.
Qed.

Lemma length_and_label_order_are_fixed_witness :
  let h' := (exec_all sample_ops parent_two).1 in
  Bus.__len__ 2 parent_two = (parent_two, Ok 3) /\
  Bus.__reversed__ 2 parent_two = (parent_two, Ok [LStr "c"; LStr "b"; LStr "a"]) /\
  Bus.__len__ 2 h' = (h', Ok 3) /\
  Bus.__reversed__ 2 h' = (h', Ok [LStr "c"; LStr "b"; LStr "a"]).
Proof.
  intros h'.
  apply (length_and_label_order_are_fixed 2 sample_ops parent_two h' _
           parent_two_world_ok eq_refl).
  reflexivity.
Defined.

(** X21.  [status] loads nothing, and on a consistent bus its four
    columns tell one story: a row is flagged loaded exactly when its size,
    its byte size and its shape are present, and they are then those of
    the frame in the slot. *)
Theorem status_columns_agree h self v :
  view_of h self = Some v ->
  view_ok v ->
  exists st,
    Bus.status self h = (h, Ok st) /\
    forall i l x,
      s_index (_series (v_bus v)) !! i = Some l ->
      s_values (_series (v_bus v)) !! i = Some x ->
      status_loaded st !! i = Some (l, is_Frame x) /\
      match x with
      | VFrame f =>
          status_size st !! i = Some (l, Some (Frame_size f)) /\
          status_nbytes st !! i = Some (l, Some (Frame_nbytes f)) /\
          status_shape st !! i = Some (l, Some (Frame_shape f))
      | _ =>
          status_size st !! i = Some (l, None) /\
          status_nbytes st !! i = Some (l, None) /\
          status_shape st !! i = Some (l, None)
      end.
Proof.
  intros Hv Hok. unfold Bus.status.
  rewrite (bind_ok _ _ _ _ _ (get_bus_view _ _ _ Hv)).
  destruct (view_of_inv _ _ _ Hv) as (_ & Ha & _).
  unfold bind at 1, get_ndarray. rewrite Ha.
  eexists. split; [reflexivity|].
  intros i l x Hl Hx. simpl.
  pose proof (view_ok_flag v i x Hok Hx) as Hflag.
  split.
  - apply lookup_zip_with_Some. eauto.
  - destruct x as [f| |]; split_and!; apply lookup_zip_with_Some;
      eexists _, _; (split; [reflexivity|]); split; try done;
      by rewrite list_lookup_fmap, Hx.
Qed.

Lemma status_columns_agree_witness :
  exists st,
    Bus.status 2 parent_two_read_ab = (parent_two_read_ab, Ok st) /\
    status_loaded st !! 0 = Some (LStr "a", true) /\
    status_size st !! 0 = Some (LStr "a", Some 6) /\
    status_loaded st !! 2 = Some (LStr "c", false) /\
    status_size st !! 2 = Some (LStr "c", None).
Proof.
  destruct parent_two_read_ab_world_ok as [_ Hall].
  destruct (status_columns_agree parent_two_read_ab 2 _ eq_refl (Hall 2 _ eq_refl))
    as (st & Hst & Hrows).
  exists st. split; [exact Hst|].
  destruct (Hrows 0 (LStr "a") (VFrame frame_a) eq_refl eq_refl) as (Ha & Hsa & _).
  destruct (Hrows 2 (LStr "c") FrameDeferred eq_refl eq_refl) as (Hc & Hsc & _).
  split_and!; [exact Ha|exact Hsa|exact Hc|exact Hsc].
Defined.

(** ** A full walk under a ceiling *)

Lemma walk_step index store config k frames j label f :
  NoDup index ->
  length frames = length index ->
  (0 <= k)%Z ->
  index !! j = Some label ->
  frames !! j = Some f ->
  store_read store label (StoreConfigMap_getitem config label) = Some f ->
  loop_body index store config (Some k) (label, FrameDeferred) (walked k index frames j)
  = (walked k index frames (S j), Ok tt).
Proof.
  intros Hnd Hlen Hk Hj Hf Hread.
  assert (Hjlt : j < length index) by by eapply lookup_lt_Some.
  set (kn := Z.to_nat k).
  rewrite (loop_body_miss _ _ _ _ _ j label f); try done; cycle 1.
  { cbn [walked l_loaded]. rewrite list_lookup_imap, Hf. simpl.
    unfold resident. by rewrite bool_decide_eq_false_2 by lia. }
  { cbn [walked l_array]. rewrite length_imap. lia. }
  cbn zeta. cbn [is_active walked l_loaded l_last l_array l_count]. fold kn.
  assert (Htake : take (S j) index = take j index ++ [label])
    by by apply take_S_r.
  assert (Hlast : dict_touch (drop (j - kn) (take j index)) label
                  = drop (j - kn) (take (S j) index)).
  { rewrite dict_touch_eq, dict_pop_absent.
    - rewrite Htake, drop_app_le; [done|]. rewrite length_take. lia.
    - intros Hin. apply list_elem_of_lookup in Hin as [i Hi].
      rewrite lookup_drop in Hi. apply lookup_take_Some in Hi as [Hi Hlt].
      assert (j - kn + i = j) by by eapply (NoDup_lookup index _ j). lia. }
  rewrite Hlast.
  destruct (decide (kn <= j)) as [Hfull|Hroom].
  - (* the ceiling is reached: the label walked [k] steps ago leaves *)
    destruct (lookup_lt_is_Some_2 index (j - kn)) as [oldest Hold]; [lia|].
    assert (Hdrop : drop (j - kn) (take (S j) index)
                    = oldest :: drop (S j - kn) (take (S j) index)).
    { replace (S j - kn) with (S (j - kn)) by lia. apply drop_S.
      apply lookup_take_Some. split; [done|lia]. }
    rewrite (evict_oldest_run index k _ oldest (drop (S j - kn) (take (S j) index)) (j - kn)).
    + f_equal. unfold walked. f_equal.
      * apply list_eq. intros p. cbn [l_loaded].
        destruct (decide (p = j - kn)) as [->|Hne1].
        { rewrite list_lookup_insert_eq by (rewrite length_insert, length_imap; lia).
          rewrite list_lookup_imap.
          destruct (lookup_lt_is_Some_2 frames (j - kn)) as [g ->]; [lia|]. simpl.
          unfold resident. by rewrite bool_decide_eq_false_2 by lia. }
        rewrite list_lookup_insert_ne by done.
        destruct (decide (p = j)) as [->|Hne2].
        { rewrite list_lookup_insert_eq by (rewrite length_imap; lia).
          rewrite list_lookup_imap, Hf. simpl.
          unfold resident. by rewrite bool_decide_eq_true_2 by lia. }
        rewrite list_lookup_insert_ne by done.
        rewrite !list_lookup_imap. destruct (frames !! p); [|done]. simpl.
        f_equal. unfold resident. apply bool_decide_ext. lia.
      * cbn [l_last]. rewrite Hdrop. unfold dict_pop.
        rewrite filter_cons_False by (intros ?; done).
        apply (dict_pop_absent _ oldest).
        intros Hin. apply list_elem_of_lookup in Hin as [i Hi].
        rewrite lookup_drop in Hi. apply lookup_take_Some in Hi as [Hi Hlt].
        assert (S j - kn + i = j - kn) by by eapply (NoDup_lookup index _ (j - kn)).
        lia.
      * apply list_eq. intros p. cbn [l_array].
        destruct (decide (p = j - kn)) as [->|Hne1].
        { rewrite list_lookup_insert_eq by (rewrite length_insert, length_imap; lia).
          rewrite list_lookup_imap.
          destruct (lookup_lt_is_Some_2 frames (j - kn)) as [g ->]; [lia|]. simpl.
          unfold resident. by rewrite bool_decide_eq_false_2 by lia. }
        rewrite list_lookup_insert_ne by done.
        destruct (decide (p = j)) as [->|Hne2].
        { rewrite list_lookup_insert_eq by (rewrite length_imap; lia).
          rewrite list_lookup_imap, Hf. simpl.
          unfold resident. by rewrite bool_decide_eq_true_2 by lia. }
        rewrite list_lookup_insert_ne by done.
        rewrite !list_lookup_imap. destruct (frames !! p); [|done]. simpl.
        f_equal. unfold resident.
        rewrite (bool_decide_ext (j - kn <= p < j) (S j - kn <= p < S j)); [done|lia].
      * cbn [l_count]. lia.
    + cbn [l_count]. lia.
    + done.
    + cbn [l_last]. exact Hdrop.
    + by apply position_of_NoDup.
    + cbn [l_loaded]. rewrite length_insert, length_imap. lia.
    + cbn [l_array]. rewrite length_insert, length_imap. lia.
  - (* room is left *)
    rewrite evict_oldest_idle by (cbn [l_count]; lia).
    f_equal. unfold walked. f_equal.
    + apply list_eq. intros p.
      destruct (decide (p = j)) as [->|Hne2].
      { rewrite list_lookup_insert_eq by (rewrite length_imap; lia).
        rewrite list_lookup_imap, Hf. simpl.
        unfold resident. by rewrite bool_decide_eq_true_2 by lia. }
      rewrite list_lookup_insert_ne by done.
      rewrite !list_lookup_imap. destruct (frames !! p); [|done]. simpl.
      f_equal. unfold resident. apply bool_decide_ext. lia.
    + fold kn. by replace (S j - kn) with (j - kn) by lia.
    + apply list_eq. intros p.
      destruct (decide (p = j)) as [->|Hne2].
      { rewrite list_lookup_insert_eq by (rewrite length_imap; lia).
        rewrite list_lookup_imap, Hf. simpl.
        unfold resident. by rewrite bool_decide_eq_true_2 by lia. }
      rewrite list_lookup_insert_ne by done.
      rewrite !list_lookup_imap. destruct (frames !! p); [|done]. simpl.
      f_equal. unfold resident.
      rewrite (bool_decide_ext (j - kn <= p < j) (S j - kn <= p < S j)); [done|lia].
    + lia.
Qed.

Lemma walk_loop index store config k frames m j :
  NoDup index ->
  length frames = length index ->
  (0 <= k)%Z ->
  (forall i l f, index !! i = Some l -> frames !! i = Some f ->
                 store_read store l (StoreConfigMap_getitem config l) = Some f) ->
  j + m = length index ->
  cache_loop index store config (Some k)
    (zip (drop j index) (replicate m FrameDeferred)) (walked k index frames j)
  = (walked k index frames (length index), Ok tt).
Proof.
  intros Hnd Hlen Hk Hread. revert j. induction m as [|m IH]; intros j Hj.
  { replace j with (length index) by lia. by rewrite drop_all. }
  destruct (lookup_lt_is_Some_2 index j) as [label Hl]; [lia|].
  destruct (lookup_lt_is_Some_2 frames j) as [f Hf]; [lia|].
  rewrite (drop_S _ _ _ Hl). cbn [replicate zip zip_with].
  rewrite cache_loop_cons. unfold bind.
  rewrite (walk_step index store config k frames j label f); try done;
    [|by eapply Hread].
  apply IH. lia.
Qed.

Lemma Series_iloc_null s :
  NoDup (s_index s) ->
  length (s_values s) = length (s_index s) ->
  Series_iloc s NULL_SLICE = Ok (zip (s_index s) (s_values s)).
Proof.
  intros Hnd Hlen. unfold Series_iloc. rewrite resolve_null_slice.
  unfold Series_iloc_items, Index_iloc_many.
  rewrite (take_at_all (s_values s)), Hlen, take_at_all.
  by rewrite bool_decide_eq_true_2.
Qed.

Lemma view_ok_nothing_recent v k :
  view_ok v ->
  _max_persist (v_bus v) = Some k ->
  Forall (fun x => x = FrameDeferred) (s_values (_series (v_bus v))) ->
  v_last v = [] /\ v_loaded v = ((fun _ => false) <$> s_values (_series (v_bus v))).
Proof.
  intros [_ _ _ _ [Hf _ _ Hlru]] Hk Hdef. simpl in *.
  assert (Hflags : v_loaded v = ((fun _ => false) <$> s_values (_series (v_bus v)))).
  { rewrite Hf. apply list_fmap_ext. intros i x Hx. rewrite Forall_forall in Hdef.
    by rewrite (Hdef x) by by eapply list_elem_of_lookup_2. }
  split; [|done].
  destruct (Hlru k Hk) as (_ & Hmem & _).
  destruct (v_last v) as [|l d]; [done|].
  destruct (proj1 (Hmem l)) as (i & _ & Hi); [apply list_elem_of_here|].
  rewrite Hflags, list_lookup_fmap in Hi.
  by destruct (s_values (_series (v_bus v)) !! i).
Qed.

(** X22.  A full materialization under a ceiling [k], of a bus that has
    nothing loaded and whose store reads every label: the labels are
    walked in order, each frame read evicting the one read [k] steps
    before, so that [values] hands back the frames of the last [k] labels
    only, [FrameDeferred] in every slot before them, and the recency
    order ends as those last [k] labels. *)
Theorem full_walk_under_ceiling_keeps_last h self v store k frames :
  heap_ok h ->
  view_of h self = Some v ->
  view_ok v ->
  _max_persist (v_bus v) = Some k ->
  _store (v_bus v) = Some store ->
  Forall (fun x => x = FrameDeferred) (s_values (_series (v_bus v))) ->
  length frames = length (s_index (_series (v_bus v))) ->
  (forall i l f,
     s_index (_series (v_bus v)) !! i = Some l -> frames !! i = Some f ->
     store_read store l (StoreConfigMap_getitem (_config (v_bus v)) l) = Some f) ->
  let n := length (s_index (_series (v_bus v))) in
  let kept := imap (fun p f => if resident k n p then VFrame f else FrameDeferred) frames in
  exists h' v',
    Bus.values self h = (h', Ok kept) /\
    view_of h' self = Some v' /\
    s_values (_series (v_bus v')) = kept /\
    v_last v' = drop (n - Z.to_nat k) (s_index (_series (v_bus v))).
Proof.
  intros Hh Hv Hok Hk Hst Hdef Hlenf Hread n kept. subst n kept.
  pose proof Hok as [Hattrs Hnd _ Hall [Hf Hlen _ Hlru]]. simpl in Hf, Hlen, Hlru.
  destruct (Hlru k Hk) as (_ & _ & _ & Hle).
  pose proof (count_true_nonneg (v_loaded v)) as Hnn.
  assert (Hk0 : (0 <= k)%Z) by (simpl in Hle; lia).
  destruct (view_ok_nothing_recent v k Hok Hk Hdef) as [Hlast Hflags].
  set (index := s_index (_series (v_bus v))) in *.
  set (values := s_values (_series (v_bus v))) in *.
  destruct (decide (length index = 0)) as [Hz|Hnz].
  - (* no label at all *)
    assert (Hi : index = []) by by apply nil_length_inv.
    assert (Hvs : values = []) by (apply nil_length_inv; lia).
    assert (Hfs : frames = []) by (apply nil_length_inv; lia).
    assert (Hupd : Bus._update_series_cache_all self h = (h, Ok tt)).
    { unfold Bus._update_series_cache_all.
      rewrite (bind_ok _ _ _ _ _ (get_bus_view _ _ _ Hv)).
      by rewrite Hall, Hflags, Hvs. }
    exists h, v. unfold Bus.values.
    rewrite (bind_ok _ _ _ _ _ Hupd).
    rewrite (bind_ok _ _ _ _ _ (get_bus_view _ _ _ Hv)).
    fold values. rewrite Hvs, Hfs, Hlast, Hi.
    split_and!; [done..|]. by destruct (length (@nil Label) - Z.to_nat k).
  - assert (Hall' : _loaded_all (v_bus v) = false).
    { rewrite Hall, Hflags. destruct values; [simpl in *; lia|done]. }
    assert (Hvs : values = replicate (length index) FrameDeferred).
    { apply list_eq_same_length with (length index); [by rewrite length_replicate|done|].
      intros i x y _ Hx Hy. apply lookup_replicate in Hy as [-> _].
      rewrite Forall_forall in Hdef. apply Hdef. by eapply list_elem_of_lookup_2. }
    assert (Hstart : locals_of v = walked k index frames 0).
    { unfold locals_of, walked. f_equal.
      - rewrite Hflags. apply list_eq. intros p.
        rewrite list_lookup_fmap, list_lookup_imap.
        destruct (values !! p) eqn:Hp, (frames !! p) eqn:Hq; simpl; try done.
        + apply lookup_lt_Some in Hp. apply lookup_ge_None in Hq. lia.
        + apply lookup_lt_Some in Hq. apply lookup_ge_None in Hp. lia.
      - by rewrite Hlast, take_0, drop_nil.
      - fold values. apply list_eq. intros p. rewrite list_lookup_imap.
        destruct (values !! p) eqn:Hp, (frames !! p) eqn:Hq; simpl; try done.
        + rewrite Forall_forall in Hdef. f_equal. apply Hdef.
          by eapply list_elem_of_lookup_2.
        + apply lookup_lt_Some in Hp. apply lookup_ge_None in Hq. lia.
        + apply lookup_lt_Some in Hq. apply lookup_ge_None in Hp. lia.
      - rewrite Hflags, count_true_all_false. lia. }
    assert (Ht : Series_iloc (_series (v_bus v)) NULL_SLICE
                 = Ok (zip (drop 0 index) (replicate (length index) FrameDeferred))).
    { rewrite Series_iloc_null by done. fold index values. by rewrite Hvs. }
    assert (Hload : Bus.load_needed (v_bus v) (v_loaded v) NULL_SLICE = Ok true).
    { apply (load_needed_true _ _ _ (SMany (seq 0 (length (v_loaded v)))) 0); try done.
      - apply resolve_null_slice.
      - simpl. apply elem_of_seq. rewrite Hflags, length_fmap. lia.
      - rewrite Hflags, list_lookup_fmap.
        destruct (lookup_lt_is_Some_2 values 0) as [x ->]; [lia|done]. }
    pose proof (update_view_loop v NULL_SLICE store _ Hload Hst Ht) as Hrun.
    rewrite Hk, Hstart in Hrun. fold index in Hrun.
    rewrite (walk_loop index store (_config (v_bus v)) k frames (length index) 0)
      in Hrun; try done.
    destruct (update_iloc_heap h self v NULL_SLICE Hh Hv)
      as (h' & Hupd & _ & _ & Hv' & _).
    rewrite Hrun in Hupd, Hv'. cbn [fst snd] in Hupd, Hv'.
    eexists h', _. split_and!; [|exact Hv'|done|].
    + assert (Hupd' : Bus._update_series_cache_all self h = (h', Ok tt)).
      { unfold Bus._update_series_cache_all.
        rewrite (bind_ok _ _ _ _ _ (get_bus_view _ _ _ Hv)), Hall'. exact Hupd. }
      unfold Bus.values. rewrite (bind_ok _ _ _ _ _ Hupd').
      by rewrite (bind_ok _ _ _ _ _ (get_bus_view _ _ _ Hv')).
    + simpl. by rewrite firstn_all.
Qed.


Lemma parent_one_world_ok : world_ok parent_one.
Proof.
  by destruct (from_store_world_ok sample_store InitNone (Some 1%Z) [] parent_one 2
                 world_ok_nil eq_refl) as [Hw _].
Qed.

Lemma full_walk_under_ceiling_keeps_last_witness :
  exists h' v',
    Bus.values 2 parent_one
      = (h', Ok [FrameDeferred; FrameDeferred; VFrame frame_c]) /\
    view_of h' 2 = Some v' /\
    s_values (_series (v_bus v')) = [FrameDeferred; FrameDeferred; VFrame frame_c] /\
    v_last v' = [LStr "c"].
Proof.
  destruct parent_one_world_ok as [Hh Hall].
  apply (full_walk_under_ceiling_keeps_last parent_one 2 _ sample_store 1
           [frame_a; frame_b; frame_c] Hh eq_refl (Hall 2 _ eq_refl) eq_refl eq_refl).
  - repeat constructor.
  - reflexivity.
  - intros i l f Hl Hf. simpl in Hl.
    destruct i as [|[|[|i]]]; simpl in Hl, Hf; try done;
      injection Hl as <-; injection Hf as <-; reflexivity.
Defined.

(** ** Statements as the engine reads them *)

Lemma string_app_cons (x : ascii) (a b : string) :
  String x a +:+ b = String x (a +:+ b).
Proof. reflexivity. Qed.

Lemma string_app_assoc (a b c : string) : (a +:+ b) +:+ c = a +:+ (b +:+ c).
Proof. induction a as [|x a IH]; [done|]. by rewrite !string_app_cons, IH. Qed.

Lemma string_app_nil_r (a : string) : a +:+ "" = a.
Proof. induction a as [|x a IH]; [done|]. by rewrite string_app_cons, IH. Qed.

Lemma tokenize_word_chars w acc rest :
  all_chars is_word_char w = true ->
  tokenize (ScanWord acc) (w +:+ rest) = tokenize (ScanWord (acc +:+ w)) rest.
Proof.
  revert acc. induction w as [|c w IH]; intros acc Hw.
  { by rewrite string_app_nil_r. }
  simpl in Hw. apply andb_true_iff in Hw as [Hc Hw].
  rewrite string_app_cons. cbn [tokenize]. rewrite Hc.
  rewrite (IH _ Hw). unfold snoc. by rewrite string_app_assoc.
Qed.

Lemma tokenize_break w rest :
  breaks rest ->
  tokenize (ScanWord w) rest = TWord w :: tokenize ScanNone rest.
Proof.
  destruct rest as [|c rest]; [done|]. intros [Hc Hq]. simpl. rewrite Hc.
  by rewrite bool_decide_eq_false_2.
Qed.

Lemma bare_identifier_chars w :
  bare_identifier w = true ->
  exists c w', w = String c w' /\ is_word_char c = true /\
               all_chars is_word_char w' = true.
Proof.
  destruct w as [|c w]; [done|]. unfold bare_identifier.
  intros [[_ H]%andb_true_iff _]%andb_true_iff. simpl in H.
  apply andb_true_iff in H as [Hc Hw]. eauto.
Qed.

(** A bare identifier, followed by what ends a word, is one token. *)
Lemma tokenize_name w rest :
  bare_identifier w = true ->
  breaks rest ->
  tokenize ScanNone (w +:+ rest) = TWord w :: tokenize ScanNone rest.
Proof.
  intros (c & w' & -> & Hc & Hw)%bare_identifier_chars Hrest.
  rewrite string_app_cons. cbn [tokenize]. rewrite Hc.
  by rewrite tokenize_word_chars, tokenize_break.
Qed.

Lemma tokenize_concat {A} (text : A -> string) (tokens : A -> list Token)
    (items : list A) (tail : string) :
  (forall x rest, x ∈ items -> breaks rest ->
     tokenize ScanNone (text x +:+ rest) = tokens x ++ tokenize ScanNone rest) ->
  breaks tail ->
  tokenize ScanNone (String.concat ", " (text <$> items) +:+ tail)
  = sep_tokens tokens items ++ tokenize ScanNone tail.
Proof.
  intros Hx Htail. induction items as [|x items IH]; [done|].
  destruct items as [|y items].
  { cbn [fmap list_fmap String.concat sep_tokens]. apply Hx; [apply list_elem_of_here|done]. }
  change (String.concat ", " (text <$> x :: y :: items))
    with (text x +:+ ", " +:+ String.concat ", " (text <$> y :: items)).
  rewrite !string_app_assoc.
  rewrite Hx; [|apply list_elem_of_here|by split].
  change (sep_tokens tokens (x :: y :: items))
    with (tokens x ++ TComma :: sep_tokens tokens (y :: items)).
  rewrite <- app_assoc. f_equal.
  change (tokenize ScanNone (", " +:+ String.concat ", " (text <$> y :: items) +:+ tail))
    with (TComma :: tokenize ScanNone (String.concat ", " (text <$> y :: items) +:+ tail)).
  rewrite <- app_comm_cons. f_equal. apply IH. intros z rest Hz. apply Hx. by apply list_elem_of_further.
Qed.

Lemma parse_names_tokens names rest :
  names <> [] ->
  Forall (fun n => bare_identifier n = true) names ->
  parse_names (sep_tokens (fun n => [TWord n]) names ++ TRParen :: rest)
  = Some (names, rest).
Proof.
  intros Hne Hall. induction Hall as [|n names Hn Hall IH]; [done|].
  destruct names as [|m names].
  { simpl. by rewrite Hn. }
  change (sep_tokens (fun n => [TWord n]) (n :: m :: names) ++ TRParen :: rest)
    with (TWord n :: TComma
            :: (sep_tokens (fun n => [TWord n]) (m :: names) ++ TRParen :: rest)).
  cbn [parse_names]. rewrite Hn, IH; done.
Qed.

Lemma parse_marks_tokens {A} (names : list A) rest :
  names <> [] ->
  parse_marks (sep_tokens (fun _ => [TQuestion]) names ++ TRParen :: rest)
  = Some (length names, rest).
Proof.
  intros Hne. induction names as [|n names IH]; [done|].
  destruct names as [|m names]; [done|].
  change (sep_tokens (fun _ => [TQuestion]) (n :: m :: names) ++ TRParen :: rest)
    with (TQuestion :: TComma
            :: (sep_tokens (fun _ : A => [TQuestion]) (m :: names) ++ TRParen :: rest)).
  cbn [parse_marks]. by rewrite IH.
Qed.

Lemma parse_columns_tokens (fields : list (string * string)) pk rest :
  fields <> [] ->
  Forall (fun kv => bare_identifier kv.1 = true /\ bare_identifier kv.2 = true) fields ->
  bare_identifier pk = true ->
  parse_columns (sep_tokens (fun kv : string * string => [TWord kv.1; TWord kv.2]) fields
                   ++ TComma :: TWord "PRIMARY" :: TWord "KEY" :: TLParen :: TWord pk
                   :: TRParen :: TRParen :: rest)
  = Some (fields, [pk], rest).
Proof.
  intros Hne Hall Hpk. induction Hall as [|[k v] fields [Hk Hv] Hall IH]; [done|].
  simpl in Hk, Hv. destruct fields as [|[k' v'] fields].
  { cbn [sep_tokens app fst snd parse_columns]. rewrite Hk, Hv.
    cbn [andb parse_primary_key]. 
    replace (is_keyword "PRIMARY" "PRIMARY" && is_keyword "KEY" "KEY") with true by done.
    cbn [parse_names]. by rewrite Hpk. }
  change (sep_tokens (fun kv : string * string => [TWord kv.1; TWord kv.2])
            ((k, v) :: (k', v') :: fields)
          ++ TComma :: TWord "PRIMARY" :: TWord "KEY" :: TLParen :: TWord pk
             :: TRParen :: TRParen :: rest)
    with (TWord k :: TWord v :: TComma
            :: (sep_tokens (fun kv : string * string => [TWord kv.1; TWord kv.2])
                  ((k', v') :: fields)
                ++ TComma :: TWord "PRIMARY" :: TWord "KEY" :: TLParen :: TWord pk
                   :: TRParen :: TRParen :: rest)).
  cbn [parse_columns]. rewrite Hk, Hv. cbn [andb].
  rewrite IH by done.
  destruct fields as [|[k'' v''] fields]; reflexivity.
Qed.

(** The CREATE TABLE statement of [_frame_to_table], as the engine reads
    it. *)
Lemma parse_create name fields pk :
  bare_identifier name = true ->
  fields <> [] ->
  Forall (fun kv => bare_identifier kv.1 = true /\ bare_identifier kv.2 = true) fields ->
  bare_identifier pk = true ->
  parse (create_text name fields pk) = Some (CreateTable name fields [pk]).
Proof.
  intros Hname Hne Hfields Hpk. unfold parse, create_text.
  change (tokenize ScanNone ("CREATE TABLE " +:+ ?x))
    with (TWord "CREATE" :: TWord "TABLE" :: tokenize ScanNone x).
  rewrite (tokenize_name name) by done.
  change (tokenize ScanNone (" (" +:+ ?x)) with (TLParen :: tokenize ScanNone x).
  rewrite (tokenize_concat (fun kv : string * string => kv.1 +:+ " " +:+ kv.2)
             (fun kv => [TWord kv.1; TWord kv.2])).
  - change (tokenize ScanNone ((", PRIMARY KEY (" +:+ pk +:+ ")") +:+ ")"))
      with (TComma :: TWord "PRIMARY" :: TWord "KEY" :: TLParen
              :: tokenize ScanNone ((pk +:+ ")") +:+ ")")).
    rewrite string_app_assoc, (tokenize_name pk) by done.
    change (tokenize ScanNone (")" +:+ ")")) with [TRParen; TRParen].
    cbn [parse_tokens].
    replace (is_keyword "CREATE" "CREATE" && is_keyword "TABLE" "TABLE") with true by done.
    rewrite Hname. cbn [andb].
    by rewrite parse_columns_tokens.
  - intros [k v] rest Hin Hrest. rewrite Forall_forall in Hfields.
    destruct (Hfields _ Hin) as [Hk Hv]. simpl in *.
    rewrite !string_app_assoc, (tokenize_name k) by done.
    change (tokenize ScanNone (" " +:+ ?x)) with (tokenize ScanNone x).
    by rewrite (tokenize_name v).
  - done.
Qed.

Lemma tokenize_name_end w :
  bare_identifier w = true -> tokenize ScanNone w = [TWord w].
Proof.
  intros Hw. rewrite <- (string_app_nil_r w) at 1. by rewrite tokenize_name.
Qed.

(** The INSERT statement of [_frame_to_table], as the engine reads it. *)
Lemma parse_insert name fields :
  bare_identifier name = true ->
  fields <> [] ->
  Forall (fun n => bare_identifier n = true) fields ->
  parse (insert_text name fields) = Some (InsertInto name fields (length fields)).
Proof.
  intros Hname Hne Hfields. unfold parse, insert_text.
  change (tokenize ScanNone ("INSERT INTO " +:+ ?x))
    with (TWord "INSERT" :: TWord "INTO" :: tokenize ScanNone x).
  rewrite (tokenize_name name) by done.
  change (tokenize ScanNone (" (" +:+ ?x)) with (TLParen :: tokenize ScanNone x).
  rewrite <- (list_fmap_id fields) at 1.
  rewrite (tokenize_concat id (fun n => [TWord n])).
  - change (tokenize ScanNone (") VALUES (" +:+ ?x))
      with (TRParen :: TWord "VALUES" :: TLParen :: tokenize ScanNone x).
    rewrite (tokenize_concat (fun _ : string => "?") (fun _ => [TQuestion])).
    + change (tokenize ScanNone ")") with [TRParen].
      cbn [parse_tokens].
      replace (is_keyword "CREATE" "INSERT") with false by done.
      replace (is_keyword "INSERT" "INSERT" && is_keyword "INTO" "INTO") with true by done.
      rewrite Hname. cbn [andb].
      rewrite parse_names_tokens by done.
      replace (is_keyword "VALUES" "VALUES") with true by done.
      by rewrite parse_marks_tokens.
    + intros x rest _ _. reflexivity.
    + done.
  - intros x rest Hx Hrest. rewrite Forall_forall in Hfields.
    apply tokenize_name; [by apply Hfields|done].
  - done.
Qed.

(** The query of [read], as the engine reads it. *)
Lemma parse_select name :
  bare_identifier name = true ->
  parse ("SELECT * from " +:+ name) = Some (SelectAll name).
Proof.
  intros Hname. unfold parse.
  change (tokenize ScanNone ("SELECT * from " +:+ name))
    with (TWord "SELECT" :: TStar :: TWord "from" :: tokenize ScanNone name).
  rewrite tokenize_name_end by done. cbn [parse_tokens].
  replace (is_keyword "SELECT" "SELECT" && is_keyword "FROM" "from") with true by done.
  by rewrite Hname.
Qed.

(** ** Tables *)

Lemma same_name_refl a : same_name a a.
Proof. done. Qed.

Lemma find_table_app db name t :
  find_table db name = None ->
  same_name (t_name t) name ->
  find_table (db ++ [t]) name = Some t.
Proof.
  unfold find_table. intros Hdb Ht.
  destruct (list_find _ db) as [[? ?]|] eqn:E; [done|].
  rewrite list_find_app_r by done. simpl. by rewrite decide_True.
Qed.

Lemma find_table_None db name :
  find_table db name = None <-> forall t, t ∈ db -> ~ same_name (t_name t) name.
Proof.
  unfold find_table. split.
  - intros H t Ht. destruct (list_find _ db) as [[? ?]|] eqn:E; [done|].
    apply list_find_None in E. rewrite Forall_forall in E. by apply E.
  - intros H. destruct (list_find _ db) as [[i t]|] eqn:E; [|done].
    apply list_find_Some in E as (Hi & Ht & _). exfalso.
    apply (H t); [by eapply list_elem_of_lookup_2|done].
Qed.

Lemma replace_table_app db t t' :
  (forall x, x ∈ db -> t_name x <> t_name t') ->
  t_name t = t_name t' ->
  replace_table t' (db ++ [t]) = db ++ [t'].
Proof.
  intros Hdb Ht. unfold replace_table. rewrite fmap_app. f_equal.
  - rewrite <- (list_fmap_id db) at 2. apply list_fmap_ext.
    intros i x Hx. rewrite bool_decide_eq_false_2; [done|].
    apply Hdb. by eapply list_elem_of_lookup_2.
  - simpl. by rewrite bool_decide_eq_true_2.
Qed.

Lemma field_position_lookup (names : list string) i n :
  NoDup (upper_string <$> names) ->
  names !! i = Some n ->
  field_position names n = Some i.
Proof.
  intros Hnd Hi. unfold field_position.
  destruct (list_find _ names) as [[j m]|] eqn:E.
  - apply list_find_Some in E as (Hj & Hm & _). f_equal.
    apply (NoDup_lookup _ j i (upper_string n) Hnd);
      rewrite list_lookup_fmap; [by rewrite Hj; simpl; rewrite Hm|by rewrite Hi].
  - apply list_find_None in E. rewrite Forall_forall in E.
    exfalso. apply (E n); [by eapply list_elem_of_lookup_2|done].
Qed.

(** A row goes into a table field by field when its fields are named in
    the order of the table and each value is one its field keeps. *)
Lemma store_fields_id (names types : list string) (bound : list SqlValue) :
  NoDup (upper_string <$> names) ->
  length types = length names ->
  length bound = length names ->
  (forall i ty v, types !! i = Some ty -> bound !! i = Some v ->
                  apply_affinity (affinity_of ty) v = Ok v) ->
  store_fields (zip names types) names bound = Ok bound.
Proof.
  intros Hnd Hlt Hlb Haff.
  assert (Hgen : forall k,
            store_fields (zip (drop k names) (drop k types)) names bound
            = Ok (drop k bound)).
  { intros k. remember (length names - k) as m eqn:Hm.
    revert k Hm. induction m as [|m IH]; intros k Hm.
    - rewrite (drop_ge names), (drop_ge bound) by lia. done.
    - assert (Hk : k < length names) by lia.
      destruct (lookup_lt_is_Some_2 names k Hk) as [n Hn].
      destruct (lookup_lt_is_Some_2 types k) as [ty Hty]; [lia|].
      destruct (lookup_lt_is_Some_2 bound k) as [v Hv]; [lia|].
      rewrite (drop_S names n k Hn), (drop_S types ty k Hty), (drop_S bound v k Hv).
      cbn [zip zip_with store_fields].
      rewrite (field_position_lookup names k n Hnd Hn), Hv. cbn [default id].
      rewrite (Haff k ty v Hty Hv). by rewrite (IH (S k)) by lia. }
  apply (Hgen 0).
Qed.

Lemma numbered_snoc acc v :
  numbered (acc ++ [v]) = numbered acc ++ [(Z.of_nat (S (length acc)), v)].
Proof.
  unfold numbered. rewrite imap_app. simpl. by rewrite Nat.add_0_r.
Qed.

Lemma numbered_rowids acc r :
  r ∈ numbered acc -> (0 < r.1 <= Z.of_nat (length acc))%Z.
Proof.
  unfold numbered. intros (i & v & -> & Hi)%elem_of_lookup_imap. simpl.
  apply lookup_lt_Some in Hi. lia.
Qed.

Lemma next_rowid_numbered acc :
  next_rowid (numbered acc) = Z.of_nat (S (length acc)).
Proof.
  unfold next_rowid. destruct acc as [|v acc _] using rev_ind; [done|].
  rewrite numbered_snoc, last_snoc, length_app. simpl. lia.
Qed.

Lemma insert_sorted_last r rows :
  Forall (fun r' => (r'.1 < r.1)%Z) rows ->
  insert_sorted r rows = rows ++ [r].
Proof.
  induction 1 as [|r' rows Hr _ IH]; [done|].
  simpl. rewrite bool_decide_eq_false_2 by lia. by rewrite IH.
Qed.

Lemma add_row_numbered t acc v :
  (Z.of_nat (S (length acc)) < 2 ^ 63)%Z ->
  add_row (with_rows t (numbered acc)) (next_rowid (numbered acc)) v
  = Ok (with_rows t (numbered (acc ++ [v]))).
Proof.
  intros Hlt. unfold add_row. rewrite next_rowid_numbered. cbn [t_rows with_rows].
  rewrite bool_decide_eq_false_2.
  - unfold int64. rewrite bool_decide_eq_true_2 by lia. cbn [negb].
    rewrite insert_sorted_last, numbered_snoc; [done|].
    apply Forall_forall. intros r Hr%numbered_rowids. simpl. lia.
  - intros (r & Hid & Hr%numbered_rowids)%list_elem_of_fmap. lia.
Qed.

(** Rows that the table takes as they are bound, under keys that are
    new, are added to it in order. *)
Lemma insert_rows_appends adapters name fields db t prows srows acc :
  find_table db name = None ->
  same_name (t_name t) name ->
  rowid_alias t = None ->
  Forall2 (fun r v => length r = length fields /\
                      bind_row adapters r = Ok v /\
                      store_fields (t_fields t) fields v = Ok v) prows srows ->
  NoDup (primary_key_of t <$> (acc ++ srows)) ->
  (Z.of_nat (length (acc ++ srows)) < 2 ^ 63)%Z ->
  insert_rows adapters name fields prows (db ++ [with_rows t (numbered acc)])
  = (db ++ [with_rows t (numbered (acc ++ srows))], Ok tt).
Proof.
  intros Hdb Hname Halias Hrows. revert acc.
  induction Hrows as [|r v prows srows (Hlen & Hbind & Hstore) _ IH]; intros acc Hnd Hlt.
  { by rewrite app_nil_r. }
  cbn [insert_rows]. rewrite bool_decide_eq_true_2 by done. cbn [negb].
  rewrite Hbind, (find_table_app db name (with_rows t (numbered acc)) Hdb Hname).
  assert (Hrow : insert_row (with_rows t (numbered acc)) fields v
                 = Ok (with_rows t (numbered (acc ++ [v])))).
  { unfold insert_row. cbn [t_fields with_rows]. rewrite Hstore.
    change (rowid_alias (with_rows t (numbered acc))) with (rowid_alias t).
    rewrite Halias.
    change (primary_key_of (with_rows t (numbered acc))) with (primary_key_of t).
    cbn [t_rows t_primary_key with_rows].
    rewrite (bool_decide_eq_false_2
               (primary_key_of t v ∈ (fun r => primary_key_of t r.2) <$> numbered acc)).
    - rewrite andb_false_r. apply add_row_numbered.
      rewrite length_app in Hlt. simpl in Hlt. lia.
    - intros (r' & Hkey & (i & v' & -> & Hi)%elem_of_lookup_imap)%list_elem_of_fmap.
      simpl in Hkey. rewrite fmap_app, fmap_cons in Hnd.
      apply NoDup_app in Hnd as (_ & Hnd & _).
      apply (Hnd (primary_key_of t v')).
      + apply list_elem_of_fmap. exists v'. split; [done|]. by eapply list_elem_of_lookup_2.
      + rewrite <- Hkey. apply list_elem_of_here. }
  rewrite Hrow.
  rewrite replace_table_app.
  - rewrite (IH (acc ++ [v])); rewrite <- ?app_assoc; done.
  - intros x Hx Heq. rewrite find_table_None in Hdb. apply (Hdb x Hx).
    unfold same_name in *. cbn [t_name with_rows] in Heq. by rewrite Heq.
  - done.
Qed.

(** ** Frames as rows *)

Lemma affinity_type_bare d :
  bare_identifier (StoreSQLite._dtype_to_affinity_type d) = true.
Proof.
  unfold StoreSQLite._dtype_to_affinity_type. by repeat case_bool_decide.
Qed.

Lemma affinity_type_plain d :
  plain_dtype d ->
  StoreSQLite._dtype_to_affinity_type d
  = if bool_decide (d = DTYPE_BOOL) then "BOOLEAN"
    else if bool_decide (kind d = "U"%char) then "TEXT" else "INTEGER".
Proof.
  unfold StoreSQLite._dtype_to_affinity_type.
  intros [->|[->|[->|Hk]]]; try done.
  case_bool_decide; [done|]. rewrite Hk. done.
Qed.

Lemma conforms_bool c :
  Cell_conforms DTYPE_BOOL c = true -> exists b, c = CBool b.
Proof. destruct c; try done. eauto. Qed.

Lemma conforms_int d c :
  kind d = "i"%char -> itemsize d = 8 \/ itemsize d = 4 ->
  Cell_conforms d c = true -> exists n, c = CInt n /\ int64 n = true.
Proof.
  intros Hk Hs. assert (d <> DTYPE_OBJECT) by (intros ->; done).
  destruct c as [b|n|s|s|]; simpl; rewrite ?Hk, ?(bool_decide_eq_false_2 (d = DTYPE_OBJECT)),
    ?(bool_decide_eq_false_2 (d = DTYPE_BOOL)) by (done || by intros ->); try done.
  rewrite bool_decide_eq_true_2 by done.
  rewrite (bool_decide_eq_false_2 ("i"%char = "u"%char)) by done.
  rewrite orb_false_r. cbn [andb orb]. rewrite ?orb_false_r. unfold np_int.
  intros [_ Hr]%andb_true_iff. apply bool_decide_eq_true in Hr.
  exists n. split; [done|].
  unfold int64. apply bool_decide_eq_true.
  destruct Hs as [Hs|Hs]; rewrite Hs in Hr; simpl in Hr; lia.
Qed.

Lemma conforms_str d c :
  kind d = "U"%char -> Cell_conforms d c = true -> exists s, c = CStr s.
Proof.
  intros Hk. assert (d <> DTYPE_OBJECT) by (intros ->; done).
  assert (d <> DTYPE_BOOL) by (intros ->; done).
  destruct c as [b|n|s|s|]; simpl; rewrite ?Hk, ?(bool_decide_eq_false_2 (d = DTYPE_OBJECT)),
    ?(bool_decide_eq_false_2 (d = DTYPE_BOOL)) by done; try done.
  eauto.
Qed.

Lemma conforms_plain d c :
  plain_dtype d -> Cell_conforms d c = true ->
  match c with
  | CBool _ => d = DTYPE_BOOL
  | CInt n => kind d = "i"%char /\ int64 n = true
  | CStr _ => kind d = "U"%char
  | _ => False
  end.
Proof.
  intros [->|[->|[->|Hk]]] Hc.
  - by destruct (conforms_bool c Hc) as [b ->].
  - by destruct (conforms_int np_int64 c eq_refl (or_introl eq_refl) Hc) as (n & -> & ?).
  - by destruct (conforms_int np_int32 c eq_refl (or_intror eq_refl) Hc) as (n & -> & ?).
  - by destruct (conforms_str d c Hk Hc) as [s ->].
Qed.

(** What a field of a plain dtype keeps of a cell of that dtype is the
    cell as it was bound. *)
Lemma affinity_keeps d c :
  plain_dtype d ->
  Cell_conforms d c = true ->
  apply_affinity (affinity_of (StoreSQLite._dtype_to_affinity_type d)) (sql_of c)
  = Ok (sql_of c).
Proof.
  intros Hd Hc. pose proof (conforms_plain d c Hd Hc) as Hkind.
  rewrite (affinity_type_plain d Hd).
  destruct c as [b|n|s|s|]; try done.
  - subst d. done.
  - destruct Hkind as [Hk _].
    rewrite bool_decide_eq_false_2 by (intros ->; done).
    rewrite bool_decide_eq_false_2 by (rewrite Hk; done). done.
  - rewrite bool_decide_eq_false_2 by (intros ->; done).
    rewrite bool_decide_eq_true_2 by done. done.
Qed.

Lemma max_list_two (l : list nat) :
  l <> [] -> Forall (fun x => x = 8 \/ x = 4) l -> max_list l = 8 \/ max_list l = 4.
Proof.
  intros Hne Hall. induction Hall as [|x l Hx Hall IH]; [done|].
  destruct l as [|y l]; simpl in *; [lia|].
  destruct IH as [IH|IH]; [done|..]; lia.
Qed.

Lemma forallb_decide {A} (P : A -> Prop) `{!forall x, Decision (P x)} (l : list A) :
  forallb (fun x => bool_decide (P x)) l = true <-> Forall P l.
Proof.
  induction l as [|x l IH]; simpl; [by split|].
  rewrite andb_true_iff, bool_decide_eq_true, IH, Forall_cons. done.
Qed.

Lemma existsb_decide {A} (P : A -> Prop) `{!forall x, Decision (P x)} (l : list A) :
  existsb (fun x => bool_decide (P x)) l = true <-> Exists P l.
Proof.
  induction l as [|x l IH]; simpl; [by rewrite Exists_nil|].
  rewrite orb_true_iff, bool_decide_eq_true, IH, Exists_cons. done.
Qed.

Lemma row_dtype_plain (dtypes : list DType) :
  Forall plain_dtype dtypes ->
  Exists (fun d => d <> DTYPE_BOOL) dtypes ->
  exists d, row_dtype dtypes = Ok d /\ row_ready dtypes d.
Proof.
  intros Hplain Hex. destruct dtypes as [|d0 rest]; [by apply Exists_nil in Hex|].
  unfold row_dtype.
  destruct (forallb (fun d' => bool_decide (d' = d0)) rest) eqn:Hsame.
  { apply forallb_decide in Hsame.
    assert (Hall : Forall (fun d' => d' = d0) (d0 :: rest)) by by constructor.
    exists d0. split; [done|]. right. split.
    - apply Exists_exists in Hex as (d & Hd & Hnb).
      rewrite Forall_forall in Hall. rewrite (Hall d Hd) in Hnb.
      apply Forall_inv in Hplain. destruct Hplain as [->|[->|[->|Hk]]]; tauto.
    - eapply Forall_impl; [exact Hall|]. by intros d' ->. }
  destruct (forallb (fun d' => bool_decide (kind d' = "U"%char)) (d0 :: rest)) eqn:HU.
  { apply forallb_decide in HU.
    eexists. split; [done|]. right. split; [by right; right|]. exact HU. }
  destruct (forallb (fun d' => bool_decide (kind d' = "i"%char)) (d0 :: rest)) eqn:Hi.
  { apply forallb_decide in Hi. eexists. split; [done|]. right.
    split; [|exact Hi].
    destruct (max_list_two (itemsize <$> d0 :: rest)) as [Hm|Hm]; [done| |..].
    - apply Forall_fmap, Forall_forall. intros d' Hd'. simpl.
      rewrite Forall_forall in Hplain, Hi.
      specialize (Hi d' Hd').
      destruct (Hplain d' Hd') as [->|[->|[->|Hk]]]; try done; [by left|by right|].
      rewrite Hk in Hi. done.
    - left. unfold widest. by rewrite Hm.
    - right. left. unfold widest. by rewrite Hm. }
  destruct (forallb (fun d' => bool_decide (kind d' = "u"%char)) (d0 :: rest)) eqn:Hu.
  { exfalso. apply forallb_decide, Forall_inv in Hu.
    apply Forall_inv in Hplain. destruct Hplain as [->|[->|[->|Hk]]]; try done.
    rewrite Hk in Hu. done. }
  destruct (existsb _ (d0 :: rest)) eqn:Hobj; [exists DTYPE_OBJECT; split; [done|by left]|].
  exfalso.
  assert (forallb (fun d' => bool_decide (kind d' = "i"%char)) (d0 :: rest) = true);
    [|congruence].
  apply forallb_decide, Forall_forall. intros d' Hd'.
  assert (Hnot : ~ kind d' ∈ ["b"; "U"; "O"]%char).
  { intros Hin.
    assert (existsb (fun d' => bool_decide (kind d' ∈ ["b"; "U"; "O"]%char)) (d0 :: rest) = true);
      [|congruence].
    apply existsb_decide, Exists_exists. by exists d'. }
  rewrite Forall_forall in Hplain.
  destruct (Hplain d' Hd') as [->|[->|[->|Hk]]]; try done.
  - exfalso. apply Hnot. simpl. apply list_elem_of_here.
  - exfalso. apply Hnot. rewrite Hk. apply list_elem_of_further, list_elem_of_here.
Qed.

Lemma bind_adapted d n :
  d = np_int64 \/ d = np_int32 ->
  int64 n = true ->
  bind_parameter StoreSQLite.ADAPTERS (NpScalar d (CInt n)) = Ok (SqlInteger n).
Proof.
  intros Hd Hn. unfold bind_parameter.
  assert (Hfind : exists i a, list_find (fun a : DType * (Cell -> option PyValue) => a.1 = d)
                     StoreSQLite.ADAPTERS = Some (i, (a, StoreSQLite.to_int))).
  { destruct Hd as [->| ->]; by vm_compute; eauto. }
  destruct Hfind as (i & a & ->). cbn -[int64]. by rewrite Hn.
Qed.

Lemma bind_text d s :
  kind d = "U"%char ->
  bind_parameter StoreSQLite.ADAPTERS (NpScalar d (CStr s)) = Ok (SqlText s).
Proof.
  intros Hk. unfold bind_parameter.
  assert (Hnone : list_find (fun a : DType * (Cell -> option PyValue) => a.1 = d)
                    StoreSQLite.ADAPTERS = None).
  { apply list_find_None. repeat constructor; simpl; intros <-; done. }
  rewrite Hnone. by rewrite bool_decide_eq_true_2.
Qed.

(** A cell of a plain column, taken from a row, is bound as the engine
    stores it. *)
Lemma bind_array_item dtypes d dc c :
  row_ready dtypes d ->
  dc ∈ dtypes ->
  plain_dtype dc ->
  Cell_conforms dc c = true ->
  bind_parameter StoreSQLite.ADAPTERS (array_item d c) = Ok (sql_of c).
Proof.
  intros Hready Hin Hplain Hc.
  pose proof (conforms_plain dc c Hplain Hc) as Hkind.
  destruct Hready as [->|[Hd Hkinds]].
  - unfold array_item. rewrite bool_decide_eq_true_2 by done.
    destruct c as [b|n|s|s|]; try done.
    destruct Hkind as [_ Hn]. unfold bind_parameter. cbn [native]. by rewrite Hn.
  - rewrite Forall_forall in Hkinds. specialize (Hkinds dc Hin).
    unfold array_item. rewrite bool_decide_eq_false_2.
    2:{ intros ->. destruct Hd as [?|[?|?]]; done. }
    destruct c as [b|n|s|s|]; try done.
    + subst dc. destruct Hd as [->|[->|Hk]]; try done. rewrite Hk in Hkinds. done.
    + destruct Hkind as [Hki Hn]. rewrite Hki in Hkinds.
      destruct Hd as [Hd|[Hd|Hk]]; [apply bind_adapted; auto..|].
      rewrite Hk in Hkinds. done.
    + rewrite Hkind in Hkinds. apply bind_text.
      destruct Hd as [->|[->|Hk]]; done.
Qed.

Lemma bind_index_item d c :
  kind d = "U"%char ->
  Cell_conforms d c = true ->
  bind_parameter StoreSQLite.ADAPTERS (array_item d c) = Ok (sql_of c).
Proof.
  intros Hk Hc. destruct (conforms_str d c Hk Hc) as [s ->].
  unfold array_item. rewrite bool_decide_eq_false_2 by (intros ->; done).
  by apply bind_text.
Qed.

Lemma Forall2_imap {A B C} (R : B -> C -> Prop) (g : nat -> A -> B) (h : nat -> A -> C)
    (l : list A) :
  (forall i x, l !! i = Some x -> R (g i x) (h i x)) ->
  Forall2 R (imap g l) (imap h l).
Proof.
  revert g h. induction l as [|x l IH]; intros g h H; [constructor|].
  simpl. constructor; [by apply (H 0)|].
  apply IH. intros i y Hy. by apply (H (S i)).
Qed.

Lemma field_names_length f : length (field_names f) = S (length (f_columns f)).
Proof. unfold field_names. simpl. by rewrite length_fmap. Qed.

Lemma affinities_length f : length (affinities f) = S (length (f_columns f)).
Proof. unfold affinities. simpl. by rewrite !length_fmap. Qed.

Lemma fields_names f : (zip (field_names f) (affinities f)).*1 = field_names f.
Proof. apply fst_zip. rewrite field_names_length, affinities_length. lia. Qed.

Lemma fields_types f : (zip (field_names f) (affinities f)).*2 = affinities f.
Proof. apply snd_zip. rewrite field_names_length, affinities_length. lia. Qed.

Section frame_rows.
Context (f : Frame) (Hf : sqlite_frame f).

Lemma column_cell i label c :
  f_index f !! i = Some label -> c ∈ f_columns f ->
  exists x, c_values c !! i = Some x /\ Cell_conforms (c_dtype c) x = true.
Proof.
  intros Hi Hc. pose proof (sf_columns f Hf) as Hcols.
  rewrite Forall_forall in Hcols. destruct (Hcols c Hc) as (_ & Hlen & Hcells).
  destruct (lookup_lt_is_Some_2 (c_values c) i) as [x Hx].
  { rewrite Hlen. by eapply lookup_lt_Some. }
  exists x. split; [done|]. rewrite Forall_forall in Hcells.
  apply Hcells. by eapply list_elem_of_lookup_2.
Qed.

Lemma row_length {A} (g : Cell -> A) i label :
  f_index f !! i = Some label ->
  length (omap (fun c => g <$> c_values c !! i) (f_columns f)) = length (f_columns f).
Proof.
  intros Hi.
  assert (H : forall cols : list Column, (forall c, c ∈ cols -> c ∈ f_columns f) ->
            length (omap (fun c => g <$> c_values c !! i) cols) = length cols).
  { induction cols as [|c cols IH]; intros Hsub; [done|].
    destruct (column_cell i label c Hi) as (x & Hx & _); [apply Hsub; left|].
    simpl. rewrite Hx. simpl. f_equal. apply IH. intros c' Hc'. apply Hsub. by right. }
  by apply H.
Qed.

Lemma row_value i label j v :
  f_index f !! i = Some label ->
  omap (fun c => sql_of <$> c_values c !! i) (f_columns f) !! j = Some v ->
  exists c x, f_columns f !! j = Some c /\ c_values c !! i = Some x /\ v = sql_of x /\
              Cell_conforms (c_dtype c) x = true.
Proof.
  intros Hi.
  assert (H : forall (cols : list Column) (j : nat),
            (forall c, c ∈ cols -> c ∈ f_columns f) ->
            omap (fun c => sql_of <$> c_values c !! i) cols !! j = Some v ->
            exists c x, cols !! j = Some c /\ c_values c !! i = Some x /\ v = sql_of x /\
                        Cell_conforms (c_dtype c) x = true).
  { induction cols as [|c cols IH]; intros k Hsub Hk; [done|].
    destruct (column_cell i label c Hi) as (x & Hx & Hcx); [apply Hsub; left|].
    simpl in Hk. rewrite Hx in Hk. simpl in Hk. destruct k as [|k].
    - injection Hk as <-. by exists c, x.
    - apply IH; [|done]. intros c' Hc'. apply Hsub. by right. }
  by apply H.
Qed.

(** The rows [_get_row_iterator] hands to the engine. *)
Lemma get_row_iterator_run :
  exists d, row_ready (c_dtype <$> f_columns f) d /\
    _get_row_iterator f true
    = Ok (imap (fun i label =>
                  array_item (f_index_dtype f) label
                  :: omap (fun c => array_item d <$> c_values c !! i) (f_columns f))
               (f_index f)).
Proof.
  destruct (row_dtype_plain (c_dtype <$> f_columns f)) as (d & Hd & Hready).
  { apply Forall_fmap. eapply Forall_impl; [apply (sf_columns f Hf)|]. by intros c (? & _). }
  { apply Exists_fmap. apply (sf_mixed f Hf). }
  exists d. split; [done|]. unfold _get_row_iterator.
  assert (Hcheck : forallb (Cell_conforms (f_index_dtype f)) (f_index f)
           && forallb (fun c => bool_decide (length (c_values c) = length (f_index f))
                                && forallb (Cell_conforms (c_dtype c)) (c_values c))
                (f_columns f) = true).
  { apply andb_true_iff. split.
    - apply forallb_forall. intros c Hc%list_elem_of_In.
      pose proof (sf_index_cells f Hf) as H. rewrite Forall_forall in H. by apply H.
    - apply forallb_forall. intros c Hc%list_elem_of_In.
      pose proof (sf_columns f Hf) as H. rewrite Forall_forall in H.
      destruct (H c Hc) as (_ & Hlen & Hcells).
      apply andb_true_iff. split; [by apply bool_decide_eq_true|].
      apply forallb_forall. intros x Hx%list_elem_of_In.
      rewrite Forall_forall in Hcells. by apply Hcells. }
  rewrite Hcheck. cbn [negb]. rewrite Hd. done.
Qed.

Lemma bind_cells d i label :
  row_ready (c_dtype <$> f_columns f) d ->
  f_index f !! i = Some label ->
  bind_row StoreSQLite.ADAPTERS
    (omap (fun c => array_item d <$> c_values c !! i) (f_columns f))
  = Ok (omap (fun c => sql_of <$> c_values c !! i) (f_columns f)).
Proof.
  intros Hready Hi.
  assert (H : forall cols : list Column, (forall c, c ∈ cols -> c ∈ f_columns f) ->
            bind_row StoreSQLite.ADAPTERS
              (omap (fun c => array_item d <$> c_values c !! i) cols)
            = Ok (omap (fun c => sql_of <$> c_values c !! i) cols)).
  { induction cols as [|c cols IH]; intros Hsub; [done|].
    assert (Hc : c ∈ f_columns f) by (apply Hsub; left).
    destruct (column_cell i label c Hi Hc) as (x & Hx & Hcx).
    cbn [omap list_omap]. rewrite Hx. cbn [fmap option_fmap option_map bind_row].
    rewrite (bind_array_item (c_dtype <$> f_columns f) d (c_dtype c) x); [| |by apply list_elem_of_fmap_2| |]; try done.
    - rewrite IH; [done|]. intros c' Hc'. apply Hsub. by right.
    - pose proof (sf_columns f Hf) as H. rewrite Forall_forall in H. by apply H. }
  by apply H.
Qed.

(** Each row goes into the table of the frame as [row_values] has it. *)
Lemma rows_bound d :
  row_ready (c_dtype <$> f_columns f) d ->
  Forall2 (fun r v => length r = length (field_names f) /\
                      bind_row StoreSQLite.ADAPTERS r = Ok v /\
                      store_fields (zip (field_names f) (affinities f)) (field_names f) v
                      = Ok v)
    (imap (fun i label =>
             array_item (f_index_dtype f) label
             :: omap (fun c => array_item d <$> c_values c !! i) (f_columns f))
          (f_index f))
    (row_values f).
Proof.
  intros Hready. unfold row_values. apply Forall2_imap. intros i label Hi.
  assert (Hlabel : Cell_conforms (f_index_dtype f) label = true).
  { pose proof (sf_index_cells f Hf) as H. rewrite Forall_forall in H.
    apply H. by eapply list_elem_of_lookup_2. }
  split_and!.
  - rewrite field_names_length. cbn [length]. by rewrite (row_length _ i label Hi).
  - cbn [bind_row].
    rewrite (bind_index_item _ _ (sf_index_dtype f Hf) Hlabel).
    by rewrite (bind_cells d i label Hready Hi).
  - apply store_fields_id.
    + apply (sf_distinct f Hf).
    + by rewrite field_names_length, affinities_length.
    + rewrite field_names_length. cbn [length]. by rewrite (row_length _ i label Hi).
    + intros j ty v Hty Hv. unfold affinities in Hty. destruct j as [|j].
      * simpl in Hty, Hv. injection Hty as <-. injection Hv as <-.
        apply affinity_keeps; [|done]. right. right. right. apply (sf_index_dtype f Hf).
      * simpl in Hty, Hv.
        apply (row_value i label j v Hi) in Hv as (c & x & Hc & Hx & -> & Hcx).
        rewrite list_lookup_fmap, list_lookup_fmap, Hc in Hty. injection Hty as <-.
        apply affinity_keeps; [|done].
        pose proof (sf_columns f Hf) as H. rewrite Forall_forall in H.
        apply H. by eapply list_elem_of_lookup_2.
Qed.

End frame_rows.

(** ** Writing one frame *)

Lemma frame_to_table_texts f label :
  StoreSQLite._frame_to_table f label true true
  = (execute [] (create_text (table_name label) (zip (field_names f) (affinities f))
                   (default "__index0__" (f_index_name f))) ;;;
     values <- lift (_get_row_iterator f true) ;;
     executemany StoreSQLite.ADAPTERS (insert_text (table_name label) (field_names f))
       values).
Proof. reflexivity. Qed.

Lemma field_position_Some (names : list string) n :
  n ∈ names -> is_Some (field_position names n).
Proof.
  intros Hn. unfold field_position.
  destruct (list_find _ names) as [[j m]|] eqn:E; [done|].
  apply list_find_None in E. rewrite Forall_forall in E. by destruct (E n Hn).
Qed.

Lemma fields_bare f :
  sqlite_frame f ->
  Forall (fun kv : string * string =>
            bare_identifier kv.1 = true /\ bare_identifier kv.2 = true)
    (zip (field_names f) (affinities f)).
Proof.
  intros Hf. apply Forall_forall. intros [n ty] Hin. simpl.
  pose proof (sf_names f Hf) as Hnames. rewrite Forall_forall in Hnames.
  split.
  - apply Hnames. apply (elem_of_zip_l _ _ _ _ Hin).
  - apply elem_of_zip_r in Hin. unfold affinities in Hin.
    apply list_elem_of_fmap in Hin as (d & -> & _). apply affinity_type_bare.
Qed.

Lemma create_table_run f name db :
  sqlite_frame f ->
  reserved_name name = false ->
  find_table db name = None ->
  create_table name (zip (field_names f) (affinities f))
    [default "__index0__" (f_index_name f)] db
  = (db ++ [table_of name f []], Ok tt).
Proof.
  intros Hf Hres Hdb. unfold create_table. rewrite Hres, Hdb, fields_names.
  rewrite (bool_decide_eq_false_2 (is_Some None)) by (by intros [? ?]).
  rewrite bool_decide_eq_false_2.
  2:{ rewrite length_zip, field_names_length, affinities_length.
      pose proof (sf_width f Hf) as H. rewrite field_names_length in H.
      unfold MAX_COLUMN, MAX_VARIABLE_NUMBER in *. lia. }
  rewrite (bool_decide_eq_true_2 _ (sf_distinct f Hf)).
  cbn [forallb negb orb andb].
  rewrite bool_decide_eq_true_2; [done|].
  apply field_position_Some. left.
Qed.

Lemma rowid_alias_frame f name rows :
  sqlite_frame f -> rowid_alias (table_of name f rows) = None.
Proof.
  intros Hf. unfold rowid_alias. cbn [t_primary_key t_fields table_of].
  rewrite fields_names.
  change (take 1 (field_names f)) with [default "__index0__" (f_index_name f)].
  cbv beta iota.
  rewrite (field_position_lookup (field_names f) 0 _ (sf_distinct f Hf) eq_refl).
  unfold affinities. cbn [fmap list_fmap zip zip_with field_names lookup list_lookup].
  pose proof (sf_index_dtype f Hf) as Hk.
  rewrite affinity_type_plain by (by right; right; right).
  rewrite (bool_decide_eq_false_2 (f_index_dtype f = DTYPE_BOOL))
    by (intros H; by rewrite H in Hk).
  by rewrite (bool_decide_eq_true_2 (kind (f_index_dtype f) = "U"%char) Hk).
Qed.

Lemma sql_of_inj_str d x y :
  kind d = "U"%char ->
  Cell_conforms d x = true -> Cell_conforms d y = true ->
  sql_of x = sql_of y -> x = y.
Proof.
  intros Hk [s ->]%(conforms_str d x Hk) [s' ->]%(conforms_str d y Hk). simpl. congruence.
Qed.

Lemma primary_keys_frame f name rows :
  sqlite_frame f ->
  NoDup (primary_key_of (table_of name f rows) <$> row_values f).
Proof.
  intros Hf.
  assert (Hkey : forall v, primary_key_of (table_of name f rows) v
                           = match v !! 0 with Some x => [x] | None => [] end).
  { intros v. unfold primary_key_of. cbn [t_primary_key t_fields table_of].
    rewrite fields_names.
    change (take 1 (field_names f)) with [default "__index0__" (f_index_name f)].
    cbn [omap list_omap].
    by rewrite (field_position_lookup (field_names f) 0 _ (sf_distinct f Hf) eq_refl). }
  apply NoDup_alt. intros i j k Hi Hj.
  rewrite list_lookup_fmap in Hi, Hj. unfold row_values in Hi, Hj.
  rewrite list_lookup_imap in Hi, Hj.
  destruct (f_index f !! i) as [x|] eqn:Hx; [|done].
  destruct (f_index f !! j) as [y|] eqn:Hy; [|done].
  simpl in Hi, Hj. rewrite Hkey in Hi, Hj. simpl in Hi, Hj.
  assert (Heq : sql_of x = sql_of y) by congruence.
  pose proof (sf_index_cells f Hf) as Hcells. rewrite Forall_forall in Hcells.
  apply (sql_of_inj_str _ _ _ (sf_index_dtype f Hf)) in Heq;
    [|apply Hcells; by eapply list_elem_of_lookup_2..].
  subst y. apply (NoDup_lookup _ i j x (sf_index f Hf) Hx Hy).
Qed.

(** One frame written on a connection: its table is created and filled,
    and a transaction is open from the moment the table was there, unless
    one was open before. *)
Lemma frame_to_table_run f label c :
  sqlite_frame f ->
  bare_identifier (table_name label) = true ->
  reserved_name (table_name label) = false ->
  find_table (c_db c) (table_name label) = None ->
  StoreSQLite._frame_to_table f label true true c
  = ({| c_db := c_db c ++ [table_of (table_name label) f (table_rows f)];
        c_begun := Some (default (c_db c ++ [table_of (table_name label) f []])
                           (c_begun c)) |}, Ok tt).
Proof.
  intros Hf Hbare Hres Hdb. rewrite frame_to_table_texts.
  set (name := table_name label) in *.
  pose proof (sf_names f Hf) as Hnames.
  assert (Hidx : bare_identifier (default "__index0__" (f_index_name f)) = true).
  { by apply Forall_inv in Hnames. }
  unfold bind at 1. unfold execute at 1.
  rewrite parse_create; [|done| |by apply fields_bare|done].
  2:{ by destruct (f_columns f). }
  rewrite (create_table_run f name (c_db c) Hf Hres Hdb).
  destruct (get_row_iterator_run f Hf) as (d & Hready & Hrows).
  unfold bind, lift. rewrite Hrows. unfold executemany.
  rewrite parse_insert; [|done|done|done].
  rewrite Hres. cbn [c_db c_begun].
  rewrite (find_table_app (c_db c) name (table_of name f []) Hdb (same_name_refl _)).
  cbn [t_fields table_of]. rewrite fields_names.
  assert (Hpos : forall n, n ∈ field_names f ->
                   bool_decide (is_Some (field_position (field_names f) n)) = true).
  { intros n Hn. apply bool_decide_eq_true. by apply field_position_Some. }
  rewrite (proj2 (forallb_forall _ _)).
  2:{ intros n Hn%list_elem_of_In. by apply Hpos. }
  replace (existsb _ (field_names f)) with false.
  2:{ symmetry. apply not_true_is_false. intros (n & Hn%list_elem_of_In & H)%existsb_exists.
      rewrite (Hpos n Hn) in H. by rewrite andb_false_r in H. }
  rewrite (bool_decide_eq_true_2 _ (sf_distinct f Hf)).
  rewrite (bool_decide_eq_false_2 (MAX_VARIABLE_NUMBER < _)) by (pose proof (sf_width f Hf); lia).
  rewrite (bool_decide_eq_true_2 (length (field_names f) = length (field_names f))) by done.
  cbn [negb orb].
  rewrite (insert_rows_appends StoreSQLite.ADAPTERS name (field_names f) (c_db c)
             (table_of name f []) _ (row_values f) []).
  - destruct (c_begun c); done.
  - done.
  - done.
  - by apply rowid_alias_frame.
  - cbn [t_fields table_of]. by apply rows_bound.
  - apply (primary_keys_frame f name [] Hf).
  - unfold row_values. rewrite app_nil_l, length_imap. apply (sf_height f Hf).
Qed.

(** ** Writing the items *)

Lemma find_table_snoc_None db t name :
  find_table db name = None ->
  ~ same_name (t_name t) name ->
  find_table (db ++ [t]) name = None.
Proof.
  rewrite !find_table_None. intros Hdb Ht x [Hx|Hx%list_elem_of_singleton]%elem_of_app.
  - by apply Hdb.
  - by subst x.
Qed.

Lemma write_items_run items c :
  Forall sqlite_item items ->
  NoDup (upper_string <$> (table_name <$> items.*1)) ->
  Forall (fun item => find_table (c_db c) (table_name item.1) = None) items ->
  StoreSQLite.write_items items true true c
  = ({| c_db := c_db c ++ tables_of items;
        c_begun := match items with
                   | [] => c_begun c
                   | item :: _ =>
                       Some (default (c_db c ++ [table_of (table_name item.1) item.2 []])
                               (c_begun c))
                   end |}, Ok tt).
Proof.
  intros Hitems. revert c.
  induction Hitems as [|[label f] items (Hbare & Hres & Hf) _ IH]; intros c Hnd Hnew.
  { simpl. unfold ret. rewrite app_nil_r. by destruct c. }
  cbn [StoreSQLite.write_items]. unfold bind at 1.
  apply Forall_cons in Hnew as [Hlabel Hnew].
  simpl in Hbare, Hres, Hf, Hlabel.
  rewrite (frame_to_table_run f label c Hf Hbare Hres Hlabel).
  rewrite fmap_cons, fmap_cons, fmap_cons in Hnd. apply NoDup_cons in Hnd as [Hnotin Hnd].
  rewrite IH; [| done |].
  - cbn [c_db c_begun tables_of fmap list_fmap fst snd]. rewrite <- app_assoc.
    cbn [app]. by destruct items.
  - cbn [c_db]. apply Forall_forall. intros item Hitem.
    rewrite Forall_forall in Hnew. apply find_table_snoc_None; [by apply Hnew|].
    cbn [t_name table_of]. intros Hsame. apply Hnotin.
    unfold same_name in Hsame. cbn [fst]. rewrite Hsame.
    apply list_elem_of_fmap_2, list_elem_of_fmap_2, list_elem_of_fmap_2. done.
Qed.

Lemma write_run items db :
  Forall sqlite_item items ->
  NoDup (upper_string <$> (table_name <$> items.*1)) ->
  Forall (fun item => find_table db (table_name item.1) = None) items ->
  StoreSQLite.write items true true db = (db ++ tables_of items, Ok tt).
Proof.
  intros Hitems Hnd Hnew. unfold StoreSQLite.write, with_connection, bind.
  by rewrite (write_items_run items (connect db) Hitems Hnd Hnew).
Qed.

Lemma labels_run db :
  StoreSQLite.labels db = (db, Ok (t_name <$> db)).
Proof.
  unfold StoreSQLite.labels, with_connection, bind, execute.
  replace (parse "SELECT name FROM sqlite_master WHERE type='table';")
    with (Some SelectTableNames) by (by vm_compute).
  cbn [description fetched ret c_db connect commit_connection]. unfold ret.
  cbn [c_db commit_connection connect]. do 2 f_equal.
  induction db as [|t db IH]; [done|].
  rewrite !fmap_cons. cbn [omap list_omap lookup list_lookup]. cbv beta iota.
  f_equal. apply IH.
Qed.

(** ** Reading a table back *)

Lemma imap_imap {A B C} (g : nat -> B -> C) (h : nat -> A -> B) (l : list A) :
  imap g (imap h l) = imap (fun i x => g i (h i x)) l.
Proof.
  revert g h. induction l as [|x l IH]; intros g h; [done|].
  simpl. f_equal. apply IH.
Qed.

Lemma omap_imap_total {A B C} (g : B -> option C) (h : nat -> A -> B) (k : nat -> A -> C)
    (l : list A) :
  (forall i x, l !! i = Some x -> g (h i x) = Some (k i x)) ->
  omap g (imap h l) = imap k l.
Proof.
  revert h k. induction l as [|x l IH]; intros h k H; [done|].
  cbn [imap omap list_omap]. rewrite (H 0 x eq_refl). f_equal.
  apply IH. intros i y Hy. by apply (H (S i)).
Qed.

Lemma omap_total {A B} (g : A -> option B) (k : A -> B) (l : list A) :
  (forall x, x ∈ l -> g x = Some (k x)) ->
  omap g l = k <$> l.
Proof.
  induction l as [|x l IH]; intros H; [done|].
  cbn [omap list_omap]. rewrite (H x) by left. rewrite fmap_cons. f_equal.
  apply IH. intros y Hy. apply H. by right.
Qed.

(** A cell of a plain dtype comes back from its field as it was. *)
Lemma fetch_keeps d x :
  plain_dtype d ->
  Cell_conforms d x = true ->
  cell_of (fetch_value StoreSQLite.CONVERTERS (StoreSQLite._dtype_to_affinity_type d)
             (sql_of x)) = x.
Proof.
  intros Hd Hx. pose proof (conforms_plain d x Hd Hx) as Hkind.
  rewrite (affinity_type_plain d Hd).
  destruct x as [b|n|s|s|]; try done.
  - subst d. by destruct b.
  - destruct Hkind as [Hk _].
    rewrite bool_decide_eq_false_2 by (intros ->; done).
    rewrite bool_decide_eq_false_2 by (rewrite Hk; done). done.
  - rewrite bool_decide_eq_false_2 by (intros ->; done).
    rewrite bool_decide_eq_true_2 by done. done.
Qed.

(** The dtype numpy gives the cells of a plain column is declared as the
    dtype of the column is. *)
Lemma infer_dtype_affinity d (xs : list Cell) :
  plain_dtype d ->
  xs <> [] ->
  Forall (fun x => Cell_conforms d x = true) xs ->
  StoreSQLite._dtype_to_affinity_type (infer_dtype xs)
  = StoreSQLite._dtype_to_affinity_type d.
Proof.
  intros Hd Hne Hxs.
  assert (Hkinds : Forall (fun x => match x with
                                    | CBool _ => d = DTYPE_BOOL
                                    | CInt n => kind d = "i"%char /\ int64 n = true
                                    | CStr _ => kind d = "U"%char
                                    | _ => False
                                    end) xs).
  { eapply Forall_impl; [exact Hxs|]. intros x. by apply conforms_plain. }
  rewrite (affinity_type_plain d Hd).
  destruct xs as [|x xs]; [done|]. unfold infer_dtype.
  apply Forall_cons in Hkinds as [Hx Hrest].
  destruct x as [b|n|s|s|]; try done.
  - subst d. rewrite (proj2 (forallb_forall _ _)); [done|].
    intros y [<-|Hy%list_elem_of_In]; [done|].
    rewrite Forall_forall in Hrest. specialize (Hrest y Hy).
    destruct y; try done. by destruct Hrest.
  - destruct Hx as [Hk _]. cbn [forallb andb].
    rewrite (proj2 (forallb_forall _ _)).
    + rewrite bool_decide_eq_false_2 by (intros ->; done).
      rewrite bool_decide_eq_false_2 by (rewrite Hk; done). done.
    + intros y Hy%list_elem_of_In.
      rewrite Forall_forall in Hrest. specialize (Hrest y Hy).
      destruct y; try done.
      * subst d. done.
      * rewrite Hk in Hrest. done.
  - cbn [forallb andb].
    rewrite (proj2 (forallb_forall _ _)).
    + rewrite bool_decide_eq_false_2 by (intros ->; done).
      rewrite bool_decide_eq_true_2 by done. done.
    + intros y Hy%list_elem_of_In.
      rewrite Forall_forall in Hrest. specialize (Hrest y Hy).
      destruct y; try done.
      * subst d. done.
      * destruct Hrest as [Hk _]. rewrite Hk in Hx. done.
Qed.

Section frame_read.
Context (f : Frame) (Hf : sqlite_frame f).

Lemma columns_total {A} (g : Cell -> A) i label :
  f_index f !! i = Some label ->
  omap (fun c => g <$> c_values c !! i) (f_columns f)
  = (fun c => g (default CNone (c_values c !! i))) <$> f_columns f.
Proof.
  intros Hi. apply omap_total. intros c Hc.
  destruct (column_cell f Hf i label c Hi Hc) as (x & -> & _). done.
Qed.

(** The rows of the table of the frame, as [SELECT *] returns them under
    the converters of [read]. *)
Lemma fetched_rows :
  (fun row : list PyValue => cell_of <$> row)
    <$> ((fun r : Z * list SqlValue =>
            zip_with (fetch_value StoreSQLite.CONVERTERS) (affinities f) r.2)
           <$> table_rows f)
  = imap (fun i label =>
            label :: ((fun c => default CNone (c_values c !! i)) <$> f_columns f))
         (f_index f).
Proof.
  unfold table_rows, numbered, row_values.
  rewrite imap_imap, !fmap_imap. apply imap_ext. intros i label Hi. simpl.
  pose proof (sf_index_cells f Hf) as Hcells. rewrite Forall_forall in Hcells.
  f_equal.
  - apply fetch_keeps; [right; right; right; apply (sf_index_dtype f Hf)|].
    apply Hcells. by eapply list_elem_of_lookup_2.
  - rewrite (columns_total sql_of i label Hi).
    assert (H : forall cols : list Column, (forall c, c ∈ cols -> c ∈ f_columns f) ->
              cell_of <$> zip_with (fetch_value StoreSQLite.CONVERTERS)
                (StoreSQLite._dtype_to_affinity_type <$> (c_dtype <$> cols))
                ((fun c => sql_of (default CNone (c_values c !! i))) <$> cols)
              = (fun c => default CNone (c_values c !! i)) <$> cols).
    { induction cols as [|c cols IH]; intros Hsub; [done|].
      assert (Hc : c ∈ f_columns f) by (apply Hsub; left).
      destruct (column_cell f Hf i label c Hi Hc) as (x & Hx & Hcx).
      rewrite !fmap_cons. cbn [zip_with]. rewrite fmap_cons. f_equal.
      - rewrite Hx. cbn [default]. apply fetch_keeps; [|done].
        pose proof (sf_columns f Hf) as H. rewrite Forall_forall in H. by apply H.
      - apply IH. intros c' Hc'. apply Hsub. by right. }
    by apply H.
Qed.

Lemma index_of_rows :
  omap (fun row : list Cell => row !! 0)
    (imap (fun i label =>
             label :: ((fun c => default CNone (c_values c !! i)) <$> f_columns f))
          (f_index f))
  = f_index f.
Proof.
  rewrite (omap_imap_total _ _ (fun _ x => x)) by done.
  apply list_eq. intros i. rewrite list_lookup_imap. by destruct (f_index f !! i).
Qed.

Lemma column_of_rows j c :
  f_columns f !! j = Some c ->
  omap (fun row : list Cell => row !! S j)
    (imap (fun i label =>
             label :: ((fun c => default CNone (c_values c !! i)) <$> f_columns f))
          (f_index f))
  = c_values c.
Proof.
  intros Hj.
  rewrite (omap_imap_total _ _ (fun i _ => default CNone (c_values c !! i))).
  2:{ intros i x Hi.
      change ((x :: ?l) !! S j) with (l !! j). by rewrite list_lookup_fmap, Hj. }
  pose proof (sf_columns f Hf) as H. rewrite Forall_forall in H.
  destruct (H c) as (_ & Hlen & _); [by eapply list_elem_of_lookup_2|].
  apply list_eq. intros i. rewrite list_lookup_imap.
  destruct (f_index f !! i) as [x|] eqn:Hi.
  - apply lookup_lt_Some in Hi. rewrite <- Hlen in Hi.
    destruct (lookup_lt_is_Some_2 _ _ Hi) as [y ->]. done.
  - apply lookup_ge_None in Hi. rewrite <- Hlen in Hi.
    apply lookup_ge_None in Hi. by rewrite Hi.
Qed.

(** [Frame.from_sql] on the table of the frame. *)
Lemma read_table name db :
  bare_identifier name = true ->
  reserved_name name = false ->
  find_table db name = Some (table_of name f (table_rows f)) ->
  StoreSQLite.read name db = (db, Ok (read_back name f)).
Proof.
  intros Hbare Hres Hfind.
  unfold StoreSQLite.read, with_connection, Frame_from_sql, bind, execute.
  rewrite parse_select by done. rewrite Hres. cbn [c_db connect]. rewrite Hfind.
  cbn [description fetched t_fields t_rows table_of].
  rewrite fields_names, fields_types, fetched_rows.
  pose proof (sf_mixed f Hf) as Hmixed.
  destruct (f_columns f) as [|c0 cols] eqn:Hcols; [by apply Exists_nil in Hmixed|].
  unfold field_names. rewrite Hcols, fmap_cons. cbv beta iota.
  rewrite <- Hcols.
  rewrite bool_decide_eq_false_2.
  2:{ pose proof (sf_rows f Hf). by destruct (f_index f). }
  rewrite index_of_rows. rewrite (bool_decide_eq_true_2 _ (sf_index f Hf)).
  cbn [negb]. unfold ret. cbn [c_db commit_connection connect].
  do 2 f_equal. unfold read_back. f_equal.
  rewrite <- fmap_cons, <- Hcols.
  rewrite imap_fmap. apply list_eq. intros j.
  rewrite list_lookup_imap, list_lookup_fmap.
  destruct (f_columns f !! j) as [c|] eqn:Hj; [|done].
  simpl. by rewrite (column_of_rows j c Hj).
Qed.

Lemma read_back_affinities name :
  affinities (read_back name f) = affinities f.
Proof.
  unfold affinities, read_back. cbn [f_index_dtype f_columns]. rewrite !fmap_cons. f_equal.
  - apply infer_dtype_affinity.
    + right. right. right. apply (sf_index_dtype f Hf).
    + apply (sf_rows f Hf).
    + apply (sf_index_cells f Hf).
  - rewrite <- !list_fmap_compose. apply list_fmap_ext. intros j c Hj. simpl.
    pose proof (sf_columns f Hf) as H. rewrite Forall_forall in H.
    destruct (H c) as (Hd & Hlen & Hcells); [by eapply list_elem_of_lookup_2|].
    apply infer_dtype_affinity; [done| |done].
    intros Hnil. rewrite Hnil in Hlen. pose proof (sf_rows f Hf).
    by destruct (f_index f).
Qed.

End frame_read.

(** ** Writing, then reading *)

Lemma find_table_is_Some db name :
  is_Some (find_table db name) <-> exists t, t ∈ db /\ same_name (t_name t) name.
Proof.
  split.
  - intros [t Ht]. unfold find_table in Ht.
    destruct (list_find _ db) as [[i t']|] eqn:E; [|done].
    apply list_find_Some in E as (Hi & Hname & _). exists t'.
    split; [by eapply list_elem_of_lookup_2|done].
  - intros (t & Ht & Hname). destruct (find_table db name) eqn:E; [done|].
    rewrite find_table_None in E. by destruct (E t Ht).
Qed.

Lemma find_table_unique db t name :
  t ∈ db -> same_name (t_name t) name ->
  (forall t', t' ∈ db -> same_name (t_name t') name -> t' = t) ->
  find_table db name = Some t.
Proof.
  intros Ht Hname Huniq. unfold find_table.
  destruct (list_find _ db) as [[i t']|] eqn:E.
  - apply list_find_Some in E as (Hi & Hname' & _). f_equal.
    apply Huniq; [by eapply list_elem_of_lookup_2|done].
  - apply list_find_None in E. rewrite Forall_forall in E. by destruct (E t Ht).
Qed.

Lemma find_table_item items db label f :
  NoDup (upper_string <$> (table_name <$> items.*1)) ->
  Forall (fun item => find_table db (table_name item.1) = None) items ->
  (label, f) ∈ items ->
  find_table (db ++ tables_of items) (table_name label)
  = Some (table_of (table_name label) f (table_rows f)).
Proof.
  intros Hnd Hnew Hin. apply find_table_unique.
  - apply elem_of_app. right. unfold tables_of.
    apply list_elem_of_fmap. by exists (label, f).
  - done.
  - intros t' [Ht'|Ht']%elem_of_app Hsame.
    + rewrite Forall_forall in Hnew. specialize (Hnew _ Hin). simpl in Hnew.
      rewrite find_table_None in Hnew. by destruct (Hnew t' Ht').
    + unfold tables_of in Ht'. apply list_elem_of_fmap in Ht' as ([label' f'] & -> & Hin').
      cbn [t_name table_of fst snd] in *.
      apply list_elem_of_lookup in Hin as [i Hi]. apply list_elem_of_lookup in Hin' as [i' Hi'].
      assert (i' = i) as ->.
      { apply (NoDup_lookup _ i' i (upper_string (table_name label)) Hnd);
          rewrite !list_lookup_fmap; [by rewrite Hi'; simpl; rewrite Hsame|by rewrite Hi]. }
      rewrite Hi in Hi'. by injection Hi' as <- <-.
Qed.

Lemma tables_of_names items : t_name <$> tables_of items = table_name <$> items.*1.
Proof.
  unfold tables_of. rewrite <- !list_fmap_compose. by apply list_fmap_ext.
Qed.

(** X23.  Frames with an index of distinct strings, columns of Booleans,
    of integers of 64 or 32 bits and of strings, not all of them Boolean,
    and a row at least, written under names the statements carry bare,
    that differ beyond the case of their letters and are new to the
    database: [write] adds one table per frame, in order, [labels] then
    yields the names in the database, the new ones last, and [read] of a
    label gives back the frame with its index, its column names and its
    cells, under dtypes declared as those of the frame are. *)
Theorem sqlite_write_then_read items db :
  Forall sqlite_item items ->
  NoDup (upper_string <$> (table_name <$> items.*1)) ->
  Forall (fun item => find_table db (table_name item.1) = None) items ->
  let db' := db ++ tables_of items in
  StoreSQLite.write items true true db = (db', Ok tt) /\
  StoreSQLite.labels db' = (db', Ok ((t_name <$> db) ++ (table_name <$> items.*1))) /\
  forall label f, (label, f) ∈ items ->
    StoreSQLite.read (table_name label) db'
      = (db', Ok (read_back (table_name label) f)) /\
    affinities (read_back (table_name label) f) = affinities f /\
    cells (read_back (table_name label) f) = cells f /\
    c_name <$> f_columns (read_back (table_name label) f) = c_name <$> f_columns f.
Proof.
  intros Hitems Hnd Hnew db'. split_and!.
  - by apply write_run.
  - rewrite labels_run. unfold db'. by rewrite fmap_app, tables_of_names.
  - intros label f Hin.
    rewrite Forall_forall in Hitems. destruct (Hitems _ Hin) as (Hbare & Hres & Hf).
    simpl in Hbare, Hres, Hf. split_and!.
    + apply read_table; [done..|]. by apply find_table_item.
    + by apply read_back_affinities.
    + unfold cells, read_back. cbn [f_index f_columns]. f_equal.
      rewrite <- list_fmap_compose. by apply list_fmap_ext.
    + unfold read_back. cbn [f_columns].
      rewrite <- list_fmap_compose. by apply list_fmap_ext.
Qed.

Lemma write_items_app a b c :
  StoreSQLite.write_items (a ++ b) true true c
  = (StoreSQLite.write_items a true true ;;; StoreSQLite.write_items b true true) c.
Proof.
  revert c. induction a as [|[label f] a IH]; intros c; [done|].
  cbn [app StoreSQLite.write_items]. unfold bind in *.
  destruct (StoreSQLite._frame_to_table f label true true c) as [c' [[]|e]]; [|done].
  apply IH.
Qed.

(** X24.  A frame whose table name is taken, by a table of the database
    or by one of the frames written before it, the case of letters
    apart: [write] raises [OperationalError].  The database is then as
    it was, but for the table of the first frame, which stays, with no
    rows: the engine creates it before any transaction is open, and the
    transaction that the first rows open is rolled back. *)
Theorem sqlite_write_refuses_taken_names before label f rest db :
  Forall sqlite_item before ->
  NoDup (upper_string <$> (table_name <$> before.*1)) ->
  Forall (fun item => find_table db (table_name item.1) = None) before ->
  bare_identifier (table_name label) = true ->
  Forall (fun n => bare_identifier n = true) (field_names f) ->
  ((exists t, t ∈ db /\ same_name (t_name t) (table_name label)) \/
   (exists item, item ∈ before /\ same_name (table_name item.1) (table_name label))) ->
  StoreSQLite.write (before ++ (label, f) :: rest) true true db
  = (match before with
     | [] => db
     | first :: _ => db ++ [table_of (table_name first.1) first.2 []]
     end, Raise OperationalError).
Proof.
  intros Hdone Hnd Hnew Hbare Hnames Htaken.
  assert (Hsome : is_Some (find_table (db ++ tables_of before) (table_name label))).
  { apply find_table_is_Some. destruct Htaken as [(t & Ht & Hsame)|(item & Hitem & Hsame)].
    - exists t. split; [|done]. apply elem_of_app. by left.
    - exists (table_of (table_name item.1) item.2 (table_rows item.2)). split; [|done].
      apply elem_of_app. right. unfold tables_of. apply list_elem_of_fmap. by exists item. }
  unfold StoreSQLite.write, with_connection. unfold bind at 1.
  rewrite write_items_app. unfold bind at 1.
  rewrite (write_items_run before (connect db) Hdone Hnd Hnew).
  cbn [StoreSQLite.write_items]. unfold bind at 1.
  rewrite frame_to_table_texts. unfold bind at 1. unfold execute.
  rewrite parse_create; [|done| | |by apply Forall_inv in Hnames].
  2:{ unfold field_names, affinities. done. }
  2:{ apply Forall_forall. intros [n ty] Hin. simpl. split.
      - rewrite Forall_forall in Hnames. apply Hnames. apply (elem_of_zip_l _ _ _ _ Hin).
      - apply elem_of_zip_r in Hin. unfold affinities in Hin.
        apply list_elem_of_fmap in Hin as (d & -> & _). apply affinity_type_bare. }
  unfold create_table. cbn [c_db c_begun connect].
  rewrite (bool_decide_eq_true_2 _ Hsome), orb_true_r. cbn [orb].
  unfold rollback. cbn [c_db c_begun].
  destruct before; [|done]. cbn [tables_of fmap list_fmap default]. by rewrite app_nil_r.
Qed.

Ltac sample_columns :=
  lazymatch goal with
  | |- Forall _ [] => by apply Forall_nil
  | |- Forall _ (_ :: _) =>
      apply Forall_cons; split;
      [ split; [first [ by left | by right; left ]
               | split; [reflexivity|repeat constructor] ]
      | sample_columns ]
  end.

Ltac sample_frame :=
  constructor;
  [ repeat constructor
  | apply (bool_decide_unpack _); vm_compute; exact I
  | vm_compute; lia
  | discriminate
  | vm_compute; reflexivity
  | reflexivity
  | apply (bool_decide_unpack _); vm_compute; exact I
  | repeat constructor
  | lazymatch goal with
    | |- Forall ?P ?l => let l' := eval cbv in l in change (Forall P l')
    end; sample_columns
  | apply Exists_cons_hd; discriminate ].

Lemma frame_a_sqlite : sqlite_frame frame_a.
Proof. sample_frame. Qed.

Lemma frame_b_sqlite : sqlite_frame frame_b.
Proof. sample_frame. Qed.

Lemma frame_c_sqlite : sqlite_frame frame_c.
Proof. sample_frame. Qed.

Lemma sqlite_write_then_read_witness :
  let db' := tables_of [(None, frame_a); (Some "c", frame_c)] in
  StoreSQLite.write [(None, frame_a); (Some "c", frame_c)] true true [] = (db', Ok tt) /\
  StoreSQLite.labels db' = (db', Ok ["None"; "c"]) /\
  StoreSQLite.read "None" db' = (db', Ok (read_back "None" frame_a)) /\
  cells (read_back "None" frame_a) = cells frame_a.
Proof.
  destruct (sqlite_write_then_read [(None, frame_a); (Some "c", frame_c)] [])
    as (Hw & Hl & Hr).
  - apply Forall_cons. split; [split; [reflexivity|split; [reflexivity|apply frame_a_sqlite]]|].
    apply Forall_cons. split; [split; [reflexivity|split; [reflexivity|apply frame_c_sqlite]]|].
    by apply Forall_nil.
  - apply (bool_decide_unpack _). vm_compute. exact I.
  - repeat constructor.
  - destruct (Hr None frame_a) as (Hread & _ & Hcells & _); [apply list_elem_of_here|].
    split; [exact Hw|]. split; [exact Hl|]. split; [exact Hread|exact Hcells].
Defined.

Lemma sqlite_write_refuses_taken_names_witness :
  StoreSQLite.write [(None, frame_a); (Some "none", frame_c); (Some "b", frame_b)]
    true true []
  = ([table_of "None" frame_a []], Raise OperationalError).
Proof.
  apply (sqlite_write_refuses_taken_names [(None, frame_a)] (Some "none") frame_c
           [(Some "b", frame_b)] []).
  - apply Forall_cons. split; [split; [reflexivity|split; [reflexivity|apply frame_a_sqlite]]|].
    by apply Forall_nil.
  - apply (bool_decide_unpack _). vm_compute. exact I.
  - repeat constructor.
  - reflexivity.
  - repeat constructor.
  - right. exists (None, frame_a). split; [apply list_elem_of_here|reflexivity].
Defined.

